(* ===== verification/_CoqProject ===== *)
-Q . S2P
Prelude.v
UserPage.v
AddressTranslation.v
Fifo.v
RdmaAlloc.v
RdmaSim.v
RdmaProtocol.v
RingTypes.v
TestChain.v
Timer.v
SwapFile.v
ServerProcess.v
StorageRdma.v
StorageSpec.v
Machine.v
UtHash.v
UtHashSpec.v
Policy.v
PointerPrefetch.v
PrefetchSpec.v
Migrate.v
DiskLinux.v
Core.v
Threads.v
PageRank.v
Accounting.v
PolicySpec.v
PageHash.v
PolicyLaws.v
CoreSpec.v
SwapSpec.v
ChainSpec.v
LruSpec.v
WindowSpec.v
FaultSpec.v
PageRankSpec.v
MapSpec.v
ThreadsSpec.v
RaceSpec.v
StartSpec.v
Uring.v
UringCore.v
