(* ===== verification/Prelude.v ===== *)
(** * ExtMem with RDMA swap (swap-prefetch): a verification development

    ExtMem is a user-level pager.  A library loaded into a program takes over
    its large anonymous mappings: page faults arrive through userfaultfd, a
    replacement policy decides which pages stay in DRAM, and evicted pages go
    to a storage backend, here a simulated RDMA memory server in a second
    process.  The sources are under [src/src/].

    ** The parts and their files

    - Prelude.v: the error monad [M S A] (state passing with [Done] and
      [Fault]), its total and partial weakest preconditions [wp] and [wlp],
      invariant preservation [keeps], lenses between component states, machine
      integers ([u64], [s32]) and byte memories ([mem], little-endian words).
    - UserPage.v: [struct user_page] and the page-size arithmetic ([core.h]).
    - AddressTranslation.v: the region list of [address_translation.c].
    - Fifo.v: the intrusive doubly linked lists of [fifo.c], on a shared store
      of page descriptors; [rep] relates a store to sequences.
    - RdmaAlloc.v, RdmaSim.v: [rdma_sim.c] and [rdma_sim.h]: the server's
      block allocator; the shared-memory segment with its ring of 128
      requests, the two processes, attaching, submitting, waiting, serving.
      RdmaProtocol.v and RingTypes.v prove its properties.
    - ServerProcess.v: [rdma_process.c], the process around the server.
    - Timer.v: [timer.c].  SwapFile.v: the path of the swap file.
    - StorageRdma.v: [storage_rdma.c] and [storagemanager.c], with the two
      pointer conversions of [pointer_prefetch.c]; StorageSpec.v states and
      proves that it is a map from disk offsets to pages.
    - Uring.v: [storage_iouring.c], the other storage backend, over a class
      [IoUring] of the library's calls.  UringCore.v: what [core.c] does with
      it in the io_uring build: migration, one page or a batch, and the
      sequential prefetch.
    - Machine.v: the state the paging side shares (storage, descriptors and
      lists, page hash, globals), the class [Kernel] of the kernel calls,
      their laws [KernelLaws], a concrete kernel, and [observability.c].
    - UtHash.v, UtHashSpec.v, PageHash.v: the hash table of [uthash.h] and the
      page hash of [core.c] on it, which implement the map of Machine.v.
    - PointerPrefetch.v, PrefetchSpec.v: [pointer_prefetch.c].
    - Migrate.v: moving one page between memory and storage ([core.c]).
    - Policy.v: the class of what the core calls of a policy (the macros of
      [core.h]).  DiskLinux.v: the policy [policies/disklinux.c].
      PageRank.v: the policy [policies/pageRank.c], which shares most of its
      text with the first, and the prefetch worker.
    - Core.v: start-up, fault handlers, [mmap] and [munmap], the prefetch
      window ([core.c]) and the routing of system calls
      ([intercept_layer.c]).
    - Threads.v: the handlers, the prefetch, [mmap] and [munmap] of Core.v cut
      at their locks, as threads that interleave with each other and with the policy's threads.
    - PolicyLaws.v: the laws the core relies on in a policy, as a class, and
      the instance of the LRU policy; PageRankSpec.v has the other instance.
    - Accounting.v, PolicySpec.v, CoreSpec.v, SwapSpec.v, LruSpec.v,
      WindowSpec.v, FaultSpec.v, PageRankSpec.v, MapSpec.v, ThreadsSpec.v,
      RaceSpec.v, StartSpec.v: the properties of the paging side.
    - TestChain.v: the test program [test_pointer_prefetch.c]; ChainSpec.v:
      its chain of pages under the pager.

    A definition has the name of the C function it translates, or, for a part
    of a long function, a name that says what the part does; its comment says
    where it is.  A failed [assert] is [Fault AssertFail], an access outside
    an object [Fault InvalidAccess], a loop that waits for another thread
    [Fault Spinning].  A pointer to a descriptor is a key of the store of
    descriptors, so aliasing is as in the code.

    ** How the parts interact

    A fault enters [uswap_sig_handler], which looks the page up in the hash
    and runs [handle_first_fault] or [handle_missing_fault]; these take a
    frame from the policy ([lrudisk_pagefault]), which may evict a page
    through [lrudisk_migrate_down] and [extmem_migrate_downdisk] to
    [write_page] of the storage manager, hence to [rdma_write_page], which
    submits a request to the ring and waits for the server.  What the server
    does while the client sleeps is the argument [usleep] of the definitions;
    theorems about both processes use [server_turn], one round of the
    server's loop, and the others hold for any [usleep], or any that keeps
    the invariant in question.

    ** What the theorems show

    - Frames and slots (Accounting.v, PolicySpec.v, CoreSpec.v): every
      sequence of faults, mappings, unmappings and rounds of the policy's
      threads keeps each DRAM frame and each disk slot the place of exactly
      one descriptor, for any policy that keeps the laws of PolicyLaws.v, so
      for both; start-up establishes this, so it holds from [extmem_init] on
      (StartSpec.v), and next to a running server [extmem_init] returns.
    - Threads (ThreadsSpec.v, RaceSpec.v): however handlers, prefetches,
      mappings, unmappings and the policy's rounds interleave at the locks, no
      frame or slot is lost or shared; a page can be evicted before the handler
      that brought it in releases it, and the program then stops.  Lemmas tie
      the two models of the core: a handler nobody comes between is the
      function of Core.v, and so are [mmap] and [munmap].
    - Bytes (SwapSpec.v, StorageSpec.v, Uring.v, UringCore.v): a page evicted
      and swapped in has its bytes, in both builds, and in the io_uring build
      by the asynchronous swap-in too; the storage backend refines a finite
      map; a batch of evictions reaches the disk in whatever order its writes
      complete; a page touched first is a zero page.
    - Page hash (UtHashSpec.v, PageHash.v): the chained hash table, with its
      two kinds of linked lists, its Jenkins hash and its expansions, answers
      any sequence of additions, look-ups and removals as a finite map does,
      unless [malloc] fails and the process exits.
    - Lists, allocator, ring, translation (Fifo.v, RdmaProtocol.v,
      RingTypes.v, AddressTranslation.v): pointer structures refine sequences
      and maps, the ring refines a queue and stays well typed, conversions
      invert each other where regions do not overlap.
    - The server's process (ServerProcess.v): from its options to an open
      session; a shutdown request ends it whatever signals arrive, and signals
      alone do not.
    - Replacement (LruSpec.v): the scan of the inactive list is a second-chance
      clock; a page in use is not reclaimed; the active list is aged in order.
      With the PageRank policy (PageRankSpec.v) the pages of a window of
      addresses are not reclaimed, even when nothing else is left and the
      program has to stop; the prefetch worker's inner loop, as the code has
      it, ends within the bound the model gives it.
    - Mappings (MapSpec.v): the flags of a mapping; [munmap] ends, forgets the
      range and nothing else, and gives the frames and slots of its pages back.
    - Prefetching (PrefetchSpec.v, WindowSpec.v): the record list stays well
      formed, and which records a sweep keeps; the sequential prefetch maps
      every page of its window with the bytes of its slot.
    - The test program (TestChain.v, ChainSpec.v): the chain it sets up is the
      chain it walks, but its [main] walks through the wrong words; a chain
      ends at a page that has been evicted and swapped in.
    - Behaviour its documentation does not announce: no client allocation
      succeeds, so no pointer prefetch does; two writes in flight share one
      buffer; an unserved request is reported missing; the vector eviction
      leaves a frame named twice; a fault on an evicted page maps the thread's
      transfer buffer, in the RDMA build (FaultSpec.v); abandoned asynchronous
      reads lend their completions to later ones.

    Each theorem with hypotheses is followed by a witness that applies it to a
    concrete state, computed with the executable definitions.

    ** Bounds and fuel

    Loops with a bound of their own keep it (the 128 slots of [drain], the
    10000 polls of [wait_loop], the [tries] of the list scans, the retries of
    start-up).  The loops over an address range get [page_rounds], one round
    per page and one more; [munmap_forgets] shows it is enough, and
    [prefetch_block_ends] the same for the block of the prefetch worker.  The
    endless loops of the policy's and the server's threads are given as one
    round each, so that a theorem about sequences of rounds covers any schedule
    between rounds.  The chains of the hash table are followed for as many
    steps as there are handles, which [page_hash_refines] shows is enough; no
    block of the heap reaches 64 GiB, so a table has at most [2 ^ 31] buckets.
    A handler left alone is done after 200 segments: a prefetch has at most
    five for each of its 32 pages.  Counters and addresses wrap at 64 bits
    where the code's types do.

    ** Not modelled

    - Preemption everywhere: Threads.v lets threads interleave where
      [core.c] takes or releases [handler_lock] or [allocator_lock] and where
      it waits; an operation of the policy and a round of one of its threads
      run at once, as do the operations on lists, the translator, the
      prefetcher and the queue, which a lock brackets, and unlocked counter
      increments.
    - The threads' outer loops that poll userfaultfd, logging, statistics
      printing, symbol lookup, and the time stamps taken for the logs.
    - Of the builds other than the RDMA one, everything but UringCore.v: the
      SPDK branches only assert, and the rest of [core.c] is common to all
      but for the call of [uswap_init_iouring] at start-up.
    - What [core.c] does not use of [uthash.h]: sorting, selection, ordered
      addition, replacement, Bloom filters, the other hash functions.
    - In the test program, [create_memory_pressure], which nothing calls.
    - The C heap's own addresses: [malloc] returns the next value of a list
      that is part of the state, 0 for a failed call. *)

From Stdlib Require Export ZifyBool.
From coqutil Require Export Byte Word.LittleEndianList.
From stdpp Require Export base option numbers gmap list.

(** ** Machine integers and C constants *)

Local Open Scope Z_scope.

(** [u64 z] is the value of [z] in an unsigned 64-bit C integer. *)
Definition u64 (z : Z) : Z := z mod 2 ^ 64.

(** [in_u64 z] says that [z] is representable without wrapping. *)
Definition in_u64 (z : Z) : Prop := 0 <= z < 2 ^ 64.

(** [s32 z] is the value of [z] converted to a signed 32-bit C integer. *)
Definition s32 (z : Z) : Z := (z + 2 ^ 31) mod 2 ^ 32 - 2 ^ 31.

Definition ENOENT : Z := 2.
Definition ENOMEM : Z := 12.
Definition EFAULT : Z := 14.
Definition EINVAL : Z := 22.
Definition ENOSYS : Z := 38.
Definition EMSGSIZE : Z := 90.
Definition ENOTCONN : Z := 107.
Definition ETIMEDOUT : Z := 110.

Lemma u64_small z : in_u64 z -> u64 z = z.
Proof. apply Z.mod_small. Qed.

Lemma u64_range z : in_u64 (u64 z).
Proof. apply Z.mod_pos_bound; lia. Qed.

Lemma u64_idemp z : u64 (u64 z) = u64 z.
Proof. apply u64_small, u64_range. Qed.

Lemma u64_add_sub_cancel b p : in_u64 p -> u64 (b + u64 (p - b)) = p.
Proof.
  intros Hp. unfold u64. rewrite Zplus_mod_idemp_r.
  replace (b + (p - b)) with p by lia. by apply Z.mod_small.
Qed.

Lemma s32_small z : - 2 ^ 31 <= z < 2 ^ 31 -> s32 z = z.
Proof. intros ?. unfold s32. rewrite Z.mod_small; lia. Qed.

(** ** Outcomes and the state monad of C code

    A C function over a state [S] is a function from the state before the
    call to an outcome.  [Done (a, s)] is a normal return; a [Fault] is a
    run that does not return: a failed [assert], an access outside the
    objects the program owns, a busy-wait that only another thread could
    end, or a call of [exit].  [OutOfFuel] is no behaviour of the program: it marks a loop bound
    of the model that is too small, and every theorem rules it out. *)
Inductive fault : Type :=
  | AssertFail
  | InvalidAccess
  | Spinning
  | Exited
  | OutOfFuel.

#[export] Instance fault_eq_dec : EqDecision fault.
Proof. solve_decision. Defined.

Inductive outcome (A : Type) : Type :=
  | Done (a : A)
  | Fault (f : fault).
Arguments Done {A} a.
Arguments Fault {A} f.

Definition M (S A : Type) : Type := S -> outcome (A * S).

#[export] Instance M_ret {S} : MRet (M S) := fun A a s => Done (a, s).
#[export] Instance M_bind {S} : MBind (M S) := fun A B f m s =>
  match m s with
  | Done (a, s') => f a s'
  | Fault e => Fault e
  end.

Definition get {S} : M S S := fun s => Done (s, s).
Definition gets {S A} (f : S -> A) : M S A := fun s => Done (f s, s).
Definition put {S} (s' : S) : M S unit := fun _ => Done (tt, s').
Definition modify {S} (f : S -> S) : M S unit := fun s => Done (tt, f s).
Definition fail {S A} (e : fault) : M S A := fun _ => Fault e.

(** [c_assert b] is C's [assert(b)]. *)
Definition c_assert {S} (b : bool) : M S unit := if b then mret tt else fail AssertFail.

(** [deref o] follows a pointer; [None] is a null or dangling one. *)
Definition deref {S A} (o : option A) : M S A :=
  match o with Some a => mret a | None => fail InvalidAccess end.

Definition when {S} (b : bool) (m : M S unit) : M S unit := if b then m else mret tt.

(** [busy_wait b] is [while (b);]: nothing else runs, so a true condition
    stays true. *)
Definition busy_wait {S} (b : bool) : M S unit := if b then fail Spinning else mret tt.

(** ** Total-correctness predicate

    [wp m Q s]: from [s], [m] returns normally, and its result and final
    state satisfy [Q].  It is false of every fault. *)
Definition wp {S A} (m : M S A) (Q : A -> S -> Prop) (s : S) : Prop :=
  match m s with Done (a, s') => Q a s' | Fault _ => False end.

#[global] Arguments wp : simpl never.

Section wp_rules.
Context {S : Type}.
Implicit Types s : S.

Lemma wp_ret {A} (a : A) (Q : A -> S -> Prop) s : wp (mret a) Q s <-> Q a s.
Proof. done. Qed.

Lemma wp_bind {A B} (m : M S A) (f : A -> M S B) (Q : B -> S -> Prop) s :
  wp (m ≫= f) Q s <-> wp m (fun a s' => wp (f a) Q s') s.
Proof. unfold wp, mbind, M_bind. by destruct (m s) as [[]|]. Qed.

Lemma wp_mono {A} (m : M S A) (Q Q' : A -> S -> Prop) s :
  wp m Q s -> (forall a s', Q a s' -> Q' a s') -> wp m Q' s.
Proof. unfold wp. destruct (m s) as [[]|]; auto. Qed.

Lemma wp_get (Q : S -> S -> Prop) s : wp get Q s <-> Q s s.
Proof. done. Qed.

Lemma wp_gets {A} (f : S -> A) (Q : A -> S -> Prop) s : wp (gets f) Q s <-> Q (f s) s.
Proof. done. Qed.

Lemma wp_modify (f : S -> S) (Q : unit -> S -> Prop) s : wp (modify f) Q s <-> Q tt (f s).
Proof. done. Qed.

Lemma wp_put s' (Q : unit -> S -> Prop) s : wp (put s') Q s <-> Q tt s'.
Proof. done. Qed.

Lemma wp_assert (b : bool) (Q : unit -> S -> Prop) s :
  b = true -> Q tt s -> wp (c_assert b) Q s.
Proof. by intros ->. Qed.

Lemma wp_deref {A} (o : option A) (a : A) (Q : A -> S -> Prop) s :
  o = Some a -> Q a s -> wp (deref o) Q s.
Proof. by intros ->. Qed.

Lemma wp_busy_wait (b : bool) (Q : unit -> S -> Prop) s :
  b = false -> Q tt s -> wp (busy_wait b) Q s.
Proof. by intros ->. Qed.

Lemma wp_when (b : bool) (m : M S unit) (Q : unit -> S -> Prop) s :
  (b = true -> wp m Q s) -> (b = false -> Q tt s) -> wp (when b m) Q s.
Proof. destruct b; unfold when; intros H1 H2; [by apply H1 | by apply wp_ret, H2]. Qed.

Lemma wp_when_true (b : bool) (m : M S unit) (Q : unit -> S -> Prop) s :
  b = true -> wp m Q s -> wp (when b m) Q s.
Proof. by intros ->. Qed.

Lemma wp_when_false (b : bool) (m : M S unit) (Q : unit -> S -> Prop) s :
  b = false -> Q tt s -> wp (when b m) Q s.
Proof. by intros ->. Qed.

(** A [wp] fact determines the run: the link from the rules to equations. *)
Lemma wp_elim {A} (m : M S A) (Q : A -> S -> Prop) s :
  wp m Q s -> exists a s', m s = Done (a, s') /\ Q a s'.
Proof. unfold wp. destruct (m s) as [[a s']|]; [eauto|done]. Qed.

Lemma wp_run {A} (m : M S A) (Q : A -> S -> Prop) s a s' :
  wp m Q s -> m s = Done (a, s') -> Q a s'.
Proof. unfold wp. intros H E. by rewrite E in H. Qed.
End wp_rules.

Create Rewrite HintDb run.
#[export] Hint Rewrite @wp_ret @wp_bind @wp_get @wp_gets @wp_modify @wp_put : run.

(** One administrative normalisation of a [wp] goal. *)
Ltac wp_norm := autorewrite with run; cbv beta.

(** Use a specification of the next call and continue with its result. *)
Tactic Notation "wp_call" uconstr(H) "as" simple_intropattern(a) simple_intropattern(s)
    simple_intropattern(pat) :=
  eapply wp_mono; [eapply H | intros a s pat].

(** ** Lenses: a component's operations inside a larger state *)
Record lens (S T : Type) : Type := Lens { view : S -> T; over : T -> S -> S }.
Arguments Lens {S T}.
Arguments view {S T}.
Arguments over {S T}.

Definition zoom {S T A} (l : lens S T) (m : M T A) : M S A := fun s =>
  match m (view l s) with
  | Done (a, t) => Done (a, over l t s)
  | Fault e => Fault e
  end.

Lemma wp_zoom {S T A} (l : lens S T) (m : M T A) (Q : A -> S -> Prop) (s : S) :
  wp (zoom l m) Q s <-> wp m (fun a t => Q a (over l t s)) (view l s).
Proof. unfold wp, zoom. by destruct (m (view l s)) as [[]|]. Qed.
#[export] Hint Rewrite @wp_zoom : run.

(** ** Byte memory *)

Definition mem : Type := Z -> byte.

Definition mem_read (m : mem) (a : Z) (n : nat) : list byte :=
  (fun i => m (a + Z.of_nat i)) <$> seq 0 n.

Definition mem_write (m : mem) (a : Z) (bs : list byte) : mem := fun x =>
  if (a <=? x) && (x <? a + Z.of_nat (length bs))
  then nth (Z.to_nat (x - a)) bs Byte.x00
  else m x.

Lemma length_mem_read m a n : length (mem_read m a n) = n.
Proof. unfold mem_read. by rewrite length_fmap, length_seq. Qed.

Lemma mem_read_lookup m a n i : (i < n)%nat -> mem_read m a n !! i = Some (m (a + Z.of_nat i)).
Proof.
  intros Hi. unfold mem_read. rewrite list_lookup_fmap, lookup_seq_lt by done. done.
Qed.

Lemma mem_write_out m a bs x :
  x < a \/ a + Z.of_nat (length bs) <= x -> mem_write m a bs x = m x.
Proof. intros H. unfold mem_write. destruct (_ && _) eqn:E; [lia|done]. Qed.

Lemma mem_read_write_same m a bs : mem_read (mem_write m a bs) a (length bs) = bs.
Proof.
  apply list_eq. intros i. destruct (decide (i < length bs)%nat) as [Hi|Hi].
  - rewrite mem_read_lookup by done. unfold mem_write.
    replace (_ && _) with true by lia.
    replace (Z.to_nat (a + Z.of_nat i - a)) with i by lia.
    rewrite nth_lookup. by destruct (lookup_lt_is_Some_2 bs i Hi) as [b ->].
  - rewrite (proj2 (lookup_ge_None _ _)) by (rewrite length_mem_read; lia).
    symmetry. apply lookup_ge_None. lia.
Qed.

Lemma mem_read_stored (m : mem) a bs n : length bs = n -> mem_read (mem_write m a bs) a n = bs.
Proof. intros <-. apply mem_read_write_same. Qed.

Lemma mem_read_write_disjoint m a bs b n :
  b + Z.of_nat n <= a \/ a + Z.of_nat (length bs) <= b ->
  mem_read (mem_write m a bs) b n = mem_read m b n.
Proof.
  intros H. unfold mem_read. apply list_fmap_ext. intros i x Hx.
  apply lookup_seq in Hx as [-> ?]. apply mem_write_out. simpl. lia.
Qed.

(** ** Buffers *)

(** The buffer with the bytes from [off] on replaced by [bs]. *)
Definition splice (off : nat) (bs buf : list byte) : list byte :=
  take off buf ++ bs ++ drop (off + length bs) buf.

Lemma length_splice off bs buf :
  (off + length bs <= length buf)%nat -> length (splice off bs buf) = length buf.
Proof. intros H. unfold splice. rewrite !length_app, length_take, length_drop. lia. Qed.

Lemma splice_read off bs buf :
  (off + length bs <= length buf)%nat -> take (length bs) (drop off (splice off bs buf)) = bs.
Proof.
  intros H. unfold splice. rewrite drop_app_length' by (rewrite length_take; lia).
  by rewrite take_app_length.
Qed.

Lemma splice_front n bs buf : length bs = n -> (n <= length buf)%nat -> take n (splice 0 bs buf) = bs.
Proof. intros <- H. by apply (splice_read 0). Qed.

(** ** 64-bit words inside a buffer *)

(** The little-endian word at byte offset [off]. *)
Definition load_u64 (bs : list byte) (off : nat) : Z := le_combine (take 8 (drop off bs)).

(** The buffer with the word at [off] replaced by [w]. *)
Definition store_u64 (bs : list byte) (off : nat) (w : Z) : list byte :=
  take off bs ++ le_split 8 w ++ drop (off + 8) bs.

Lemma length_le_split_8 w : length (le_split 8 w) = 8%nat.
Proof. apply length_le_split. Qed.

Lemma length_store_u64 bs off w :
  (off + 8 <= length bs)%nat -> length (store_u64 bs off w) = length bs.
Proof.
  intros H. unfold store_u64. rewrite !length_app, length_take, length_le_split, length_drop. lia.
Qed.

Lemma load_store_u64 bs off w :
  (off + 8 <= length bs)%nat -> in_u64 w -> load_u64 (store_u64 bs off w) off = w.
Proof.
  intros H Hw. unfold load_u64, store_u64.
  rewrite drop_app_length' by (rewrite length_take; lia).
  rewrite (take_app_length' (le_split 8 w)) by (by rewrite length_le_split).
  rewrite le_combine_split. apply Z.mod_small. unfold in_u64 in Hw. lia.
Qed.

Lemma store_load_u64 bs off :
  (off + 8 <= length bs)%nat -> store_u64 bs off (load_u64 bs off) = bs.
Proof.
  intros H. unfold load_u64, store_u64.
  rewrite split_le_combine' by (rewrite length_take, length_drop; lia).
  rewrite <- drop_drop, (take_drop 8), take_drop. done.
Qed.

Lemma load_u64_range bs off : in_u64 (load_u64 bs off).
Proof.
  unfold load_u64, in_u64. pose proof (le_combine_bound (take 8 (drop off bs))) as H.
  rewrite length_take in H.
  assert (2 ^ (8 * Z.of_nat (8 `min` length (drop off bs))) <= 2 ^ 64) by (apply Z.pow_le_mono_r; lia).
  lia.
Qed.

(** ** Buffers inside byte memory *)

Lemma mem_read_app m a n k : mem_read m a (n + k) = mem_read m a n ++ mem_read m (a + Z.of_nat n) k.
Proof.
  unfold mem_read. rewrite seq_app, fmap_app. f_equal. simpl.
  apply list_eq. intros i. rewrite !list_lookup_fmap.
  destruct (decide (i < k)%nat) as [Hi|Hi].
  - rewrite !lookup_seq_lt by done. simpl. do 2 f_equal. lia.
  - rewrite !lookup_seq_ge by lia. done.
Qed.

(** A part of a buffer in memory. *)
Lemma mem_read_part m a n off k :
  (off + k <= n)%nat -> take k (drop off (mem_read m a n)) = mem_read m (a + Z.of_nat off) k.
Proof.
  intros H. replace n with (off + (k + (n - off - k)))%nat by lia.
  rewrite mem_read_app, drop_app_length' by (by rewrite length_mem_read).
  by rewrite mem_read_app, take_app_length' by (by rewrite length_mem_read).
Qed.

(** Writing into a buffer in memory. *)
Lemma mem_read_write_part m a n off bs :
  (off + length bs <= n)%nat ->
  mem_read (mem_write m (a + Z.of_nat off) bs) a n = splice off bs (mem_read m a n).
Proof.
  intros H. unfold splice. replace n with (off + (length bs + (n - off - length bs)))%nat at 1 by lia.
  rewrite !mem_read_app. f_equal; [|f_equal].
  - rewrite mem_read_write_disjoint by lia. symmetry. pose proof (mem_read_part m a n 0 off) as Hp.
    rewrite drop_0 in Hp. rewrite Hp by lia. f_equal. lia.
  - apply mem_read_write_same.
  - rewrite mem_read_write_disjoint by lia.
    replace (a + Z.of_nat off + Z.of_nat (length bs)) with (a + Z.of_nat (off + length bs)) by lia.
    rewrite <- (mem_read_part m a n) by lia.
    apply take_ge. rewrite length_drop, length_mem_read. lia.
Qed.

Lemma store_u64_splice bs off w : store_u64 bs off w = splice off (le_split 8 w) bs.
Proof. unfold store_u64, splice. by rewrite length_le_split_8. Qed.

Lemma load_u64_mem m a n off : (off + 8 <= n)%nat -> load_u64 (mem_read m a n) off = le_combine (mem_read m (a + Z.of_nat off) 8).
Proof. intros H. unfold load_u64. by rewrite mem_read_part. Qed.

Lemma store_u64_mem m a n off w :
  (off + 8 <= n)%nat -> mem_read (mem_write m (a + Z.of_nat off) (le_split 8 w)) a n = store_u64 (mem_read m a n) off w.
Proof. intros H. rewrite store_u64_splice. apply mem_read_write_part. rewrite length_le_split_8. lia. Qed.

(** ** Partial correctness

    [wlp m Q s]: if [m] returns from [s], its result and final state satisfy
    [Q].  It is used for invariants, which say what every returning run
    keeps; what runs return is stated with [wp]. *)
Definition wlp {S A} (m : M S A) (Q : A -> S -> Prop) (s : S) : Prop :=
  match m s with Done (a, s') => Q a s' | Fault _ => True end.

#[global] Arguments wlp : simpl never.

Section wlp_rules.
Context {S : Type}.
Implicit Types s : S.

Lemma wlp_ret {A} (a : A) (Q : A -> S -> Prop) s : wlp (mret a) Q s <-> Q a s.
Proof. done. Qed.

Lemma wlp_bind {A B} (m : M S A) (f : A -> M S B) (Q : B -> S -> Prop) s :
  wlp (m ≫= f) Q s <-> wlp m (fun a s' => wlp (f a) Q s') s.
Proof. unfold wlp, mbind, M_bind. by destruct (m s) as [[]|]. Qed.

Lemma wlp_mono {A} (m : M S A) (Q Q' : A -> S -> Prop) s :
  wlp m Q s -> (forall a s', Q a s' -> Q' a s') -> wlp m Q' s.
Proof. unfold wlp. destruct (m s) as [[]|]; auto. Qed.

Lemma wlp_get (Q : S -> S -> Prop) s : wlp get Q s <-> Q s s.
Proof. done. Qed.

Lemma wlp_gets {A} (f : S -> A) (Q : A -> S -> Prop) s : wlp (gets f) Q s <-> Q (f s) s.
Proof. done. Qed.

Lemma wlp_modify (f : S -> S) (Q : unit -> S -> Prop) s : wlp (modify f) Q s <-> Q tt (f s).
Proof. done. Qed.

Lemma wlp_fail {A} e (Q : A -> S -> Prop) s : wlp (fail e) Q s <-> True.
Proof. done. Qed.

Lemma wlp_assert (b : bool) (Q : unit -> S -> Prop) s : wlp (c_assert b) Q s <-> (b = true -> Q tt s).
Proof. destruct b; unfold c_assert; [rewrite wlp_ret; naive_solver|]. by split. Qed.

Lemma wlp_deref {A} (o : option A) (Q : A -> S -> Prop) s : wlp (deref o) Q s <-> forall a, o = Some a -> Q a s.
Proof. destruct o; unfold wlp; simpl; [|done]. split; [by intros H ? [= <-]|auto]. Qed.

Lemma wlp_when (b : bool) (m : M S unit) (Q : unit -> S -> Prop) s :
  wlp (when b m) Q s <-> (b = true -> wlp m Q s) /\ (b = false -> Q tt s).
Proof. destruct b; unfold when; [naive_solver|]. rewrite wlp_ret. naive_solver. Qed.

Lemma wp_wlp {A} (m : M S A) (Q : A -> S -> Prop) s : wp m Q s -> wlp m Q s.
Proof. unfold wp, wlp. by destruct (m s) as [[]|]. Qed.
End wlp_rules.

Lemma wlp_zoom {S T A} (l : lens S T) (m : M T A) (Q : A -> S -> Prop) (s : S) :
  wlp (zoom l m) Q s <-> wlp m (fun a t => Q a (over l t s)) (view l s).
Proof. unfold wlp, zoom. by destruct (m (view l s)) as [[]|]. Qed.

(** What a component's operation does to the rest of the state: nothing. *)
Lemma wlp_zoom_frame {S T A} (l : lens S T) (m : M T A) (Q : A -> S -> Prop) (s : S) :
  (forall a t, Q a (over l t s)) -> wlp (zoom l m) Q s.
Proof. intros H. unfold wlp, zoom. destruct (m (view l s)) as [[]|]; auto. Qed.

Create Rewrite HintDb prun.
#[export] Hint Rewrite @wlp_ret @wlp_bind @wlp_get @wlp_gets @wlp_modify @wlp_fail @wlp_assert @wlp_deref @wlp_when : prun.

(** One administrative normalisation of a [wlp] goal. *)
Ltac wlp_norm := autorewrite with prun; cbv beta.

(** [keeps I m]: every returning run of [m] preserves [I].  Proved by
    following the syntax of [m]; the database [keeps] holds the operations
    already done. *)
Definition keeps {S A} (I : S -> Prop) (m : M S A) : Prop := forall s, I s -> wlp m (fun _ s' => I s') s.

Section keeps.
Context {S : Type} (I : S -> Prop).

Lemma keeps_ret {A} (a : A) : keeps I (mret a).
Proof. by intros s. Qed.

Lemma keeps_bind {A B} (m : M S A) (f : A -> M S B) : keeps I m -> (forall a, keeps I (f a)) -> keeps I (m ≫= f).
Proof. intros Hm Hf s Hs. rewrite wlp_bind. eapply wlp_mono; [by apply Hm|]. intros a s'. apply Hf. Qed.

(** With what the first part establishes of its result. *)
Lemma keeps_bind_res {A B} (m : M S A) (f : A -> M S B) (P : A -> Prop) :
  (forall s, I s -> wlp m (fun a s' => I s' /\ P a) s) -> (forall a, P a -> keeps I (f a)) -> keeps I (m ≫= f).
Proof. intros Hm Hf s Hs. rewrite wlp_bind. eapply wlp_mono; [by apply Hm|]. intros a s' [Hs' Ha]. by apply Hf. Qed.

Lemma keeps_get : keeps I get.
Proof. by intros s. Qed.

Lemma keeps_gets {A} (f : S -> A) : keeps I (gets f).
Proof. by intros s. Qed.

Lemma keeps_modify (f : S -> S) : (forall s, I s -> I (f s)) -> keeps I (modify f).
Proof. intros Hf s Hs. by apply Hf. Qed.

Lemma keeps_fail {A} e : keeps I (fail (A := A) e).
Proof. by intros s. Qed.

Lemma keeps_assert (b : bool) : keeps I (c_assert b).
Proof. by destruct b; intros s. Qed.

Lemma keeps_busy_wait (b : bool) : keeps I (busy_wait b).
Proof. by destruct b; intros s. Qed.

Lemma keeps_deref {A} (o : option A) : keeps I (deref o).
Proof. by destruct o; intros s. Qed.

Lemma keeps_when (b : bool) (m : M S unit) : keeps I m -> keeps I (when b m).
Proof. by destruct b; [|intros _ s]. Qed.

Lemma keeps_zoom {T A} (l : lens S T) (J : T -> Prop) (m : M T A) :
  keeps J m -> (forall s, I s -> J (view l s)) -> (forall s t, I s -> J t -> I (over l t s)) -> keeps I (zoom l m).
Proof.
  intros Hm Hv Ho s Hs. rewrite wlp_zoom. eapply wlp_mono; [by apply Hm, Hv|]. intros a t Ht. by apply Ho.
Qed.

(** An operation of a component [I] does not depend on. *)
Lemma keeps_zoom_frame {T A} (l : lens S T) (m : M T A) : (forall s t, I s -> I (over l t s)) -> keeps I (zoom l m).
Proof. intros Ho s Hs. apply wlp_zoom_frame. auto. Qed.

(** A kept fact is available at each step of a run. *)
Lemma keeps_wlp {A} (m : M S A) (Q : A -> S -> Prop) s :
  keeps I m -> I s -> (forall a s', I s' -> Q a s') -> wlp m Q s.
Proof. intros Hm Hs HQ. eapply wlp_mono; [by apply Hm|]. auto. Qed.
End keeps.

Lemma wlp_any {S A} (m : M S A) (Q : A -> S -> Prop) s : (forall a s', Q a s') -> wlp m Q s.
Proof. unfold wlp. destruct (m s) as [[]|]; eauto. Qed.

(** Two facts about the same runs. *)
Lemma wlp_and {S A} (m : M S A) (Q1 Q2 : A -> S -> Prop) s :
  wlp m Q1 s -> wlp m Q2 s -> wlp m (fun a s' => Q1 a s' /\ Q2 a s') s.
Proof. unfold wlp. destruct (m s) as [[]|]; auto. Qed.

Create HintDb keeps.
#[export] Hint Resolve keeps_ret keeps_get keeps_gets keeps_fail keeps_assert keeps_busy_wait keeps_deref : keeps.

(** Follow the syntax of an operation. *)
Ltac keeps_step :=
  match goal with
  | |- keeps _ (_ ≫= _) => apply keeps_bind; [|intros ?]
  | |- keeps _ (when _ _) => apply keeps_when
  | |- keeps _ (match ?x with _ => _ end) => destruct x
  | |- keeps _ (let '_ := _ in _) => cbv zeta
  | |- keeps _ _ => solve [eauto 2 with keeps nocore]
  end.
Ltac keeps_tac := intros; cbv beta zeta; repeat keeps_step.
