(* ===== verification/UserPage.v ===== *)
(** Page descriptors and page-size arithmetic of [src/src/core.h]
    ([struct user_page], the page-size macros) and the rounding macro of
    [src/src/core.c].

    A pointer to a [struct user_page] is a [ptr]; the null pointer is [None].
    The hash handle [hh] is not a field: the page hash is a map in Machine.v,
    and the handles are in the state of UtHash.v, which implements it. *)

From S2P Require Import Prelude.

Local Open Scope Z_scope.

Abbreviation ptr := positive (only parsing).
Abbreviation lid := positive (only parsing).

(** ** Page sizes *)

Definition BASEPAGE_SIZE : Z := 4 * 1024.
Definition HUGEPAGE_SIZE : Z := 2 * 1024 * 1024.
Definition GIGAPAGE_SIZE : Z := 1024 * 1024 * 1024.
Definition PAGE_SIZE : Z := BASEPAGE_SIZE.
Definition page_bytes : nat := Z.to_nat PAGE_SIZE.
Definition BASEPAGE_MASK : Z := BASEPAGE_SIZE - 1.
Definition HUGEPAGE_MASK : Z := HUGEPAGE_SIZE - 1.
Definition GIGAPAGE_MASK : Z := GIGAPAGE_SIZE - 1.
Definition UINT64_MAX : Z := 2 ^ 64 - 1.
Definition BASE_PFN_MASK : Z := Z.lxor BASEPAGE_MASK UINT64_MAX.
Definition HUGE_PFN_MASK : Z := Z.lxor HUGEPAGE_MASK UINT64_MAX.
Definition GIGA_PFN_MASK : Z := Z.lxor GIGAPAGE_MASK UINT64_MAX.

(** [~(PAGE_SIZE - 1)] in 64 bits. *)
Definition PAGE_MASK : Z := Z.lxor (PAGE_SIZE - 1) UINT64_MAX.

(** [x & ~(PAGE_SIZE - 1)], the page boundary of an address. *)
Definition page_align (x : Z) : Z := Z.land x PAGE_MASK.

(** [PAGE_ROUND_UP(x)]. *)
Definition PAGE_ROUND_UP (x : Z) : Z := Z.land (u64 (u64 (x + PAGE_SIZE) - 1)) PAGE_MASK.

Inductive pagetypes : Type := HUGEP | BASEP | NPAGETYPES.

#[export] Instance pagetypes_eq_dec : EqDecision pagetypes.
Proof. solve_decision. Defined.

(** The switches of the two conversions; a failed [assert] is [None]. *)
Definition pt_to_pagesize (pt : pagetypes) : option Z :=
  match pt with
  | HUGEP => Some HUGEPAGE_SIZE
  | BASEP => Some BASEPAGE_SIZE
  | NPAGETYPES => None
  end.

Definition pagesize_to_pt (pagesize : Z) : option pagetypes :=
  if pagesize =? BASEPAGE_SIZE then Some BASEP
  else if pagesize =? HUGEPAGE_SIZE then Some HUGEP
  else None.

(** ** Page descriptors *)

Record user_page : Type := mk_page {
  va : Z;
  virtual_offset : Z;
  in_dram : bool;
  swapped_out : bool;
  pt : pagetypes;
  migrating : bool;
  has_reserve : bool;
  present : bool;
  naccesses : Z;
  reserve : option ptr;
  next : option ptr;
  prev : option ptr;
  in_list : option lid;   (* the field [list] *)
}.

#[export] Instance user_page_eq_dec : EqDecision user_page.
Proof. solve_decision. Defined.

(** [calloc(1, sizeof(struct user_page))]. *)
Definition page0 : user_page :=
  mk_page 0 0 false false HUGEP false false false 0 None None None None.

(** Assignments to one field. *)
Definition set_va x p := mk_page x (virtual_offset p) (in_dram p) (swapped_out p) (pt p) (migrating p)
  (has_reserve p) (present p) (naccesses p) (reserve p) (next p) (prev p) (in_list p).
Definition set_virtual_offset x p := mk_page (va p) x (in_dram p) (swapped_out p) (pt p) (migrating p)
  (has_reserve p) (present p) (naccesses p) (reserve p) (next p) (prev p) (in_list p).
Definition set_in_dram x p := mk_page (va p) (virtual_offset p) x (swapped_out p) (pt p) (migrating p)
  (has_reserve p) (present p) (naccesses p) (reserve p) (next p) (prev p) (in_list p).
Definition set_swapped_out x p := mk_page (va p) (virtual_offset p) (in_dram p) x (pt p) (migrating p)
  (has_reserve p) (present p) (naccesses p) (reserve p) (next p) (prev p) (in_list p).
Definition set_pt x p := mk_page (va p) (virtual_offset p) (in_dram p) (swapped_out p) x (migrating p)
  (has_reserve p) (present p) (naccesses p) (reserve p) (next p) (prev p) (in_list p).
Definition set_migrating x p := mk_page (va p) (virtual_offset p) (in_dram p) (swapped_out p) (pt p) x
  (has_reserve p) (present p) (naccesses p) (reserve p) (next p) (prev p) (in_list p).
Definition set_has_reserve x p := mk_page (va p) (virtual_offset p) (in_dram p) (swapped_out p) (pt p)
  (migrating p) x (present p) (naccesses p) (reserve p) (next p) (prev p) (in_list p).
Definition set_present x p := mk_page (va p) (virtual_offset p) (in_dram p) (swapped_out p) (pt p)
  (migrating p) (has_reserve p) x (naccesses p) (reserve p) (next p) (prev p) (in_list p).
Definition set_naccesses x p := mk_page (va p) (virtual_offset p) (in_dram p) (swapped_out p) (pt p)
  (migrating p) (has_reserve p) (present p) x (reserve p) (next p) (prev p) (in_list p).
Definition set_reserve x p := mk_page (va p) (virtual_offset p) (in_dram p) (swapped_out p) (pt p)
  (migrating p) (has_reserve p) (present p) (naccesses p) x (next p) (prev p) (in_list p).
Definition set_next x p := mk_page (va p) (virtual_offset p) (in_dram p) (swapped_out p) (pt p)
  (migrating p) (has_reserve p) (present p) (naccesses p) (reserve p) x (prev p) (in_list p).
Definition set_prev x p := mk_page (va p) (virtual_offset p) (in_dram p) (swapped_out p) (pt p)
  (migrating p) (has_reserve p) (present p) (naccesses p) (reserve p) (next p) x (in_list p).
Definition set_in_list x p := mk_page (va p) (virtual_offset p) (in_dram p) (swapped_out p) (pt p)
  (migrating p) (has_reserve p) (present p) (naccesses p) (reserve p) (next p) (prev p) x.

(** ** Alignment facts *)

Lemma PAGE_MASK_ldiff x : in_u64 x -> page_align x = Z.ldiff x (Z.ones 12).
Proof.
  intros Hx. unfold page_align. apply Z.bits_inj_iff'. intros n Hn.
  change PAGE_MASK with (Z.ldiff (Z.ones 64) (Z.ones 12)).
  rewrite !Z.land_spec, !Z.ldiff_spec.
  destruct (decide (n < 64)).
  - rewrite (Z.ones_spec_low 64) by lia. done.
  - assert (Hz : Z.testbit x n = false); [|by rewrite Hz].
    destruct (decide (x = 0)) as [->|]; [apply Z.bits_0|].
    apply Z.bits_above_log2; unfold in_u64 in Hx; [lia|].
    assert (Z.log2 x < 64) by (apply Z.log2_lt_pow2; lia). lia.
Qed.

Lemma page_align_eq x : in_u64 x -> page_align x = x - x mod PAGE_SIZE.
Proof.
  intros Hx. rewrite PAGE_MASK_ldiff by done. rewrite Z.ldiff_ones_r by lia.
  rewrite Z.shiftr_div_pow2, Z.shiftl_mul_pow2 by lia.
  change (2 ^ 12) with PAGE_SIZE. pose proof (Z.div_mod x PAGE_SIZE ltac:(done)). lia.
Qed.

Lemma page_align_aligned x : in_u64 x -> page_align x mod PAGE_SIZE = 0.
Proof.
  intros Hx. rewrite page_align_eq by done. rewrite Zminus_mod_idemp_r, Z.sub_diag. done.
Qed.

Lemma page_align_bounds x : in_u64 x -> page_align x <= x < page_align x + PAGE_SIZE /\ 0 <= page_align x.
Proof.
  intros Hx. rewrite page_align_eq by done.
  pose proof (Z.mod_pos_bound x PAGE_SIZE ltac:(done)).
  pose proof (Z.mod_le x PAGE_SIZE ltac:(apply Hx) ltac:(done)). lia.
Qed.

Lemma page_round_up_spec (x : Z) :
  0 <= x < 2 ^ 64 - PAGE_SIZE ->
  PAGE_ROUND_UP x mod PAGE_SIZE = 0 /\ x <= PAGE_ROUND_UP x < x + PAGE_SIZE.
Proof.
  intros Hx. assert (Hp : PAGE_SIZE = 4096) by reflexivity.
  unfold PAGE_ROUND_UP. change (Z.land ?a PAGE_MASK) with (page_align a).
  rewrite (u64_small (x + PAGE_SIZE)) by (unfold in_u64; lia).
  rewrite u64_small by (unfold in_u64; lia).
  assert (Hy : in_u64 (x + PAGE_SIZE - 1)) by (unfold in_u64; lia).
  pose proof (page_align_bounds _ Hy). split; [by apply page_align_aligned|lia].
Qed.

(** ** Properties *)

(** C34: for a length that does not wrap, [PAGE_ROUND_UP] gives the least
    multiple of the page size that is at least the length, and
    [page_align] gives the greatest one that is at most it. *)
Theorem page_rounding (x : Z) :
  0 <= x < 2 ^ 64 - PAGE_SIZE ->
  PAGE_ROUND_UP x mod PAGE_SIZE = 0 /\ x <= PAGE_ROUND_UP x < x + PAGE_SIZE /\
  page_align x mod PAGE_SIZE = 0 /\ page_align x <= x < page_align x + PAGE_SIZE.
Proof.
  intros Hx. assert (Hp : PAGE_SIZE = 4096) by reflexivity.
  destruct (page_round_up_spec x Hx) as [? ?].
  assert (Hx' : in_u64 x) by (unfold in_u64; lia).
  pose proof (page_align_bounds _ Hx').
  split_and!; try (by apply page_align_aligned); try done; lia.
Qed.

Lemma page_rounding_witness :
  PAGE_ROUND_UP 4097 mod PAGE_SIZE = 0 /\ 4097 <= PAGE_ROUND_UP 4097 < 4097 + PAGE_SIZE /\
  page_align 4097 mod PAGE_SIZE = 0 /\ page_align 4097 <= 4097 < page_align 4097 + PAGE_SIZE.
Proof. apply (page_rounding 4097). vm_compute; split; congruence. Defined.
