(* ===== verification/AddressTranslation.v ===== *)
(** Address translation between local and remote heaps:
    [src/src/address_translation.c] and [src/src/include/address_translation.h].

    The singly linked list of regions, which only this file's functions
    reach, is a Rocq list in list order.  The mutex brackets each whole
    operation, so an operation is one step of the state monad. *)

From S2P Require Import Prelude.

Local Open Scope Z_scope.

(** ** Data *)

Record address_region_t : Type := mk_region {
  local_base : Z;
  local_end : Z;
  remote_base : Z;
  region_size : Z;
  active : bool;
}.

Record address_translator_t : Type := mk_translator {
  regions : list address_region_t;
  local_heap_base : Z;
  local_heap_end : Z;
  remote_heap_base : Z;
  remote_heap_end : Z;
  initialized : bool;
}.

Record pointer_conversion_result_t : Type := mk_conversion {
  converted_pointer : Z;
  valid : bool;
  region : option address_region_t;
}.

#[export] Instance address_region_eq_dec : EqDecision address_region_t.
Proof. solve_decision. Defined.

(** The zero-initialised [static address_translator_t global_translator]. *)
Definition global_translator : address_translator_t := mk_translator [] 0 0 0 0 false.

Definition set_regions (rs : list address_region_t) (t : address_translator_t) :=
  mk_translator rs (local_heap_base t) (local_heap_end t)
    (remote_heap_base t) (remote_heap_end t) (initialized t).

(** ** Operations *)

Definition address_translator_init : M address_translator_t Z :=
  i ← gets initialized;
  if (i : bool) then mret 0
  else
    put (mk_translator [] 0x7f0000000000 0x7fffffffffffffff 0x2000000000 0x3fffffffff true);;
    mret 0.

Definition address_translator_cleanup : M address_translator_t unit :=
  i ← gets initialized;
  if (i : bool) then
    modify (fun t => mk_translator [] (local_heap_base t) (local_heap_end t)
                       (remote_heap_base t) (remote_heap_end t) false)
  else mret tt.

(** The loop of [register_address_region]: the first region with this base
    is updated in place; [None] when the loop falls off the list. *)
Fixpoint update_region (lb sz rb : Z) (rs : list address_region_t) : option (list address_region_t) :=
  match rs with
  | [] => None
  | current :: next =>
      if local_base current =? lb
      then Some (mk_region (local_base current) (u64 (lb + sz)) rb sz true :: next)
      else cons current <$> update_region lb sz rb next
  end.

(** [malloc_ok] is whether the [malloc] of a new node succeeds. *)
Definition register_address_region (malloc_ok : bool) (lb sz rb : Z) : M address_translator_t Z :=
  t ← get;
  if negb (initialized t) then mret (- ENOTCONN)
  else
    match update_region lb sz rb (regions t) with
    | Some rs => put (set_regions rs t);; mret 0
    | None =>
        if negb malloc_ok then mret (- ENOMEM)
        else put (set_regions (mk_region lb (u64 (lb + sz)) rb sz true :: regions t) t);; mret 0
    end.

(** The loop of [unregister_address_region]: unlink the first region with this base. *)
Fixpoint unlink_region (lb : Z) (rs : list address_region_t) : option (list address_region_t) :=
  match rs with
  | [] => None
  | current :: next =>
      if local_base current =? lb then Some next else cons current <$> unlink_region lb next
  end.

Definition unregister_address_region (lb : Z) : M address_translator_t Z :=
  t ← get;
  if negb (initialized t) then mret (- ENOTCONN)
  else
    match unlink_region lb (regions t) with
    | Some rs => put (set_regions rs t);; mret 0
    | None => mret (- ENOENT)
    end.

Definition local_match (p : Z) (r : address_region_t) : bool :=
  active r && (local_base r <=? p) && (p <? local_end r).

Definition remote_match (p : Z) (r : address_region_t) : bool :=
  active r && (remote_base r <=? p) && (p <? u64 (remote_base r + region_size r)).

(** The search loops: the first region of the list that satisfies the test. *)
Fixpoint first_region (f : address_region_t -> bool) (rs : list address_region_t) : option address_region_t :=
  match rs with
  | [] => None
  | current :: next => if f current then Some current else first_region f next
  end.

Definition convert_local_to_remote_pointer (p : Z) : M address_translator_t pointer_conversion_result_t :=
  if p =? 0 then mret (mk_conversion 0 true None)
  else
    t ← get;
    if negb (initialized t) then mret (mk_conversion 0 false None)
    else
      match first_region (local_match p) (regions t) with
      | Some r =>
          let offset := u64 (p - local_base r) in
          mret (mk_conversion (u64 (remote_base r + offset)) true (Some r))
      | None => mret (mk_conversion 0 false None)
      end.

Definition convert_remote_to_local_pointer (p : Z) : M address_translator_t pointer_conversion_result_t :=
  if p =? 0 then mret (mk_conversion 0 true None)
  else
    t ← get;
    if negb (initialized t) then mret (mk_conversion 0 false None)
    else
      match first_region (remote_match p) (regions t) with
      | Some r =>
          let offset := u64 (p - remote_base r) in
          mret (mk_conversion (u64 (local_base r + offset)) true (Some r))
      | None => mret (mk_conversion 0 false None)
      end.

Definition is_valid_local_pointer (p : Z) : M address_translator_t bool :=
  if p =? 0 then mret true
  else
    t ← get;
    if negb (initialized t) then mret false
    else mret ((local_heap_base t <=? p) && (p <? local_heap_end t)).

Definition is_valid_remote_pointer (p : Z) : M address_translator_t bool :=
  if p =? 0 then mret true
  else
    t ← get;
    if negb (initialized t) then mret false
    else mret ((remote_heap_base t <=? p) && (p <? remote_heap_end t)).

(** ** Invariant *)

(** A region as [register_address_region] leaves it. *)
Definition region_wf (r : address_region_t) : Prop :=
  in_u64 (local_base r) /\ in_u64 (remote_base r) /\ in_u64 (region_size r) /\
  local_end r = u64 (local_base r + region_size r) /\ active r = true.

Definition translator_wf (t : address_translator_t) : Prop :=
  Forall region_wf (regions t) /\ NoDup (local_base <$> regions t) /\
  (initialized t = false -> regions t = []).

(** A region whose two ranges do not wrap around the address space. *)
Definition region_nowrap (r : address_region_t) : Prop :=
  local_base r + region_size r < 2 ^ 64 /\ remote_base r + region_size r < 2 ^ 64.

(** Two regions that overlap neither locally nor remotely. *)
Definition region_disjoint (r1 r2 : address_region_t) : Prop :=
  (local_base r1 + region_size r1 <= local_base r2 \/ local_base r2 + region_size r2 <= local_base r1) /\
  (remote_base r1 + region_size r1 <= remote_base r2 \/ remote_base r2 + region_size r2 <= remote_base r1).

(** What the translator is meant to be: a set of disjoint, non-wrapping
    mappings away from the null address. *)
Definition translator_exact (t : address_translator_t) : Prop :=
  translator_wf t /\ initialized t = true /\
  Forall region_nowrap (regions t) /\
  Forall (fun r => 0 < local_base r /\ 0 < remote_base r) (regions t) /\
  (forall r1 r2, r1 ∈ regions t -> r2 ∈ regions t -> r1 <> r2 -> region_disjoint r1 r2).

(** ** Lemmas on the list loops *)

Lemma first_region_Some f rs r : first_region f rs = Some r -> r ∈ rs /\ f r = true.
Proof.
  induction rs as [|x rs IH]; simpl; [done|]. destruct (f x) eqn:E.
  - intros [= ->]. split; [by left|done].
  - intros H. destruct (IH H). split; [by right|done].
Qed.

Lemma first_region_unique f rs r :
  r ∈ rs -> f r = true -> (forall r', r' ∈ rs -> f r' = true -> r' = r) ->
  first_region f rs = Some r.
Proof.
  induction rs as [|x rs IH]; intros Hin Hf Hu; [by apply elem_of_nil in Hin|]. simpl.
  destruct (f x) eqn:E.
  - f_equal. apply Hu; [left|done].
  - apply IH; [|done|intros; apply Hu; [by right|done]].
    apply elem_of_cons in Hin as [->|]; [congruence|done].
Qed.

Lemma update_region_None lb sz rb rs :
  update_region lb sz rb rs = None <-> lb ∉ (local_base <$> rs).
Proof.
  induction rs as [|x rs IH]; csimpl; [by split; [intros _ H%elem_of_nil|]|].
  rewrite not_elem_of_cons, <- IH. destruct (local_base x =? lb) eqn:E.
  - split; [done|]. intros [? _]. lia.
  - destruct (update_region _ _ _ rs); simpl; split; [done|by intros [??]| |done]. intros _. split; [lia|done].
Qed.

Lemma update_region_bases lb sz rb rs rs' :
  update_region lb sz rb rs = Some rs' -> local_base <$> rs' = local_base <$> rs.
Proof.
  revert rs'. induction rs as [|x rs IH]; intros rs'; simpl; [done|].
  destruct (_ =? _); [by intros [= <-]|].
  destruct (update_region lb sz rb rs) as [rs''|]; intros [= <-]. csimpl. f_equal. by apply IH.
Qed.

Lemma update_region_wf lb sz rb rs rs' :
  in_u64 sz -> in_u64 rb ->
  update_region lb sz rb rs = Some rs' -> Forall region_wf rs -> Forall region_wf rs'.
Proof.
  intros Hsz Hrb. revert rs'. induction rs as [|x rs IH]; intros rs'; simpl; [done|].
  destruct (local_base x =? lb) eqn:E.
  - intros [= <-] [Hx Hrs]%Forall_cons. apply Forall_cons. split; [|done].
    destruct Hx as (?&_&_&_&_). repeat split; simpl; try apply Hsz; try apply Hrb; try apply H.
    f_equal; lia.
  - destruct (update_region lb sz rb rs) as [rs''|]; intros [= <-] [Hx Hrs]%Forall_cons.
    apply Forall_cons. auto.
Qed.

Lemma update_region_Some_lookup lb sz rb rs rs' :
  update_region lb sz rb rs = Some rs' -> mk_region lb (u64 (lb + sz)) rb sz true ∈ rs'.
Proof.
  revert rs'. induction rs as [|x rs IH]; intros rs'; simpl; [done|].
  destruct (local_base x =? lb) eqn:E.
  - intros [= <-]. apply elem_of_cons. left. f_equal. lia.
  - destruct (update_region lb sz rb rs) as [rs''|]; intros [= <-]. right. by apply IH.
Qed.

Lemma unlink_region_sublist lb rs rs' : unlink_region lb rs = Some rs' -> rs' `sublist_of` rs.
Proof.
  revert rs'. induction rs as [|x rs IH]; intros rs'; simpl; [done|].
  destruct (_ =? _); [intros [= <-]; by constructor|].
  destruct (unlink_region lb rs) as [rs''|]; intros [= <-]. constructor. by apply IH.
Qed.

Lemma unlink_region_gone lb rs rs' :
  NoDup (local_base <$> rs) -> unlink_region lb rs = Some rs' -> lb ∉ (local_base <$> rs').
Proof.
  revert rs'. induction rs as [|x rs IH]; intros rs'; csimpl; [done|].
  intros [Hx Hnd]%NoDup_cons. destruct (local_base x =? lb) eqn:E.
  - intros [= <-]. by replace lb with (local_base x) by lia.
  - destruct (unlink_region lb rs) as [rs''|]; intros [= <-]. csimpl.
    apply not_elem_of_cons. split; [lia|by apply IH].
Qed.

Lemma unlink_region_None lb rs : unlink_region lb rs = None <-> lb ∉ (local_base <$> rs).
Proof.
  induction rs as [|x rs IH]; csimpl; [by split; [intros _ H%elem_of_nil|]|].
  rewrite not_elem_of_cons, <- IH. destruct (local_base x =? lb) eqn:E.
  - split; [done|]. intros [? _]. lia.
  - destruct (unlink_region lb rs); simpl; split; [done|by intros [??]| |done]. intros _. split; [lia|done].
Qed.

Lemma sublist_wf rs rs' :
  rs' `sublist_of` rs -> Forall region_wf rs -> NoDup (local_base <$> rs) ->
  Forall region_wf rs' /\ NoDup (local_base <$> rs').
Proof.
  intros Hs Hf Hn. split.
  - rewrite Forall_forall in Hf |- *. intros x Hx. apply Hf.
    by apply (elem_of_submseteq rs'); [|apply sublist_submseteq].
  - eapply sublist_NoDup; [done|]. by apply fmap_sublist.
Qed.

Lemma local_match_spec p r :
  region_wf r -> region_nowrap r ->
  local_match p r = true <-> local_base r <= p < local_base r + region_size r.
Proof.
  intros (Hl & _ & Hs & He & Ha) [Hn _]. unfold local_match. rewrite He, Ha.
  unfold in_u64 in *. rewrite u64_small by (unfold in_u64; lia). lia.
Qed.

Lemma remote_match_spec p r :
  region_wf r -> region_nowrap r ->
  remote_match p r = true <-> remote_base r <= p < remote_base r + region_size r.
Proof.
  intros (_ & Hr & Hs & _ & Ha) [_ Hn]. unfold remote_match. rewrite Ha.
  unfold in_u64 in *. rewrite u64_small by (unfold in_u64; lia). lia.
Qed.

Lemma u64_offset b b' sz p :
  0 <= b -> b + sz < 2 ^ 64 -> 0 <= b' -> b' + sz < 2 ^ 64 -> b <= p < b + sz ->
  u64 (b' + u64 (p - b)) = b' + (p - b).
Proof. intros. rewrite !u64_small; unfold in_u64; [lia| |]; rewrite ?u64_small; unfold in_u64; lia. Qed.

Section exact.
Context (t : address_translator_t) (Hex : translator_exact t).

Lemma exact_region r : r ∈ regions t ->
  region_wf r /\ region_nowrap r /\ 0 < local_base r /\ 0 < remote_base r.
Proof.
  destruct Hex as ((Hw&_)&_&Hn&Hp&_). rewrite Forall_forall in Hw, Hn, Hp.
  intros Hr. destruct (Hp r Hr). auto.
Qed.

Lemma exact_local_first p r :
  r ∈ regions t -> local_base r <= p < local_base r + region_size r ->
  first_region (local_match p) (regions t) = Some r.
Proof.
  intros Hr Hp. pose proof (exact_region r Hr) as (?&?&_).
  apply first_region_unique; [done|by apply local_match_spec|].
  intros r' Hr' Hm. destruct (decide (r' = r)) as [|Hne]; [done|exfalso].
  pose proof (exact_region r' Hr') as (?&?&_). apply local_match_spec in Hm; [|done..].
  destruct Hex as (_&_&_&_&Hd). destruct (Hd r' r Hr' Hr Hne). lia.
Qed.

Lemma exact_remote_first p r :
  r ∈ regions t -> remote_base r <= p < remote_base r + region_size r ->
  first_region (remote_match p) (regions t) = Some r.
Proof.
  intros Hr Hp. pose proof (exact_region r Hr) as (?&?&_).
  apply first_region_unique; [done|by apply remote_match_spec|].
  intros r' Hr' Hm. destruct (decide (r' = r)) as [|Hne]; [done|exfalso].
  pose proof (exact_region r' Hr') as (?&?&_). apply remote_match_spec in Hm; [|done..].
  destruct Hex as (_&_&_&_&Hd). destruct (Hd r' r Hr' Hr Hne). lia.
Qed.

Lemma exact_convert_local p r :
  r ∈ regions t -> local_base r <= p < local_base r + region_size r ->
  convert_local_to_remote_pointer p t =
    Done (mk_conversion (remote_base r + (p - local_base r)) true (Some r), t).
Proof.
  intros Hr Hp. pose proof (exact_region r Hr) as ((?&?&_)&[]&?&?).
  unfold convert_local_to_remote_pointer. replace (p =? 0) with false by lia.
  unfold mbind, M_bind, get. destruct Hex as (_&->&_). simpl.
  rewrite (exact_local_first p r) by done.
  unfold in_u64 in *. rewrite (u64_offset _ _ (region_size r)) by lia. done.
Qed.

Lemma exact_convert_remote p r :
  r ∈ regions t -> remote_base r <= p < remote_base r + region_size r ->
  convert_remote_to_local_pointer p t =
    Done (mk_conversion (local_base r + (p - remote_base r)) true (Some r), t).
Proof.
  intros Hr Hp. pose proof (exact_region r Hr) as ((?&?&_)&[]&?&?).
  unfold convert_remote_to_local_pointer. replace (p =? 0) with false by lia.
  unfold mbind, M_bind, get. destruct Hex as (_&->&_). simpl.
  rewrite (exact_remote_first p r) by done.
  unfold in_u64 in *. rewrite (u64_offset _ _ (region_size r)) by lia. done.
Qed.

Lemma exact_local_miss p :
  p <> 0 ->
  (forall r, r ∈ regions t -> ~ local_base r <= p < local_base r + region_size r) ->
  convert_local_to_remote_pointer p t = Done (mk_conversion 0 false None, t).
Proof.
  intros Hp Hmiss. unfold convert_local_to_remote_pointer. replace (p =? 0) with false by lia.
  unfold mbind, M_bind, get. destruct Hex as (_&->&_). simpl.
  destruct (first_region _ _) as [r|] eqn:E; [exfalso|done].
  apply first_region_Some in E as [Hr Hm]. pose proof (exact_region r Hr) as (?&?&_).
  apply local_match_spec in Hm; [|done..]. by apply (Hmiss r).
Qed.
End exact.

(** The calls a client can make that change the translator. *)
Inductive translator_call : Type :=
  | CallInit
  | CallCleanup
  | CallRegister (malloc_ok : bool) (lb sz rb : Z)
  | CallUnregister (lb : Z).

Definition run_translator_call (c : translator_call) : M address_translator_t Z :=
  match c with
  | CallInit => address_translator_init
  | CallCleanup => address_translator_cleanup;; mret 0
  | CallRegister ok lb sz rb => register_address_region ok lb sz rb
  | CallUnregister lb => unregister_address_region lb
  end.

Definition translator_call_args (c : translator_call) : Prop :=
  match c with
  | CallRegister _ lb sz rb => in_u64 lb /\ in_u64 sz /\ in_u64 rb
  | _ => True
  end.

(** ** Properties *)

(** C17: every call of the translation interface returns (no fault), its
    code is 0 or one of -ENOTCONN, -ENOMEM, -ENOENT, and it keeps the
    translator well formed: region ends are base plus size modulo 2^64, all
    listed regions are active, no two share a local base, and an
    uninitialised translator lists none. *)
Theorem translator_call_wf (c : translator_call) (t : address_translator_t) :
  translator_wf t -> translator_call_args c ->
  exists code t', run_translator_call c t = Done (code, t') /\ translator_wf t' /\
    code ∈ [0; - ENOTCONN; - ENOMEM; - ENOENT].
Proof.
  intros (Hw & Hnd & Hi) Hargs. destruct c as [| |ok lb sz rb|lb]; simpl;
    unfold address_translator_init, address_translator_cleanup, register_address_region,
      unregister_address_region, mbind, M_bind, get, gets, put, modify;
    destruct (initialized t) eqn:Et; simpl.
  1-4: eexists _, _; (split; [done|split; [|set_solver]]);
    unfold translator_wf; simpl; rewrite ?Et;
    first [done | by split_and!; [apply Forall_nil|apply NoDup_nil|]].
  - destruct Hargs as (?&Hsz&Hrb). destruct (update_region lb sz rb (regions t)) as [rs|] eqn:E.
    + eexists _, _; split; [done|split; [|set_solver]]. unfold translator_wf; simpl.
      rewrite (update_region_bases _ _ _ _ _ E).
      pose proof (update_region_wf _ _ _ _ _ Hsz Hrb E Hw). rewrite Et. done.
    + destruct ok; simpl; (eexists _, _; split; [done|split; [|set_solver]]);
        unfold translator_wf; simpl; rewrite Et; [|done].
      apply update_region_None in E. split_and!; [|by constructor|done].
      apply Forall_cons. done.
  - by eexists _, _; split; [done|split; [unfold translator_wf; rewrite Et|set_solver]].
  - destruct (unlink_region lb (regions t)) as [rs|] eqn:E;
      (eexists _, _; split; [done|split; [|set_solver]]); [|by unfold translator_wf; rewrite Et].
    apply unlink_region_sublist in E. destruct (sublist_wf _ _ E Hw Hnd).
    unfold translator_wf; simpl; rewrite Et. done.
  - by eexists _, _; split; [done|split; [unfold translator_wf; rewrite Et|set_solver]].
Qed.

(** In an exact translator, converting a local pointer returns the
    pointer at the same offset of the remote range of the region that holds
    it, a pointer no region holds is reported invalid, and null converts to
    null; the translator is not changed. *)
Theorem convert_local_spec (t : address_translator_t) (p : Z) :
  translator_exact t ->
  (forall r, r ∈ regions t -> local_base r <= p < local_base r + region_size r ->
     convert_local_to_remote_pointer p t =
       Done (mk_conversion (remote_base r + (p - local_base r)) true (Some r), t)) /\
  (p <> 0 -> (forall r, r ∈ regions t -> ~ local_base r <= p < local_base r + region_size r) ->
     convert_local_to_remote_pointer p t = Done (mk_conversion 0 false None, t)) /\
  (p = 0 -> convert_local_to_remote_pointer p t = Done (mk_conversion 0 true None, t)).
Proof.
  intros Hex. split_and!; [by apply exact_convert_local|by apply exact_local_miss|by intros ->].
Qed.

(** C15: in an exact translator, converting a local pointer of some region
    to the remote range and the result back yields the pointer. *)
Theorem convert_roundtrip (t : address_translator_t) (p : Z) (r : address_region_t) :
  translator_exact t -> r ∈ regions t -> local_base r <= p < local_base r + region_size r ->
  exists q, convert_local_to_remote_pointer p t = Done (mk_conversion q true (Some r), t) /\
            convert_remote_to_local_pointer q t = Done (mk_conversion p true (Some r), t).
Proof.
  intros Hex Hr Hp. eexists. split; [by apply exact_convert_local|].
  rewrite (exact_convert_remote _ Hex _ r) by (done || lia). do 3 f_equal. lia.
Qed.

(** C16: registering a fresh region that is disjoint from the others keeps
    the translator exact, and from then on every pointer into the new
    region converts into its remote range. *)
Theorem register_then_convert (t : address_translator_t) (lb sz rb p : Z) :
  translator_exact t -> 0 < lb -> 0 < rb -> 0 <= sz -> lb + sz < 2 ^ 64 -> rb + sz < 2 ^ 64 ->
  lb ∉ (local_base <$> regions t) ->
  (forall r, r ∈ regions t -> region_disjoint r (mk_region lb (u64 (lb + sz)) rb sz true)) ->
  lb <= p < lb + sz ->
  exists t' r, register_address_region true lb sz rb t = Done (0, t') /\ translator_exact t' /\
    convert_local_to_remote_pointer p t' = Done (mk_conversion (rb + (p - lb)) true (Some r), t').
Proof.
  intros Hex Hlb Hrb Hsz Hln Hrn Hnew Hd Hp.
  pose (new := mk_region lb (u64 (lb + sz)) rb sz true).
  assert (Hex' : translator_exact (set_regions (new :: regions t) t)).
  { destruct Hex as ((Hw&Hnd&Hi)&Hinit&Hn&Hpos&Hdis). split_and!; simpl; [split_and!; simpl|..]; try done.
    - apply Forall_cons. split; [|done]. unfold new, region_wf, in_u64; simpl. split_and!; done || lia.
    - by constructor.
    - congruence.
    - by apply Forall_cons.
    - by apply Forall_cons.
    - intros r1 r2 [->|H1]%elem_of_cons [->|H2]%elem_of_cons Hne; [done| | by apply Hd|by apply Hdis].
      destruct (Hd r2 H2) as [[|][|]]; split; auto. }
  exists (set_regions (new :: regions t) t), new. split_and!; [|done|].
  - unfold register_address_region, mbind, M_bind, get. destruct Hex as (_&->&_). simpl.
    apply update_region_None with (sz := sz) (rb := rb) in Hnew. by rewrite Hnew.
  - apply (exact_convert_local _ Hex' p new); [by left|done].
Qed.

(** Unregistering a region of a well-formed translator removes it for
    good: no region with that base is left, and a second call reports
    -ENOENT. *)
Theorem unregister_removes (t t' : address_translator_t) (lb : Z) :
  translator_wf t -> unregister_address_region lb t = Done (0, t') ->
  lb ∉ (local_base <$> regions t') /\
  unregister_address_region lb t' = Done (- ENOENT, t').
Proof.
  intros (Hw & Hnd & _). unfold unregister_address_region, mbind, M_bind, get, put.
  destruct (initialized t) eqn:Hi; simpl; [|by intros [= ?]].
  destruct (unlink_region lb (regions t)) as [rs|] eqn:E; [|by intros [= ?]].
  intros [= <-]. simpl. rewrite Hi. simpl.
  pose proof (unlink_region_gone _ _ _ Hnd E) as Hg. split; [done|].
  apply unlink_region_None in Hg. by rewrite Hg.
Qed.

(** ** Witnesses *)

Definition demo_region_1 : address_region_t :=
  mk_region 0x7f0000000000 0x7f0000001000 0x2000000000 0x1000 true.
Definition demo_region_2 : address_region_t :=
  mk_region 0x7f0000100000 0x7f0000102000 0x2000100000 0x2000 true.

(** The translator after initialisation and two registrations. *)
Definition demo_translator : address_translator_t :=
  mk_translator [demo_region_2; demo_region_1] 0x7f0000000000 0x7fffffffffffffff
    0x2000000000 0x3fffffffff true.

Lemma demo_translator_reached :
  (address_translator_init;;
   register_address_region true 0x7f0000000000 0x1000 0x2000000000;;
   register_address_region true 0x7f0000100000 0x2000 0x2000100000) global_translator
  = Done (0, demo_translator).
Proof. reflexivity. Qed.

Lemma demo_translator_wf : translator_wf demo_translator.
Proof.
  split_and!; [|by apply (bool_decide_unpack (NoDup _)); vm_compute|done].
  repeat (apply Forall_cons; split); try apply Forall_nil; try done;
    unfold region_wf, in_u64; simpl; split_and!; done || lia.
Qed.

Lemma demo_translator_exact : translator_exact demo_translator.
Proof.
  split_and!; [apply demo_translator_wf|done|..].
  - repeat (apply Forall_cons; split); try apply Forall_nil; try done; split; simpl; lia.
  - repeat (apply Forall_cons; split); try apply Forall_nil; simpl; lia.
  - intros r1 r2 H1 H2 Hne. simpl in *.
    repeat (apply elem_of_cons in H1 as [->|H1]); try (by apply elem_of_nil in H1);
    repeat (apply elem_of_cons in H2 as [->|H2]); try (by apply elem_of_nil in H2); try done;
      split; simpl; lia.
Qed.

Lemma translator_call_wf_witness :
  exists code t', run_translator_call (CallRegister true 0x7f0000200000 0x1000 0x2000200000) demo_translator
      = Done (code, t') /\ translator_wf t' /\ code ∈ [0; - ENOTCONN; - ENOMEM; - ENOENT].
Proof.
  apply (translator_call_wf (CallRegister true 0x7f0000200000 0x1000 0x2000200000) demo_translator).
  - apply demo_translator_wf.
  - simpl. unfold in_u64. lia.
Defined.

Lemma convert_local_spec_witness :
  convert_local_to_remote_pointer 0x7f0000000ff8 demo_translator =
    Done (mk_conversion 0x2000000ff8 true (Some demo_region_1), demo_translator).
Proof.
  apply (proj1 (convert_local_spec demo_translator 0x7f0000000ff8 demo_translator_exact) demo_region_1).
  - set_solver.
  - simpl. lia.
Defined.

Lemma convert_roundtrip_witness :
  exists q, convert_local_to_remote_pointer 0x7f0000101234 demo_translator =
              Done (mk_conversion q true (Some demo_region_2), demo_translator) /\
            convert_remote_to_local_pointer q demo_translator =
              Done (mk_conversion 0x7f0000101234 true (Some demo_region_2), demo_translator).
Proof.
  apply (convert_roundtrip demo_translator 0x7f0000101234 demo_region_2 demo_translator_exact).
  - set_solver.
  - simpl. lia.
Defined.

Lemma register_then_convert_witness :
  exists t' r, register_address_region true 0x7f0000200000 0x1000 0x2000200000 demo_translator = Done (0, t') /\
    translator_exact t' /\
    convert_local_to_remote_pointer 0x7f0000200008 t' =
      Done (mk_conversion (0x2000200000 + (0x7f0000200008 - 0x7f0000200000)) true (Some r), t').
Proof.
  apply (register_then_convert demo_translator); try lia.
  - apply demo_translator_exact.
  - simpl. set_solver by lia.
  - intros r H. simpl in H.
    repeat (apply elem_of_cons in H as [->|H]); try (by apply elem_of_nil in H); split; simpl; lia.
Defined.

Lemma unregister_removes_witness :
  0x7f0000000000 ∉ (local_base <$> [demo_region_2]) /\
  unregister_address_region 0x7f0000000000 (set_regions [demo_region_2] demo_translator) =
    Done (- ENOENT, set_regions [demo_region_2] demo_translator).
Proof.
  apply (unregister_removes demo_translator (set_regions [demo_region_2] demo_translator) 0x7f0000000000).
  - apply demo_translator_wf.
  - reflexivity.
Defined.
