(* ===== verification/Fifo.v ===== *)
(** The page lists of [src/src/fifo.c] and [src/src/fifo.h].

    All page descriptors live in one store, and a list is a first pointer, a
    last pointer and a counter; the links are fields of the descriptors, so
    the operations work on the shared store exactly as the code does.  The
    second half proves that they implement sequences: [rep s D Q] relates a
    concrete state to the pages' data [D] (links erased) and to the sequence
    [Q !! q] each list [q] stands for, first to last. *)

From S2P Require Import Prelude UserPage.

Local Open Scope Z_scope.

(** ** State *)

Record fifo_list : Type := mk_fifo {
  fl_first : option ptr;
  fl_last : option ptr;
  numentries : Z;
}.

Record fifo_state : Type := mk_fifo_state {
  pages : gmap ptr user_page;
  lists : gmap lid fifo_list;
}.

Definition set_first x l := mk_fifo x (fl_last l) (numentries l).
Definition set_last x l := mk_fifo (fl_first l) x (numentries l).
Definition set_numentries x l := mk_fifo (fl_first l) (fl_last l) x.

Definition page_at (p : ptr) : M fifo_state user_page :=
  o ← gets (fun s => pages s !! p); deref o.

Definition list_at (q : lid) : M fifo_state fifo_list :=
  o ← gets (fun s => lists s !! q); deref o.

(** [*p = f *p] for one field of a page, of a list. *)
Definition upd_page (p : ptr) (f : user_page -> user_page) : M fifo_state unit :=
  pg ← page_at p; modify (fun s => mk_fifo_state (<[p := f pg]> (pages s)) (lists s)).

Definition upd_list (q : lid) (f : fifo_list -> fifo_list) : M fifo_state unit :=
  l ← list_at q; modify (fun s => mk_fifo_state (pages s) (<[q := f l]> (lists s))).

(** ** Operations *)

Definition enqueue_fifo (queue : lid) (entry : ptr) : M fifo_state unit :=
  e ← page_at entry;
  c_assert (bool_decide (prev e = None));;
  q ← list_at queue;
  upd_page entry (set_next (fl_first q));;
  match fl_first q with
  | Some f =>
      pf ← page_at f;
      c_assert (bool_decide (prev pf = None));;
      upd_page f (set_prev (Some entry))
  | None =>
      c_assert (bool_decide (fl_last q = None));;
      c_assert (numentries q =? 0);;
      upd_list queue (set_last (Some entry))
  end;;
  upd_list queue (set_first (Some entry));;
  upd_page entry (set_in_list (Some queue));;
  upd_list queue (fun l => set_numentries (u64 (numentries l + 1)) l).

(** The body the two dequeuing functions share: take [ret], the last page. *)
Definition take_last (queue : lid) (ret : ptr) : M fifo_state unit :=
  r ← page_at ret;
  upd_list queue (set_last (prev r));;
  match prev r with
  | Some l => upd_page l (set_next None)
  | None => upd_list queue (set_first None)
  end;;
  upd_page ret (fun r => set_prev None (set_next None r));;
  upd_page ret (set_in_list None);;
  q ← list_at queue;
  c_assert (0 <? numentries q);;
  upd_list queue (fun l => set_numentries (u64 (numentries l - 1)) l).

Definition dequeue_fifo (queue : lid) : M fifo_state (option ptr) :=
  q ← list_at queue;
  match fl_last q with
  | None => mret None
  | Some ret => take_last queue ret;; mret (Some ret)
  end.

(** The body the two removal functions share: unlink [page] from [list]. *)
Definition unlink_page (list : lid) (page : ptr) : M fifo_state unit :=
  l ← list_at list;
  pg ← page_at page;
  when (bool_decide (fl_first l = Some page)) (upd_list list (set_first (next pg)));;
  when (bool_decide (fl_last l = Some page)) (upd_list list (set_last (prev pg)));;
  match next pg with Some n => upd_page n (set_prev (prev pg)) | None => mret tt end;;
  pg ← page_at page;
  match prev pg with Some b => upd_page b (set_next (next pg)) | None => mret tt end;;
  l ← list_at list;
  c_assert (0 <? numentries l);;
  upd_list list (fun l => set_numentries (u64 (numentries l - 1)) l);;
  upd_page page (fun pg => set_in_list None (set_prev None (set_next None pg))).

Definition page_list_remove_page (list : lid) (page : ptr) : M fifo_state unit :=
  l ← list_at list;
  match fl_first l with
  | None =>
      c_assert (bool_decide (fl_last l = None));;
      c_assert (numentries l =? 0)
  | Some _ => unlink_page list page
  end.

Definition page_list_tryremove_page (list : option lid) (page : ptr) : M fifo_state Z :=
  match list with
  | None => mret (-1)
  | Some list =>
      pg ← page_at page;
      if bool_decide (in_list pg <> Some list) then mret (-1)
      else
        l ← list_at list;
        match fl_first l with
        | None =>
            c_assert (bool_decide (fl_last l = None));;
            c_assert (numentries l =? 0);;
            mret (-1)
        | Some _ => unlink_page list page;; mret 0
        end
  end.

Definition next_page (list : lid) (page : option ptr) : M fifo_state (option ptr) :=
  match page with
  | None => l ← list_at list; mret (fl_last l)
  | Some page =>
      pg ← page_at page;
      c_assert (bool_decide (in_list pg = Some list));;
      mret (prev pg)
  end.

(** The loop of [dequeue_fifo_vector]; [n] is [nr_fetch - nr_taken]. *)
Fixpoint dequeue_loop (queue : lid) (n : nat) : M fifo_state (list ptr) :=
  match n with
  | O => mret []
  | S n =>
      q ← list_at queue;
      match fl_last q with
      | None => mret []
      | Some page => take_last queue page;; vector ← dequeue_loop queue n; mret (page :: vector)
      end
  end.

(** The pages stored into [vector], whose length is the return value. *)
Definition dequeue_fifo_vector (queue : lid) (nr_fetch : Z) : M fifo_state (list ptr) :=
  dequeue_loop queue (Z.to_nat nr_fetch).

#[global] Arguments enqueue_fifo : simpl never.
#[global] Arguments dequeue_fifo : simpl never.
#[global] Arguments page_list_remove_page : simpl never.
#[global] Arguments page_list_tryremove_page : simpl never.
#[global] Arguments dequeue_fifo_vector : simpl never.

(** ** Representation of sequences *)

(** A page's data: everything but the links. *)
Definition erase (pg : user_page) : user_page := set_in_list None (set_prev None (set_next None pg)).

(** The doubly linked segment of [q] through [ids], entered from [prv] and
    left to [nxt]. *)
Fixpoint dseg (P : gmap ptr user_page) (q : lid) (prv : option ptr) (ids : list ptr) (nxt : option ptr) : Prop :=
  match ids with
  | [] => True
  | p :: tl =>
      (exists pg, P !! p = Some pg /\ prev pg = prv /\
        next pg = match tl with [] => nxt | n :: _ => Some n end /\ in_list pg = Some q) /\
      dseg P q (Some p) tl nxt
  end.

Definition unlisted (Q : gmap lid (list ptr)) (p : ptr) : Prop :=
  forall q ids, Q !! q = Some ids -> p ∉ ids.

Definition free_links (pg : user_page) : Prop := next pg = None /\ prev pg = None /\ in_list pg = None.

#[export] Instance free_links_dec pg : Decision (free_links pg).
Proof. unfold free_links. apply _. Defined.

Definition fifo_of (ids : list ptr) : fifo_list := mk_fifo (head ids) (last ids) (Z.of_nat (length ids)).

Record rep (s : fifo_state) (D : gmap ptr user_page) (Q : gmap lid (list ptr)) : Prop := mk_rep {
  rep_data : erase <$> pages s = D;
  rep_lists : lists s = fifo_of <$> Q;
  rep_dseg : forall q ids, Q !! q = Some ids -> dseg (pages s) q None ids None /\ NoDup ids;
  rep_free : forall p pg, pages s !! p = Some pg -> unlisted Q p -> free_links pg;
  rep_size : Z.of_nat (size D) < 2 ^ 64;
}.

Lemma erase_idemp pg : erase (erase pg) = erase pg.
Proof. by destruct pg. Qed.

(** *** Segments *)

Lemma dseg_app P q prv l1 l2 nxt :
  dseg P q prv (l1 ++ l2) nxt <->
  dseg P q prv l1 (match l2 with [] => nxt | n :: _ => Some n end) /\
  dseg P q (match last l1 with Some x => Some x | None => prv end) l2 nxt.
Proof.
  revert prv. induction l1 as [|p l1 IH]; intros prv; simpl; [by destruct l2; naive_solver|].
  rewrite IH. destruct l1 as [|p' l1]; simpl; [naive_solver|].
  destruct (last (p' :: l1)) eqn:E; [naive_solver|].
  by apply last_None in E.
Qed.

Lemma dseg_frame P P' q prv ids nxt :
  (forall p, p ∈ ids -> P' !! p = P !! p) -> dseg P q prv ids nxt -> dseg P' q prv ids nxt.
Proof.
  revert prv. induction ids as [|p ids IH]; intros prv Heq; simpl; [done|].
  intros [(pg & Hp & Hr) Hs]. split.
  - exists pg. rewrite Heq by set_solver. done.
  - apply IH; [set_solver|done].
Qed.

Lemma dseg_insert P q prv ids nxt x pg :
  x ∉ ids -> dseg P q prv ids nxt -> dseg (<[x := pg]> P) q prv ids nxt.
Proof.
  intros Hx. apply dseg_frame. intros p Hp. apply lookup_insert_ne. by intros ->.
Qed.

Lemma dseg_elem P q prv ids nxt p :
  dseg P q prv ids nxt -> p ∈ ids -> exists pg, P !! p = Some pg /\ in_list pg = Some q.
Proof.
  revert prv. induction ids as [|x ids IH]; intros prv; simpl; [by intros _ ?%elem_of_nil|].
  intros [(pg & Hp & _ & _ & Hl) Hs] [->|Hin]%elem_of_cons; [eauto|by eapply IH].
Qed.

(** The page between [l1] and [l2]: its links, and the same segment with it
    relinked. *)
Lemma dseg_middle P q prv l1 p l2 nxt :
  dseg P q prv (l1 ++ p :: l2) nxt ->
  exists pg, P !! p = Some pg /\ in_list pg = Some q /\
    prev pg = (match last l1 with Some x => Some x | None => prv end) /\
    next pg = (match l2 with [] => nxt | n :: _ => Some n end).
Proof. rewrite dseg_app; simpl. intros (_ & (pg & ?) & _). naive_solver. Qed.

(** Redirecting the outgoing link of a non-empty segment. *)
Lemma dseg_set_next P q prv l x pg nxt nxt' :
  x ∉ l -> P !! x = Some pg -> dseg P q prv (l ++ [x]) nxt ->
  dseg (<[x := set_next nxt' pg]> P) q prv (l ++ [x]) nxt'.
Proof.
  intros Hx Hp. rewrite !dseg_app; simpl. intros (Hl & (pg' & ? & ? & ? & ?) & _). simplify_eq.
  split; [by apply dseg_insert|]. split; [|done]. eexists. rewrite lookup_insert_eq.
  split; [done|]. naive_solver.
Qed.

(** Redirecting the incoming link of a non-empty segment. *)
Lemma dseg_set_prev P q prv l x pg nxt prv' :
  x ∉ l -> P !! x = Some pg -> dseg P q prv (x :: l) nxt ->
  dseg (<[x := set_prev prv' pg]> P) q prv' (x :: l) nxt.
Proof.
  intros Hx Hp. simpl. intros ((pg' & ? & ? & ? & ?) & Hl). simplify_eq. split.
  - eexists. rewrite lookup_insert_eq. split; [done|]. naive_solver.
  - by apply dseg_insert.
Qed.

(** *** Data *)

Lemma erase_insert (P D : gmap ptr user_page) (p : ptr) pg :
  erase <$> P = D -> D !! p = Some (erase pg) -> erase <$> <[p := pg]> P = D.
Proof. intros <- Hp. rewrite fmap_insert. by apply insert_id. Qed.

Lemma rep_page s D Q p d : rep s D Q -> D !! p = Some d -> exists pg, pages s !! p = Some pg /\ erase pg = d.
Proof.
  intros [<- _ _ _ _]. rewrite lookup_fmap. destruct (pages s !! p) as [pg|]; simpl; [|done].
  intros [= <-]. eauto.
Qed.

Lemma rep_page_data s D Q p pg : rep s D Q -> pages s !! p = Some pg -> D !! p = Some (erase pg).
Proof. intros [<- _ _ _ _] Hp. by rewrite lookup_fmap, Hp. Qed.

Lemma rep_listed s D Q q ids p :
  rep s D Q -> Q !! q = Some ids -> p ∈ ids -> exists pg, pages s !! p = Some pg /\ in_list pg = Some q.
Proof. intros Hr Hq Hin. by eapply dseg_elem; [apply (rep_dseg _ _ _ Hr)|]. Qed.

Lemma rep_disjoint s D Q q1 q2 l1 l2 p :
  rep s D Q -> Q !! q1 = Some l1 -> Q !! q2 = Some l2 -> p ∈ l1 -> p ∈ l2 -> q1 = q2.
Proof.
  intros Hr H1 H2 Hp1 Hp2. destruct (rep_listed _ _ _ _ _ _ Hr H1 Hp1) as (?&?&?).
  destruct (rep_listed _ _ _ _ _ _ Hr H2 Hp2) as (?&?&?). congruence.
Qed.

(** The list field and the sequences agree. *)
Lemma rep_in_list s D Q p pg q :
  rep s D Q -> pages s !! p = Some pg ->
  in_list pg = Some q <-> exists ids, Q !! q = Some ids /\ p ∈ ids.
Proof.
  intros Hr Hp. split.
  - intros Hl. destruct (Q !! q) as [ids|] eqn:Hq.
    + destruct (decide (p ∈ ids)) as [|Hn]; [eauto|]. exfalso.
      assert (Hu : unlisted Q p).
      { intros q' ids' Hq' Hin. destruct (rep_listed _ _ _ _ _ _ Hr Hq' Hin) as (?&?&?).
        assert (q' = q) as -> by congruence. congruence. }
      destruct (rep_free _ _ _ Hr _ _ Hp Hu) as (_&_&?). congruence.
    + exfalso. assert (Hu : unlisted Q p).
      { intros q' ids' Hq' Hin. destruct (rep_listed _ _ _ _ _ _ Hr Hq' Hin) as (?&?&?).
        assert (q' = q) as -> by congruence. congruence. }
      destruct (rep_free _ _ _ Hr _ _ Hp Hu) as (_&_&?). congruence.
  - intros (ids & Hq & Hin). destruct (rep_listed _ _ _ _ _ _ Hr Hq Hin) as (?&?&?). congruence.
Qed.

Lemma nodup_length (D : gmap ptr user_page) (l : list ptr) :
  NoDup l -> (forall p, p ∈ l -> is_Some (D !! p)) -> (length l <= size D)%nat.
Proof.
  intros Hn Hin. rewrite <- (size_list_to_set (C := gset ptr)) by done. rewrite <- size_dom.
  apply subseteq_size. intros p Hp%elem_of_list_to_set. apply elem_of_dom. auto.
Qed.

Lemma rep_member s D Q q ids p : rep s D Q -> Q !! q = Some ids -> p ∈ ids -> is_Some (D !! p).
Proof.
  intros Hr Hq Hp. destruct (rep_listed _ _ _ _ _ _ Hr Hq Hp) as (pg & Hpg & _).
  erewrite rep_page_data by done. eauto.
Qed.

Lemma ids_length s D Q q ids :
  rep s D Q -> Q !! q = Some ids -> (length ids <= size D)%nat.
Proof.
  intros Hr Hq. apply nodup_length; [by apply (rep_dseg _ _ _ Hr _ _ Hq)|].
  intros. by eapply rep_member.
Qed.

(** Replacing the sequence of one list: what an operation has to establish. *)
Lemma rep_update s D Q q ids P' L' ids' :
  rep s D Q -> Q !! q = Some ids ->
  L' = <[q := fifo_of ids']> (lists s) ->
  (forall x, x ∉ ids -> x ∉ ids' -> P' !! x = pages s !! x) ->
  (forall x, x ∈ ids' -> x ∈ ids \/ unlisted Q x) ->
  (forall x pg, x ∈ ids -> x ∉ ids' -> P' !! x = Some pg -> free_links pg) ->
  erase <$> P' = D -> dseg P' q None ids' None -> NoDup ids' ->
  rep (mk_fifo_state P' L') D (<[q := ids']> Q).
Proof.
  intros Hr Hq -> Hout Hin Hgone HD Hd Hn. destruct Hr as [HD0 Hl Hs Hf Hsz] eqn:Er.
  assert (Hother : forall q' l, q' <> q -> Q !! q' = Some l -> forall x, x ∈ l -> x ∉ ids /\ x ∉ ids').
  { intros q' l Hne Hq' x Hx. split.
    - intros Hi. apply Hne. eapply rep_disjoint; [exact Hr|done..].
    - intros [Hi|Hu]%Hin; [|by apply (Hu q' l)]. apply Hne. eapply rep_disjoint; [exact Hr|done..]. }
  split; simpl.
  - done.
  - by rewrite fmap_insert, Hl.
  - intros q' l [[<- <-]|[Hne Hq']]%lookup_insert_Some; [done|].
    destruct (Hs q' l Hq') as [Hd' Hn']. split; [|done].
    eapply dseg_frame; [|exact Hd']. intros x Hx.
    destruct (Hother q' l (not_eq_sym Hne) Hq' x Hx). by apply Hout.
  - intros p pg Hp Hu.
    assert (Hpn : p ∉ ids') by (apply (Hu q); apply lookup_insert_eq).
    destruct (decide (p ∈ ids)) as [Hi|Hi]; [by apply (Hgone p)|].
    rewrite Hout in Hp by done. apply (Hf p pg Hp). intros q' l Hq' Hx.
    destruct (decide (q' = q)) as [->|Hne]; [congruence|].
    apply (Hu q' l); [by rewrite lookup_insert_ne|done].
  - done.
Qed.

(** *** Execution rules for the primitives *)

Section fifo_wp.
Implicit Types s : fifo_state.

Lemma wp_page_at p pg (K : user_page -> fifo_state -> Prop) s :
  pages s !! p = Some pg -> K pg s -> wp (page_at p) K s.
Proof. intros Hp HK. unfold page_at. wp_norm. rewrite Hp. done. Qed.

Lemma wp_list_at q l (K : fifo_list -> fifo_state -> Prop) s :
  lists s !! q = Some l -> K l s -> wp (list_at q) K s.
Proof. intros Hp HK. unfold list_at. wp_norm. rewrite Hp. done. Qed.

Lemma wp_upd_page p f pg (K : unit -> fifo_state -> Prop) s :
  pages s !! p = Some pg ->
  K tt (mk_fifo_state (<[p := f pg]> (pages s)) (lists s)) -> wp (upd_page p f) K s.
Proof.
  intros Hp HK. unfold upd_page. wp_norm. eapply wp_page_at; [done|]. wp_norm. done.
Qed.

Lemma wp_upd_list q f l (K : unit -> fifo_state -> Prop) s :
  lists s !! q = Some l ->
  K tt (mk_fifo_state (pages s) (<[q := f l]> (lists s))) -> wp (upd_list q f) K s.
Proof.
  intros Hp HK. unfold upd_list. wp_norm. eapply wp_list_at; [done|]. wp_norm. done.
Qed.
End fifo_wp.

(** Run the primitives of a list operation whose lookups are known. *)
Ltac fifo_step :=
  first
    [ progress (wp_norm; simpl)
    | eapply wp_page_at; [by simpl; simplify_map_eq | simpl]
    | eapply wp_list_at; [by simpl; simplify_map_eq | simpl]
    | eapply wp_upd_page; [by simpl; simplify_map_eq | simpl]
    | eapply wp_upd_list; [by simpl; simplify_map_eq | simpl]
    | eapply wp_when_true; [by rewrite bool_decide_eq_true | simpl]
    | eapply wp_when_false; [by rewrite bool_decide_eq_false | simpl]
    | eapply wp_assert; [first [by rewrite bool_decide_eq_true | rewrite ?length_app; simpl; lia] | simpl] ].
Ltac fifo_run := repeat fifo_step.

Lemma rep_list s D Q q ids : rep s D Q -> Q !! q = Some ids -> lists s !! q = Some (fifo_of ids).
Proof. intros [_ -> _ _ _] Hq. by rewrite lookup_fmap, Hq. Qed.

(** *** Enqueuing *)

Lemma enqueue_spec s D Q q ids p d :
  rep s D Q -> Q !! q = Some ids -> D !! p = Some d -> unlisted Q p ->
  wp (enqueue_fifo q p) (fun _ s' => rep s' D (<[q := p :: ids]> Q)) s.
Proof.
  intros Hr Hq Hd Hu.
  destruct (rep_page _ _ _ _ _ Hr Hd) as (pg & Hp & _).
  destruct (rep_free _ _ _ Hr _ _ Hp Hu) as (Hn & Hpr & Hil).
  destruct (rep_dseg _ _ _ Hr _ _ Hq) as [Hs Hnd]. pose proof (Hu _ _ Hq) as Hpi.
  pose proof (rep_list _ _ _ _ _ Hr Hq) as Hl.
  assert (Hlen : (length (p :: ids) <= size D)%nat).
  { apply nodup_length; [by constructor|]. intros x [->|Hx]%elem_of_cons; [by rewrite Hd|by eapply rep_member]. }
  pose proof (rep_size _ _ _ Hr) as Hsz. simpl in Hlen.
  unfold enqueue_fifo. do 2 fifo_step. fifo_run. destruct ids as [|f ids].
  - fifo_run. eapply rep_update; [exact Hr|exact Hq| |intros x|intros x|intros x pgx| | |].
    + by rewrite !insert_insert_eq.
    + intros _ Hx. rewrite !lookup_insert_ne by set_solver. done.
    + set_solver.
    + by intros ?%elem_of_nil.
    + repeat apply erase_insert; try apply Hr; by eapply rep_page_data in Hp.
    + simpl. split; [|done]. eexists. rewrite lookup_insert_eq. split; [done|]. by destruct pg.
    + apply NoDup_singleton.
  - apply NoDup_cons in Hnd as [Hf Hnd]. apply not_elem_of_cons in Hpi as [Hpf Hpi].
    destruct Hs as [(fg & Hfg & Hfp & Hfn & Hfl) Hs].
    fifo_run. eapply rep_update; [exact Hr|exact Hq| |intros x|intros x|intros x pgx| | |].
    + rewrite !insert_insert_eq. f_equal. unfold fifo_of, set_numentries; simpl.
      f_equal. rewrite u64_small; [lia|]. unfold in_u64. simpl in Hlen. lia.
    + intros _ Hx. rewrite !lookup_insert_ne by set_solver. done.
    + set_solver.
    + set_solver.
    + repeat apply erase_insert; try apply Hr;
        [by eapply rep_page_data in Hp|by eapply rep_page_data in Hfg|by eapply rep_page_data in Hp].
    + split; [eexists; rewrite lookup_insert_eq; split; [done|]; by destruct pg|]. split.
      * exists (set_prev (Some p) fg). simplify_map_eq. by destruct fg.
      * do 3 (apply dseg_insert; [done|]). done.
    + by constructor; [apply not_elem_of_cons|constructor].
Qed.

(** *** Dequeuing from the last end *)

Lemma seg_snoc_links P q prv l x : NoDup (l ++ [x]) -> dseg P q prv (l ++ [x]) None ->
  exists xg, P !! x = Some xg /\ next xg = None /\ in_list xg = Some q /\
    prev xg = match last l with Some b => Some b | None => prv end /\ x ∉ l.
Proof.
  intros Hn Hd. destruct (dseg_middle _ _ _ _ _ [] _ Hd) as (xg & ? & ? & ? & ?).
  exists xg. split_and!; try done. apply NoDup_app in Hn as (_ & Hn & _). set_solver.
Qed.

Lemma take_last_spec s D Q q l x :
  rep s D Q -> Q !! q = Some (l ++ [x]) ->
  wp (take_last q x) (fun _ s' => rep s' D (<[q := l]> Q)) s.
Proof.
  intros Hr Hq. destruct (rep_dseg _ _ _ Hr _ _ Hq) as [Hs Hnd].
  pose proof (rep_list _ _ _ _ _ Hr Hq) as Hl. pose proof (ids_length _ _ _ _ _ Hr Hq) as Hlen.
  pose proof (rep_size _ _ _ Hr) as Hsz. rewrite length_app in Hlen; simpl in Hlen.
  destruct (seg_snoc_links _ _ _ _ _ Hnd Hs) as (xg & Hx & Hxn & Hxl & Hxp & Hxi).
  assert (Hnum : u64 (Z.of_nat (length (l ++ [x])) - 1) = Z.of_nat (length l)).
  { rewrite length_app; simpl. rewrite u64_small; [lia|unfold in_u64; lia]. }
  unfold take_last. destruct (last l) as [b|] eqn:Eb.
  - apply last_Some in Eb as [l' ->]. rewrite NoDup_app in Hnd. destruct Hnd as (Hnd & _ & _).
    apply dseg_app in Hs as [Hs _]. destruct (dseg_middle _ _ _ l' b [] _ Hs) as (bg & Hb & ? & ? & ?).
    assert (Hbx : b <> x) by set_solver.
    fifo_run. rewrite Hxp. fifo_run.
    eapply rep_update; [exact Hr|exact Hq| |intros y|intros y|intros y yg| | |].
    + rewrite !insert_insert_eq. f_equal. unfold set_numentries, fifo_of; simpl.
      rewrite Hnum, last_snoc. f_equal. by destruct l'.
    + intros Hy _. rewrite !lookup_insert_ne by set_solver. done.
    + set_solver.
    + intros Hy Hy'. assert (y = x) as -> by set_solver. rewrite lookup_insert_eq. by intros [= <-].
    + repeat apply erase_insert; try apply Hr;
        [by eapply rep_page_data in Hb|by eapply rep_page_data in Hx..].
    + do 2 (apply dseg_insert; [done|]). eapply dseg_set_next; [|done|done].
      apply NoDup_app in Hnd as (_ & Hnd & _). set_solver.
    + done.
  - apply last_None in Eb as ->. fifo_run. rewrite Hxp. fifo_run.
    eapply rep_update; [exact Hr|exact Hq| |intros y|intros y|intros y yg| | |].
    + by rewrite !insert_insert_eq.
    + intros Hy _. rewrite !lookup_insert_ne by set_solver. done.
    + set_solver.
    + intros Hy _. assert (y = x) as -> by set_solver. rewrite lookup_insert_eq. by intros [= <-].
    + repeat apply erase_insert; try apply Hr; by eapply rep_page_data in Hx.
    + done.
    + apply NoDup_nil_2.
Qed.

(** *** Unlinking from the middle *)

(** Closing the gap between the two halves of a segment. *)
Lemma dseg_close P P' q l1 p l2 :
  NoDup (l1 ++ p :: l2) -> dseg P q None (l1 ++ p :: l2) None ->
  (forall x, x ∈ l1 ++ l2 -> last l1 <> Some x -> head l2 <> Some x -> P' !! x = P !! x) ->
  (forall b, last l1 = Some b -> exists bg, P !! b = Some bg /\ P' !! b = Some (set_next (head l2) bg)) ->
  (forall n, head l2 = Some n -> exists ng, P !! n = Some ng /\ P' !! n = Some (set_prev (last l1) ng)) ->
  dseg P' q None (l1 ++ l2) None.
Proof.
  intros Hnd Hs Hrest Hb Hn. apply dseg_app in Hs as [Hs1 [_ Hs2]].
  apply NoDup_app in Hnd as (Hnd1 & Hx & Hnd2). apply NoDup_cons in Hnd2 as [Hp Hnd2].
  apply dseg_app. split.
  - destruct l1 as [|b l1'] using rev_ind; [done|]. clear IHl1'.
    destruct (Hb b) as (bg & Hbg & Hbg'); [apply last_snoc|].
    apply NoDup_app in Hnd1 as (_ & Hbl & _).
    apply (dseg_frame (<[b := set_next (head l2) bg]> P)).
    + intros y Hy. destruct (decide (y = b)) as [->|Hyb]; [by rewrite lookup_insert_eq|].
      rewrite lookup_insert_ne by done. apply Hrest; [set_solver| |].
      * rewrite last_snoc. congruence.
      * intros Hh. apply head_Some_elem_of in Hh. set_solver.
    + replace (match l2 with [] => None | n :: _ => Some n end) with (head l2) by by destruct l2.
      eapply dseg_set_next; [set_solver|done|done].
  - destruct l2 as [|n l2]; [done|]. destruct (Hn n) as (ng & Hng & Hng'); [done|].
    apply NoDup_cons in Hnd2 as [Hnl _].
    replace (match last l1 with Some x => Some x | None => None end) with (last l1) by by destruct (last l1).
    apply (dseg_frame (<[n := set_prev (last l1) ng]> P)).
    + intros y Hy. destruct (decide (y = n)) as [->|Hyn]; [by rewrite lookup_insert_eq|].
      rewrite lookup_insert_ne by done. apply Hrest; [set_solver| |simpl; congruence].
      intros Hh. apply last_Some_elem_of in Hh. set_solver.
    + eapply dseg_set_prev; [done|done|done].
Qed.

(** What unlinking has to leave behind. *)
Lemma unlink_finish s D Q q l1 p l2 pg P' L' :
  rep s D Q -> Q !! q = Some (l1 ++ p :: l2) -> pages s !! p = Some pg ->
  L' = <[q := fifo_of (l1 ++ l2)]> (lists s) ->
  P' !! p = Some (erase pg) ->
  (forall x, x <> p -> last l1 <> Some x -> head l2 <> Some x -> P' !! x = pages s !! x) ->
  (forall b, last l1 = Some b -> exists bg, pages s !! b = Some bg /\ P' !! b = Some (set_next (head l2) bg)) ->
  (forall n, head l2 = Some n -> exists ng, pages s !! n = Some ng /\ P' !! n = Some (set_prev (last l1) ng)) ->
  rep (mk_fifo_state P' L') D (<[q := l1 ++ l2]> Q).
Proof.
  intros Hr Hq Hp HL Hp' Hrest Hb Hn. destruct (rep_dseg _ _ _ Hr _ _ Hq) as [Hs Hnd].
  eapply rep_update; [exact Hr|exact Hq|exact HL|intros x|intros x|intros x xg| | |].
  - intros Hx Hx'. apply Hrest; [set_solver| |].
    + intros ?%last_Some_elem_of. set_solver.
    + intros ?%head_Some_elem_of. set_solver.
  - set_solver.
  - intros Hx Hx'. assert (x = p) as -> by set_solver. rewrite Hp'. by intros [= <-].
  - apply map_eq. intros x. rewrite <- (rep_data _ _ _ Hr), !lookup_fmap.
    destruct (decide (x = p)) as [->|Hxp]; [by rewrite Hp', Hp|].
    destruct (decide (last l1 = Some x)) as [Hx|Hx].
    { destruct (Hb x Hx) as (bg & -> & ->). done. }
    destruct (decide (head l2 = Some x)) as [Hx'|Hx'].
    { destruct (Hn x Hx') as (ng & -> & ->). done. }
    by rewrite Hrest.
  - eapply dseg_close; [exact Hnd|exact Hs| |done|done].
    intros x Hx Hx1 Hx2. apply Hrest; [|done|done]. intros ->.
    apply NoDup_app in Hnd as (_ & Hd & Hnd). apply NoDup_cons in Hnd as [? _]. set_solver.
  - apply NoDup_app in Hnd as (Hn1 & Hd & Hnd). apply NoDup_cons in Hnd as [Hp2 Hn2].
    apply NoDup_app. set_solver.
Qed.

Lemma head_mid (l1 l2 : list ptr) p : p ∉ l1 -> head (l1 ++ p :: l2) = Some p <-> l1 = [].
Proof. destruct l1; simpl; [done|]. split; [intros [= ->]; set_solver|done]. Qed.

Lemma last_mid (l1 l2 : list ptr) p : p ∉ l2 -> last (l1 ++ p :: l2) = Some p <-> l2 = [].
Proof.
  intros Hp. destruct l2 as [|n l2 _] using rev_ind; [by rewrite last_snoc|].
  replace (l1 ++ p :: l2 ++ [n]) with ((l1 ++ p :: l2) ++ [n]) by by rewrite <- app_assoc.
  rewrite last_snoc. split; [intros [= ->]; set_solver|by destruct l2].
Qed.

Lemma head_skip (l1 l2 : list ptr) p b : last l1 = Some b -> head (l1 ++ p :: l2) = head (l1 ++ l2).
Proof. by destruct l1. Qed.

Lemma last_skip (l1 l2 : list ptr) p n : head l2 = Some n -> last (l1 ++ p :: l2) = last (l1 ++ l2).
Proof. destruct l2 as [|n' l2]; [done|]. intros _. by rewrite !last_app. Qed.

Lemma unlink_spec s D Q q l1 p l2 :
  rep s D Q -> Q !! q = Some (l1 ++ p :: l2) ->
  wp (unlink_page q p) (fun _ s' => rep s' D (<[q := l1 ++ l2]> Q)) s.
Proof.
  intros Hr Hq. destruct (rep_dseg _ _ _ Hr _ _ Hq) as [Hs Hnd].
  pose proof (rep_list _ _ _ _ _ Hr Hq) as Hl. pose proof (ids_length _ _ _ _ _ Hr Hq) as Hlen.
  pose proof (rep_size _ _ _ Hr) as Hsz. rewrite length_app in Hlen; simpl in Hlen.
  destruct (dseg_middle _ _ _ _ _ _ _ Hs) as (pg & Hp & Hpl & Hpp & Hpn).
  replace (match last l1 with Some x => Some x | None => None end) with (last l1) in Hpp by by destruct (last l1).
  replace (match l2 with [] => None | n :: _ => Some n end) with (head l2) in Hpn by by destruct l2.
  assert (Hnum : u64 (Z.of_nat (length (l1 ++ p :: l2)) - 1) = Z.of_nat (length (l1 ++ l2))).
  { rewrite !length_app; simpl. rewrite u64_small; [lia|unfold in_u64; lia]. }
  assert (Hin : forall x, x ∈ l1 ++ l2 -> exists xg, pages s !! x = Some xg).
  { intros x Hx. destruct (rep_listed _ _ _ _ _ x Hr Hq) as (xg & ? & _); [set_solver|eauto]. }
  apply NoDup_app in Hnd as (Hn1 & Hd & Hn2). apply NoDup_cons in Hn2 as [Hp2 Hn2].
  assert (Hp1 : p ∉ l1) by set_solver.
  unfold unlink_page. do 3 fifo_step. fifo_run.
  rewrite Hpn, Hpp. pose proof (head_mid l1 l2 p Hp1) as Hhm. pose proof (last_mid l1 l2 p Hp2) as Hlm.
  assert (Hlast : forall b, last l1 = Some b -> exists bg, pages s !! b = Some bg /\ b <> p /\ head l2 <> Some b).
  { intros b Hb. apply last_Some_elem_of in Hb. destruct (Hin b) as [bg Hbg]; [set_solver|].
    exists bg. split_and!; [done|set_solver|]. intros ?%head_Some_elem_of. set_solver. }
  assert (Hhead : forall n, head l2 = Some n -> exists ng, pages s !! n = Some ng /\ n <> p).
  { intros n Hb. apply head_Some_elem_of in Hb. destruct (Hin n) as [ng Hng]; [set_solver|].
    exists ng. split; [done|set_solver]. }
  destruct (last l1) as [b|] eqn:El, (head l2) as [n|] eqn:Eh.
  - destruct (Hlast b eq_refl) as (bg & Hb & ? & Hbn), (Hhead n eq_refl) as (ng & Hng & ?).
    assert (b <> n) by (intros ->; by apply Hbn).
    assert (head (l1 ++ p :: l2) <> Some p) by (rewrite Hhm; by intros ->).
    assert (last (l1 ++ p :: l2) <> Some p) by (rewrite Hlm; by intros ->).
    fifo_run. rewrite Hpn, Hpp. fifo_run.
    eapply unlink_finish; [exact Hr|exact Hq|exact Hp| |..]; simpl.
    2-5: intros; simplify_map_eq;
      first [done | by rewrite !lookup_insert_ne by congruence | eexists; split; [done|]; congruence].
    rewrite ?insert_insert_eq. f_equal. unfold set_numentries, fifo_of; simpl.
    by rewrite Hnum, (head_skip _ _ _ b), (last_skip _ _ _ n).
  - destruct (Hlast b eq_refl) as (bg & Hb & ? & ?). 
    assert (head (l1 ++ p :: l2) <> Some p) by (rewrite Hhm; by intros ->).
    assert (last (l1 ++ p :: l2) = Some p) by (rewrite Hlm; by destruct l2).
    fifo_run. rewrite Hpn, Hpp. fifo_run.
    eapply unlink_finish; [exact Hr|exact Hq|exact Hp| |..]; simpl.
    2-5: intros; simplify_map_eq;
      first [done | by rewrite !lookup_insert_ne by congruence | eexists; split; [done|]; congruence].
    apply head_None in Eh as ->. rewrite app_nil_r in *. rewrite ?insert_insert_eq. f_equal.
    unfold set_numentries, set_last, fifo_of; simpl.
    by rewrite Hnum, (head_skip _ _ _ b), app_nil_r, El.
  - destruct (Hhead n eq_refl) as (ng & Hng & ?).
    assert (head (l1 ++ p :: l2) = Some p) by (rewrite Hhm; by apply last_None).
    assert (last (l1 ++ p :: l2) <> Some p) by (rewrite Hlm; by intros ->).
    fifo_run. rewrite Hpn, Hpp. fifo_run.
    eapply unlink_finish; [exact Hr|exact Hq|exact Hp| |..]; simpl.
    2-5: intros; simplify_map_eq;
      first [done | by rewrite !lookup_insert_ne by congruence | eexists; split; [done|]; congruence].
    apply last_None in El as ->. simpl in *. rewrite ?insert_insert_eq. f_equal.
    unfold set_numentries, set_first, fifo_of; simpl. rewrite Hnum, Eh. f_equal. by destruct l2.
  - assert (head (l1 ++ p :: l2) = Some p) by (rewrite Hhm; by apply last_None).
    assert (last (l1 ++ p :: l2) = Some p) by (rewrite Hlm; by destruct l2).
    fifo_run. rewrite Hpn, Hpp. fifo_run.
    eapply unlink_finish; [exact Hr|exact Hq|exact Hp| |..]; simpl.
    2-5: intros; simplify_map_eq;
      first [done | by rewrite !lookup_insert_ne by congruence | eexists; split; [done|]; congruence].
    apply last_None in El as ->. apply head_None in Eh as ->. by rewrite ?insert_insert_eq.
Qed.

(** *** The interface operations on sequences *)

Lemma dequeue_spec s D Q q ids :
  rep s D Q -> Q !! q = Some ids ->
  wp (dequeue_fifo q) (fun o s' =>
    o = last ids /\ rep s' D (<[q := take (pred (length ids)) ids]> Q) /\ (ids = [] -> s' = s)) s.
Proof.
  intros Hr Hq. pose proof (rep_list _ _ _ _ _ Hr Hq) as Hl. unfold dequeue_fifo. fifo_run.
  destruct ids as [|x l _] using rev_ind; simpl.
  - fifo_run. split_and!; [done| |done]. by rewrite insert_id.
  - rewrite last_snoc. fifo_run. wp_call (take_last_spec s D Q q l x) as [] s' Hr'; [done..|].
    fifo_run. split_and!; [done| |by destruct l].
    rewrite length_app, Nat.add_1_r; simpl. by rewrite take_app_length.
Qed.

Lemma tryremove_spec s D Q q l1 p l2 :
  rep s D Q -> Q !! q = Some (l1 ++ p :: l2) ->
  wp (page_list_tryremove_page (Some q) p) (fun r s' => r = 0 /\ rep s' D (<[q := l1 ++ l2]> Q)) s.
Proof.
  intros Hr Hq. pose proof (rep_list _ _ _ _ _ Hr Hq) as Hl.
  destruct (rep_listed _ _ _ _ _ p Hr Hq) as (pg & Hp & Hpl); [set_solver|].
  unfold page_list_tryremove_page. fifo_run. rewrite bool_decide_eq_false_2 by tauto. fifo_run.
  destruct (head (l1 ++ p :: l2)) eqn:E; [|by destruct l1].
  fifo_run. wp_call (unlink_spec s D Q q l1 p l2) as [] s' Hr'; [done..|]. by fifo_run.
Qed.

Lemma tryremove_other s D Q q p pg :
  rep s D Q -> pages s !! p = Some pg -> (forall ids, Q !! q = Some ids -> p ∉ ids) ->
  page_list_tryremove_page (Some q) p s = Done (-1, s).
Proof.
  intros Hr Hp Hni. unfold page_list_tryremove_page, mbind, M_bind, page_at, gets, deref, mbind, M_bind.
  rewrite Hp. simpl. rewrite bool_decide_eq_true_2; [done|].
  rewrite (rep_in_list _ _ _ _ _ _ Hr Hp). intros (ids & Hq & Hin). by apply (Hni ids).
Qed.

Lemma remove_page_spec s D Q q l1 p l2 :
  rep s D Q -> Q !! q = Some (l1 ++ p :: l2) ->
  wp (page_list_remove_page q p) (fun _ s' => rep s' D (<[q := l1 ++ l2]> Q)) s.
Proof.
  intros Hr Hq. pose proof (rep_list _ _ _ _ _ Hr Hq) as Hl.
  unfold page_list_remove_page. fifo_run.
  destruct (head (l1 ++ p :: l2)) eqn:E; [|by destruct l1]. by apply unlink_spec.
Qed.

(** The pages a batch takes, in the order it takes them. *)
Definition batch (n : nat) (ids : list ptr) : list ptr := take n (reverse ids).

Lemma dequeue_loop_spec n s D Q q ids :
  rep s D Q -> Q !! q = Some ids ->
  wp (dequeue_loop q n) (fun v s' =>
    v = batch n ids /\ rep s' D (<[q := take (length ids - n) ids]> Q)) s.
Proof.
  revert s Q ids. induction n as [|n IH]; intros s Q ids Hr Hq; simpl.
  - fifo_run. rewrite Nat.sub_0_r, firstn_all, insert_id by done. done.
  - pose proof (rep_list _ _ _ _ _ Hr Hq) as Hl. fifo_run.
    destruct ids as [|x l _] using rev_ind; simpl.
    + fifo_run. by rewrite insert_id.
    + rewrite last_snoc. fifo_run. wp_call (take_last_spec s D Q q l x) as [] s' Hr'; [done..|].
      fifo_run. wp_call (IH s' (<[q := l]> Q) l) as v s'' (-> & Hr''); [done|by rewrite lookup_insert_eq|].
      fifo_run. unfold batch. rewrite reverse_snoc, length_app, Nat.add_1_r; simpl.
      split; [done|]. rewrite insert_insert_eq in Hr''.
      rewrite take_app_le by lia. done.
Qed.

(** Changing the data of a page leaves the lists alone. *)
Lemma rep_upd_data s D Q p pg f :
  rep s D Q -> pages s !! p = Some pg ->
  next (f pg) = next pg -> prev (f pg) = prev pg -> in_list (f pg) = in_list pg ->
  rep (mk_fifo_state (<[p := f pg]> (pages s)) (lists s)) (<[p := erase (f pg)]> D) Q.
Proof.
  intros Hr Hp Hn Hpr Hl. split; simpl.
  - rewrite fmap_insert. f_equal. by apply Hr.
  - by apply Hr.
  - intros q ids Hq. destruct (rep_dseg _ _ _ Hr q ids Hq) as [Hs Hnd]. split; [|done].
    clear Hnd Hq. revert Hs. generalize (@None ptr) at 1 3. induction ids as [|x l IH]; intros prv; simpl; [done|].
    intros [(xg & Hx & ? & ? & ?) Hs]. split; [|by apply IH].
    destruct (decide (x = p)) as [->|Hne].
    + exists (f pg). rewrite lookup_insert_eq. simplify_map_eq. split_and!; congruence.
    + exists xg. by rewrite lookup_insert_ne.
  - intros x xg [[<- <-]|[Hne Hx]]%lookup_insert_Some Hu.
    + destruct (rep_free _ _ _ Hr _ _ Hp Hu) as (?&?&?). split_and!; unfold free_links; congruence.
    + by apply (rep_free _ _ _ Hr x).
  - rewrite map_size_insert_Some by (erewrite rep_page_data by done; eauto). by apply Hr.
Qed.

Lemma upd_data_spec s D Q p d f :
  rep s D Q -> D !! p = Some d ->
  (forall pg, next (f pg) = next pg /\ prev (f pg) = prev pg /\ in_list (f pg) = in_list pg) ->
  (forall pg, erase (f pg) = f (erase pg)) ->
  wp (upd_page p f) (fun _ s' => rep s' (<[p := f d]> D) Q) s.
Proof.
  intros Hr Hd Hf He. destruct (rep_page _ _ _ _ _ Hr Hd) as (pg & Hp & <-).
  eapply wp_upd_page; [done|]. rewrite <- He. destruct (Hf pg) as (?&?&?). by apply rep_upd_data.
Qed.

Lemma page_at_spec s D Q p d :
  rep s D Q -> D !! p = Some d ->
  wp (page_at p) (fun pg s' => s' = s /\ erase pg = d /\ pages s !! p = Some pg) s.
Proof.
  intros Hr Hd. destruct (rep_page _ _ _ _ _ Hr Hd) as (pg & Hp & Hpd).
  by eapply wp_page_at.
Qed.

(** Fresh pages, and all lists empty. *)
Lemma rep_init (D : gmap ptr user_page) (L : gset lid) :
  (forall p d, D !! p = Some d -> free_links d) -> Z.of_nat (size D) < 2 ^ 64 ->
  rep (mk_fifo_state D (gset_to_gmap (mk_fifo None None 0) L)) D (gset_to_gmap [] L).
Proof.
  intros Hf Hs. split; simpl.
  - apply map_eq. intros p. rewrite lookup_fmap. destruct (D !! p) as [d|] eqn:E; [|done].
    destruct (Hf p d E) as (?&?&?). simpl. f_equal. destruct d; simpl in *. by subst.
  - apply map_eq. intros q. rewrite lookup_fmap, !lookup_gset_to_gmap.
    by case_guard.
  - intros q ids. rewrite lookup_gset_to_gmap_Some. intros [_ <-]. split; [done|apply NoDup_nil_2].
  - eauto.
  - done.
Qed.

(** ** The abstract interface: operations on sequences *)

Inductive fifo_op : Type :=
  | OpEnqueue (q : lid) (p : ptr)
  | OpDequeue (q : lid)
  | OpRemove (q : lid) (p : ptr)
  | OpTryRemove (q : option lid) (p : ptr)
  | OpDequeueVector (q : lid) (n : Z)
  | OpNext (q : lid) (p : option ptr).

Inductive fifo_result : Type :=
  | ResUnit
  | ResPage (o : option ptr)
  | ResCode (c : Z)
  | ResPages (v : list ptr).

Definition run_fifo_op (op : fifo_op) : M fifo_state fifo_result :=
  match op with
  | OpEnqueue q p => enqueue_fifo q p;; mret ResUnit
  | OpDequeue q => o ← dequeue_fifo q; mret (ResPage o)
  | OpRemove q p => page_list_remove_page q p;; mret ResUnit
  | OpTryRemove q p => c ← page_list_tryremove_page q p; mret (ResCode c)
  | OpDequeueVector q n => v ← dequeue_fifo_vector q n; mret (ResPages v)
  | OpNext q p => o ← next_page q p; mret (ResPage o)
  end.

Definition remove_one (p : ptr) (ids : list ptr) : list ptr := filter (fun x => x <> p) ids.

(** The page before [p], towards the first end; [prv] is before the first. *)
Fixpoint page_before (prv : option ptr) (p : ptr) (ids : list ptr) : option ptr :=
  match ids with
  | [] => None
  | x :: ids => if decide (x = p) then prv else page_before (Some x) p ids
  end.

(** The specification; [None] where the caller breaks the contract (an
    unknown list or page, a page already in a list, a page not in this one). *)
Definition spec_fifo_op (D : gmap ptr user_page) (op : fifo_op) (Q : gmap lid (list ptr))
    : option (fifo_result * gmap lid (list ptr)) :=
  match op with
  | OpEnqueue q p =>
      ids ← Q !! q; _ ← D !! p;
      guard (map_Forall (fun _ l => p ∉ l) Q);;
      Some (ResUnit, <[q := p :: ids]> Q)
  | OpDequeue q =>
      ids ← Q !! q;
      Some (ResPage (last ids), <[q := take (pred (length ids)) ids]> Q)
  | OpRemove q p =>
      ids ← Q !! q;
      guard (p ∈ ids);; Some (ResUnit, <[q := remove_one p ids]> Q)
  | OpTryRemove None p => Some (ResCode (-1), Q)
  | OpTryRemove (Some q) p =>
      _ ← D !! p; ids ← Q !! q;
      Some (if decide (p ∈ ids) then (ResCode 0, <[q := remove_one p ids]> Q) else (ResCode (-1), Q))
  | OpDequeueVector q n =>
      ids ← Q !! q;
      Some (ResPages (batch (Z.to_nat n) ids), <[q := take (length ids - Z.to_nat n) ids]> Q)
  | OpNext q None => ids ← Q !! q; Some (ResPage (last ids), Q)
  | OpNext q (Some p) =>
      ids ← Q !! q;
      guard (p ∈ ids);; Some (ResPage (page_before None p ids), Q)
  end.

Lemma remove_one_notin p ids : p ∉ ids -> remove_one p ids = ids.
Proof.
  unfold remove_one. induction ids as [|x ids IH]; intros Hn; [done|].
  apply not_elem_of_cons in Hn as [? ?]. rewrite filter_cons_True by congruence. by rewrite IH.
Qed.

Lemma remove_one_split p l1 l2 : NoDup (l1 ++ p :: l2) -> remove_one p (l1 ++ p :: l2) = l1 ++ l2.
Proof.
  intros (Hn1 & Hd & [Hp Hn2]%NoDup_cons)%NoDup_app. unfold remove_one.
  rewrite filter_app, filter_cons_False by (by intros []).
  f_equal; apply remove_one_notin; set_solver.
Qed.

Lemma page_before_split prv p l1 l2 :
  p ∉ l1 -> page_before prv p (l1 ++ p :: l2) = match last l1 with Some x => Some x | None => prv end.
Proof.
  revert prv. induction l1 as [|x l1 IH]; intros prv Hp; simpl; [by rewrite decide_True|].
  apply not_elem_of_cons in Hp as [Hx Hp]. rewrite decide_False by congruence. rewrite IH by done.
  destruct l1 as [|y l1]; [done|]. change (last (x :: y :: l1)) with (last (y :: l1)).
  destruct (last (y :: l1)) eqn:E; [done|]. by apply last_None in E.
Qed.

(** Walking a list from its last end. *)
Lemma next_page_last s D Q q ids :
  rep s D Q -> Q !! q = Some ids -> wp (next_page q None) (fun o s' => o = last ids /\ s' = s) s.
Proof.
  intros Hr Hq. unfold next_page. wp_norm. eapply wp_list_at; [by eapply rep_list|]. by wp_norm.
Qed.

Lemma next_page_before s D Q q ids p :
  rep s D Q -> Q !! q = Some ids -> p ∈ ids ->
  wp (next_page q (Some p)) (fun o s' => o = page_before None p ids /\ s' = s) s.
Proof.
  intros Hr Hq Hin. destruct (list_elem_of_split _ _ Hin) as (l1 & l2 & ->).
  destruct (rep_dseg _ _ _ Hr _ _ Hq) as [Hs (_ & Hnd & _)%NoDup_app].
  destruct (dseg_middle _ _ _ _ _ _ _ Hs) as (pg & Hp & Hl & Hprev & _).
  unfold next_page. wp_norm. eapply wp_page_at; [exact Hp|]. wp_norm.
  apply wp_assert; [by apply bool_decide_eq_true|]. wp_norm. split; [|done].
  rewrite Hprev, page_before_split; [done|]. intros Hp1. apply (Hnd p Hp1). by left.
Qed.

Lemma fifo_op_refines s D Q op r Q' :
  rep s D Q -> spec_fifo_op D op Q = Some (r, Q') ->
  wp (run_fifo_op op) (fun r' s' => r' = r /\ rep s' D Q') s.
Proof.
  intros Hr Hspec. destruct op as [q p|q|q p|[q|] p|q n|q [p|]]; simpl in Hspec;
    unfold run_fifo_op; wp_norm.
  - destruct (Q !! q) as [ids|] eqn:Hq, (D !! p) as [d|] eqn:Hd; simplify_eq/=.
    case_guard as Hu; simplify_eq/=.
    wp_call (enqueue_spec s D Q q) as [] s' Hr'; [done..| |by fifo_run].
    intros q' l Hq'. by eapply Hu.
  - destruct (Q !! q) as [ids|] eqn:Hq; simplify_eq/=.
    wp_call (dequeue_spec s D Q q) as o s' (-> & Hr' & _); [done..|]. by fifo_run.
  - destruct (Q !! q) as [ids|] eqn:Hq; simplify_eq/=. case_guard as Hin; simplify_eq/=.
    destruct (list_elem_of_split _ _ Hin) as (l1 & l2 & ->).
    rewrite remove_one_split by apply (rep_dseg _ _ _ Hr _ _ Hq).
    wp_call (remove_page_spec s D Q q l1 p l2) as [] s' Hr'; [done..|]. by fifo_run.
  - destruct (Q !! q) as [ids|] eqn:Hq, (D !! p) as [d|] eqn:Hd; simplify_eq/=.
    destruct (decide _) as [Hin|Hin]; simplify_eq/=.
    + destruct (list_elem_of_split _ _ Hin) as (l1 & l2 & ->).
      rewrite remove_one_split by apply (rep_dseg _ _ _ Hr _ _ Hq).
      wp_call (tryremove_spec s D Q q l1 p l2) as c s' (-> & Hr'); [done..|]. by fifo_run.
    + destruct (rep_page _ _ _ _ _ Hr Hd) as (pg & Hp & _). unfold wp.
      rewrite (tryremove_other s D _ q p pg Hr Hp); [done|]. intros; by simplify_eq.
  - by simplify_eq.
  - destruct (Q !! q) as [ids|] eqn:Hq; simplify_eq/=.
    wp_call (dequeue_loop_spec (Z.to_nat n) s D Q q) as v s' (-> & Hr'); [done..|]. by fifo_run.
  - destruct (Q !! q) as [ids|] eqn:Hq; simplify_eq/=. case_guard as Hin; simplify_eq/=.
    wp_call (next_page_before s D Q' q) as o s' (-> & ->); [done..|]. by wp_norm.
  - destruct (Q !! q) as [ids|] eqn:Hq; simplify_eq/=.
    wp_call (next_page_last s D Q' q) as o s' (-> & ->); [done..|]. by wp_norm.
Qed.

(** ** Properties *)

(** C4: each of the six functions of the list whose caller keeps the contract
    returns (no assertion of the code fails, no dangling access), gives the
    result of the sequence specification, and leaves a store that represents
    the specified sequences: enqueuing adds at the first end, dequeuing takes
    from the last end, both removals drop exactly the page, a batch takes the
    last [n] pages, and the walk with [next_page] starts at the last page and
    goes to the page before; no other list and no page data change. *)
Theorem fifo_refines_sequences (s : fifo_state) (D : gmap ptr user_page) (Q Q' : gmap lid (list ptr))
    (op : fifo_op) (r : fifo_result) :
  rep s D Q -> spec_fifo_op D op Q = Some (r, Q') ->
  exists s', run_fifo_op op s = Done (r, s') /\ rep s' D Q'.
Proof.
  intros Hr Hs. pose proof (fifo_op_refines _ _ _ _ _ _ Hr Hs) as H.
  apply wp_elim in H as (r' & s' & Hrun & -> & Hr'). eauto.
Qed.

(** Enqueue the pages of [ps] one after the other. *)
Definition enqueue_all (q : lid) (ps : list ptr) : M fifo_state unit :=
  foldr (fun p k => enqueue_fifo q p;; k) (mret tt) ps.

Lemma enqueue_all_spec s D Q q ids ps :
  rep s D Q -> Q !! q = Some ids -> NoDup ps ->
  (forall p, p ∈ ps -> is_Some (D !! p) /\ unlisted Q p) ->
  wp (enqueue_all q ps) (fun _ s' => rep s' D (<[q := reverse ps ++ ids]> Q)) s.
Proof.
  revert s Q ids. induction ps as [|p ps IH]; intros s Q ids Hr Hq Hnd Hps.
  - simpl. fifo_run. by rewrite insert_id.
  - apply NoDup_cons in Hnd as [Hp Hnd]. destruct (Hps p) as [[d Hd] Hu]; [by left|]. simpl. wp_norm.
    wp_call (enqueue_spec s D Q q ids p d) as [] s' Hr'; [done..|].
    eapply wp_mono; [apply (IH s' (<[q := p :: ids]> Q) (p :: ids) Hr')|].
    + apply lookup_insert_eq.
    + done.
    + intros x Hx. destruct (Hps x) as [? Hux]; [by right|]. split; [done|].
      intros q' l [[<- <-]|[? Hq']]%lookup_insert_Some; [|by eapply Hux].
      apply not_elem_of_cons. split; [by intros ->|by apply (Hux q)].
    + intros [] s'' Hr''. rewrite insert_insert_eq in Hr''. by rewrite reverse_cons, <- app_assoc.
Qed.

(** First in, first out: pages enqueued one after the other onto an
    empty list come out of one batch dequeue in the order they went in, and
    the list is empty again. *)
Theorem fifo_order (s : fifo_state) (D : gmap ptr user_page) (Q : gmap lid (list ptr)) (q : lid) (ps : list ptr) :
  rep s D Q -> Q !! q = Some [] -> NoDup ps ->
  (forall p, p ∈ ps -> is_Some (D !! p) /\ unlisted Q p) ->
  exists s', (enqueue_all q ps;; dequeue_fifo_vector q (Z.of_nat (length ps))) s = Done (ps, s') /\ rep s' D Q.
Proof.
  intros Hr Hq Hnd Hps. cut (wp (enqueue_all q ps;; dequeue_fifo_vector q (Z.of_nat (length ps)))
    (fun v s' => v = ps /\ rep s' D Q) s).
  { intros (v & s' & Hrun & -> & ?)%wp_elim. eauto. }
  wp_norm. wp_call (enqueue_all_spec s D Q q [] ps) as [] s' Hr'; [done..|]. rewrite app_nil_r in Hr'.
  unfold dequeue_fifo_vector. rewrite Nat2Z.id.
  wp_call (dequeue_loop_spec (length ps) s' D _ q (reverse ps)) as v s'' (-> & Hr'');
    [done|by rewrite lookup_insert_eq|].
  unfold batch. rewrite reverse_involutive, firstn_all. split; [done|].
  rewrite insert_insert_eq, length_reverse, Nat.sub_diag in Hr''; simpl in Hr''. by rewrite insert_id in Hr''.
Qed.

(** ** Witnesses *)

(** Three fresh pages and two empty lists. *)
Definition demo_pages : gmap ptr user_page :=
  {[1%positive := page0; 2%positive := page0; 3%positive := page0]}.
Definition demo_fifo : fifo_state :=
  mk_fifo_state demo_pages (gset_to_gmap (mk_fifo None None 0) {[1%positive; 2%positive]}).
Definition demo_seqs : gmap lid (list ptr) := gset_to_gmap [] {[1%positive; 2%positive]}.

Lemma demo_rep : rep demo_fifo demo_pages demo_seqs.
Proof.
  apply rep_init; [|done].
  apply (bool_decide_unpack (map_Forall (fun _ d => free_links d) demo_pages)). by vm_compute.
Qed.

Lemma fifo_refines_sequences_witness :
  exists s', run_fifo_op (OpEnqueue 1 2) demo_fifo = Done (ResUnit, s') /\
    rep s' demo_pages (<[1%positive := [2%positive]]> demo_seqs).
Proof.
  apply (fifo_refines_sequences demo_fifo demo_pages demo_seqs); [apply demo_rep|reflexivity].
Defined.

Lemma fifo_order_witness :
  exists s', (enqueue_all 1 [3; 1; 2]%positive;; dequeue_fifo_vector 1 3) demo_fifo =
    Done ([3; 1; 2]%positive, s') /\ rep s' demo_pages demo_seqs.
Proof.
  apply (fifo_order demo_fifo demo_pages demo_seqs 1 [3; 1; 2]%positive).
  - apply demo_rep.
  - reflexivity.
  - by apply (bool_decide_unpack (NoDup _)); vm_compute.
  - intros p Hp. split.
    + repeat (apply elem_of_cons in Hp as [->|Hp]; [by eexists|]). by apply elem_of_nil in Hp.
    + intros q ids [_ <-]%lookup_gset_to_gmap_Some. by apply not_elem_of_nil.
Defined.
