(* ===== verification/RdmaAlloc.v ===== *)
(** The block list of the simulated remote memory: the loops of
    [rdma_sim_allocate] and [rdma_sim_free] in [src/src/rdma_sim.c], with
    their invariant.  The list is private to its file, so it is a Rocq list
    in list order. *)

From S2P Require Import Prelude UserPage.

Local Open Scope Z_scope.

Definition SIM_REMOTE_MEMORY_SIZE : Z := 1 * 1024 * 1024 * 1024.
Definition SIM_REMOTE_MEMORY_ALIGN : Z := 4096.

Record mem_block_t : Type := mk_block {
  blk_addr : Z;
  blk_size : Z;
  blk_free : bool;
}.

#[export] Instance mem_block_eq_dec : EqDecision mem_block_t.
Proof. solve_decision. Defined.

(** [(size + ALIGN - 1) & ~(ALIGN - 1)] on [size_t]. *)
Definition align_size (size : Z) : Z :=
  Z.land (u64 (u64 (size + SIM_REMOTE_MEMORY_ALIGN) - 1))
         (Z.lxor (SIM_REMOTE_MEMORY_ALIGN - 1) (2 ^ 64 - 1)).

(** The loop of [rdma_sim_allocate] for an aligned [size]: first fit, split
    when the block is larger; [malloc_ok] is whether the [malloc] of the
    remainder's node succeeds. *)
Fixpoint alloc_block (malloc_ok : bool) (size : Z) (bs : list mem_block_t) : option (Z * list mem_block_t) :=
  match bs with
  | [] => None
  | current :: next =>
      if blk_free current && (size <=? blk_size current) then
        let taken := mk_block (blk_addr current) size false in
        Some (blk_addr current,
          if (size <? blk_size current) && malloc_ok
          then taken :: mk_block (u64 (blk_addr current + size)) (u64 (blk_size current - size)) true :: next
          else taken :: next)
      else
        match alloc_block malloc_ok size next with
        | Some (a, next') => Some (a, current :: next')
        | None => None
        end
  end.

(** Merge a freed block with its successor, when that is free and adjacent. *)
Definition merge_next (current : mem_block_t) (next : list mem_block_t) : mem_block_t * list mem_block_t :=
  match next with
  | to_free :: next' =>
      if blk_free to_free && (u64 (blk_addr current + blk_size current) =? blk_addr to_free)
      then (mk_block (blk_addr current) (u64 (blk_size current + blk_size to_free)) true, next')
      else (mk_block (blk_addr current) (blk_size current) true, next)
  | [] => (mk_block (blk_addr current) (blk_size current) true, [])
  end.

(** Merge a freed block into its predecessor, when that is free and adjacent. *)
Definition merge_prev (prev : option mem_block_t) (current : mem_block_t) (next : list mem_block_t) : list mem_block_t :=
  match prev with
  | Some p =>
      if blk_free p && (u64 (blk_addr p + blk_size p) =? blk_addr current)
      then mk_block (blk_addr p) (u64 (blk_size p + blk_size current)) true :: next
      else p :: current :: next
  | None => current :: next
  end.

(** The loop of [rdma_sim_free]: the size given back and the list from
    [prev] on. *)
Fixpoint free_block (prev : option mem_block_t) (remote_addr : Z) (bs : list mem_block_t)
    : option (Z * list mem_block_t) :=
  match bs with
  | [] => None
  | current :: next =>
      if negb (blk_free current) && (blk_addr current =? remote_addr) then
        let '(current', next') := merge_next current next in
        Some (blk_size current, merge_prev prev current' next')
      else
        match free_block (Some current) remote_addr next with
        | Some (sz, l) => Some (sz, match prev with Some p => p :: l | None => l end)
        | None => None
        end
  end.

(** ** Invariant *)

Definition aligned (x : Z) : Prop := x mod SIM_REMOTE_MEMORY_ALIGN = 0.

(** The blocks lie in [lo, hi) in address order without overlap, and each is
    a positive number of alignment units. *)
Fixpoint placed (lo hi : Z) (bs : list mem_block_t) : Prop :=
  match bs with
  | [] => lo <= hi
  | b :: bs => lo <= blk_addr b /\ 0 < blk_size b /\ aligned (blk_size b) /\
      aligned (blk_addr b) /\ placed (blk_addr b + blk_size b) hi bs
  end.

(** No two list neighbours are both free and adjacent in memory; [e] is the
    end of the block before, when that is free. *)
Fixpoint coalesced_from (e : option Z) (bs : list mem_block_t) : Prop :=
  match bs with
  | [] => True
  | b :: bs =>
      (blk_free b = true -> e <> Some (blk_addr b)) /\
      coalesced_from (if blk_free b then Some (blk_addr b + blk_size b) else None) bs
  end.

Abbreviation coalesced := (coalesced_from None).

(** No byte between the blocks is lost. *)
Fixpoint tiled (lo hi : Z) (bs : list mem_block_t) : Prop :=
  match bs with
  | [] => lo = hi
  | b :: bs => blk_addr b = lo /\ tiled (lo + blk_size b) hi bs
  end.

Definition used_bytes (bs : list mem_block_t) : Z :=
  foldr (fun b n => (if blk_free b then 0 else blk_size b) + n) 0 bs.

Definition allocated (bs : list mem_block_t) (b : mem_block_t) : Prop := b ∈ bs /\ blk_free b = false.

(** The block handed out for a request. *)
Abbreviation taken a size := (mk_block a size false).

(** No free block holds [size] bytes. *)
Definition no_fit (size : Z) (bs : list mem_block_t) : Prop :=
  Forall (fun b => blk_free b = true -> blk_size b < size) bs.

(** ** Lemmas *)

Lemma align_size_spec size :
  0 < size < 2 ^ 64 - SIM_REMOTE_MEMORY_ALIGN ->
  aligned (align_size size) /\ size <= align_size size < size + SIM_REMOTE_MEMORY_ALIGN.
Proof. intros H. apply (page_round_up_spec size). change PAGE_SIZE with SIM_REMOTE_MEMORY_ALIGN. lia. Qed.

Lemma placed_le lo hi bs : placed lo hi bs -> lo <= hi.
Proof. revert lo. induction bs as [|b bs IH]; intros lo; simpl; [done|]. intros (?&?&?&?&H%IH). lia. Qed.

Lemma placed_mono lo lo' hi bs : lo' <= lo -> placed lo hi bs -> placed lo' hi bs.
Proof. destruct bs; simpl; [lia|]. intros ? (?&?); split; [lia|done]. Qed.

Lemma placed_in lo hi bs b :
  placed lo hi bs -> b ∈ bs ->
  lo <= blk_addr b /\ 0 < blk_size b /\ blk_addr b + blk_size b <= hi /\
  aligned (blk_addr b) /\ aligned (blk_size b).
Proof.
  revert lo. induction bs as [|x bs IH]; intros lo; simpl; [by intros _ ?%elem_of_nil|].
  intros (?&?&?&?&Hp) [->|Hin]%elem_of_cons.
  - pose proof (placed_le _ _ _ Hp). auto with lia.
  - destruct (IH _ Hp Hin). split; [lia|done].
Qed.

(** Distinct blocks share no byte. *)
Lemma placed_disjoint lo hi bs b1 b2 :
  placed lo hi bs -> b1 ∈ bs -> b2 ∈ bs -> b1 <> b2 ->
  blk_addr b1 + blk_size b1 <= blk_addr b2 \/ blk_addr b2 + blk_size b2 <= blk_addr b1.
Proof.
  revert lo. induction bs as [|x bs IH]; intros lo; simpl; [by intros _ ?%elem_of_nil|].
  intros (?&?&?&?&Hp) [->|Hb1]%elem_of_cons [->|Hb2]%elem_of_cons Hne; [done| | |by eapply IH].
  - left. by destruct (placed_in _ _ _ _ Hp Hb2).
  - right. by destruct (placed_in _ _ _ _ Hp Hb1).
Qed.

Lemma allocated_cons b bs x : allocated (b :: bs) x <-> (x = b /\ blk_free b = false) \/ allocated bs x.
Proof. unfold allocated. rewrite elem_of_cons. naive_solver. Qed.

Lemma allocated_nil x : allocated [] x <-> False.
Proof. unfold allocated. rewrite elem_of_nil. naive_solver. Qed.

Lemma mod_align_add a b :
  aligned a -> aligned b ->
  aligned (a + b).
Proof. unfold aligned. intros Ha Hb. rewrite Z.add_mod, Ha, Hb by done. reflexivity. Qed.

Lemma mod_align_sub a b :
  aligned a -> aligned b ->
  aligned (a - b).
Proof. unfold aligned. intros Ha Hb. rewrite Zminus_mod, Ha, Hb. reflexivity. Qed.

Lemma alloc_block_None ok size bs :
  alloc_block ok size bs = None <-> no_fit size bs.
Proof.
  unfold no_fit. induction bs as [|b bs IH]; simpl; [by split; [constructor|]|].
  rewrite Forall_cons, <- IH. destruct (blk_free b && (size <=? blk_size b)) eqn:E.
  - split; [done|]. intros [H _]. destruct (blk_free b); [|done]. specialize (H eq_refl). simpl in E. lia.
  - destruct (alloc_block ok size bs) as [[]|]; [naive_solver|]. split; [|done].
    intros _. split; [|done]. intros Hf. rewrite Hf in E. simpl in E. lia.
Qed.

Lemma alloc_block_ge ok size lo' hi bs a bs' :
  placed lo' hi bs -> alloc_block ok size bs = Some (a, bs') -> lo' <= a.
Proof.
  revert lo' a bs'. induction bs as [|b bs IH]; intros lo' a bs'; simpl; [done|].
  intros (?&?&?&?&Hp). destruct (blk_free b && _); [intros [= <- _]; done|].
  destruct (alloc_block ok size bs) as [[a0 bs0]|] eqn:E; [|done]. intros [= <- _].
  pose proof (IH _ _ _ Hp eq_refl). lia.
Qed.

Section alloc_free.
Context (lo hi : Z) (Hlo : 0 < lo) (Hhi : hi <= 2 ^ 64).

Lemma alloc_block_spec ok size lo' bs a bs' :
  lo <= lo' -> placed lo' hi bs -> 0 < size -> aligned size ->
  alloc_block ok size bs = Some (a, bs') ->
  placed lo' hi bs' /\ used_bytes bs' = used_bytes bs + size /\
  (forall b, allocated bs' b <-> b = taken a size \/ allocated bs b).
Proof.
  revert lo' a bs'. induction bs as [|b bs IH]; intros lo' a bs' Hlo' Hp Hsz Hal; simpl; [done|].
  pose proof Hp as (H1&H2&H3&H4&Hp'). pose proof (placed_le _ _ _ Hp') as Hle.
  destruct (blk_free b && (size <=? blk_size b)) eqn:Eb.
  - assert (Hf : blk_free b = true) by (destruct (blk_free b); [done|]; simpl in Eb; done).
    assert (Hs : size <= blk_size b) by lia.
    assert (Hall : forall l, (forall b, allocated l b <-> allocated bs b) -> forall x,
      allocated (taken (blk_addr b) size :: l) x <-> x = taken (blk_addr b) size \/ allocated (b :: bs) x).
    { intros l Hl x. rewrite !allocated_cons, Hl. simpl. rewrite Hf. naive_solver. }
    destruct ((size <? blk_size b) && ok) eqn:E; intros [= <- <-]; simpl.
    + rewrite !u64_small by (unfold in_u64; lia). split; [|split; [rewrite Hf; lia|]].
      * split_and!; try done; try lia; [by apply mod_align_sub|by apply mod_align_add|].
        eapply placed_mono; [|done]. lia.
      * apply Hall. intros x. rewrite allocated_cons. simpl. naive_solver.
    + split; [|split; [rewrite Hf; lia|by apply Hall]]. split_and!; try done; try lia.
      eapply placed_mono; [|done]. lia.
  - destruct (alloc_block ok size bs) as [[a0 bs0]|] eqn:Ea; [|done]. intros [= <- <-].
    destruct (IH (blk_addr b + blk_size b) a0 bs0) as (Hpl & Hu & Hall); try done; [lia|].
    simpl. split; [done|]. split; [lia|]. intros x. rewrite !allocated_cons, Hall. naive_solver.
Qed.

Lemma coalesced_weaken e bs : coalesced_from e bs -> coalesced bs.
Proof. destruct bs; simpl; [done|]. by intros [_ ?]. Qed.

Lemma alloc_block_coalesced ok size lo' bs a bs' e :
  lo <= lo' -> placed lo' hi bs -> 0 < size -> coalesced_from e bs ->
  alloc_block ok size bs = Some (a, bs') -> coalesced_from e bs'.
Proof.
  revert lo' a bs' e. induction bs as [|b bs IH]; intros lo' a bs' e Hlo' Hp Hsz Hc; simpl; [done|].
  pose proof Hp as (H1&H2&H3&H4&Hp'). pose proof (placed_le _ _ _ Hp') as Hle.
  destruct Hc as [He Hc]. destruct (blk_free b && (size <=? blk_size b)) eqn:Eb.
  - destruct (blk_free b); [|done].
    destruct ((size <? blk_size b) && ok) eqn:E; intros [= <- <-]; simpl.
    + rewrite !u64_small by (unfold in_u64; lia).
      replace (blk_addr b + size + (blk_size b - size)) with (blk_addr b + blk_size b) by lia. done.
    + split; [done|]. by eapply coalesced_weaken.
  - destruct (alloc_block ok size bs) as [[a0 bs0]|] eqn:Ea; [|done]. intros [= <- <-].
    simpl. split; [done|]. eapply IH; [|done|done|done|done]. lia.
Qed.

(** A split in place loses nothing. *)
Lemma alloc_block_tiled size lo' bs a bs' :
  lo <= lo' -> placed lo' hi bs -> 0 < size -> tiled lo' hi bs ->
  alloc_block true size bs = Some (a, bs') -> tiled lo' hi bs'.
Proof.
  revert lo' a bs'. induction bs as [|b bs IH]; intros lo' a bs' Hlo' Hp Hsz Ht; simpl; [done|].
  pose proof Hp as (H1&H2&H3&H4&Hp'). pose proof (placed_le _ _ _ Hp') as Hle.
  destruct Ht as [Ha Ht]. destruct (blk_free b && (size <=? blk_size b)) eqn:Eb.
  - destruct (blk_free b); [|done].
    destruct ((size <? blk_size b) && true) eqn:E; intros [= <- <-]; simpl.
    + rewrite !u64_small by (unfold in_u64; lia).
      replace (lo' + size + (blk_size b - size)) with (lo' + blk_size b) by lia.
      split_and!; [done|lia|done].
    + assert (size = blk_size b) as -> by lia. done.
  - destruct (alloc_block true size bs) as [[a0 bs0]|] eqn:Ea; [|done]. intros [= <- <-].
    simpl. split; [done|]. rewrite <- Ha. eapply IH; [|done| |by rewrite Ha|done]; lia.
Qed.

(** *** Freeing *)

(** What [merge_next] and [merge_prev] leave, when the sums do not wrap. *)
Lemma merge_next_spec current next lo' :
  lo <= lo' -> placed lo' hi (current :: next) ->
  let '(c, next') := merge_next current next in
  blk_addr c = blk_addr current /\ blk_free c = true /\
  placed lo' hi (c :: next') /\ used_bytes next' = used_bytes next /\
  (forall x, allocated next' x <-> allocated next x) /\
  (tiled lo' hi (current :: next) -> tiled lo' hi (c :: next')) /\
  (forall e, coalesced_from e next -> coalesced_from (Some (blk_addr c + blk_size c)) next').
Proof.
  intros Hlo' (H1&H2&H3&H4&Hp). destruct next as [|n next]; simpl.
  { simpl in Hp. split_and!; naive_solver. }
  pose proof Hp as (N1&N2&N3&N4&Hp'). pose proof (placed_le _ _ _ Hp') as Hle.
  rewrite (u64_small (blk_addr current + _)) by (unfold in_u64; lia).
  destruct (blk_free n && _) eqn:E; simpl.
  - destruct (blk_free n) eqn:En; [|done]. simpl in E.
    rewrite u64_small by (unfold in_u64; lia). split_and!; try done; try lia.
    + by apply mod_align_add.
    + by replace (blk_addr current + (blk_size current + blk_size n)) with (blk_addr n + blk_size n) by lia.
    + intros x. rewrite allocated_cons, En. naive_solver.
    + intros (?&?&?). split; [done|]. by rewrite Z.add_assoc.
    + intros e [_ ?]. by replace (blk_addr current + (blk_size current + blk_size n))
        with (blk_addr n + blk_size n) by lia.
  - split_and!; try done. intros e [_ ?]. split; [|done]. intros En [= Heq]. rewrite En in E. simpl in E. lia.
Qed.

Lemma merge_prev_spec p c next lo' e :
  lo <= lo' -> blk_free c = true -> placed lo' hi (p :: c :: next) ->
  let l := merge_prev (Some p) c next in
  placed lo' hi l /\ used_bytes l = used_bytes (p :: next) /\
  (forall x, allocated l x <-> allocated (p :: next) x) /\
  (tiled lo' hi (p :: c :: next) -> tiled lo' hi l) /\
  (coalesced_from e [p] -> coalesced_from (Some (blk_addr c + blk_size c)) next -> coalesced_from e l).
Proof.
  intros Hlo' Hc (H1&H2&H3&H4&N1&N2&N3&N4&Hp). pose proof (placed_le _ _ _ Hp) as Hle. simpl.
  rewrite (u64_small (blk_addr p + _)) by (unfold in_u64; lia).
  destruct (blk_free p && _) eqn:E; simpl.
  - destruct (blk_free p) eqn:Ep; [|done]. simpl in E.
    rewrite u64_small by (unfold in_u64; lia).
    replace (blk_addr p + (blk_size p + blk_size c)) with (blk_addr c + blk_size c) by lia.
    split_and!; try done; try lia.
    + by apply mod_align_add.
    + intros x. rewrite !allocated_cons, Ep. simpl. naive_solver.
    + intros (?&?&?). split; [done|]. by rewrite Z.add_assoc.
    + intros [? _] ?. by split.
  - rewrite Hc. split_and!; try done.
    + intros x. rewrite !allocated_cons, Hc. naive_solver.
    + intros [? _] ?. split_and!; try done.
      intros _ Heq. destruct (blk_free p); [|done]. simplify_eq. simpl in E. lia.
Qed.
Definition prev_list (prev : option mem_block_t) : list mem_block_t :=
  match prev with Some p => [p] | None => [] end.

Definition prev_end (lo' : Z) (prev : option mem_block_t) : Z :=
  match prev with Some p => blk_addr p + blk_size p | None => lo' end.

Lemma placed_tail lo' prev b bs :
  lo <= lo' -> placed lo' hi (prev_list prev ++ b :: bs) ->
  lo <= prev_end lo' prev /\ placed (prev_end lo' prev) hi (b :: bs).
Proof. destruct prev as [p|]; simpl; [|done]. intros ? (?&?&?&?&?). split; [lia|done]. Qed.

Lemma coalesced_tail prev b bs :
  coalesced (prev_list prev ++ b :: bs) -> coalesced (b :: bs).
Proof. destruct prev as [p|]; simpl; [|done]. by intros (_&_&?). Qed.

(** The step of the loop that finds the block. *)
Lemma free_here prev addr lo' b bs e :
  lo <= lo' -> placed lo' hi (prev_list prev ++ b :: bs) -> b = taken addr (blk_size b) ->
  (prev = None -> e = None) ->
  let '(c, bs') := merge_next b bs in
  let l := merge_prev prev c bs' in
  placed lo' hi l /\ used_bytes l = used_bytes (prev_list prev ++ b :: bs) - blk_size b /\
  (forall x, allocated l x <-> allocated (prev_list prev ++ bs) x) /\
  (tiled lo' hi (prev_list prev ++ b :: bs) -> tiled lo' hi l) /\
  (coalesced_from e (prev_list prev ++ b :: bs) -> coalesced_from e l).
Proof.
  intros Hlo' Hp Hb He. assert (Ef : blk_free b = false) by (by rewrite Hb).
  destruct prev as [p|]; cbn [prev_list app] in *.
  - pose proof Hp as (P1&P2&P3&P4&Hpb).
    pose proof (merge_next_spec b bs (blk_addr p + blk_size p) ltac:(lia) Hpb) as Hm.
    destruct (merge_next b bs) as [c bs'] eqn:Em. destruct Hm as (Hc1&Hc2&Hc3&Hc4&Hc5&Hc6&Hc7).
    destruct (merge_prev_spec p c bs' lo' e Hlo' Hc2 (conj P1 (conj P2 (conj P3 (conj P4 Hc3)))))
      as (M1&M2&M3&M4&M5). split_and!; try done.
    + rewrite M2. simpl. rewrite Ef, Hc4. lia.
    + intros x. by rewrite M3, !allocated_cons, Hc5.
    + intros [Ha Ht]. apply M4. split; [done|]. rewrite <- Ha in Ht |- *. by apply Hc6.
    + intros (?&_&?). apply M5; [done|]. by eapply Hc7.
  - pose proof (merge_next_spec b bs _ Hlo' Hp) as Hm.
    destruct (merge_next b bs) as [c bs'] eqn:Em. destruct Hm as (Hc1&Hc2&Hc3&Hc4&Hc5&Hc6&Hc7).
    split_and!; try done.
    + simpl. rewrite Hc2, Hc4, Ef. lia.
    + intros x. cbn [merge_prev]. rewrite allocated_cons, Hc5, Hc2. naive_solver.
    + rewrite (He eq_refl). intros [_ Hco]. cbn [merge_prev coalesced_from]. split; [done|]. rewrite Hc2. by eapply Hc7.
Qed.

Lemma not_allocated_twice lo1 addr b bs x :
  placed lo1 hi (b :: bs) -> blk_addr b = addr -> allocated bs x -> x <> taken addr (blk_size b).
Proof.
  intros (?&?&?&?&Hpl) Ha [Hx _] ->. destruct (placed_in _ _ _ _ Hpl Hx) as (?&?&_). simpl in *. lia.
Qed.

(** The freed block is gone from the allocated ones, its size is returned,
    and the rest of the invariant is kept; [lo'] is where the blocks from
    [prev] on start. *)
Lemma free_block_spec prev addr lo' bs sz l e :
  lo <= lo' -> placed lo' hi (prev_list prev ++ bs) -> (prev = None -> e = None) ->
  free_block prev addr bs = Some (sz, l) ->
  placed lo' hi l /\ allocated bs (taken addr sz) /\
  used_bytes l = used_bytes (prev_list prev ++ bs) - sz /\
  (forall b, allocated l b <-> allocated (prev_list prev ++ bs) b /\ b <> taken addr sz) /\
  (tiled lo' hi (prev_list prev ++ bs) -> tiled lo' hi l) /\
  (coalesced_from e (prev_list prev ++ bs) -> coalesced_from e l).
Proof.
  revert prev lo' sz l e. induction bs as [|b bs IH]; intros prev lo' sz l e Hlo' Hp He; simpl; [done|].
  destruct (placed_tail _ _ _ _ Hlo' Hp) as (Hlo1 & Hp1).
  destruct (negb (blk_free b) && (blk_addr b =? addr)) eqn:Eb.
  - destruct (blk_free b) eqn:Ef; [done|]. apply Z.eqb_eq in Eb.
    assert (b = taken addr (blk_size b)) as Hb by (destruct b; simpl in *; by subst).
    pose proof (free_here prev addr lo' b bs e Hlo' Hp Hb He) as Hh.
    destruct (merge_next b bs) as [c bs'] eqn:Em. destruct Hh as (H1&H2&H3&H4&H5).
    intros [= <- <-]. split_and!; try done; [rewrite allocated_cons; auto|].
    intros x. rewrite H3. destruct prev as [p|]; cbn [prev_list app]; rewrite !allocated_cons, Ef.
    + split.
      * intros [[-> Hf]|Hx]; [|by split; [auto|eapply not_allocated_twice]].
        split; [by auto|]. intros ->. simpl in Hp. lia.
      * intros [[?|[[-> _]|?]] Hne]; [auto|congruence|auto].
    + split; [intros Hx; by split; [auto|eapply not_allocated_twice]|].
      intros [[[-> _]|?] Hne]; [congruence|done].
  - destruct (free_block (Some b) addr bs) as [[sz0 l0]|] eqn:Er; [|done]. intros [= <- <-].
    destruct prev as [p|]; cbn [prev_list app prev_end] in *.
    + assert (Hx : allocated bs (taken addr sz0)) by (by eapply (IH (Some b) _ sz0 l0 None)).
      assert (Hpx : p <> taken addr sz0).
      { intros ->. destruct Hx as [Hx _]. destruct Hp1 as (?&?&?&?&Hp1).
        destruct (placed_in _ _ _ _ Hp1 Hx) as (?&?&_). simpl in *. lia. }
      destruct (IH (Some b) _ sz0 l0 (if blk_free p then Some (blk_addr p + blk_size p) else None)
        Hlo1 Hp1 ltac:(done) Er) as (I1&_&I3&I4&I5&I6).
      destruct Hp as (?&?&?&?&_). split_and!; try done.
      * rewrite allocated_cons. auto.
      * simpl in *. lia.
      * intros x. rewrite (allocated_cons p), I4, (allocated_cons p). naive_solver.
      * intros [Ha Ht]. split; [done|]. rewrite <- Ha in Ht |- *. by apply I5.
      * intros [? ?]. split; [done|]. by apply I6.
    + destruct (IH (Some b) _ sz0 l0 e Hlo1 Hp1 ltac:(done) Er) as (I1&I2&I3&I4&I5&I6).
      split_and!; try done. rewrite allocated_cons. auto.
Qed.

Lemma free_block_None prev addr bs :
  free_block prev addr bs = None <-> forall sz, ~ allocated bs (taken addr sz).
Proof.
  revert prev. induction bs as [|b bs IH]; intros prev; simpl.
  { split; [|done]. by intros _ sz ?%allocated_nil. }
  destruct (negb (blk_free b) && (blk_addr b =? addr)) eqn:E.
  - destruct (merge_next b bs). split; [done|]. intros H. destruct (H (blk_size b)).
    apply allocated_cons. left. destruct b as [a n f]; simpl in *. destruct f; [done|]. split; [|done].
    f_equal. lia.
  - specialize (IH (Some b)). destruct (free_block (Some b) addr bs) as [[]|].
    + split; [done|]. intros H. enough (@Some (Z * list mem_block_t) (z, l) = None) by done.
      apply IH. intros sz Ha. apply (H sz), allocated_cons. auto.
    + split; [|done]. intros _ sz. rewrite allocated_cons. intros [[<- Hf]|Ha].
      * simpl in E. lia.
      * by apply (proj1 IH eq_refl sz).
Qed.

(** Freeing what was just allocated restores the list, when the node of
    the remainder could be made. *)
Lemma free_after_alloc prev size lo' bs a bs' :
  lo <= lo' -> placed lo' hi (prev_list prev ++ bs) -> coalesced (prev_list prev ++ bs) ->
  0 < size -> alloc_block true size bs = Some (a, bs') ->
  free_block prev a bs' = Some (size, prev_list prev ++ bs).
Proof.
  revert prev lo' bs'. induction bs as [|b bs IH]; intros prev lo' bs' Hlo' Hp Hc Hsz; simpl; [done|].
  destruct (placed_tail _ _ _ _ Hlo' Hp) as (Hlo1 & Hp1).
  pose proof Hp1 as (H1&H2&H3&H4&Hp'). pose proof (placed_le _ _ _ Hp') as Hle.
  destruct (blk_free b && (size <=? blk_size b)) eqn:Eb.
  - destruct b as [ba bsz bf]; simpl in *. destruct bf; [|done]. simpl in Eb.
    assert (Hn : merge_prev prev (mk_block ba bsz true) bs = prev_list prev ++ mk_block ba bsz true :: bs).
    { destruct prev as [p|]; [|done]. simpl. destruct (blk_free p && _) eqn:E; [|done].
      destruct (blk_free p) eqn:Ep; [|done]. simpl in Hc, Hp. exfalso. rewrite Ep in Hc.
      rewrite u64_small in E by (unfold in_u64; lia). destruct Hc as (_&Hc&_). apply Hc; [done|]. f_equal.
      simpl in E. lia. }
    destruct ((size <? bsz) && true) eqn:E; intros [= <- <-]; simpl; rewrite Z.eqb_refl; simpl.
    + rewrite Z.eqb_refl, (u64_small (bsz - size)), u64_small by (unfold in_u64; lia).
      replace (size + (bsz - size)) with bsz by lia. by rewrite Hn.
    + assert (size = bsz) as -> by lia.
      replace (merge_next (taken ba bsz) bs) with (mk_block ba bsz true, bs); [by rewrite Hn|].
      apply coalesced_tail in Hc. simpl in Hc.
      destruct bs as [|n bs]; simpl; [done|]. destruct (blk_free n && _) eqn:En; [|done].
      destruct (blk_free n) eqn:Efn; [|done]. exfalso. destruct Hc as [_ [Hc _]]. apply Hc; [done|].
      destruct Hp' as (?&?&?&?&Hp2). pose proof (placed_le _ _ _ Hp2).
      rewrite u64_small in En by (unfold in_u64; lia). f_equal. simpl in En. lia.
  - destruct (alloc_block true size bs) as [[a0 bs0]|] eqn:Ea; [|done]. intros [= <- <-]. simpl.
    replace (negb (blk_free b) && (blk_addr b =? a0)) with false.
    + erewrite (IH (Some b)); [by destruct prev|apply Hlo1|done| |done|done].
      apply coalesced_tail in Hc. apply Hc.
    + pose proof (alloc_block_ge true size (blk_addr b + blk_size b) hi bs a0 bs0 Hp' Ea). lia.
Qed.
End alloc_free.

(** ** The invariant of the server's list *)

Definition sim_base : Z := 0x4000000000.

Record alloc_inv (bs : list mem_block_t) (used : Z) : Prop := mk_alloc_inv {
  ai_placed : placed sim_base (sim_base + SIM_REMOTE_MEMORY_SIZE) bs;
  ai_coalesced : coalesced bs;
  ai_used : used = used_bytes bs;
}.

Lemma used_bytes_bounds lo hi bs : placed lo hi bs -> 0 <= used_bytes bs <= hi - lo.
Proof.
  revert lo. induction bs as [|b bs IH]; intros lo; simpl; [lia|].
  intros (?&?&?&?&Hp). specialize (IH _ Hp). destruct (blk_free b); lia.
Qed.

Lemma alloc_inv_init : alloc_inv [mk_block sim_base SIM_REMOTE_MEMORY_SIZE true] 0.
Proof. by constructor. Qed.

Lemma alloc_inv_range bs used : alloc_inv bs used -> 0 <= used <= SIM_REMOTE_MEMORY_SIZE.
Proof. intros [Hp _ ->]. pose proof (used_bytes_bounds _ _ _ Hp). lia. Qed.

Lemma alloc_inv_member bs used b :
  alloc_inv bs used -> b ∈ bs ->
  sim_base <= blk_addr b /\ 0 < blk_size b /\ blk_addr b + blk_size b <= sim_base + SIM_REMOTE_MEMORY_SIZE /\
  aligned (blk_addr b) /\ aligned (blk_size b).
Proof. intros [Hp _ _] Hb. by eapply placed_in. Qed.

Lemma alloc_inv_alloc ok size bs used a bs' :
  alloc_inv bs used -> 0 < size -> aligned size -> alloc_block ok size bs = Some (a, bs') ->
  alloc_inv bs' (used + size) /\ (forall b, allocated bs' b <-> b = taken a size \/ allocated bs b).
Proof.
  intros [Hp Hc ->] Hsz Hal Ha.
  destruct (alloc_block_spec sim_base (sim_base + SIM_REMOTE_MEMORY_SIZE) ltac:(done) ltac:(done) _ _ _ _ _ _ ltac:(done) Hp Hsz Hal Ha) as (Hp'&Hu&Hin).
  split; [|done]. constructor; [done| |by rewrite Hu].
  by eapply (alloc_block_coalesced sim_base (sim_base + SIM_REMOTE_MEMORY_SIZE) ltac:(done) ltac:(done)
    ok size sim_base bs a bs').
Qed.

Lemma alloc_inv_free addr bs used sz bs' :
  alloc_inv bs used -> free_block None addr bs = Some (sz, bs') ->
  alloc_inv bs' (used - sz) /\ allocated bs (taken addr sz) /\
  (forall b, allocated bs' b <-> allocated bs b /\ b <> taken addr sz).
Proof.
  intros [Hp Hc ->] Hf.
  destruct (free_block_spec sim_base (sim_base + SIM_REMOTE_MEMORY_SIZE) ltac:(done) ltac:(done) None addr sim_base bs sz bs' None
    ltac:(done) Hp ltac:(done) Hf) as (Hp'&Hin&Hu&Hall&_&Hc').
  split_and!; try done. constructor; auto.
Qed.

Lemma alloc_block_source ok size bs a bs' :
  alloc_block ok size bs = Some (a, bs') -> exists n, mk_block a n true ∈ bs /\ size <= n.
Proof.
  revert a bs'. induction bs as [|b bs IH]; intros a bs'; simpl; [done|].
  destruct (blk_free b && _) eqn:E.
  - intros Ha. assert (a = blk_addr b) as -> by (by destruct (_ && _); simplify_eq).
    destruct b as [ba bn bf]; simpl in *. destruct bf; [|done]. exists bn. split; [by left|simpl in E; lia].
  - destruct (alloc_block ok size bs) as [[a0 l0]|]; [|done]. intros [= -> _].
    destruct (IH a l0 eq_refl) as (n & ? & ?). exists n. split; [by right|done].
Qed.

(** The block handed out is apart from every live one. *)
Lemma alloc_inv_fresh ok size bs used a bs' b :
  alloc_inv bs used -> alloc_block ok size bs = Some (a, bs') -> allocated bs b ->
  a + size <= blk_addr b \/ blk_addr b + blk_size b <= a.
Proof.
  intros [Hp _ _] Ha [Hb Hf]. destruct (alloc_block_source _ _ _ _ _ Ha) as (n & Hn & Hle).
  destruct (placed_disjoint _ _ _ _ b Hp Hn Hb); simpl in *; [by intros <-|lia|lia].
Qed.

(** A live block shares no byte with another one. *)
Lemma alloc_inv_disjoint bs used b1 b2 :
  alloc_inv bs used -> allocated bs b1 -> allocated bs b2 -> b1 <> b2 ->
  blk_addr b1 + blk_size b1 <= blk_addr b2 \/ blk_addr b2 + blk_size b2 <= blk_addr b1.
Proof. intros [Hp _ _] [H1 _] [H2 _]. by eapply placed_disjoint. Qed.

(** Which block is taken does not depend on the node of the remainder. *)
Lemma alloc_block_same ok ok' size bs a l :
  alloc_block ok size bs = Some (a, l) -> exists l', alloc_block ok' size bs = Some (a, l').
Proof.
  revert a l. induction bs as [|b bs IH]; intros a l; simpl; [done|].
  destruct (blk_free b && _); [intros [= <- _]; eauto|].
  destruct (alloc_block ok size bs) as [[a0 l0]|]; [|done]. intros [= -> _].
  destruct (IH a l0 eq_refl) as [l' ->]. eauto.
Qed.

Lemma alloc_inv_restore size bs used a bs' :
  alloc_inv bs used -> 0 < size -> alloc_block true size bs = Some (a, bs') ->
  free_block None a bs' = Some (size, bs).
Proof.
  intros [Hp Hc _] Hsz Ha.
  by apply (free_after_alloc sim_base (sim_base + SIM_REMOTE_MEMORY_SIZE) ltac:(done) ltac:(done) None size sim_base).
Qed.
