(* ===== verification/RdmaSim.v ===== *)
(** The simulated RDMA fabric of [src/src/rdma_sim.c] and
    [src/src/include/rdma_sim.h]: a shared-memory request ring between the
    ExtMem process (the client) and the memory server process, and the
    server's block allocator and memory.

    The two processes are two [rdma_proc] records, because every [static]
    variable of the file exists once in each of them; the System V segments
    they attach are kept by identifier.  The functions take the process [me]
    that runs them.  What the other process does while a function sleeps is
    the parameter [usleep]. *)

From S2P Require Import Prelude UserPage RdmaAlloc.

Local Open Scope Z_scope.

(** ** Data *)

Definition MAX_RDMA_REQUESTS : Z := 128.
Definition RDMA_PAGE_BUFFER_SIZE : Z := 4096.

Inductive rdma_op_type_e : Type :=
  | RDMA_OP_READ
  | RDMA_OP_WRITE
  | RDMA_OP_INIT
  | RDMA_OP_SHUTDOWN
  | RDMA_OP_ALLOCATE
  | RDMA_OP_FREE.

Inductive rdma_req_status_e : Type :=
  | RDMA_REQ_PENDING
  | RDMA_REQ_PROCESSING
  | RDMA_REQ_COMPLETED
  | RDMA_REQ_FAILED.

#[export] Instance rdma_op_type_eq_dec : EqDecision rdma_op_type_e.
Proof. solve_decision. Defined.
#[export] Instance rdma_req_status_eq_dec : EqDecision rdma_req_status_e.
Proof. solve_decision. Defined.

Record rdma_request_t : Type := mk_request {
  request_id : Z;
  op_type : rdma_op_type_e;
  local_addr : Z;
  remote_addr : Z;
  req_size : Z;
  status : rdma_req_status_e;
  error_code : Z;
  data_in_shm_buffer : bool;
  buffer_offset : Z;
  timestamp : Z;
}.

#[export] Instance rdma_request_eq_dec : EqDecision rdma_request_t.
Proof. solve_decision. Defined.

Record rdma_shm_t : Type := mk_shm {
  requests : list rdma_request_t;
  head : Z;
  tail : Z;
  count : Z;
  shm_initialized : bool;
  shutdown_requested : bool;
  page_buffer : list byte;
  remote_memory_base : Z;
  remote_memory_size : Z;
  remote_memory_used : Z;
  total_requests : Z;
  completed_requests : Z;
  failed_requests : Z;
  page_buffer_used : Z;
}.

(** The [static] variables of one process, its address space, and the
    results of its coming library calls: [p_malloc] those of [malloc] (0 is
    NULL, and an empty list is a heap without space), [p_os] whether the
    coming [shmget] and [shmat] calls succeed. *)
Record rdma_proc : Type := mk_proc {
  rdma_shm : option Z;
  shmid : Z;
  is_initialized : bool;
  request_id_counter : Z;
  sim_remote_memory_blocks : list mem_block_t;
  sim_remote_memory_ptr : option mem;
  p_mem : mem;
  p_malloc : list Z;
  p_os : list bool;
}.

Inductive role : Type := Server | Client.

(** The segments by identifier, the one registered under [RDMA_SHM_KEY], the
    two processes, and the clock ([tv_sec], [tv_usec]). *)
Record rdma_sys : Type := mk_sys {
  segs : gmap Z rdma_shm_t;
  shm_key : option Z;
  next_shmid : Z;
  server : rdma_proc;
  client : rdma_proc;
  clock : Z * Z;
}.

Definition proc (me : role) (s : rdma_sys) : rdma_proc :=
  match me with Server => server s | Client => client s end.

(** *** Assignments *)

Definition set_status x r := mk_request (request_id r) (op_type r) (local_addr r) (remote_addr r)
  (req_size r) x (error_code r) (data_in_shm_buffer r) (buffer_offset r) (timestamp r).
Definition set_error_code x r := mk_request (request_id r) (op_type r) (local_addr r) (remote_addr r)
  (req_size r) (status r) x (data_in_shm_buffer r) (buffer_offset r) (timestamp r).
Definition set_remote_addr x r := mk_request (request_id r) (op_type r) (local_addr r) x
  (req_size r) (status r) (error_code r) (data_in_shm_buffer r) (buffer_offset r) (timestamp r).
Definition set_data_in_shm_buffer x r := mk_request (request_id r) (op_type r) (local_addr r) (remote_addr r)
  (req_size r) (status r) (error_code r) x (buffer_offset r) (timestamp r).

Definition set_requests x s := mk_shm x (head s) (tail s) (count s) (shm_initialized s) (shutdown_requested s)
  (page_buffer s) (remote_memory_base s) (remote_memory_size s) (remote_memory_used s)
  (total_requests s) (completed_requests s) (failed_requests s) (page_buffer_used s).
Definition set_queue h t c s := mk_shm (requests s) h t c (shm_initialized s) (shutdown_requested s)
  (page_buffer s) (remote_memory_base s) (remote_memory_size s) (remote_memory_used s)
  (total_requests s) (completed_requests s) (failed_requests s) (page_buffer_used s).
Definition set_shm_initialized x s := mk_shm (requests s) (head s) (tail s) (count s) x (shutdown_requested s)
  (page_buffer s) (remote_memory_base s) (remote_memory_size s) (remote_memory_used s)
  (total_requests s) (completed_requests s) (failed_requests s) (page_buffer_used s).
Definition set_shutdown_requested x s := mk_shm (requests s) (head s) (tail s) (count s) (shm_initialized s) x
  (page_buffer s) (remote_memory_base s) (remote_memory_size s) (remote_memory_used s)
  (total_requests s) (completed_requests s) (failed_requests s) (page_buffer_used s).
Definition set_page_buffer x s := mk_shm (requests s) (head s) (tail s) (count s) (shm_initialized s)
  (shutdown_requested s) x (remote_memory_base s) (remote_memory_size s) (remote_memory_used s)
  (total_requests s) (completed_requests s) (failed_requests s) (page_buffer_used s).
Definition set_remote_memory base size used s := mk_shm (requests s) (head s) (tail s) (count s) (shm_initialized s)
  (shutdown_requested s) (page_buffer s) base size used
  (total_requests s) (completed_requests s) (failed_requests s) (page_buffer_used s).
Definition set_remote_memory_used x s := set_remote_memory (remote_memory_base s) (remote_memory_size s) x s.
Definition set_counters total completed failed s := mk_shm (requests s) (head s) (tail s) (count s)
  (shm_initialized s) (shutdown_requested s) (page_buffer s) (remote_memory_base s) (remote_memory_size s)
  (remote_memory_used s) total completed failed (page_buffer_used s).
Definition set_page_buffer_used x s := mk_shm (requests s) (head s) (tail s) (count s) (shm_initialized s)
  (shutdown_requested s) (page_buffer s) (remote_memory_base s) (remote_memory_size s) (remote_memory_used s)
  (total_requests s) (completed_requests s) (failed_requests s) x.

Definition set_rdma_shm x p := mk_proc x (shmid p) (is_initialized p) (request_id_counter p)
  (sim_remote_memory_blocks p) (sim_remote_memory_ptr p) (p_mem p) (p_malloc p) (p_os p).
Definition set_shmid x p := mk_proc (rdma_shm p) x (is_initialized p) (request_id_counter p)
  (sim_remote_memory_blocks p) (sim_remote_memory_ptr p) (p_mem p) (p_malloc p) (p_os p).
Definition set_is_initialized x p := mk_proc (rdma_shm p) (shmid p) x (request_id_counter p)
  (sim_remote_memory_blocks p) (sim_remote_memory_ptr p) (p_mem p) (p_malloc p) (p_os p).
Definition set_request_id_counter x p := mk_proc (rdma_shm p) (shmid p) (is_initialized p) x
  (sim_remote_memory_blocks p) (sim_remote_memory_ptr p) (p_mem p) (p_malloc p) (p_os p).
Definition set_blocks x p := mk_proc (rdma_shm p) (shmid p) (is_initialized p) (request_id_counter p)
  x (sim_remote_memory_ptr p) (p_mem p) (p_malloc p) (p_os p).
Definition set_sim_ptr x p := mk_proc (rdma_shm p) (shmid p) (is_initialized p) (request_id_counter p)
  (sim_remote_memory_blocks p) x (p_mem p) (p_malloc p) (p_os p).
Definition set_p_mem x p := mk_proc (rdma_shm p) (shmid p) (is_initialized p) (request_id_counter p)
  (sim_remote_memory_blocks p) (sim_remote_memory_ptr p) x (p_malloc p) (p_os p).
Definition set_p_malloc x p := mk_proc (rdma_shm p) (shmid p) (is_initialized p) (request_id_counter p)
  (sim_remote_memory_blocks p) (sim_remote_memory_ptr p) (p_mem p) x (p_os p).
Definition set_p_os x p := mk_proc (rdma_shm p) (shmid p) (is_initialized p) (request_id_counter p)
  (sim_remote_memory_blocks p) (sim_remote_memory_ptr p) (p_mem p) (p_malloc p) x.

Definition set_proc (me : role) (p : rdma_proc) (s : rdma_sys) : rdma_sys :=
  match me with
  | Server => mk_sys (segs s) (shm_key s) (next_shmid s) p (client s) (clock s)
  | Client => mk_sys (segs s) (shm_key s) (next_shmid s) (server s) p (clock s)
  end.
Definition set_segs x s := mk_sys x (shm_key s) (next_shmid s) (server s) (client s) (clock s).
Definition set_shm_key x s := mk_sys (segs s) x (next_shmid s) (server s) (client s) (clock s).

(** ** Library calls and the shared segment *)

Definition upd_proc (me : role) (f : rdma_proc -> rdma_proc) : M rdma_sys unit :=
  modify (fun s => set_proc me (f (proc me s)) s).

Definition malloc (me : role) : M rdma_sys Z :=
  p ← gets (proc me);
  match p_malloc p with
  | [] => mret 0
  | a :: rest => upd_proc me (set_p_malloc rest);; mret a
  end.

(** Whether the next [shmget] or [shmat] succeeds. *)
Definition os_ok (me : role) : M rdma_sys bool :=
  p ← gets (proc me);
  match p_os p with
  | [] => mret true
  | b :: rest => upd_proc me (set_p_os rest);; mret b
  end.

(** The segment [rdma_shm] points to, and an assignment in it. *)
Definition the_shm (me : role) : M rdma_sys rdma_shm_t :=
  p ← gets (proc me);
  id ← deref (rdma_shm p);
  o ← gets (fun s => segs s !! id);
  deref o.

Definition upd_shm (me : role) (f : rdma_shm_t -> rdma_shm_t) : M rdma_sys unit :=
  p ← gets (proc me);
  id ← deref (rdma_shm p);
  o ← gets (fun s => segs s !! id);
  shm ← deref o;
  modify (fun s => set_segs (<[id := f shm]> (segs s)) s).

(** [!(rdma_shm == NULL || !atomic_load(&rdma_shm->initialized))]. *)
Definition connected (me : role) : M rdma_sys bool :=
  p ← gets (proc me);
  match rdma_shm p with
  | None => mret false
  | Some _ => shm ← the_shm me; mret (shm_initialized shm)
  end.

(** [rdma_shm->requests[index]] and an assignment to it. *)
Definition the_req (me : role) (index : Z) : M rdma_sys rdma_request_t :=
  shm ← the_shm me;
  deref (requests shm !! Z.to_nat index).

Definition upd_req (me : role) (index : Z) (f : rdma_request_t -> rdma_request_t) : M rdma_sys unit :=
  r ← the_req me index;
  upd_shm me (fun shm => set_requests (<[Z.to_nat index := f r]> (requests shm)) shm).

(** [memcpy(page_buffer + off, bs, |bs|)], [memcpy(_, page_buffer + off, n)],
    and the same on the server's memory: an access past the end of the
    object is a fault. *)
Definition page_buffer_write (me : role) (off : Z) (bs : list byte) : M rdma_sys unit :=
  if (0 <=? off) && (off + Z.of_nat (length bs) <=? RDMA_PAGE_BUFFER_SIZE)
  then upd_shm me (fun shm => set_page_buffer (splice (Z.to_nat off) bs (page_buffer shm)) shm)
  else fail InvalidAccess.

Definition page_buffer_read (me : role) (off n : Z) : M rdma_sys (list byte) :=
  shm ← the_shm me;
  if (0 <=? off) && (off + n <=? RDMA_PAGE_BUFFER_SIZE)
  then mret (take (Z.to_nat n) (drop (Z.to_nat off) (page_buffer shm)))
  else fail InvalidAccess.

Definition sim_read (me : role) (off n : Z) : M rdma_sys (list byte) :=
  p ← gets (proc me);
  m ← deref (sim_remote_memory_ptr p);
  if (0 <=? off) && (off + n <=? SIM_REMOTE_MEMORY_SIZE)
  then mret (mem_read m off (Z.to_nat n))
  else fail InvalidAccess.

Definition sim_write (me : role) (off : Z) (bs : list byte) : M rdma_sys unit :=
  p ← gets (proc me);
  m ← deref (sim_remote_memory_ptr p);
  if (0 <=? off) && (off + Z.of_nat (length bs) <=? SIM_REMOTE_MEMORY_SIZE)
  then upd_proc me (set_sim_ptr (Some (mem_write m off bs)))
  else fail InvalidAccess.

(** Reads and writes of the process's own memory. *)
Definition proc_read (me : role) (a n : Z) : M rdma_sys (list byte) :=
  p ← gets (proc me); mret (mem_read (p_mem p) a (Z.to_nat n)).

Definition proc_write (me : role) (a : Z) (bs : list byte) : M rdma_sys unit :=
  upd_proc me (fun p => set_p_mem (mem_write (p_mem p) a bs) p).

Definition rdma_get_timestamp : M rdma_sys Z :=
  tv ← gets clock; mret (u64 (u64 (tv.1 * 1000000) + tv.2)).

(** ** The allocator *)

Definition init_sim_remote_memory_allocator (me : role) : M rdma_sys Z :=
  p ← gets (proc me);
  match sim_remote_memory_blocks p with
  | _ :: _ => mret 0
  | [] =>
      m ← malloc me;
      if m =? 0 then upd_proc me (set_sim_ptr None);; mret (-1)
      else
        upd_proc me (set_sim_ptr (Some (fun _ => Byte.x00)));;
        b ← malloc me;
        if b =? 0 then upd_proc me (set_sim_ptr None);; mret (-1)
        else
          upd_proc me (set_blocks [mk_block sim_base SIM_REMOTE_MEMORY_SIZE true]);;
          when (bool_decide (rdma_shm p <> None))
            (upd_shm me (set_remote_memory sim_base SIM_REMOTE_MEMORY_SIZE 0));;
          mret 0
  end.

(** The second result is what is stored through [remote_addr], on success. *)
Definition rdma_sim_allocate (me : role) (size : Z) (remote_addr_null : bool) : M rdma_sys (Z * option Z) :=
  if remote_addr_null || (size =? 0) then mret (EINVAL, None)
  else
    c ← connected me;
    if negb c then mret (ENOTCONN, None)
    else
      let size := align_size size in
      p ← gets (proc me);
      match alloc_block true size (sim_remote_memory_blocks p) with
      | None => mret (ENOMEM, None)
      | Some (a, split) =>
          let whole := sim_remote_memory_blocks p in
          ok ← (if (length whole <? length split)%nat
                then n ← malloc me; mret (negb (n =? 0))
                else mret true);
          match alloc_block ok size whole with
          | None => mret (ENOMEM, None)
          | Some (a, blocks) =>
              upd_proc me (set_blocks blocks);;
              upd_shm me (fun shm => set_remote_memory_used (u64 (remote_memory_used shm + size)) shm);;
              mret (0, Some a)
          end
      end.

Definition rdma_sim_free (me : role) (addr : Z) : M rdma_sys Z :=
  c ← connected me;
  if negb c then mret ENOTCONN
  else
    p ← gets (proc me);
    match free_block None addr (sim_remote_memory_blocks p) with
    | None => mret EINVAL
    | Some (size, blocks) =>
        upd_shm me (fun shm => set_remote_memory_used (u64 (remote_memory_used shm - size)) shm);;
        upd_proc me (set_blocks blocks);;
        mret 0
    end.

(** ** Attaching and detaching *)

(** [memset(rdma_shm, 0, sizeof(rdma_shm_t))]; zero is [RDMA_OP_READ] and
    [RDMA_REQ_PENDING]. *)
Definition zero_request : rdma_request_t := mk_request 0 RDMA_OP_READ 0 0 0 RDMA_REQ_PENDING 0 false 0 0.

Definition zero_shm : rdma_shm_t :=
  mk_shm (replicate (Z.to_nat MAX_RDMA_REQUESTS) zero_request) 0 0 0 false false
    (replicate (Z.to_nat RDMA_PAGE_BUFFER_SIZE) Byte.x00) 0 0 0 0 0 0 0.

(** [shmget(RDMA_SHM_KEY, _, IPC_CREAT)] and [shmget(RDMA_SHM_KEY, 0, 0)]. *)
Definition shmget_create (me : role) : M rdma_sys Z :=
  ok ← os_ok me;
  if negb ok then mret (-1)
  else
    s ← get;
    match shm_key s with
    | Some id => mret id
    | None =>
        let id := next_shmid s in
        put (mk_sys (<[id := zero_shm]> (segs s)) (Some id) (id + 1) (server s) (client s) (clock s));;
        mret id
    end.

Definition shmget_find (me : role) : M rdma_sys Z :=
  ok ← os_ok me;
  k ← gets shm_key;
  mret (match k with Some id => if (ok : bool) then id else -1 | None => -1 end).

(** [shmctl(shmid, IPC_RMID, NULL)]: the key is free again; a process that is
    still attached keeps the segment. *)
Definition shm_remove (id : Z) : M rdma_sys unit :=
  modify (fun s => if bool_decide (shm_key s = Some id) then set_shm_key None s else s).

Section processes.
(** What other processes do, and how far the clock moves, during one
    [usleep]. *)
Variable usleep : M rdma_sys unit.

(** The client's wait for the server: [timeout] more polls of 100 ms. *)
Fixpoint init_wait (me : role) (timeout : nat) : M rdma_sys bool :=
  match timeout with
  | O => mret false
  | S timeout =>
      shm ← the_shm me;
      if shm_initialized shm then mret true
      else usleep;; init_wait me timeout
  end.

Definition rdma_sim_init (me : role) (is_server : bool) : M rdma_sys Z :=
  p ← gets (proc me);
  c ← connected me;
  if is_initialized p && c then mret 0
  else if is_server then
    id ← shmget_create me;
    upd_proc me (set_shmid id);;
    if id =? -1 then mret (-1)
    else
      ok ← os_ok me;
      if negb ok then shm_remove id;; mret (-1)
      else
        upd_proc me (set_rdma_shm (Some id));;
        upd_shm me (fun _ => zero_shm);;
        r ← init_sim_remote_memory_allocator me;
        if negb (r =? 0) then
          shm_remove id;;
          upd_proc me (set_rdma_shm None);;
          mret (-1)
        else
          upd_shm me (set_shm_initialized true);;
          upd_proc me (set_is_initialized true);;
          mret 0
  else
    id ← shmget_find me;
    upd_proc me (set_shmid id);;
    if id =? -1 then mret (-1)
    else
      ok ← os_ok me;
      if negb ok then mret (-1)
      else
        upd_proc me (set_rdma_shm (Some id));;
        server_initialized ← init_wait me 200;
        if negb server_initialized then
          upd_proc me (set_rdma_shm None);;
          mret (-1)
        else
          upd_proc me (set_is_initialized true);;
          mret 0.

(** The returned pointer, or [None] for NULL. *)
Definition get_rdma_shm (me : role) : M rdma_sys (option rdma_shm_t) :=
  p ← gets (proc me);
  match rdma_shm p with
  | Some _ => shm ← the_shm me; mret (Some shm)
  | None =>
      r ← rdma_sim_init me false;
      if negb (r =? 0) then mret None
      else shm ← the_shm me; mret (Some shm)
  end.

Definition rdma_sim_cleanup (me : role) (is_server : bool) : M rdma_sys unit :=
  p ← gets (proc me);
  when (bool_decide (rdma_shm p <> None))
    (when is_server (upd_shm me (set_shutdown_requested true));;
     upd_proc me (set_rdma_shm None));;
  when (is_server && negb (shmid p =? -1))
    (shm_remove (shmid p);;
     upd_proc me (set_shmid (-1)));;
  when (is_server && bool_decide (is_Some (sim_remote_memory_ptr p)))
    (upd_proc me (set_sim_ptr None));;
  upd_proc me (set_is_initialized false).

(** ** The request ring: client side *)

Definition rdma_submit_request (me : role) (op : rdma_op_type_e) (laddr raddr size data : Z) : M rdma_sys Z :=
  c ← connected me;
  if negb c then mret 0
  else
    shm ← the_shm me;
    if MAX_RDMA_REQUESTS <=? count shm then mret 0
    else
      p ← gets (proc me);
      let req_id := request_id_counter p in
      upd_proc me (set_request_id_counter (u64 (req_id + 1)));;
      let index := tail shm in
      now ← rdma_get_timestamp;
      upd_req me index (fun _ => mk_request req_id op laddr raddr size RDMA_REQ_PENDING 0 false 0 now);;
      fits ← (if bool_decide (op = RDMA_OP_WRITE) && negb (data =? 0) && (0 <? size)
              then
                if size <=? RDMA_PAGE_BUFFER_SIZE
                then
                  bs ← proc_read me data size;
                  page_buffer_write me 0 bs;;
                  upd_req me index (set_data_in_shm_buffer true);;
                  upd_shm me (set_page_buffer_used size);;
                  mret true
                else mret false
              else mret true);
      if negb (fits : bool) then mret 0
      else
        upd_shm me (fun s => set_queue (head s) ((index + 1) mod MAX_RDMA_REQUESTS) (count s + 1) s);;
        upd_shm me (fun s => set_counters (u64 (total_requests s + 1)) (completed_requests s) (failed_requests s) s);;
        mret req_id.

(** The scan of [rdma_wait_request]: the first slot with this identifier
    whose status is not 0, which is [RDMA_REQ_PENDING]. *)
Fixpoint find_request (id : Z) (rs : list rdma_request_t) : option rdma_request_t :=
  match rs with
  | [] => None
  | r :: rs =>
      if (request_id r =? id) && negb (bool_decide (status r = RDMA_REQ_PENDING))
      then Some r else find_request id rs
  end.

Definition wait_attempts : Z := 10000 * 1000 / 1000.

(** A completed request: its return value and [*error_code]. *)
Definition finish_request (me : role) (r : rdma_request_t) : M rdma_sys (Z * Z) :=
  if bool_decide (op_type r = RDMA_OP_READ) && negb (local_addr r =? 0) && (0 <? req_size r) then
    if req_size r <=? u64 (RDMA_PAGE_BUFFER_SIZE - buffer_offset r) then
      bs ← page_buffer_read me (buffer_offset r) (req_size r);
      proc_write me (local_addr r) bs;;
      mret (0, error_code r)
    else mret (-1, if error_code r =? 0 then EMSGSIZE else error_code r)
  else mret (0, error_code r).

(** The polling loop from attempt [k] on, with [n] attempts left. *)
Fixpoint wait_loop (me : role) (id : Z) (k : Z) (n : nat) : M rdma_sys (Z * Z) :=
  match n with
  | O => mret (-1, ETIMEDOUT)
  | S n =>
      shm ← the_shm me;
      match find_request id (requests shm) with
      | None =>
          if wait_attempts / 2 <? k then mret (-1, ENOENT)
          else usleep;; wait_loop me id (k + 1) n
      | Some r =>
          match status r with
          | RDMA_REQ_COMPLETED => finish_request me r
          | RDMA_REQ_FAILED => mret (-1, error_code r)
          | _ => usleep;; wait_loop me id (k + 1) n
          end
      end
  end.

(** The return value and what is stored in [*error_code]. *)
Definition rdma_wait_request (me : role) (id : Z) : M rdma_sys (Z * Z) :=
  c ← connected me;
  if negb c then mret (-1, ENOTCONN)
  else if id =? 0 then mret (-1, EINVAL)
  else wait_loop me id 0 (Z.to_nat wait_attempts).
End processes.

(** ** The request ring: server side *)

(** [rdma_server_handle_request(&rdma_shm->requests[index])]. *)
Definition rdma_server_handle_request (me : role) (index : Z) : M rdma_sys Z :=
  p ← gets (proc me);
  req ← the_req me index;
  if bool_decide (sim_remote_memory_ptr p = None) && negb (bool_decide (op_type req = RDMA_OP_INIT))
     && negb (bool_decide (op_type req = RDMA_OP_SHUTDOWN))
  then mret EFAULT
  else
    shm ← the_shm me;
    let conceptual_offset := u64 (remote_addr req - remote_memory_base shm) in
    let out_of_bounds := (remote_addr req <? remote_memory_base shm)
      || (SIM_REMOTE_MEMORY_SIZE <? u64 (conceptual_offset + req_size req)) in
    match op_type req with
    | RDMA_OP_INIT => mret 0
    | RDMA_OP_READ =>
        if (req_size req =? 0) || (u64 (RDMA_PAGE_BUFFER_SIZE - buffer_offset req) <? req_size req) then mret EINVAL
        else if out_of_bounds then mret EFAULT
        else
          bs ← sim_read me conceptual_offset (req_size req);
          page_buffer_write me (buffer_offset req) bs;;
          mret 0
    | RDMA_OP_WRITE =>
        if negb (data_in_shm_buffer req) || (req_size req =? 0) then mret EINVAL
        else if out_of_bounds then mret EFAULT
        else
          bs ← page_buffer_read me (buffer_offset req) (req_size req);
          sim_write me conceptual_offset bs;;
          mret 0
    | RDMA_OP_ALLOCATE =>
        '(alloc_ret, a) ← rdma_sim_allocate me (req_size req) false;
        match a with
        | Some a => upd_req me index (set_remote_addr a);; mret 0
        | None => mret alloc_ret
        end
    | RDMA_OP_FREE => mret ENOSYS
    | RDMA_OP_SHUTDOWN => upd_shm me (set_shutdown_requested true);; mret 0
    end.

(** The body of the loop over the queued requests. *)
Definition process_one (me : role) : M rdma_sys unit :=
  shm ← the_shm me;
  let index := head shm in
  req ← the_req me index;
  when (bool_decide (status req = RDMA_REQ_PENDING))
    (upd_req me index (set_status RDMA_REQ_PROCESSING);;
     upd_req me index (set_error_code 0);;
     result ← rdma_server_handle_request me index;
     if result =? 0 then
       upd_req me index (set_status RDMA_REQ_COMPLETED);;
       upd_shm me (fun s => set_counters (total_requests s) (u64 (completed_requests s + 1)) (failed_requests s) s)
     else
       upd_req me index (set_error_code result);;
       upd_req me index (set_status RDMA_REQ_FAILED);;
       upd_shm me (fun s => set_counters (total_requests s) (completed_requests s) (u64 (failed_requests s + 1)) s));;
  upd_shm me (fun s => set_queue ((index + 1) mod MAX_RDMA_REQUESTS) (tail s) (count s - 1) s).

(** [while (count > 0)]; the fuel is the number of slots, which bounds the
    count. *)
Fixpoint drain (me : role) (fuel : nat) : M rdma_sys unit :=
  shm ← the_shm me;
  if 0 <? count shm then
    match fuel with
    | O => fail OutOfFuel
    | S fuel => process_one me;; drain me fuel
    end
  else mret tt.

(** One round of the loop of [rdma_server_process_requests] with the queue
    mutex: wait until something is queued or a shutdown is requested, then
    drain.  A round with nothing to do is one that keeps waiting.  The result
    is whether the loop is left. *)
Definition server_round (me : role) : M rdma_sys bool :=
  shm ← the_shm me;
  if shutdown_requested shm then mret true
  else if count shm =? 0 then mret false
  else drain me (Z.to_nat MAX_RDMA_REQUESTS);; mret false.

(** [n] rounds at most: the loop has no bound of its own. *)
Fixpoint server_rounds (me : role) (n : nat) : M rdma_sys (option Z) :=
  match n with
  | O => mret None
  | S n => stop ← server_round me; if (stop : bool) then mret (Some 0) else server_rounds me n
  end.

Definition rdma_server_process_requests (me : role) (n : nat) : M rdma_sys (option Z) :=
  c ← connected me;
  if negb c then mret (Some (-1)) else server_rounds me n.

(** The [usleep] of a client whose server runs: one round of the server. *)
Definition server_turn : M rdma_sys unit :=
  c ← connected Server;
  if (c : bool) then server_round Server;; mret tt else mret tt.

#[global] Arguments rdma_submit_request : simpl never.
#[global] Arguments rdma_wait_request : simpl never.
#[global] Arguments server_round : simpl never.
#[global] Arguments rdma_sim_allocate : simpl never.
#[global] Arguments rdma_sim_free : simpl never.

(** ** The request ring as a queue *)

Definition in_ring (i : Z) : nat := Z.to_nat (i mod MAX_RDMA_REQUESTS).

(** A queued request, as [rdma_submit_request] leaves it. *)
Definition args_wf (r : rdma_request_t) : Prop :=
  buffer_offset r = 0 /\ in_u64 (remote_addr r) /\ in_u64 (req_size r) /\
  (data_in_shm_buffer r = true -> req_size r <= RDMA_PAGE_BUFFER_SIZE) /\
  (op_type r = RDMA_OP_ALLOCATE -> req_size r < 2 ^ 64 - SIM_REMOTE_MEMORY_ALIGN).

Definition request_wf (r : rdma_request_t) : Prop := status r = RDMA_REQ_PENDING /\ args_wf r.

(** The queue [q] the ring stands for, oldest request first. *)
Record ring (shm : rdma_shm_t) (q : list rdma_request_t) : Prop := mk_ring {
  ring_requests : length (requests shm) = Z.to_nat MAX_RDMA_REQUESTS;
  ring_buffer : length (page_buffer shm) = Z.to_nat RDMA_PAGE_BUFFER_SIZE;
  ring_head : 0 <= head shm < MAX_RDMA_REQUESTS;
  ring_count : count shm = Z.of_nat (length q);
  ring_bound : count shm <= MAX_RDMA_REQUESTS;
  ring_tail : tail shm = (head shm + count shm) mod MAX_RDMA_REQUESTS;
  ring_slots : forall i r, q !! i = Some r -> requests shm !! in_ring (head shm + Z.of_nat i) = Some r;
  ring_wf : Forall request_wf q;
}.

Lemma in_ring_lt i : (in_ring i < Z.to_nat MAX_RDMA_REQUESTS)%nat.
Proof. unfold in_ring. pose proof (Z.mod_pos_bound i MAX_RDMA_REQUESTS ltac:(done)). lia. Qed.

Lemma in_ring_id i : 0 <= i < MAX_RDMA_REQUESTS -> in_ring i = Z.to_nat i.
Proof. intros H. unfold in_ring. by rewrite Z.mod_small. Qed.

Lemma in_ring_inj i j : in_ring i = in_ring j -> Z.abs (i - j) < MAX_RDMA_REQUESTS -> i = j.
Proof.
  unfold in_ring, MAX_RDMA_REQUESTS. intros H Hd.
  pose proof (Z.mod_pos_bound i 128 ltac:(done)). pose proof (Z.mod_pos_bound j 128 ltac:(done)).
  assert (Hm : i mod 128 = j mod 128) by lia. clear H. Z.to_euclidean_division_equations. lia.
Qed.

Lemma in_ring_mod i j : in_ring ((i mod MAX_RDMA_REQUESTS) + j) = in_ring (i + j).
Proof. unfold in_ring. by rewrite Zplus_mod_idemp_l. Qed.

(** *** The two ends *)

(** The shared memory after [r] was queued with the page buffer [pb]. *)
Definition queued (r : rdma_request_t) (pb : list byte) (used : Z) (shm : rdma_shm_t) : rdma_shm_t :=
  mk_shm (<[Z.to_nat (tail shm) := r]> (requests shm)) (head shm) ((tail shm + 1) mod MAX_RDMA_REQUESTS)
    (count shm + 1) (shm_initialized shm) (shutdown_requested shm) pb (remote_memory_base shm)
    (remote_memory_size shm) (remote_memory_used shm) (u64 (total_requests shm + 1))
    (completed_requests shm) (failed_requests shm) used.

Lemma ring_queued shm q r pb used :
  ring shm q -> count shm < MAX_RDMA_REQUESTS -> request_wf r ->
  length pb = Z.to_nat RDMA_PAGE_BUFFER_SIZE -> ring (queued r pb used shm) (q ++ [r]).
Proof.
  intros [Hr Hb Hh Hc Hbd Ht Hs Hw] Hlt Hwf Hpb. constructor; simpl; try done.
  - by rewrite length_insert.
  - rewrite length_app. simpl. lia.
  - lia.
  - rewrite Ht, Zplus_mod_idemp_l. f_equal. lia.
  - intros i x Hi. assert (Hti : Z.to_nat (tail shm) = in_ring (head shm + count shm)) by (by rewrite Ht).
    rewrite Hti. apply lookup_app_Some in Hi as [Hi|[Hle Hi]].
    + rewrite list_lookup_insert_ne; [by apply Hs|]. intros Heq. apply lookup_lt_Some in Hi as Hl.
      apply in_ring_inj in Heq; unfold MAX_RDMA_REQUESTS in *; lia.
    + destruct (i - length q)%nat eqn:E; [|done]. simpl in Hi. simplify_eq.
      replace (head shm + Z.of_nat i) with (head shm + count shm) by lia.
      rewrite list_lookup_insert_eq; [done|]. rewrite Hr. apply in_ring_lt.
  - apply Forall_app. split; [done|]. by apply Forall_singleton.
Qed.

(** A change of the shared memory that keeps the queue, and one that also
    drops its oldest request after a change to its slot. *)
Lemma ring_pop shm shm' q r r' :
  ring shm (r :: q) ->
  requests shm' = <[Z.to_nat (head shm) := r']> (requests shm) ->
  length (page_buffer shm') = length (page_buffer shm) ->
  head shm' = (head shm + 1) mod MAX_RDMA_REQUESTS -> tail shm' = tail shm -> count shm' = count shm - 1 ->
  ring shm' q.
Proof.
  intros [Hr Hb Hh Hc Hbd Ht Hs Hw] Hrq Hpb Hh' Ht' Hc'. simpl in Hc. constructor.
  - by rewrite Hrq, length_insert.
  - by rewrite Hpb.
  - rewrite Hh'. by apply Z.mod_pos_bound.
  - lia.
  - lia.
  - rewrite Ht', Ht, Hh', Zplus_mod_idemp_l. f_equal. lia.
  - intros i x Hi. rewrite Hrq, Hh', in_ring_mod. rewrite <- (in_ring_id (head shm)) by done.
    rewrite list_lookup_insert_ne.
    + replace (head shm + 1 + Z.of_nat i) with (head shm + Z.of_nat (S i)) by lia. by apply Hs.
    + intros Heq. apply lookup_lt_Some in Hi. apply in_ring_inj in Heq; unfold MAX_RDMA_REQUESTS in *; lia.
  - by apply Forall_cons in Hw as [_ ?].
Qed.

Lemma ring_head_slot shm r q : ring shm (r :: q) -> requests shm !! Z.to_nat (head shm) = Some r.
Proof.
  intros H. rewrite <- (in_ring_id (head shm)) by apply H.
  replace (head shm) with (head shm + Z.of_nat 0) by lia. by apply (ring_slots _ _ H).
Qed.

Lemma ring_zero : ring zero_shm [].
Proof. by constructor. Qed.

(** ** Running the operations of two connected processes

    In this section both processes are attached to segment [id]; [S] is the
    state with the given shared memory and processes, and every operation
    stays in states of this form. *)

Section connected.
Context (id : Z) (G : gmap Z rdma_shm_t) (key : option Z) (nid : Z) (clk : Z * Z).

Definition conn (shm : rdma_shm_t) (srv cli : rdma_proc) : rdma_sys :=
  mk_sys (<[id := shm]> G) key nid srv cli clk.

Definition procs (me : role) (srv cli : rdma_proc) : rdma_proc :=
  match me with Server => srv | Client => cli end.

Definition with_proc (me : role) (shm : rdma_shm_t) (f : rdma_proc -> rdma_proc) (srv cli : rdma_proc) : rdma_sys :=
  match me with Server => conn shm (f srv) cli | Client => conn shm srv (f cli) end.

Lemma proc_conn me shm srv cli : proc me (conn shm srv cli) = procs me srv cli.
Proof. by destruct me. Qed.

Lemma wp_proc me Q shm srv cli :
  wp (gets (proc me)) Q (conn shm srv cli) <-> Q (procs me srv cli) (conn shm srv cli).
Proof. by destruct me. Qed.

Lemma wp_upd_proc me f (Q : unit -> rdma_sys -> Prop) shm srv cli :
  wp (upd_proc me f) Q (conn shm srv cli) <-> Q tt (with_proc me shm f srv cli).
Proof. by destruct me. Qed.

Lemma wp_the_shm me (Q : rdma_shm_t -> rdma_sys -> Prop) shm srv cli :
  rdma_shm (procs me srv cli) = Some id ->
  Q shm (conn shm srv cli) -> wp (the_shm me) Q (conn shm srv cli).
Proof.
  intros Hatt HQ. unfold the_shm. apply wp_bind, wp_proc. rewrite Hatt. wp_norm.
  apply wp_deref with id; [done|]. wp_norm. apply wp_deref with shm; [|done].
  simpl. by rewrite lookup_insert_eq.
Qed.

Lemma wp_upd_shm me f (Q : unit -> rdma_sys -> Prop) shm srv cli :
  rdma_shm (procs me srv cli) = Some id ->
  Q tt (conn (f shm) srv cli) -> wp (upd_shm me f) Q (conn shm srv cli).
Proof.
  intros Hatt HQ. unfold upd_shm. apply wp_bind, wp_proc. rewrite Hatt. wp_norm.
  apply wp_deref with id; [done|]. wp_norm. apply wp_deref with shm; [simpl; by rewrite lookup_insert_eq|].
  wp_norm. unfold conn in *. unfold set_segs. simpl. by rewrite insert_insert_eq.
Qed.

Lemma wp_connected me (Q : bool -> rdma_sys -> Prop) shm srv cli :
  rdma_shm (procs me srv cli) = Some id ->
  Q (shm_initialized shm) (conn shm srv cli) -> wp (connected me) Q (conn shm srv cli).
Proof.
  intros Hatt HQ. unfold connected. apply wp_bind, wp_proc. rewrite Hatt. wp_norm.
  by apply wp_the_shm.
Qed.

Lemma wp_the_req me index r (Q : rdma_request_t -> rdma_sys -> Prop) shm srv cli :
  rdma_shm (procs me srv cli) = Some id -> requests shm !! Z.to_nat index = Some r ->
  Q r (conn shm srv cli) -> wp (the_req me index) Q (conn shm srv cli).
Proof.
  intros Hatt Hr HQ. unfold the_req. wp_norm. apply wp_the_shm; [done|]. by apply wp_deref with r.
Qed.

Lemma wp_upd_req me index r f (Q : unit -> rdma_sys -> Prop) shm srv cli :
  rdma_shm (procs me srv cli) = Some id -> requests shm !! Z.to_nat index = Some r ->
  Q tt (conn (set_requests (<[Z.to_nat index := f r]> (requests shm)) shm) srv cli) ->
  wp (upd_req me index f) Q (conn shm srv cli).
Proof.
  intros Hatt Hr HQ. unfold upd_req. wp_norm. apply wp_the_req with r; [done..|]. by apply wp_upd_shm.
Qed.

Lemma wp_page_buffer_write me off bs (Q : unit -> rdma_sys -> Prop) shm srv cli :
  rdma_shm (procs me srv cli) = Some id ->
  0 <= off -> off + Z.of_nat (length bs) <= RDMA_PAGE_BUFFER_SIZE ->
  Q tt (conn (set_page_buffer (splice (Z.to_nat off) bs (page_buffer shm)) shm) srv cli) ->
  wp (page_buffer_write me off bs) Q (conn shm srv cli).
Proof.
  intros Hatt H1 H2 HQ. unfold page_buffer_write. replace (_ && _) with true by lia. by apply wp_upd_shm.
Qed.

Lemma wp_page_buffer_read me off n (Q : list byte -> rdma_sys -> Prop) shm srv cli :
  rdma_shm (procs me srv cli) = Some id ->
  0 <= off -> off + n <= RDMA_PAGE_BUFFER_SIZE ->
  Q (take (Z.to_nat n) (drop (Z.to_nat off) (page_buffer shm))) (conn shm srv cli) ->
  wp (page_buffer_read me off n) Q (conn shm srv cli).
Proof.
  intros Hatt H1 H2 HQ. unfold page_buffer_read. wp_norm. apply wp_the_shm; [done|].
  replace (_ && _) with true by lia. done.
Qed.

Lemma wp_sim_read me off n m (Q : list byte -> rdma_sys -> Prop) shm srv cli :
  sim_remote_memory_ptr (procs me srv cli) = Some m ->
  0 <= off -> off + n <= SIM_REMOTE_MEMORY_SIZE ->
  Q (mem_read m off (Z.to_nat n)) (conn shm srv cli) ->
  wp (sim_read me off n) Q (conn shm srv cli).
Proof.
  intros Hm H1 H2 HQ. unfold sim_read. apply wp_bind, wp_proc. rewrite Hm. wp_norm.
  apply wp_deref with m; [done|]. replace (_ && _) with true by lia. done.
Qed.

Lemma wp_sim_write me off bs m (Q : unit -> rdma_sys -> Prop) shm srv cli :
  sim_remote_memory_ptr (procs me srv cli) = Some m ->
  0 <= off -> off + Z.of_nat (length bs) <= SIM_REMOTE_MEMORY_SIZE ->
  Q tt (with_proc me shm (set_sim_ptr (Some (mem_write m off bs))) srv cli) ->
  wp (sim_write me off bs) Q (conn shm srv cli).
Proof.
  intros Hm H1 H2 HQ. unfold sim_write. apply wp_bind, wp_proc. rewrite Hm. wp_norm.
  apply wp_deref with m; [done|]. replace (_ && _) with true by lia. by apply wp_upd_proc.
Qed.

(** *** Submitting *)

Definition submitted (req_id : Z) op laddr raddr size (indata : bool) : rdma_request_t :=
  mk_request req_id op laddr raddr size RDMA_REQ_PENDING 0 indata 0 (u64 (u64 (clk.1 * 1000000) + clk.2)).

Definition carries_data (op : rdma_op_type_e) (size data : Z) : bool :=
  bool_decide (op = RDMA_OP_WRITE) && negb (data =? 0) && (0 <? size).

(** A request that fits is queued at the tail, with its data at the start
    of the page buffer when it carries data. *)
Lemma submit_spec shm srv cli q op laddr raddr size data :
  rdma_shm cli = Some id -> shm_initialized shm = true ->
  ring shm q -> count shm < MAX_RDMA_REQUESTS ->
  (carries_data op size data = true -> size <= RDMA_PAGE_BUFFER_SIZE) ->
  let d := carries_data op size data in
  wp (rdma_submit_request Client op laddr raddr size data)
     (fun v s' => v = request_id_counter cli /\
        s' = conn (queued (submitted (request_id_counter cli) op laddr raddr size d)
                     (if d then splice 0 (mem_read (p_mem cli) data (Z.to_nat size)) (page_buffer shm)
                      else page_buffer shm)
                     (if d then size else page_buffer_used shm) shm)
               srv (set_request_id_counter (u64 (request_id_counter cli + 1)) cli))
     (conn shm srv cli).
Proof.
  intros Hatt Hini Hring Hcount Hfit d. unfold rdma_submit_request.
  assert (Ht : (Z.to_nat (tail shm) < length (requests shm))%nat).
  { rewrite (ring_requests _ _ Hring), (ring_tail _ _ Hring).
    pose proof (Z.mod_pos_bound (head shm + count shm) MAX_RDMA_REQUESTS ltac:(done)). lia. }
  apply lookup_lt_is_Some in Ht as [r0 Hr0].
  wp_norm. apply wp_connected; [done|]. rewrite Hini. simpl negb. cbv iota. wp_norm.
  apply wp_the_shm; [done|]. replace (MAX_RDMA_REQUESTS <=? count shm) with false by lia.
  wp_norm. apply wp_proc. simpl procs. wp_norm. apply wp_upd_proc. simpl with_proc. wp_norm.
  unfold rdma_get_timestamp. wp_norm. apply wp_upd_req with r0; [done..|]. simpl clock.
  fold (carries_data op size data). fold d. destruct d eqn:Ed.
  - specialize (Hfit Ed). replace (size <=? RDMA_PAGE_BUFFER_SIZE) with true by lia.
    assert (Hsz : 0 < size) by (unfold d, carries_data in Ed; lia).
    wp_norm. unfold proc_read. wp_norm. apply wp_proc. simpl procs. wp_norm.
    apply wp_page_buffer_write; [done|lia|rewrite length_mem_read; lia|].
    wp_norm. simpl requests. eapply wp_upd_req; [done|apply list_lookup_insert_eq; by eapply lookup_lt_Some|].
    simpl requests. rewrite list_insert_insert_eq. wp_norm. apply wp_upd_shm; [done|]. wp_norm. simpl negb. cbv iota.
    wp_norm. apply wp_upd_shm; [done|]. wp_norm. apply wp_upd_shm; [done|]. wp_norm. done.
  - wp_norm. simpl negb. cbv iota.
    wp_norm. apply wp_upd_shm; [done|]. wp_norm. apply wp_upd_shm; [done|]. wp_norm. done.
Qed.

Lemma submit_full shm srv cli op laddr raddr size data :
  rdma_shm cli = Some id -> shm_initialized shm = true -> MAX_RDMA_REQUESTS <= count shm ->
  wp (rdma_submit_request Client op laddr raddr size data)
     (fun v s' => v = 0 /\ s' = conn shm srv cli) (conn shm srv cli).
Proof.
  intros Hatt Hini Hcount. unfold rdma_submit_request. wp_norm. apply wp_connected; [done|].
  rewrite Hini. simpl negb. cbv iota. wp_norm. apply wp_the_shm; [done|].
  replace (MAX_RDMA_REQUESTS <=? count shm) with true by lia. done.
Qed.

(** *** Serving *)

(** What the server owns: its memory and its block list, which accounts
    for the bytes in use. *)
Record server_ok (shm : rdma_shm_t) (srv : rdma_proc) : Prop := mk_server_ok {
  so_attached : rdma_shm srv = Some id;
  so_initialized : shm_initialized shm = true;
  so_memory : is_Some (sim_remote_memory_ptr srv);
  so_base : remote_memory_base shm = sim_base;
  so_blocks : alloc_inv (sim_remote_memory_blocks srv) (remote_memory_used shm);
}.

(** No live block overlaps the [n] bytes at [a]. *)
Definition unoccupied (bs : list mem_block_t) (a n : Z) : Prop :=
  forall b, allocated bs b -> a + n <= blk_addr b \/ blk_addr b + blk_size b <= a.

(** The allocator, whoever runs it: a unoccupied block is live afterwards and
    every other live block still is, or nothing changed. *)
Lemma allocate_spec me shm srv cli size :
  rdma_shm (procs me srv cli) = Some id -> shm_initialized shm = true ->
  0 < size < 2 ^ 64 - SIM_REMOTE_MEMORY_ALIGN ->
  alloc_inv (sim_remote_memory_blocks (procs me srv cli)) (remote_memory_used shm) ->
  wp (rdma_sim_allocate me size false)
     (fun r s' => exists blocks mal used,
        s' = with_proc me (set_remote_memory_used used shm)
               (fun p => set_blocks blocks (set_p_malloc mal p)) srv cli /\
        alloc_inv blocks used /\
        match r with
        | (e, Some a) => e = 0 /\
            (forall b, allocated blocks b <->
               b = taken a (align_size size) \/ allocated (sim_remote_memory_blocks (procs me srv cli)) b) /\
            unoccupied (sim_remote_memory_blocks (procs me srv cli)) a (align_size size)
        | (e, None) => e = ENOMEM /\ blocks = sim_remote_memory_blocks (procs me srv cli) /\
            no_fit (align_size size) blocks
        end)
     (conn shm srv cli).
Proof.
  intros Hatt Hini Hsz Hinv. unfold rdma_sim_allocate. replace (false || (size =? 0)) with false by lia.
  wp_norm. apply wp_connected; [done|]. rewrite Hini. simpl negb. cbv iota zeta.
  wp_norm. rewrite proc_conn. destruct (align_size_spec size Hsz) as [Hal [Hge _]].
  set (whole := sim_remote_memory_blocks (procs me srv cli)) in *.
  destruct (alloc_block true (align_size size) whole) as [[a split]|] eqn:Ea.
  2:{ wp_norm. exists whole, (p_malloc (procs me srv cli)), (remote_memory_used shm).
      split; [by destruct shm, srv, cli, me|]. split; [done|]. split_and!; [done|done|].
      by apply (alloc_block_None true). }
  assert (Hfin : forall (ok : bool) mal,
    wp (match alloc_block ok (align_size size) whole with
        | None => mret (ENOMEM, None)
        | Some (a, blocks) =>
            upd_proc me (set_blocks blocks);;
            upd_shm me (fun shm => set_remote_memory_used (u64 (remote_memory_used shm + align_size size)) shm);;
            mret (0, Some a)
        end)
      (fun r s' => exists blocks mal used,
        s' = with_proc me (set_remote_memory_used used shm)
               (fun p => set_blocks blocks (set_p_malloc mal p)) srv cli /\
        alloc_inv blocks used /\
        match r with
        | (e, Some a) => e = 0 /\
            (forall b, allocated blocks b <-> b = taken a (align_size size) \/ allocated whole b) /\
            unoccupied whole a (align_size size)
        | (e, None) => e = ENOMEM /\ blocks = whole /\ no_fit (align_size size) blocks
        end)
      (with_proc me shm (set_p_malloc mal) srv cli)).
  { intros ok mal. destruct (alloc_block_same true ok _ _ _ _ Ea) as [l' El]. rewrite El.
    destruct (alloc_inv_alloc ok (align_size size) _ _ _ _ Hinv ltac:(lia) Hal El) as [Hinv' Hlive].
    assert (Hfr : unoccupied whole a (align_size size)) by (intros b; by eapply alloc_inv_fresh).
    pose proof (alloc_inv_range _ _ Hinv') as Hr. pose proof (alloc_inv_range _ _ Hinv) as Hr0.
    wp_norm. destruct me; apply wp_upd_proc; wp_norm; simpl with_proc; apply wp_upd_shm; try done; wp_norm;
      exists l', mal, (remote_memory_used shm + align_size size); rewrite u64_small
        by (unfold in_u64, SIM_REMOTE_MEMORY_SIZE in *; lia); done. }
  destruct (length whole <? length split)%nat.
  - unfold malloc. wp_norm. rewrite proc_conn. destruct (p_malloc (procs me srv cli)) as [|x mal] eqn:Em.
    + wp_norm. specialize (Hfin (negb (0 =? 0)) []).
      replace (with_proc me shm (set_p_malloc []) srv cli) with (conn shm srv cli) in Hfin; [done|].
      destruct me; simpl in *; by (destruct srv, cli; simpl in *; subst).
    + wp_norm. apply wp_upd_proc. wp_norm. apply Hfin.
  - wp_norm. specialize (Hfin true (p_malloc (procs me srv cli))).
    replace (with_proc me shm _ srv cli) with (conn shm srv cli) in Hfin; [done|].
    by destruct me, srv, cli.
Qed.

(** The range of a transfer lies in the server's memory. *)
Definition in_sim (r : rdma_request_t) : Prop :=
  sim_base <= remote_addr r /\ remote_addr r + req_size r <= sim_base + SIM_REMOTE_MEMORY_SIZE.

(** What a request does to the server, in unbounded arithmetic: the
    specification of [rdma_server_handle_request] on the request [r] of
    slot [index], with its result. *)
Inductive served (index : Z) (r : rdma_request_t) (shm : rdma_shm_t) (srv : rdma_proc) :
    Z -> rdma_shm_t -> rdma_proc -> Prop :=
  | served_init : op_type r = RDMA_OP_INIT -> served index r shm srv 0 shm srv
  | served_read_size :
      op_type r = RDMA_OP_READ -> req_size r = 0 \/ RDMA_PAGE_BUFFER_SIZE < req_size r ->
      served index r shm srv EINVAL shm srv
  | served_write_size :
      op_type r = RDMA_OP_WRITE -> data_in_shm_buffer r = false \/ req_size r = 0 ->
      served index r shm srv EINVAL shm srv
  | served_range :
      op_type r = RDMA_OP_READ \/ op_type r = RDMA_OP_WRITE -> ~ in_sim r ->
      served index r shm srv EFAULT shm srv
  | served_read m :
      op_type r = RDMA_OP_READ -> 0 < req_size r <= RDMA_PAGE_BUFFER_SIZE -> in_sim r ->
      sim_remote_memory_ptr srv = Some m ->
      served index r shm srv 0
        (set_page_buffer (splice 0 (mem_read m (remote_addr r - sim_base) (Z.to_nat (req_size r))) (page_buffer shm)) shm)
        srv
  | served_write m :
      op_type r = RDMA_OP_WRITE -> 0 < req_size r <= RDMA_PAGE_BUFFER_SIZE -> in_sim r ->
      sim_remote_memory_ptr srv = Some m ->
      served index r shm srv 0 shm
        (set_sim_ptr (Some (mem_write m (remote_addr r - sim_base) (take (Z.to_nat (req_size r)) (page_buffer shm)))) srv)
  | served_allocate a blocks mal used :
      op_type r = RDMA_OP_ALLOCATE -> 0 < req_size r -> alloc_inv blocks used ->
      (forall b, allocated blocks b <->
         b = taken a (align_size (req_size r)) \/ allocated (sim_remote_memory_blocks srv) b) ->
      unoccupied (sim_remote_memory_blocks srv) a (align_size (req_size r)) ->
      served index r shm srv 0
        (set_requests (<[Z.to_nat index := set_remote_addr a r]> (requests shm)) (set_remote_memory_used used shm))
        (set_blocks blocks (set_p_malloc mal srv))
  | served_nomem mal used e :
      op_type r = RDMA_OP_ALLOCATE -> (e = ENOMEM /\ no_fit (align_size (req_size r)) (sim_remote_memory_blocks srv) \/
        e = EINVAL /\ req_size r = 0) ->
      alloc_inv (sim_remote_memory_blocks srv) used ->
      served index r shm srv e (set_remote_memory_used used shm)
        (set_blocks (sim_remote_memory_blocks srv) (set_p_malloc mal srv))
  | served_free : op_type r = RDMA_OP_FREE -> served index r shm srv ENOSYS shm srv
  | served_shutdown :
      op_type r = RDMA_OP_SHUTDOWN -> served index r shm srv 0 (set_shutdown_requested true shm) srv.

(** The wrapping range check of the code is the range. *)
Lemma range_check r base :
  base = sim_base -> args_wf r -> req_size r <= RDMA_PAGE_BUFFER_SIZE ->
  let off := u64 (remote_addr r - base) in
  if (remote_addr r <? base) || (SIM_REMOTE_MEMORY_SIZE <? u64 (off + req_size r))
  then ~ in_sim r else in_sim r /\ off = remote_addr r - sim_base.
Proof.
  intros -> (_&Ha&Hs&_) Hle off. unfold in_u64 in *. unfold in_sim.
  unfold sim_base, SIM_REMOTE_MEMORY_SIZE, RDMA_PAGE_BUFFER_SIZE in *.
  destruct (remote_addr r <? 0x4000000000) eqn:E; simpl; [lia|].
  assert (Hoff : off = remote_addr r - 0x4000000000) by (apply u64_small; unfold in_u64; lia).
  rewrite Hoff, (u64_small (_ + _)) by (unfold in_u64; lia).
  apply Z.ltb_ge in E. case_match; lia.
Qed.

Lemma handle_spec shm srv cli index r :
  server_ok shm srv -> requests shm !! Z.to_nat index = Some r -> args_wf r ->
  length (page_buffer shm) = Z.to_nat RDMA_PAGE_BUFFER_SIZE ->
  wp (rdma_server_handle_request Server index)
     (fun e s' => exists shm' srv', s' = conn shm' srv' cli /\ served index r shm srv e shm' srv')
     (conn shm srv cli).
Proof.
  intros [Hatt Hini [m Hm] Hbase Hinv] Hr Hwf Hpb. pose proof Hwf as (Hoff&Ha&Hs&Hdata&Hal).
  unfold rdma_server_handle_request. wp_norm. rewrite proc_conn. apply wp_the_req with r; [done..|].
  simpl procs. rewrite Hm. simpl. wp_norm. apply wp_the_shm; [done|]. cbv zeta.
  rewrite Hoff, Z.sub_0_r. change (u64 RDMA_PAGE_BUFFER_SIZE) with RDMA_PAGE_BUFFER_SIZE.
  pose proof (range_check r _ Hbase Hwf) as Hrange. cbv zeta in Hrange.
  destruct (op_type r) eqn:Eop.
  - (* READ *)
    destruct ((req_size r =? 0) || (RDMA_PAGE_BUFFER_SIZE <? req_size r)) eqn:Esz.
    { wp_norm. do 2 eexists. split; [done|]. apply served_read_size; [done|]. lia. }
    specialize (Hrange ltac:(lia)).
    destruct (_ || (SIM_REMOTE_MEMORY_SIZE <? _)).
    { wp_norm. do 2 eexists. split; [done|]. apply served_range; auto. }
    destruct Hrange as [Hin ->]. unfold in_u64 in Hs. pose proof Hin as [? ?].
    wp_norm. apply wp_sim_read with m; [done|lia|lia|].
    wp_norm. apply wp_page_buffer_write; [done|lia|rewrite length_mem_read; lia|]. wp_norm.
    do 2 eexists. split; [done|]. apply served_read; [done|lia|done..].
  - (* WRITE *)
    destruct (negb (data_in_shm_buffer r) || (req_size r =? 0)) eqn:Esz.
    { wp_norm. do 2 eexists. split; [done|]. apply served_write_size; [done|].
      destruct (data_in_shm_buffer r); [right; simpl in Esz; lia|by left]. }
    assert (Hd : data_in_shm_buffer r = true) by (by destruct (data_in_shm_buffer r)).
    specialize (Hdata Hd). specialize (Hrange Hdata). rewrite Hd in Esz. simpl in Esz.
    destruct (_ || (SIM_REMOTE_MEMORY_SIZE <? _)).
    { wp_norm. do 2 eexists. split; [done|]. apply served_range; auto. }
    destruct Hrange as [Hin ->]. unfold in_u64 in Hs. pose proof Hin as [? ?].
    wp_norm. apply wp_page_buffer_read; [done|lia|lia|]. simpl (drop _ _).
    wp_norm. apply wp_sim_write with m; [done|lia|rewrite length_take; lia|]. wp_norm.
    do 2 eexists. split; [done|]. apply served_write; [done|lia|done..].
  - wp_norm. do 2 eexists. split; [done|]. by apply served_init.
  - wp_norm. apply wp_upd_shm; [done|]. wp_norm. do 2 eexists. split; [done|]. by apply served_shutdown.
  - (* ALLOCATE *)
    wp_norm. destruct (decide (req_size r = 0)) as [Hz|Hz].
    { rewrite Hz. unfold rdma_sim_allocate. simpl. wp_norm. do 2 eexists. split; [done|].
      replace shm with (set_remote_memory_used (remote_memory_used shm) shm) at 2 by (by destruct shm).
      replace srv with (set_blocks (sim_remote_memory_blocks srv) (set_p_malloc (p_malloc srv) srv)) at 2
        by (by destruct srv).
      apply served_nomem; auto. }
    unfold in_u64 in Hs. eapply wp_mono; [apply allocate_spec; [done|done|split; [lia|auto]|done]|].
    intros [e [a|]] s' (blocks & mal & used & -> & Hinv' & He & Hlive); simpl with_proc; wp_norm.
    + subst e. destruct Hlive as [Hlive Hfresh]. eapply wp_upd_req; [done|exact Hr|]. wp_norm.
      exists (set_requests (<[Z.to_nat index := set_remote_addr a r]> (requests shm)) (set_remote_memory_used used shm)),
        (set_blocks blocks (set_p_malloc mal srv)).
      split; [done|]. apply served_allocate; [done|lia|done..].
    + do 2 eexists. split; [done|]. destruct Hlive as [-> Hfit]. apply served_nomem; auto.
  - wp_norm. do 2 eexists. split; [done|]. by apply served_free.
Qed.

(** A request changes at most its own slot, and only its remote address. *)
Lemma served_frame index r shm srv e shm' srv' :
  served index r shm srv e shm' srv' -> requests shm !! Z.to_nat index = Some r ->
  length (page_buffer shm) = Z.to_nat RDMA_PAGE_BUFFER_SIZE ->
  exists r', (r' = r \/ exists a, r' = set_remote_addr a r) /\
    requests shm' = <[Z.to_nat index := r']> (requests shm) /\
    head shm' = head shm /\ tail shm' = tail shm /\ count shm' = count shm /\
    total_requests shm' = total_requests shm /\
    length (page_buffer shm') = length (page_buffer shm).
Proof.
  intros Hs Hr Hpb. assert (Hid : requests shm = <[Z.to_nat index := r]> (requests shm)) by (by rewrite list_insert_id).
  destruct Hs; try (exists r; rewrite <- Hid; split_and!; auto; fail).
  - exists r. rewrite <- Hid. simpl. rewrite length_splice; [auto 10|].
    rewrite length_mem_read, Hpb. unfold RDMA_PAGE_BUFFER_SIZE in *. lia.
  - exists (set_remote_addr a r). simpl. eauto 10.
Qed.

Lemma served_ok index r shm srv e shm' srv' :
  served index r shm srv e shm' srv' -> server_ok shm srv -> server_ok shm' srv'.
Proof. intros Hs [Ha Hi Hm Hb Hv]. destruct Hs; constructor; simpl; eauto. Qed.

(** The slot of a request the server is done with. *)
Definition answer (e : Z) (r : rdma_request_t) : rdma_request_t :=
  if e =? 0 then set_status RDMA_REQ_COMPLETED r else set_status RDMA_REQ_FAILED (set_error_code e r).

(** The request as the server starts on it. *)
Definition begun (r : rdma_request_t) : rdma_request_t := set_error_code 0 (set_status RDMA_REQ_PROCESSING r).
Definition begin_at (index : Z) (r : rdma_request_t) (shm : rdma_shm_t) : rdma_shm_t :=
  set_requests (<[Z.to_nat index := begun r]> (requests shm)) shm.

(** The shared memory after the request of slot [index], now [r'], was
    answered with [e] and taken off the queue. *)
Definition retire (index e : Z) (r' : rdma_request_t) (shm : rdma_shm_t) : rdma_shm_t :=
  set_queue ((index + 1) mod MAX_RDMA_REQUESTS) (tail shm) (count shm - 1)
    ((if e =? 0 then set_counters (total_requests shm) (u64 (completed_requests shm + 1)) (failed_requests shm)
      else set_counters (total_requests shm) (completed_requests shm) (u64 (failed_requests shm + 1)))
     (set_requests (<[Z.to_nat index := answer e r']> (requests shm)) shm)).

Lemma server_ok_requests rs shm srv : server_ok (set_requests rs shm) srv <-> server_ok shm srv.
Proof. split; intros []; by constructor. Qed.

Lemma process_one_spec shm srv cli r q :
  ring shm (r :: q) -> server_ok shm srv ->
  wp (process_one Server)
     (fun _ s' => exists e shm1 srv1 r', s' = conn (retire (head shm) e r' shm1) srv1 cli /\
        served (head shm) (begun r) (begin_at (head shm) r shm) srv e shm1 srv1 /\
        requests shm1 !! Z.to_nat (head shm) = Some r')
     (conn shm srv cli).
Proof.
  intros Hring Hok. pose proof (so_attached _ _ Hok) as Hatt. pose proof (ring_head_slot _ _ _ Hring) as Hr.
  pose proof (ring_wf _ _ Hring) as Hwf. apply Forall_cons in Hwf as [[Hst Hargs] _].
  unfold process_one. wp_norm. apply wp_the_shm; [done|]. cbv zeta. wp_norm. apply wp_the_req with r; [done..|].
  wp_norm. apply wp_when_true; [by rewrite bool_decide_eq_true|]. wp_norm.
  apply wp_upd_req with r; [done..|]. wp_norm.
  eapply wp_upd_req; [done|simpl; apply list_lookup_insert_eq; by eapply lookup_lt_Some|].
  simpl requests. rewrite list_insert_insert_eq. fold (begun r). wp_norm.
  change (set_requests _ _) with (begin_at (head shm) r shm).
  assert (Hr1 : requests (begin_at (head shm) r shm) !! Z.to_nat (head shm) = Some (begun r)).
  { simpl. apply list_lookup_insert_eq. by eapply lookup_lt_Some. }
  eapply wp_mono; [apply (handle_spec _ _ _ _ (begun r))|].
  - by apply server_ok_requests.
  - done.
  - apply Hargs.
  - apply Hring.
  - intros e s' (shm1 & srv1 & -> & Hs).
    destruct (served_frame _ _ _ _ _ _ _ Hs Hr1 (ring_buffer _ _ Hring)) as (r' & _ & Hrq & Hh & Ht & Hc & _).
    assert (Hatt1 : rdma_shm srv1 = Some id).
    { eapply so_attached, served_ok; [done|]. by apply server_ok_requests. }
    assert (Hr' : requests shm1 !! Z.to_nat (head shm) = Some r').
    { rewrite Hrq. apply list_lookup_insert_eq. by eapply lookup_lt_Some. }
    assert (Hfin : wp (if e =? 0 then
        upd_req Server (head shm) (set_status RDMA_REQ_COMPLETED);;
        upd_shm Server (fun s => set_counters (total_requests s) (u64 (completed_requests s + 1)) (failed_requests s) s)
      else
        upd_req Server (head shm) (set_error_code e);;
        upd_req Server (head shm) (set_status RDMA_REQ_FAILED);;
        upd_shm Server (fun s => set_counters (total_requests s) (completed_requests s) (u64 (failed_requests s + 1)) s))
      (fun _ s' => wp (upd_shm Server (fun s => set_queue ((head shm + 1) mod MAX_RDMA_REQUESTS) (tail s) (count s - 1) s))
        (fun _ s' => s' = conn (retire (head shm) e r' shm1) srv1 cli) s') (conn shm1 srv1 cli)).
    { unfold retire, answer. destruct (e =? 0); wp_norm.
      - apply wp_upd_req with r'; [done..|]. wp_norm. apply wp_upd_shm; [done|]. by apply wp_upd_shm.
      - apply wp_upd_req with r'; [done..|]. wp_norm.
        eapply wp_upd_req; [done|simpl; apply list_lookup_insert_eq; by eapply lookup_lt_Some|].
        simpl requests. rewrite list_insert_insert_eq. wp_norm. apply wp_upd_shm; [done|]. by apply wp_upd_shm. }
    eapply wp_mono; [exact Hfin|]. intros [] s2 Hs2. eapply wp_mono; [exact Hs2|]. intros [] s3 ->. eauto 10.
Qed.

(** What the queue's retirement leaves. *)
Lemma retire_ring shm srv r q e shm1 srv1 r' :
  ring shm (r :: q) -> server_ok shm srv ->
  served (head shm) (begun r) (begin_at (head shm) r shm) srv e shm1 srv1 ->
  requests shm1 !! Z.to_nat (head shm) = Some r' ->
  ring (retire (head shm) e r' shm1) q /\ server_ok (retire (head shm) e r' shm1) srv1 /\
  (r' = begun r \/ exists a, r' = set_remote_addr a (begun r)) /\
  requests (retire (head shm) e r' shm1) = <[Z.to_nat (head shm) := answer e r']> (requests shm) /\
  total_requests (retire (head shm) e r' shm1) = total_requests shm.
Proof.
  intros Hring Hok Hs Hr'. pose proof (ring_head_slot _ _ _ Hring) as Hr.
  assert (Hr1 : requests (begin_at (head shm) r shm) !! Z.to_nat (head shm) = Some (begun r)).
  { simpl. apply list_lookup_insert_eq. by eapply lookup_lt_Some. }
  destruct (served_frame _ _ _ _ _ _ _ Hs Hr1 (ring_buffer _ _ Hring)) as (r2 & Hr2 & Hrq & Hh & Ht & Hc & Htot & Hpb).
  assert (r2 = r') as ->.
  { rewrite Hrq, list_lookup_insert_eq in Hr'; [congruence|by eapply lookup_lt_Some]. }
  assert (Hreq : requests (retire (head shm) e r' shm1) = <[Z.to_nat (head shm) := answer e r']> (requests shm)).
  { unfold retire. destruct (e =? 0); simpl; rewrite Hrq; simpl; by rewrite !list_insert_insert_eq. }
  split_and!; try done.
  - eapply ring_pop; [exact Hring|exact Hreq|..]; unfold retire; destruct (e =? 0); simpl in *;
      rewrite ?Hpb, ?Ht, ?Hc; try done.
  - assert (Hok1 : server_ok shm1 srv1) by (eapply served_ok; [done|by apply server_ok_requests]).
    unfold retire. destruct Hok1. destruct (e =? 0); by constructor.
  - unfold retire. destruct (e =? 0); simpl; by rewrite Htot.
Qed.

(** [r'] is the answer to [r]. *)
Definition answered (r r' : rdma_request_t) : Prop :=
  request_id r' = request_id r /\ op_type r' = op_type r /\ local_addr r' = local_addr r /\
  req_size r' = req_size r /\
  (status r' = RDMA_REQ_COMPLETED /\ error_code r' = 0 \/ status r' = RDMA_REQ_FAILED /\ error_code r' <> 0).

Lemma answer_answered e r r' :
  r' = begun r \/ (exists a, r' = set_remote_addr a (begun r)) -> answered r (answer e r').
Proof.
  unfold answered, answer. intros [->|[a ->]]; destruct (e =? 0) eqn:E; simpl; split_and!; auto; right; split; auto; lia.
Qed.

(** The queue [q] was answered in order, and no other slot was touched. *)
Definition drained (shm : rdma_shm_t) (q : list rdma_request_t) (shm' : rdma_shm_t) : Prop :=
  (forall i r, q !! i = Some r ->
     exists r', requests shm' !! in_ring (head shm + Z.of_nat i) = Some r' /\ answered r r') /\
  (forall j, (forall i, (i < length q)%nat -> j <> in_ring (head shm + Z.of_nat i)) ->
     requests shm' !! j = requests shm !! j) /\
  total_requests shm' = total_requests shm.

Lemma drained_cons shm r q e r' shm1 shm' :
  ring shm (r :: q) ->
  requests shm1 = <[Z.to_nat (head shm) := answer e r']> (requests shm) ->
  head shm1 = (head shm + 1) mod MAX_RDMA_REQUESTS -> total_requests shm1 = total_requests shm ->
  (r' = begun r \/ exists a, r' = set_remote_addr a (begun r)) ->
  drained shm1 q shm' -> drained shm (r :: q) shm'.
Proof.
  intros Hring Hrq Hh Htot Hr' (Hans & Hframe & Ht). pose proof (ring_count _ _ Hring) as Hc.
  pose proof (ring_bound _ _ Hring) as Hb. simpl in Hc.
  assert (Hsl : forall i : nat, in_ring (head shm1 + Z.of_nat i) = in_ring (head shm + Z.of_nat (S i))).
  { intros i. rewrite Hh, in_ring_mod. f_equal. lia. }
  assert (Hh0 : in_ring (head shm + Z.of_nat 0) = Z.to_nat (head shm)).
  { rewrite Z.add_0_r. apply in_ring_id, Hring. }
  split_and!; [..|congruence].
  - intros [|i] x Hx; simpl in Hx.
    + simplify_eq. exists (answer e r'). split; [|by apply answer_answered]. rewrite Hframe, Hrq, Hh0.
      * apply list_lookup_insert_eq. rewrite (ring_requests _ _ Hring), <- Hh0. apply in_ring_lt.
      * intros i Hi. rewrite Hsl. intros Heq. apply in_ring_inj in Heq; unfold MAX_RDMA_REQUESTS in *; lia.
    + rewrite <- Hsl. by apply Hans.
  - intros j Hj. rewrite Hframe, Hrq.
    + apply list_lookup_insert_ne. rewrite <- Hh0. intros Heq. apply (Hj 0%nat); [simpl; lia|done].
    + intros i Hi. rewrite Hsl. apply Hj. simpl. lia.
Qed.

(** The specification of a run over the queue: the requests are served one
    after the other, oldest first. *)
Inductive serves : list rdma_request_t -> rdma_shm_t -> rdma_proc -> rdma_shm_t -> rdma_proc -> Prop :=
  | serves_nil shm srv : serves [] shm srv shm srv
  | serves_cons r q shm srv e shm1 srv1 r' shm' srv' :
      served (head shm) (begun r) (begin_at (head shm) r shm) srv e shm1 srv1 ->
      requests shm1 !! Z.to_nat (head shm) = Some r' ->
      serves q (retire (head shm) e r' shm1) srv1 shm' srv' ->
      serves (r :: q) shm srv shm' srv'.

Lemma serves_drained q shm srv shm' srv' :
  serves q shm srv shm' srv' -> ring shm q -> server_ok shm srv ->
  ring shm' [] /\ server_ok shm' srv' /\ drained shm q shm'.
Proof.
  induction 1 as [shm srv|r q shm srv e shm1 srv1 r' shm' srv' Hs Hr' _ IH]; intros Hring Hok; [by split_and!|].
  destruct (retire_ring _ _ _ _ _ _ _ _ Hring Hok Hs Hr') as (Hring1 & Hok1 & Hb & Hrq & Htot).
  destruct (IH Hring1 Hok1) as (?&?&?). split_and!; try done.
  eapply drained_cons; [done|exact Hrq| |exact Htot|done|done]. unfold retire. by destruct (e =? 0).
Qed.

Lemma drain_spec shm srv cli q fuel :
  ring shm q -> server_ok shm srv -> (length q <= fuel)%nat ->
  wp (drain Server fuel) (fun _ s' => exists shm' srv', s' = conn shm' srv' cli /\ serves q shm srv shm' srv')
     (conn shm srv cli).
Proof.
  revert shm srv fuel. induction q as [|r q IH]; intros shm srv fuel Hring Hok Hfuel.
  - assert (E : wp (drain Server fuel) (fun _ s' => s' = conn shm srv cli) (conn shm srv cli)).
    { destruct fuel; simpl; wp_norm; (apply wp_the_shm; [apply Hok|]);
        rewrite (ring_count _ _ Hring); done. }
    eapply wp_mono; [exact E|]. intros [] s' ->. exists shm, srv. split; [done|constructor].
  - destruct fuel as [|fuel]; simpl in Hfuel; [lia|]. cbn [drain]. wp_norm. apply wp_the_shm; [apply Hok|].
    assert (Hc : (0 <? count shm) = true) by (rewrite (ring_count _ _ Hring); simpl; lia).
    rewrite Hc. wp_norm. eapply wp_mono; [by apply (process_one_spec _ _ _ r q)|].
    intros [] s' (e & shm1 & srv1 & r' & -> & Hs & Hr').
    destruct (retire_ring _ _ _ _ _ _ _ _ Hring Hok Hs Hr') as (Hring1 & Hok1 & _).
    eapply wp_mono; [apply IH; [done|done|lia]|].
    intros [] s2 (shm2 & srv2 & -> & Hd). exists shm2, srv2. split; [done|]. by econstructor.
Qed.

(** One round of a running server: it serves everything that is queued. *)
Lemma server_round_spec shm srv cli q :
  ring shm q -> server_ok shm srv -> shutdown_requested shm = false ->
  wp (server_round Server)
     (fun stop s' => stop = false /\ exists shm' srv', s' = conn shm' srv' cli /\ serves q shm srv shm' srv')
     (conn shm srv cli).
Proof.
  intros Hring Hok Hsd. unfold server_round. wp_norm. apply wp_the_shm; [apply Hok|]. rewrite Hsd.
  destruct (count shm =? 0) eqn:E.
  - wp_norm. split; [done|]. assert (q = []) as ->.
    { apply length_zero_iff_nil. rewrite (ring_count _ _ Hring) in E. lia. }
    exists shm, srv. split; [done|constructor].
  - wp_norm. eapply wp_mono; [apply drain_spec; [done|done|]|].
    + pose proof (ring_bound _ _ Hring). rewrite (ring_count _ _ Hring) in *. lia.
    + intros [] s' Hs'. wp_norm. done.
Qed.

(** *** Waiting *)

Record client_ok (shm : rdma_shm_t) (cli : rdma_proc) : Prop := mk_client_ok {
  co_attached : rdma_shm cli = Some id;
  co_counter : 0 < request_id_counter cli < 2 ^ 64 - 1;
  co_ids : Forall (fun r => request_id r < request_id_counter cli) (requests shm);
}.

Lemma find_request_none rid rs :
  (forall r, r ∈ rs -> request_id r = rid -> status r = RDMA_REQ_PENDING) -> find_request rid rs = None.
Proof.
  induction rs as [|r rs IH]; intros H; simpl; [done|].
  destruct (request_id r =? rid) eqn:E; simpl.
  - rewrite bool_decide_eq_true_2 by (apply H; [left|lia]). simpl. apply IH. intros. apply H; [by right|done].
  - apply IH. intros. apply H; [by right|done].
Qed.

Lemma find_request_at rid rs i r :
  rs !! i = Some r -> request_id r = rid -> status r <> RDMA_REQ_PENDING ->
  (forall j r', rs !! j = Some r' -> request_id r' = rid -> j = i) -> find_request rid rs = Some r.
Proof.
  revert i. induction rs as [|x rs IH]; intros i Hi Hid Hst Hu; [done|]. simpl.
  destruct (request_id x =? rid) eqn:E; simpl.
  - assert (i = 0%nat) as -> by (symmetry; apply (Hu 0%nat x); [done|lia]). simpl in Hi. simplify_eq.
    by rewrite bool_decide_eq_false_2.
  - destruct i as [|i]; simpl in Hi; [simplify_eq; lia|]. apply (IH i); try done.
    intros j r' Hj Hr'. specialize (Hu (S j) r' Hj Hr'). lia.
Qed.

(** What [rdma_wait_request] does with the request it finds answered. *)
Definition settle (r : rdma_request_t) : M rdma_sys (Z * Z) :=
  match status r with
  | RDMA_REQ_COMPLETED => finish_request Client r
  | _ => mret (-1, error_code r)
  end.

(** [r] is the only slot with its identifier. *)
Definition unique_id (shm : rdma_shm_t) (r : rdma_request_t) : Prop :=
  forall j x, requests shm !! j = Some x -> request_id x = request_id r ->
    x = r /\ forall j', requests shm !! j' = Some x -> j' = j.

Lemma find_answered shm q shm' i r r' :
  ring shm q -> unique_id shm r -> drained shm q shm' -> q !! i = Some r ->
  requests shm' !! in_ring (head shm + Z.of_nat i) = Some r' -> answered r r' ->
  find_request (request_id r) (requests shm') = Some r'.
Proof.
  intros Hring Hu (Hans & Hframe & _) Hi Hr' Ha.
  eapply find_request_at; [exact Hr'|apply Ha|destruct Ha as (_&_&_&_&[[-> _]|[-> _]]); done|].
  intros j x Hj Hx.
  destruct (decide (j ∈ ((fun k => in_ring (head shm + Z.of_nat k)) <$> seq 0 (length q)))) as [Hin|Hn].
  - apply list_elem_of_fmap in Hin as (k & -> & Hk%elem_of_seq).
    destruct (lookup_lt_is_Some_2 q k) as [y Hy]; [lia|]. destruct (Hans _ _ Hy) as (y' & Hy' & Hya).
    rewrite Hj in Hy'. simplify_eq. pose proof (ring_slots _ _ Hring _ _ Hy) as Hsy.
    assert (Heq : request_id y = request_id r) by (rewrite <- Hx; symmetry; apply Hya).
    destruct (Hu _ _ Hsy Heq) as [-> Hun]. symmetry. apply Hun. by apply (ring_slots _ _ Hring).
  - rewrite Hframe in Hj.
    + destruct (Hu _ _ Hj Hx) as [-> Hun]. symmetry. apply Hun. by apply (ring_slots _ _ Hring).
    + intros k Hk ->. apply Hn, list_elem_of_fmap. exists k. split; [done|]. apply elem_of_seq. lia.
Qed.

(** Waiting for a queued request while the server runs: the first poll
    finds it pending, the server serves the queue, and the second poll
    settles it. *)
Lemma wait_spec shm srv cli q r (Q : Z * Z -> rdma_sys -> Prop) :
  ring shm q -> server_ok shm srv -> rdma_shm cli = Some id -> shutdown_requested shm = false ->
  r ∈ q -> request_id r <> 0 ->
  unique_id shm r ->
  (forall shm' srv' i r', serves q shm srv shm' srv' -> q !! i = Some r -> ring shm' [] -> server_ok shm' srv' ->
     requests shm' !! in_ring (head shm + Z.of_nat i) = Some r' -> answered r r' ->
     wp (settle r') Q (conn shm' srv' cli)) ->
  wp (rdma_wait_request server_turn Client (request_id r)) Q (conn shm srv cli).
Proof.
  intros Hring Hok Hatt Hsd Hin Hid Hu HQ. unfold rdma_wait_request. wp_norm.
  apply wp_connected; [done|]. rewrite (so_initialized _ _ Hok). simpl negb. cbv iota.
  replace (request_id r =? 0) with false by lia.
  change (Z.to_nat wait_attempts) with (S (S (Z.to_nat 9998))). cbn [wait_loop]. wp_norm.
  apply wp_the_shm; [done|].
  assert (Hpend : forall x, x ∈ requests shm -> request_id x = request_id r -> status x = RDMA_REQ_PENDING).
  { intros x [j Hj]%list_elem_of_lookup Hx. destruct (Hu _ _ Hj Hx) as [-> _].
    pose proof (ring_wf _ _ Hring) as Hwf. rewrite Forall_forall in Hwf. by apply Hwf. }
  rewrite (find_request_none _ _ Hpend). change (wait_attempts / 2 <? 0) with false. cbv iota. wp_norm.
  unfold server_turn. wp_norm. apply wp_connected; [apply Hok|]. rewrite (so_initialized _ _ Hok). wp_norm.
  eapply wp_mono; [by apply (server_round_spec _ _ _ q)|]. intros stop s' (-> & shm' & srv' & -> & Hs). wp_norm.
  apply wp_the_shm; [done|]. destruct (serves_drained _ _ _ _ _ Hs Hring Hok) as (Hring' & Hok' & Hd).
  apply list_elem_of_lookup in Hin as [i Hi]. pose proof Hd as (Hans & _ & _).
  destruct (Hans _ _ Hi) as (r' & Hr' & Ha).
  assert (Hf : find_request (request_id r) (requests shm') = Some r') by (by apply (find_answered shm q shm' i r r')).
  rewrite Hf. pose proof (HQ _ _ _ _ Hs Hi Hring' Hok' Hr' Ha) as Hfin. unfold settle in Hfin.
  destruct Ha as (_&_&_&_&[[Hst _]|[Hst _]]); rewrite Hst in Hfin |- *; exact Hfin.
Qed.

(** *** One request at a time *)

Definition bump (cli : rdma_proc) : rdma_proc := set_request_id_counter (u64 (request_id_counter cli + 1)) cli.

(** Nothing is queued, both processes are up, and [m] is the remote memory. *)
Record quiet (shm : rdma_shm_t) (srv cli : rdma_proc) (m : mem) : Prop := mk_quiet {
  qu_ring : ring shm [];
  qu_server : server_ok shm srv;
  qu_running : shutdown_requested shm = false;
  qu_client : client_ok shm cli;
  qu_memory : sim_remote_memory_ptr srv = Some m;
}.

Lemma queued_ids shm cli r pb used :
  client_ok shm cli -> request_id r = request_id_counter cli ->
  (Z.to_nat (tail shm) < length (requests shm))%nat ->
  unique_id (queued r pb used shm) r /\
  Forall (fun x => request_id x < request_id_counter cli + 1) (requests (queued r pb used shm)).
Proof.
  intros [_ Hc Hids] Hr Ht. rewrite Forall_forall in Hids.
  assert (Hget : forall j x, requests (queued r pb used shm) !! j = Some x ->
    (j = Z.to_nat (tail shm) /\ x = r) \/ request_id x < request_id_counter cli).
  { intros j x. simpl. intros [(->&->&_)|[? Hj]]%list_lookup_insert_Some; [auto|].
    right. by apply Hids, list_elem_of_lookup_2 with j. }
  split.
  - intros j x Hj Hx. apply Hget in Hj as [[-> ->]|?]; [|lia]. split; [done|].
    intros j' Hj'. apply Hget in Hj' as [[-> _]|?]; [done|lia].
  - apply Forall_forall. intros x Hx. apply list_elem_of_lookup in Hx as [j Hj]. apply Hget in Hj as [[_ ->]|?]; lia.
Qed.

Lemma answer_ids n shm q shm' :
  drained shm q shm' -> ring shm q -> Forall (fun x => request_id x < n) (requests shm) ->
  Forall (fun x => request_id x < n) (requests shm').
Proof.
  intros (Hans & Hframe & _) Hring Hall. rewrite Forall_forall in Hall. apply Forall_forall.
  intros x Hx. apply list_elem_of_lookup in Hx as [j Hj].
  destruct (decide (j ∈ ((fun k => in_ring (head shm + Z.of_nat k)) <$> seq 0 (length q)))) as [Hin|Hn].
  - apply list_elem_of_fmap in Hin as (k & -> & Hk%elem_of_seq).
    destruct (lookup_lt_is_Some_2 q k) as [y Hy]; [lia|]. destruct (Hans _ _ Hy) as (y' & Hy' & Hid & _).
    rewrite Hj in Hy'. simplify_eq. rewrite Hid. eapply Hall, list_elem_of_lookup_2. by eapply ring_slots.
  - rewrite Hframe in Hj; [by eapply Hall, list_elem_of_lookup_2|].
    intros k Hk ->. apply Hn, list_elem_of_fmap. exists k. split; [done|]. apply elem_of_seq. lia.
Qed.

Lemma answer_unique shm r shm' r' :
  drained shm [r] shm' -> ring shm [r] -> unique_id shm r ->
  requests shm' !! in_ring (head shm) = Some r' -> answered r r' -> unique_id shm' r'.
Proof.
  intros (_ & Hframe & _) Hring Huniq Hr' [Hid _].
  assert (Hslot : requests shm !! in_ring (head shm) = Some r).
  { rewrite in_ring_id by apply Hring. by eapply ring_head_slot. }
  assert (Hother : forall j x, j <> in_ring (head shm) -> requests shm' !! j = Some x ->
    request_id x = request_id r -> False).
  { intros j x Hne Hj Hx. rewrite Hframe in Hj.
    - destruct (Huniq _ _ Hj Hx) as [-> Hun]. apply Hne. symmetry. by apply Hun.
    - intros k Hk ->. simpl in Hk. replace k with 0%nat in Hne by lia. by rewrite Z.add_0_r in Hne. }
  intros j x Hj Hx. rewrite Hid in Hx. destruct (decide (j = in_ring (head shm))) as [->|Hne]; [|by destruct (Hother j x)].
  assert (x = r') as -> by congruence. split; [done|]. intros j' Hj'.
  destruct (decide (j' = in_ring (head shm))) as [|Hne']; [done|]. by destruct (Hother j' r').
Qed.

Lemma serves_one r shm srv shm' srv' :
  serves [r] shm srv shm' srv' ->
  exists e shm1 r', served (head shm) (begun r) (begin_at (head shm) r shm) srv e shm1 srv' /\
    requests shm1 !! Z.to_nat (head shm) = Some r' /\ shm' = retire (head shm) e r' shm1.
Proof.
  inversion 1 as [|? ? ? ? e shm1 srv1 r' ? ? Hs Hr' Hn]; subst. inversion Hn; subst. eauto 10.
Qed.

(** Nothing of the retirement touches these fields. *)
Lemma retire_fields index e r shm :
  shutdown_requested (retire index e r shm) = shutdown_requested shm /\
  page_buffer (retire index e r shm) = page_buffer shm /\
  remote_memory_used (retire index e r shm) = remote_memory_used shm /\
  requests (retire index e r shm) = <[Z.to_nat index := answer e r]> (requests shm).
Proof. unfold retire. by destruct (e =? 0). Qed.

(** Submitting to a quiet system and then waiting: the server serves
    exactly this request in between. *)
Lemma request_spec shm srv cli m op laddr raddr size data :
  quiet shm srv cli m -> request_id_counter cli < 2 ^ 64 - 2 ->
  let d := carries_data op size data in
  let r := submitted (request_id_counter cli) op laddr raddr size d in
  let pb := if d then splice 0 (mem_read (p_mem cli) data (Z.to_nat size)) (page_buffer shm) else page_buffer shm in
  let shm1 := queued r pb (if d then size else page_buffer_used shm) shm in
  in_u64 raddr -> in_u64 size -> (d = true -> size <= RDMA_PAGE_BUFFER_SIZE) ->
  (op = RDMA_OP_ALLOCATE -> size < 2 ^ 64 - SIM_REMOTE_MEMORY_ALIGN) ->
  wp (rdma_submit_request Client op laddr raddr size data)
     (fun v s1 => v = request_id_counter cli /\ s1 = conn shm1 srv (bump cli) /\
        forall Q, (forall e shm' srv2 r',
            served (head shm) (begun r) (begin_at (head shm) r shm1) srv e shm' srv2 ->
            requests shm' !! Z.to_nat (head shm) = Some r' ->
            let shm2 := retire (head shm) e r' shm' in
            ring shm2 [] -> server_ok shm2 srv2 -> client_ok shm2 (bump cli) ->
            requests shm2 !! Z.to_nat (head shm) = Some (answer e r') -> unique_id shm2 (answer e r') ->
            wp (settle (answer e r')) Q (conn shm2 srv2 (bump cli))) ->
          wp (rdma_wait_request server_turn Client v) Q s1)
     (conn shm srv cli).
Proof.
  intros [Hring Hok Hsd Hco Hm] Hlast d r pb shm1 Hra Hsz Hfit Hal.
  pose proof (ring_count _ _ Hring) as Hcnt. simpl in Hcnt. pose proof Hco as [Hatt Hctr _].
  assert (Htl : tail shm = head shm).
  { rewrite (ring_tail _ _ Hring), Hcnt, Z.add_0_r. apply Z.mod_small, Hring. }
  assert (Ht : (Z.to_nat (tail shm) < length (requests shm))%nat).
  { rewrite Htl, (ring_requests _ _ Hring). pose proof (ring_head _ _ Hring). lia. }
  eapply wp_mono; [apply (submit_spec _ _ _ []); try done; [apply Hok|rewrite Hcnt; done]|].
  intros v s1 [-> ->]. split; [done|]. split; [done|]. intros Q HQ.
  assert (Hpb : length pb = Z.to_nat RDMA_PAGE_BUFFER_SIZE).
  { unfold pb. destruct d eqn:Ed; [|apply Hring]. rewrite length_splice; [apply Hring|].
    rewrite length_mem_read, (ring_buffer _ _ Hring). specialize (Hfit eq_refl). unfold in_u64 in Hsz. lia. }
  assert (Hwf : request_wf r).
  { split; [done|]. by split_and!. }
  assert (Hring1 : ring shm1 [r]) by (apply (ring_queued shm []); try done; rewrite Hcnt; done).
  assert (Hok1 : server_ok shm1 srv) by (destruct Hok; by constructor).
  destruct (queued_ids shm cli r pb (if d then size else page_buffer_used shm) Hco eq_refl Ht) as [Huniq Hids].
  assert (Hctr1 : request_id_counter (bump cli) = request_id_counter cli + 1).
  { simpl. apply u64_small. unfold in_u64. lia. }
  apply (wait_spec shm1 srv (bump cli) [r] r); try done.
  { by left. } { simpl. lia. }
  intros shm2 srv2 i r2 Hs Hi Hring2 Hok2 Hr2 Ha.
  destruct i as [|]; [|done]. rewrite Z.add_0_r in Hr2.
  destruct (serves_drained _ _ _ _ _ Hs Hring1 Hok1) as (_&_&Hd).
  assert (Hids2 : Forall (fun x => request_id x < request_id_counter cli + 1) (requests shm2))
    by (by eapply answer_ids).
  assert (Huniq2 : unique_id shm2 r2) by (by eapply answer_unique).
  apply serves_one in Hs as (e & shm' & r' & Hs & Hr' & ->).
  destruct (retire_fields (head shm) e r' shm') as (_ & _ & _ & Frq). change (head shm1) with (head shm) in Hs, Hr', Hr2, Hring2, Hok2, Hids2, Huniq2 |- *.
  assert (Hh1 : in_ring (head shm1) = Z.to_nat (head shm)) by apply in_ring_id, Hring.
  change (in_ring (head shm) = Z.to_nat (head shm)) in Hh1.
  rewrite Hh1 in Hr2. assert (r2 = answer e r') as ->.
  { rewrite Frq, list_lookup_insert_eq in Hr2 by (by eapply lookup_lt_Some). congruence. }
  apply (HQ e shm' srv2 r'); try done. constructor; [done| |].
  - rewrite Hctr1. lia.
  - by rewrite Hctr1.
Qed.

(** The range of a transfer of [size] bytes at [raddr]. *)
Definition in_remote (raddr size : Z) : Prop :=
  sim_base <= raddr /\ raddr + size <= sim_base + SIM_REMOTE_MEMORY_SIZE.

Lemma in_remote_u64 raddr size : in_remote raddr size -> 0 < size -> in_u64 raddr /\ in_u64 size.
Proof. unfold in_remote, in_u64, sim_base, SIM_REMOTE_MEMORY_SIZE. lia. Qed.

(** A write: the remote memory changes as a local one would. *)
Lemma write_spec shm srv cli m raddr size data laddr :
  quiet shm srv cli m -> request_id_counter cli < 2 ^ 64 - 2 ->
  data <> 0 -> 0 < size <= RDMA_PAGE_BUFFER_SIZE -> in_remote raddr size ->
  let bs := mem_read (p_mem cli) data (Z.to_nat size) in
  wp (rdma_submit_request Client RDMA_OP_WRITE laddr raddr size data)
     (fun v s1 => v = request_id_counter cli /\
        wp (rdma_wait_request server_turn Client v)
           (fun res s2 => res = (0, 0) /\ exists shm2 srv2, s2 = conn shm2 srv2 (bump cli) /\
              quiet shm2 srv2 (bump cli) (mem_write m (raddr - sim_base) bs) /\
              sim_remote_memory_blocks srv2 = sim_remote_memory_blocks srv) s1)
     (conn shm srv cli).
Proof.
  intros Hq Hctr Hdata Hsz Hin bs. destruct (in_remote_u64 _ _ Hin ltac:(lia)) as [Hra Hs64].
  assert (Hd : carries_data RDMA_OP_WRITE size data = true).
  { unfold carries_data. rewrite bool_decide_eq_true_2 by done. lia. }
  eapply wp_mono; [apply (request_spec _ _ _ m); try done; lia|].
  rewrite Hd. cbv zeta. intros v s1 (-> & -> & Hwait). split; [done|]. apply Hwait.
  intros e shm1 srv2 r' Hs Hr' Hring2 Hok2 Hco2 Hslot _. destruct Hq as [Hring Hok Hsd Hco Hm].
  set (r := submitted _ _ _ _ _ _) in *.
  assert (Hbs : length bs = Z.to_nat size) by apply length_mem_read.
  inversion Hs as [| | |Hor Hnin|?|m' _ Hsz' Hin' Hm'| | | |]; subst; try done; simpl in *.
  { exfalso. match goal with H : _ = false \/ _ |- _ => destruct H as [?|?]; [done|lia] end. }
  assert (m' = m) as -> by congruence.
  rewrite list_lookup_insert_eq in Hr' by (rewrite length_insert, (ring_requests _ _ Hring);
    pose proof (ring_head _ _ Hring); lia). simplify_eq.
  unfold settle, finish_request. simpl. wp_norm. split; [done|]. do 2 eexists. split; [done|].
  split; [|done]. constructor; try done.
  simpl. do 2 f_equal. fold bs. apply splice_front; [done|]. rewrite (ring_buffer _ _ Hring). lia.
Qed.

(** A read: the page buffer and the destination receive the remote bytes. *)
Lemma read_spec shm srv cli m raddr size laddr :
  quiet shm srv cli m -> request_id_counter cli < 2 ^ 64 - 2 ->
  laddr <> 0 -> 0 < size <= RDMA_PAGE_BUFFER_SIZE -> in_remote raddr size ->
  let bs := mem_read m (raddr - sim_base) (Z.to_nat size) in
  wp (rdma_submit_request Client RDMA_OP_READ laddr raddr size 0)
     (fun v s1 => v = request_id_counter cli /\
        wp (rdma_wait_request server_turn Client v)
           (fun res s2 => res = (0, 0) /\ exists shm2,
              let cli2 := set_p_mem (mem_write (p_mem cli) laddr bs) (bump cli) in
              s2 = conn shm2 srv cli2 /\ quiet shm2 srv cli2 m /\ take (Z.to_nat size) (page_buffer shm2) = bs) s1)
     (conn shm srv cli).
Proof.
  intros Hq Hctr Hl Hsz Hin bs. destruct (in_remote_u64 _ _ Hin ltac:(lia)) as [Hra Hs64].
  eapply wp_mono; [apply (request_spec _ _ _ m); done|].
  change (carries_data RDMA_OP_READ size 0) with false. cbv zeta. intros v s1 (-> & -> & Hwait).
  split; [done|]. apply Hwait.
  intros e shm1 srv2 r' Hs Hr' Hring2 Hok2 Hco2 Hslot _. destruct Hq as [Hring Hok Hsd Hco Hm].
  set (r := submitted _ _ _ _ _ _) in *.
  assert (Hbs : length bs = Z.to_nat size) by apply length_mem_read.
  inversion Hs as [| | |Hor Hnin|m' _ Hsz' Hin' Hm'|?| | | |]; subst; try done; simpl in *; [lia|].
  assert (m' = m) as -> by congruence.
  rewrite list_lookup_insert_eq in Hr' by (rewrite length_insert, (ring_requests _ _ Hring);
    pose proof (ring_head _ _ Hring); lia). simplify_eq. fold bs.
  assert (Htake : take (Z.to_nat size) (splice 0 bs (page_buffer shm)) = bs).
  { apply splice_front; [done|]. rewrite (ring_buffer _ _ Hring). lia. }
  unfold settle, finish_request. simpl. replace (negb (laddr =? 0)) with true by lia.
  replace (0 <? size) with true by lia. simpl.
  change (u64 (RDMA_PAGE_BUFFER_SIZE - 0)) with RDMA_PAGE_BUFFER_SIZE. replace (size <=? RDMA_PAGE_BUFFER_SIZE) with true by lia.
  wp_norm. apply wp_page_buffer_read; [apply Hco2|lia|lia|]. wp_norm. unfold proc_write. apply wp_upd_proc.
  wp_norm. split; [done|]. simpl (Z.to_nat 0). rewrite drop_0. simpl page_buffer. rewrite Htake.
  eexists. split; [done|]. split; [|done]. constructor; try done. by destruct Hco2.
Qed.

(** An allocation request: the address is in the request's slot, and it is
    the address of a block that was not live before. *)
Lemma allocate_request_spec shm srv cli m size :
  quiet shm srv cli m -> request_id_counter cli < 2 ^ 64 - 2 -> 0 < size < 2 ^ 64 - SIM_REMOTE_MEMORY_ALIGN ->
  wp (rdma_submit_request Client RDMA_OP_ALLOCATE 0 0 size 0)
     (fun v s1 => v = request_id_counter cli /\
        wp (rdma_wait_request server_turn Client v)
           (fun res s2 => exists shm2 srv2, s2 = conn shm2 srv2 (bump cli) /\ quiet shm2 srv2 (bump cli) m /\
              ((res = (0, 0) /\ exists a r2 j,
                  requests shm2 !! j = Some r2 /\ request_id r2 = v /\ unique_id shm2 r2 /\ remote_addr r2 = a /\
                  (forall b, allocated (sim_remote_memory_blocks srv2) b <->
                     b = taken a (align_size size) \/ allocated (sim_remote_memory_blocks srv) b) /\
                  unoccupied (sim_remote_memory_blocks srv) a (align_size size)) \/
               (res = (-1, ENOMEM) /\ sim_remote_memory_blocks srv2 = sim_remote_memory_blocks srv /\
                  no_fit (align_size size) (sim_remote_memory_blocks srv)))) s1)
     (conn shm srv cli).
Proof.
  intros Hq Hctr Hsz. eapply wp_mono; [apply (request_spec _ _ _ m); try done; [unfold in_u64, SIM_REMOTE_MEMORY_ALIGN in *; lia|lia]|].
  change (carries_data RDMA_OP_ALLOCATE size 0) with false. cbv zeta. intros v s1 (-> & -> & Hwait).
  split; [done|]. apply Hwait.
  intros e shm1 srv2 r' Hs Hr' Hring2 Hok2 Hco2 Hslot Hu. destruct Hq as [Hring Hok Hsd Hco Hm].
  set (r := submitted _ _ _ _ _ _) in *.
  assert (Hlen : (Z.to_nat (head shm) < length (requests shm))%nat)
    by (rewrite (ring_requests _ _ Hring); pose proof (ring_head _ _ Hring); lia).
  inversion Hs as [| | |[?|?]|?|?|a blocks mal used _ _ Hinv Hlive Hfresh|mal used ? _ [[-> Hfit]|[-> Hz]] Hinv| |];
    subst; try done; simpl in Hr'.
  - rewrite list_insert_insert_eq, list_lookup_insert_eq in Hr' by (by rewrite length_insert). simplify_eq.
    unfold settle, finish_request. simpl. wp_norm. do 2 eexists. split; [done|]. split; [by constructor|].
    left. split; [done|]. exists a, (answer 0 (set_remote_addr a (begun r))), (Z.to_nat (head shm)). by split_and!.
  - rewrite list_lookup_insert_eq in Hr' by (by rewrite length_insert). simplify_eq.
    unfold settle. simpl. wp_norm. do 2 eexists. split; [done|]. split; [by constructor|]. by right.
  - simpl in Hz. lia.
Qed.
End connected.
