(* ===== verification/RdmaProtocol.v ===== *)
(** The properties of the simulated RDMA fabric ([src/src/rdma_sim.c]): the
    allocator as a map of live regions, the request ring as a queue that one
    server round serves, transfers that go through the ring, the handshake
    that connects the two processes, and four behaviours its documentation
    does not announce. *)

From S2P Require Import Prelude UserPage RdmaAlloc RdmaSim.

Local Open Scope Z_scope.

(** ** The allocator as a map of live regions *)

Inductive alloc_op : Type := OpAllocate (size : Z) | OpFree (addr : Z).

(** One call in the server process, and what it returns. *)
Definition alloc_call (op : alloc_op) : M rdma_sys (Z * option Z) :=
  match op with
  | OpAllocate size => rdma_sim_allocate Server size false
  | OpFree addr => e ← rdma_sim_free Server addr; mret (e, None)
  end.

Fixpoint alloc_calls (ops : list alloc_op) : M rdma_sys (list (Z * option Z)) :=
  match ops with
  | [] => mret []
  | op :: ops => r ← alloc_call op; rs ← alloc_calls ops; mret (r :: rs)
  end.

(** Specification: the live regions, address to length. *)
Definition apart (live : gmap Z Z) (a n : Z) : Prop :=
  forall b k, live !! b = Some k -> a + n <= b \/ b + k <= a.

Inductive alloc_step (live : gmap Z Z) : alloc_op -> Z * option Z -> gmap Z Z -> Prop :=
  | step_zero : alloc_step live (OpAllocate 0) (EINVAL, None) live
  | step_nomem size : 0 < size -> alloc_step live (OpAllocate size) (ENOMEM, None) live
  | step_alloc size a :
      0 < size <= align_size size -> aligned a -> aligned (align_size size) ->
      sim_base <= a -> a + align_size size <= sim_base + SIM_REMOTE_MEMORY_SIZE ->
      apart live a (align_size size) ->
      alloc_step live (OpAllocate size) (0, Some a) (<[a := align_size size]> live)
  | step_free a n : live !! a = Some n -> alloc_step live (OpFree a) (0, None) (delete a live)
  | step_badfree a : live !! a = None -> alloc_step live (OpFree a) (EINVAL, None) live.

Inductive alloc_trace : gmap Z Z -> list alloc_op -> list (Z * option Z) -> gmap Z Z -> Prop :=
  | trace_nil live : alloc_trace live [] [] live
  | trace_cons live op r live1 ops rs live2 :
      alloc_step live op r live1 -> alloc_trace live1 ops rs live2 ->
      alloc_trace live (op :: ops) (r :: rs) live2.

(** A request whose rounding does not wrap. *)
Definition op_ok (op : alloc_op) : Prop :=
  match op with OpAllocate size => 0 <= size < 2 ^ 64 - SIM_REMOTE_MEMORY_ALIGN | OpFree _ => True end.

(** The abstraction: the server's list stands for [live]. *)
Record alloc_rep (id : Z) (shm : rdma_shm_t) (srv : rdma_proc) (live : gmap Z Z) : Prop := mk_alloc_rep {
  ar_attached : rdma_shm srv = Some id;
  ar_initialized : shm_initialized shm = true;
  ar_inv : alloc_inv (sim_remote_memory_blocks srv) (remote_memory_used shm);
  ar_live : forall a n, live !! a = Some n <-> allocated (sim_remote_memory_blocks srv) (taken a n);
}.

(** Live blocks at one address are the same block. *)
Lemma live_unique bs used a n n' :
  alloc_inv bs used -> allocated bs (taken a n) -> allocated bs (taken a n') -> n = n'.
Proof.
  intros Hinv H1 H2. destruct (decide (n = n')) as [|Hne]; [done|]. exfalso.
  destruct (alloc_inv_member _ _ _ Hinv (proj1 H1)) as (_&?&_).
  destruct (alloc_inv_member _ _ _ Hinv (proj1 H2)) as (_&?&_). simpl in *.
  destruct (alloc_inv_disjoint _ _ _ _ Hinv H1 H2); simpl in *; [congruence|lia|lia].
Qed.

Section calls.
Context (id : Z) (G : gmap Z rdma_shm_t) (key : option Z) (nid : Z) (clk : Z * Z).
Abbreviation conn := (RdmaSim.conn id G key nid clk).

Lemma free_spec me shm srv cli addr :
  rdma_shm (procs me srv cli) = Some id -> shm_initialized shm = true ->
  alloc_inv (sim_remote_memory_blocks (procs me srv cli)) (remote_memory_used shm) ->
  wp (rdma_sim_free me addr)
     (fun e s' => match free_block None addr (sim_remote_memory_blocks (procs me srv cli)) with
        | None => e = EINVAL /\ s' = conn shm srv cli
        | Some (n, blocks) => e = 0 /\
            s' = RdmaSim.with_proc id G key nid clk me
                   (set_remote_memory_used (remote_memory_used shm - n) shm) (set_blocks blocks) srv cli
        end)
     (conn shm srv cli).
Proof.
  intros Hatt Hini Hinv. unfold rdma_sim_free. wp_norm. apply wp_connected; [done|].
  rewrite Hini. simpl negb. cbv iota. wp_norm. rewrite proc_conn.
  destruct (free_block None addr _) as [[n blocks]|] eqn:E; [|by wp_norm].
  destruct (alloc_inv_free _ _ _ _ _ Hinv E) as (Hinv' & _ & _).
  pose proof (alloc_inv_range _ _ Hinv') as Hr. wp_norm. apply wp_upd_shm; [done|].
  wp_norm. apply wp_upd_proc. wp_norm. split; [done|].
  rewrite u64_small by (unfold in_u64, SIM_REMOTE_MEMORY_SIZE in *; lia). done.
Qed.

Lemma alloc_call_spec shm srv cli live op :
  alloc_rep id shm srv live -> op_ok op ->
  wp (alloc_call op)
     (fun r s' => exists shm' srv' live', s' = conn shm' srv' cli /\ alloc_step live op r live' /\
        alloc_rep id shm' srv' live')
     (conn shm srv cli).
Proof.
  intros [Hatt Hini Hinv Hlive] Hop. destruct op as [size|addr]; simpl in Hop |- *.
  - destruct (decide (size = 0)) as [->|Hz].
    { unfold rdma_sim_allocate. simpl. wp_norm. exists shm, srv, live. split; [done|]. split; [constructor|done]. }
    eapply wp_mono; [apply (allocate_spec _ _ _ _ _ Server); [done|done|lia|done]|].
    destruct (align_size_spec size ltac:(lia)) as [Hal Hge].
    intros [e [a|]] s' (blocks & mal & used & -> & Hinv' & -> & Hblk); simpl with_proc in *; simpl procs in Hblk.
    + destruct Hblk as [Hblk Hfr].
      assert (Hnew : allocated blocks (taken a (align_size size))) by (apply Hblk; auto).
      destruct (alloc_inv_member _ _ _ Hinv' (proj1 Hnew)) as (?&?&?&?&?). simpl in *.
      assert (Hap : apart live a (align_size size)) by (intros b k Hb; apply (Hfr (taken b k)), Hlive, Hb).
      do 2 eexists. exists (<[a := align_size size]> live). split; [done|].
      split; [by apply step_alloc; [lia|..]|]. constructor; try done. simpl. intros b k. rewrite Hblk, <- Hlive.
      rewrite lookup_insert_Some. split; [intros [[-> ->]|[? ?]]; auto|].
      intros [[= -> ->]|Hb]; [auto|]. right. split; [|done]. intros ->.
      destruct (alloc_inv_member _ _ _ Hinv (proj1 (proj1 (Hlive _ _) Hb))) as (_&?&_).
      destruct (Hap _ _ Hb); simpl in *; lia.
    + destruct Hblk as [-> _]. do 2 eexists. exists live. split; [done|]. split; [constructor; lia|].
      by constructor.
  - wp_norm. eapply wp_mono; [apply (free_spec Server); done|]. intros e s'. simpl procs.
    destruct (free_block None addr _) as [[n blocks]|] eqn:E.
    + intros [-> ->]. wp_norm. destruct (alloc_inv_free _ _ _ _ _ Hinv E) as (Hinv' & Hin & Hblk).
      do 2 eexists. exists (delete addr live). split; [done|]. split; [by eapply step_free, Hlive|].
      constructor; try done. simpl. intros b k. rewrite Hblk, <- Hlive, lookup_delete_Some.
      split; [intros [? ?]; split; [done|congruence]|]. intros [Hb Hne]. split; [|done]. intros <-. apply Hne.
      f_equal. eapply live_unique; [exact Hinv|by apply Hlive|done].
    + intros [-> ->]. wp_norm. exists shm, srv, live. split; [done|]. split; [|done].
      apply step_badfree. apply eq_None_not_Some. intros [n Hn].
      by apply (proj1 (free_block_None _ _ _) E n), Hlive.
Qed.

(** C12: as long as no allocation asks for [2 ^ 64 - 4096] bytes or more
    (rounding such a size up wraps to a region of no bytes, which is not
    covered), whatever sequence of [rdma_sim_allocate] and [rdma_sim_free]
    calls the server makes, whatever addresses it frees, and whichever of its
    [malloc] calls fail, the allocator behaves as a map of live regions: an
    allocation hands out an aligned region of at least the requested size
    inside the simulated memory that overlaps no live one, a free ends exactly
    the region it names and fails on every other address, and afterwards the
    block list still stands for the live map with its bytes accounted for. *)
Theorem allocator_refines (shm : rdma_shm_t) (srv cli : rdma_proc) (live : gmap Z Z) (ops : list alloc_op) :
  alloc_rep id shm srv live -> Forall op_ok ops ->
  wp (alloc_calls ops)
     (fun rs s' => exists shm' srv' live', s' = conn shm' srv' cli /\ alloc_trace live ops rs live' /\
        alloc_rep id shm' srv' live')
     (conn shm srv cli).
Proof.
  revert shm srv live. induction ops as [|op ops IH]; intros shm srv live Hrep Hops; simpl; wp_norm.
  - exists shm, srv, live. split; [done|]. split; [constructor|done].
  - apply Forall_cons in Hops as [Hop Hops]. eapply wp_mono; [by apply (alloc_call_spec _ _ _ live)|].
    intros r s' (shm1 & srv1 & live1 & -> & Hstep & Hrep1). wp_norm.
    eapply wp_mono; [by apply (IH _ _ live1)|]. intros rs s2 (shm2 & srv2 & live2 & -> & Htr & Hrep2).
    wp_norm. exists shm2, srv2, live2. split; [done|]. split; [by econstructor|done].
Qed.
End calls.

(** ** Connecting the two processes *)

(** The zero-initialised [static]s of a process that starts. *)
Definition proc0 (m : mem) (mallocs : list Z) : rdma_proc := mk_proc None (-1) false 1 [] None m mallocs [].

Definition sys0 (sm cm : mem) (sml cml : list Z) (clk : Z * Z) : rdma_sys :=
  mk_sys ∅ None 0 (proc0 sm sml) (proc0 cm cml) clk.

Definition server_up (sm : mem) (sml : list Z) : rdma_proc :=
  mk_proc (Some 0) 0 true 1 [mk_block sim_base SIM_REMOTE_MEMORY_SIZE true] (Some (fun _ => Byte.x00)) sm sml [].
Definition client_up (cm : mem) (cml : list Z) : rdma_proc := mk_proc (Some 0) 0 true 1 [] None cm cml [].
Definition shm_up : rdma_shm_t :=
  set_shm_initialized true (set_remote_memory sim_base SIM_REMOTE_MEMORY_SIZE 0 zero_shm).

Lemma shm_up_quiet sm sml cm cml :
  quiet 0 shm_up (server_up sm sml) (client_up cm cml) (fun _ => Byte.x00).
Proof.
  constructor; [by constructor| |done| |done].
  - by constructor.
  - constructor; [done|simpl; lia|]. apply Forall_replicate. simpl. lia.
Qed.

Definition handshake (usleep : M rdma_sys unit) : M rdma_sys (Z * Z) :=
  r1 ← rdma_sim_init usleep Server true;
  r2 ← rdma_sim_init usleep Client false;
  mret (r1, r2).

Lemma server_init_spec usleep sm cm m1 m2 sml cml clk :
  m1 <> 0 -> m2 <> 0 ->
  wp (rdma_sim_init usleep Server true)
     (fun r s' => r = 0 /\ s' = RdmaSim.conn 0 ∅ (Some 0) 1 clk shm_up (server_up sm sml) (proc0 cm cml))
     (sys0 sm cm (m1 :: m2 :: sml) cml clk).
Proof.
  destruct m1 as [|?|?], m2 as [|?|?]; intros H1 H2; try (exfalso; by (apply H1 || apply H2));
    vm_compute; split; reflexivity.
Qed.

Lemma client_init_spec usleep sm cm sml cml clk :
  wp (rdma_sim_init usleep Client false)
     (fun r s' => r = 0 /\ s' = RdmaSim.conn 0 ∅ (Some 0) 1 clk shm_up (server_up sm sml) (client_up cm cml))
     (RdmaSim.conn 0 ∅ (Some 0) 1 clk shm_up (server_up sm sml) (proc0 cm cml)).
Proof. vm_compute. split; reflexivity. Qed.

Lemma reinit_spec usleep me is_server id G key nid clk shm srv cli :
  rdma_shm (procs me srv cli) = Some id -> is_initialized (procs me srv cli) = true -> shm_initialized shm = true ->
  wp (rdma_sim_init usleep me is_server)
     (fun r s' => r = 0 /\ s' = RdmaSim.conn id G key nid clk shm srv cli) (RdmaSim.conn id G key nid clk shm srv cli).
Proof.
  intros Hatt Hi Hs. unfold rdma_sim_init. wp_norm. rewrite proc_conn. apply wp_connected; [done|].
  by rewrite Hi, Hs.
Qed.

(** The start of a session: the server initialises, the client attaches, and
    both call [rdma_sim_init] once more. *)
Definition start_session (usleep : M rdma_sys unit) : M rdma_sys (list Z) :=
  r1 ← rdma_sim_init usleep Server true;
  r2 ← rdma_sim_init usleep Client false;
  r3 ← rdma_sim_init usleep Client false;
  r4 ← rdma_sim_init usleep Server true;
  mret [r1; r2; r3; r4].

(** When the server's two allocations succeed, [rdma_sim_init] connects
    the processes: every call of a session's start returns 0, the repeated
    ones change nothing, and the state reached has an empty ring, a server
    whose block list is the whole simulated memory, all of it zero, and a
    client that can submit. *)
Theorem session_starts (usleep : M rdma_sys unit) sm cm m1 m2 sml cml clk :
  m1 <> 0 -> m2 <> 0 ->
  wp (start_session usleep)
     (fun rs s' => rs = [0; 0; 0; 0] /\
        s' = RdmaSim.conn 0 ∅ (Some 0) 1 clk shm_up (server_up sm sml) (client_up cm cml) /\
        quiet 0 shm_up (server_up sm sml) (client_up cm cml) (fun _ => Byte.x00) /\
        alloc_rep 0 shm_up (server_up sm sml) ∅)
     (sys0 sm cm (m1 :: m2 :: sml) cml clk).
Proof.
  intros H1 H2. unfold start_session. wp_norm. wp_call server_init_spec as r s' [-> ->]; [done..|]. wp_norm.
  wp_call client_init_spec as r s' [-> ->]. wp_norm.
  wp_call (reinit_spec usleep Client false 0) as r s' [-> ->]; [done..|]. wp_norm.
  wp_call (reinit_spec usleep Server true 0) as r s' [-> ->]; [done..|]. wp_norm.
  split_and!; [done|done|apply shm_up_quiet|]. constructor; [done|done|apply alloc_inv_init|].
  intros a n. rewrite lookup_empty. split; [done|]. intros [Hin Hf].
  apply list_elem_of_singleton in Hin. by rewrite Hin in Hf.
Qed.

Lemma session_starts_witness :
  wp (start_session server_turn)
     (fun rs _ => rs = [0; 0; 0; 0])
     (sys0 (fun _ => Byte.x00) (fun _ => Byte.x00) [1; 2] [] (0, 0)).
Proof.
  eapply wp_mono; [apply (session_starts server_turn _ _ 1 2 [] [] (0, 0)); lia|]. by intros rs s' [-> _].
Defined.

(** ** The ring as a queue *)

Section ring.
Context (id : Z) (G : gmap Z rdma_shm_t) (key : option Z) (nid : Z) (clk : Z * Z).
Abbreviation conn := (RdmaSim.conn id G key nid clk).

(** C13: one round of the server over a ring that holds the queue [q] of
    requests in the form [rdma_submit_request] gives them (pending, with
    buffer offset 0 and a payload that fits the page buffer), none of them an
    allocation of [2 ^ 64 - 4096] bytes or more: whatever their operations,
    addresses and sizes otherwise, the round never accesses memory outside the
    simulated memory or the page buffer and never runs out of the loop's
    bound; it serves the requests one after the other in the order they
    were submitted, each as the specification [served] says (a transfer in
    range copies exactly its bytes, one out of range fails with [EFAULT]
    and changes nothing), leaves the ring empty, marks every request
    completed or failed in its own slot, and touches no other slot. *)
Theorem server_serves_queue (shm : rdma_shm_t) (srv cli : rdma_proc) (q : list rdma_request_t) :
  ring shm q -> server_ok id shm srv -> shutdown_requested shm = false ->
  wp (server_round Server)
     (fun stop s' => stop = false /\ exists shm' srv', s' = conn shm' srv' cli /\
        serves q shm srv shm' srv' /\ ring shm' [] /\ server_ok id shm' srv' /\ drained shm q shm')
     (conn shm srv cli).
Proof.
  intros Hring Hok Hsd. eapply wp_mono; [by apply server_round_spec|].
  intros stop s' (-> & shm' & srv' & -> & Hs). split; [done|]. exists shm', srv'. split; [done|]. split; [done|].
  by eapply serves_drained.
Qed.

(** [rdma_submit_request] appends to the queue: when a slot is free
    and the payload fits the page buffer it returns the next identifier
    and the queue grows by exactly the request at its tail; when all 128
    slots are in use it returns 0 and changes nothing. *)
Theorem submit_appends (shm : rdma_shm_t) (srv cli : rdma_proc) (q : list rdma_request_t)
    (op : rdma_op_type_e) (laddr raddr size data : Z) :
  rdma_shm cli = Some id -> shm_initialized shm = true -> ring shm q ->
  in_u64 raddr -> in_u64 size ->
  (op = RDMA_OP_ALLOCATE -> size < 2 ^ 64 - SIM_REMOTE_MEMORY_ALIGN) ->
  (carries_data op size data = true -> size <= RDMA_PAGE_BUFFER_SIZE) ->
  wp (rdma_submit_request Client op laddr raddr size data)
     (fun v s' => exists shm' cli', s' = conn shm' srv cli' /\
        if (length q <? 128)%nat
        then v = request_id_counter cli /\ request_id_counter cli' = u64 (v + 1) /\
          ring shm' (q ++ [submitted clk v op laddr raddr size (carries_data op size data)]) /\
          (carries_data op size data = true ->
             take (Z.to_nat size) (page_buffer shm') = mem_read (p_mem cli) data (Z.to_nat size))
        else v = 0 /\ shm' = shm /\ cli' = cli)
     (conn shm srv cli).
Proof.
  intros Hatt Hini Hring Hra Hsz Hal Hfit. pose proof (ring_count _ _ Hring) as Hc.
  assert (HM : MAX_RDMA_REQUESTS = 128) by done.
  destruct (length q <? 128)%nat eqn:E.
  - eapply wp_mono; [apply (submit_spec _ _ _ _ _ _ _ _ q); try done; lia|]. intros v s' [-> ->].
    set (d := carries_data op size data) in *. set (bs := mem_read (p_mem cli) data (Z.to_nat size)).
    assert (Hbs : length bs = Z.to_nat size) by apply length_mem_read.
    assert (Hlen : d = true -> (length bs <= length (page_buffer shm))%nat).
    { intros Hd. specialize (Hfit Hd). rewrite (ring_buffer _ _ Hring). unfold RDMA_PAGE_BUFFER_SIZE in *. lia. }
    do 2 eexists. split; [done|]. split_and!; [done|done| |].
    + apply ring_queued; [done|lia|by split_and!|]. destruct d; [|apply Hring].
      rewrite length_splice by auto. apply Hring.
    + intros Hd. rewrite Hd. simpl. apply splice_front; [done|]. rewrite <- Hbs. by apply Hlen.
  - eapply wp_mono; [apply (submit_full _ _ _ _ _ shm srv cli op laddr raddr size data); try done; lia|].
    intros v s' [-> ->]. exists shm, cli. done.
Qed.
End ring.

(** ** Witnesses on a started session *)

(** A started session whose client memory holds the bytes of [bs] from
    address 4096 on. *)
Definition demo_mem (bs : list byte) : mem := mem_write (fun _ => Byte.x00) 4096 bs.
Definition demo_srv : rdma_proc := server_up (fun _ => Byte.x00) [].
Definition demo_cli (bs : list byte) : rdma_proc := client_up (demo_mem bs) [].
Abbreviation demo_conn := (RdmaSim.conn 0 ∅ (Some 0) 1 (0, 0)).

Lemma demo_alloc_rep : alloc_rep 0 shm_up demo_srv ∅.
Proof.
  constructor; [done|done|apply alloc_inv_init|]. intros a n. rewrite lookup_empty. split; [done|].
  intros [Hin Hf]. apply list_elem_of_singleton in Hin. by rewrite Hin in Hf.
Qed.

Lemma allocator_refines_witness :
  wp (alloc_calls [OpAllocate 5000; OpAllocate 1; OpFree 0x4000000000; OpFree 7])
     (fun rs s' => exists shm' srv' live', s' = demo_conn shm' srv' (demo_cli []) /\
        alloc_trace ∅ [OpAllocate 5000; OpAllocate 1; OpFree 0x4000000000; OpFree 7] rs live' /\
        alloc_rep 0 shm' srv' live')
     (demo_conn shm_up demo_srv (demo_cli [])).
Proof.
  apply allocator_refines; [apply demo_alloc_rep|].
  repeat constructor; simpl; unfold SIM_REMOTE_MEMORY_ALIGN; lia.
Defined.

(** A queued read of 16 bytes beyond the end of the simulated memory. *)
Definition demo_request : rdma_request_t :=
  submitted (0, 0) 1 RDMA_OP_READ 4096 (sim_base + SIM_REMOTE_MEMORY_SIZE) 16 false.
Definition demo_queued : rdma_shm_t := queued demo_request (page_buffer shm_up) 0 shm_up.

Lemma demo_queued_ring : ring demo_queued [demo_request].
Proof.
  apply (ring_queued shm_up []); [apply (shm_up_quiet (fun _ => Byte.x00) [] (fun _ => Byte.x00) [])|done| |done].
  split; [done|]. by split_and!.
Qed.

Lemma demo_queued_ok : server_ok 0 demo_queued demo_srv.
Proof. by constructor. Qed.

Lemma server_serves_queue_witness :
  wp (server_round Server)
     (fun stop s' => stop = false /\ exists shm' srv', s' = demo_conn shm' srv' (demo_cli []) /\
        serves [demo_request] demo_queued demo_srv shm' srv' /\ ring shm' [] /\ server_ok 0 shm' srv' /\
        drained demo_queued [demo_request] shm')
     (demo_conn demo_queued demo_srv (demo_cli [])).
Proof. apply server_serves_queue; [apply demo_queued_ring|apply demo_queued_ok|done]. Defined.

Lemma submit_appends_witness :
  wp (rdma_submit_request Client RDMA_OP_WRITE 0 sim_base 3 4096)
     (fun v s' => exists shm' cli', s' = demo_conn shm' demo_srv cli' /\ v = 1 /\
        take 3 (page_buffer shm') = [Byte.x01; Byte.x02; Byte.x03])
     (demo_conn shm_up demo_srv (demo_cli [Byte.x01; Byte.x02; Byte.x03])).
Proof.
  eapply wp_mono.
  - apply (submit_appends 0 ∅ (Some 0) 1 (0, 0) shm_up demo_srv (demo_cli [Byte.x01; Byte.x02; Byte.x03]) []
      RDMA_OP_WRITE 0 sim_base 3 4096); try done.
  - intros v s' (shm' & cli' & -> & -> & _ & _ & Hpb). exists shm', cli'. split; [done|]. split; [done|].
    by apply Hpb.
Defined.

(** ** Transfers *)

Section transfers.
Context (id : Z) (G : gmap Z rdma_shm_t) (key : option Z) (nid : Z) (clk : Z * Z).
Abbreviation conn := (RdmaSim.conn id G key nid clk).

(** A write of [size] bytes from [data], waited for, and a read of as many
    bytes from the same remote address into [laddr]. *)
Definition write_then_read (data raddr size laddr : Z) : M rdma_sys ((Z * Z) * (Z * Z)) :=
  w ← rdma_submit_request Client RDMA_OP_WRITE data raddr size data;
  rw ← rdma_wait_request server_turn Client w;
  r ← rdma_submit_request Client RDMA_OP_READ laddr raddr size 0;
  rr ← rdma_wait_request server_turn Client r;
  mret (rw, rr).

(** C14: with a running server and an empty ring, a write of up to a page
    to any address range of the simulated memory and a read back succeed
    with error code 0, deliver exactly the bytes written to the local
    destination, change no other byte of the client, and change exactly
    the range in the remote memory. *)
Theorem write_read_roundtrip (shm : rdma_shm_t) (srv cli : rdma_proc) (m : mem) (data raddr size laddr : Z) :
  quiet id shm srv cli m -> request_id_counter cli < 2 ^ 64 - 3 ->
  data <> 0 -> laddr <> 0 -> 0 < size <= RDMA_PAGE_BUFFER_SIZE -> in_remote raddr size ->
  let bs := mem_read (p_mem cli) data (Z.to_nat size) in
  wp (write_then_read data raddr size laddr)
     (fun r s' => r = ((0, 0), (0, 0)) /\ exists shm' srv' cli', s' = conn shm' srv' cli' /\
        quiet id shm' srv' cli' (mem_write m (raddr - sim_base) bs) /\
        p_mem cli' = mem_write (p_mem cli) laddr bs)
     (conn shm srv cli).
Proof.
  intros Hq Hctr Hd Hl Hsz Hin bs. unfold write_then_read. wp_norm.
  assert (Hlen : length bs = Z.to_nat size) by apply length_mem_read.
  wp_call (write_spec id G key nid clk shm srv cli m) as w s1 [-> Hw]; try done; [lia|]. wp_norm.
  eapply wp_mono; [exact Hw|]. intros rw s2 (-> & shm2 & srv2 & -> & Hq2 & _). wp_norm.
  assert (Hc : 0 < request_id_counter cli) by apply Hq.
  assert (Hc2 : request_id_counter (bump cli) < 2 ^ 64 - 2).
  { simpl. rewrite u64_small by (unfold in_u64; lia). lia. }
  wp_call (read_spec id G key nid clk shm2 srv2 (bump cli) _) as r s3 [-> Hr]; try done. wp_norm.
  eapply wp_mono; [exact Hr|]. intros rr s4 (-> & shm3 & -> & Hq3 & _). wp_norm. split; [done|].
  exists shm3, srv2. eexists. split; [done|]. split; [done|]. simpl.
  f_equal. transitivity (mem_read (mem_write m (raddr - sim_base) bs) (raddr - sim_base) (length bs)).
  { by rewrite Hlen. } apply mem_read_write_same.
Qed.
End transfers.

Lemma write_read_roundtrip_witness :
  wp (write_then_read 4096 (sim_base + 8192) 3 20000)
     (fun r s' => r = ((0, 0), (0, 0)) /\ mem_read (p_mem (client s')) 20000 3 = [Byte.x01; Byte.x02; Byte.x03])
     (demo_conn shm_up demo_srv (demo_cli [Byte.x01; Byte.x02; Byte.x03])).
Proof.
  eapply wp_mono.
  - apply (write_read_roundtrip 0 ∅ (Some 0) 1 (0, 0) shm_up demo_srv (demo_cli [Byte.x01; Byte.x02; Byte.x03])
      (fun _ => Byte.x00) 4096 (sim_base + 8192) 3 20000); try done.
    apply (shm_up_quiet (fun _ => Byte.x00) [] (demo_mem [Byte.x01; Byte.x02; Byte.x03]) []).
  - intros r s' (-> & shm' & srv' & cli' & -> & _ & Hm). split; [done|]. simpl. rewrite Hm.
    apply (mem_read_write_same _ _ [Byte.x01; Byte.x02; Byte.x03]).
Defined.

(** ** Shutdown *)

Section shutdown.
Context (id : Z) (G : gmap Z rdma_shm_t) (key : option Z) (nid : Z) (clk : Z * Z).
Abbreviation conn := (RdmaSim.conn id G key nid clk).

(** Serving a request never takes a shutdown back, and a shutdown request
    requests it. *)
Lemma served_shutdown_kept index r shm srv e shm' srv' :
  served index r shm srv e shm' srv' ->
  (shutdown_requested shm = true \/ op_type r = RDMA_OP_SHUTDOWN) -> shutdown_requested shm' = true.
Proof.
  destruct 1 as [| | |[Ho|Ho] ?|? Ho|? Ho|? ? ? ? Ho|? ? ? Ho| |]; simpl; intros [?|?]; congruence.
Qed.

Lemma serves_shutdown q shm srv shm' srv' :
  serves q shm srv shm' srv' ->
  (shutdown_requested shm = true \/ Exists (fun r => op_type r = RDMA_OP_SHUTDOWN) q) ->
  shutdown_requested shm' = true.
Proof.
  induction 1 as [shm srv|r q shm srv e shm1 srv1 r' shm' srv' Hs _ _ IH].
  - intros [?|H]; [done|by apply Exists_nil in H].
  - rewrite Exists_cons. intros H. apply IH.
    destruct (retire_fields (head shm) e r' shm1) as (-> & _).
    destruct H as [H|[H|H]]; [left|left|by right]; (eapply served_shutdown_kept; [exact Hs|]); auto.
Qed.

(** A shutdown request ends the server: if one is anywhere in the
    queue, [rdma_server_process_requests] serves the whole queue and then
    returns 0, within two rounds. *)
Theorem shutdown_ends_server (shm : rdma_shm_t) (srv cli : rdma_proc) (q : list rdma_request_t) (n : nat) :
  ring shm q -> server_ok id shm srv -> shutdown_requested shm = false ->
  Exists (fun r => op_type r = RDMA_OP_SHUTDOWN) q -> (2 <= n)%nat ->
  wp (rdma_server_process_requests Server n)
     (fun r s' => r = Some 0 /\ exists shm' srv', s' = conn shm' srv' cli /\ ring shm' [] /\ drained shm q shm')
     (conn shm srv cli).
Proof.
  intros Hring Hok Hsd Hex Hn. destruct n as [|[|n]]; [lia|lia|].
  unfold rdma_server_process_requests. wp_norm. apply wp_connected; [apply Hok|].
  rewrite (so_initialized _ _ _ Hok). simpl negb. cbv iota. cbn [server_rounds]. wp_norm.
  wp_call (server_round_spec id G key nid clk shm srv cli q) as stop s' (-> & shm' & srv' & -> & Hs); [done..|].
  destruct (serves_drained _ _ _ _ _ _ Hs Hring Hok) as (Hring' & Hok' & Hd). wp_norm.
  unfold server_round. wp_norm. apply wp_the_shm; [apply Hok'|].
  rewrite (serves_shutdown _ _ _ _ _ Hs) by auto. wp_norm. split; [done|]. exists shm', srv'. done.
Qed.
End shutdown.

(** ** Behaviours the interface does not announce *)

Section surprises.
Context (id : Z) (G : gmap Z rdma_shm_t) (key : option Z) (nid : Z) (clk : Z * Z).
Abbreviation conn := (RdmaSim.conn id G key nid clk).

(** The block list is a [static] of [rdma_sim.c] that only
    [rdma_sim_init(true)] fills, so in a process that attached as a client
    every [rdma_sim_allocate] of a positive size fails with [ENOMEM],
    however much simulated memory is free, and every [rdma_sim_free] fails
    with [EINVAL], even of an address the server allocated for it; neither
    changes anything. *)
Theorem client_cannot_allocate (shm : rdma_shm_t) (srv cli : rdma_proc) (size addr : Z) :
  rdma_shm cli = Some id -> shm_initialized shm = true ->
  sim_remote_memory_blocks cli = [] -> 0 < size ->
  wp (a ← rdma_sim_allocate Client size false; f ← rdma_sim_free Client addr; mret (a, f))
     (fun r s' => r = ((ENOMEM, None), EINVAL) /\ s' = conn shm srv cli)
     (conn shm srv cli).
Proof.
  intros Hatt Hini Hb Hsz. unfold rdma_sim_allocate, rdma_sim_free.
  replace (false || (size =? 0)) with false by lia. wp_norm. apply wp_connected; [done|]. rewrite Hini.
  simpl negb. cbv iota zeta. wp_norm. rewrite proc_conn. simpl procs. rewrite Hb. simpl alloc_block. cbv iota.
  wp_norm. apply wp_connected; [done|]. rewrite Hini. simpl negb. cbv iota. wp_norm.
  rewrite proc_conn. simpl procs. rewrite Hb. simpl free_block. cbv iota. by wp_norm.
Qed.

(** Waiting while the other process does nothing. *)
Lemma wait_idle_loop shm srv cli rid (n : nat) k :
  rdma_shm cli = Some id -> find_request rid (requests shm) = None ->
  0 <= k <= wait_attempts / 2 + 1 -> wait_attempts / 2 + 1 < k + Z.of_nat n ->
  wp (wait_loop (mret tt) Client rid k n) (fun r s' => r = (-1, ENOENT) /\ s' = conn shm srv cli)
     (conn shm srv cli).
Proof.
  intros Hatt Hf. revert k. induction n as [|n IH]; intros k Hk Hn; [lia|]. cbn [wait_loop]. wp_norm.
  apply wp_the_shm; [done|]. rewrite Hf. destruct (wait_attempts / 2 <? k) eqn:E; wp_norm; [done|].
  apply IH; lia.
Qed.

(** A submitted request whose server never gets to it is reported as
    unknown, not as timed out: [rdma_wait_request] takes the status
    pending, which is 0, for a free slot, so after just over half of its
    polls it gives up with [ENOENT], and [ETIMEDOUT] is never reached. *)
Theorem unserved_request_unknown (shm : rdma_shm_t) (srv cli : rdma_proc) (rid : Z) :
  rdma_shm cli = Some id -> shm_initialized shm = true -> rid <> 0 ->
  Forall (fun r => request_id r = rid -> status r = RDMA_REQ_PENDING) (requests shm) ->
  wp (rdma_wait_request (mret tt) Client rid)
     (fun r s' => r = (-1, ENOENT) /\ r <> (-1, ETIMEDOUT) /\ s' = conn shm srv cli) (conn shm srv cli).
Proof.
  intros Hatt Hini Hrid Hall. unfold rdma_wait_request. wp_norm. apply wp_connected; [done|].
  rewrite Hini. simpl negb. cbv iota. replace (rid =? 0) with false by lia.
  eapply wp_mono; [apply wait_idle_loop; [done| |vm_compute; split; congruence|vm_compute; congruence]|].
  - apply find_request_none. by rewrite Forall_forall in Hall.
  - by intros r s' [-> ->].
Qed.

(** Two writes of [size] bytes submitted before the server runs. *)
Definition two_writes (data1 raddr1 data2 raddr2 size : Z) : M rdma_sys (Z * Z) :=
  w1 ← rdma_submit_request Client RDMA_OP_WRITE data1 raddr1 size data1;
  w2 ← rdma_submit_request Client RDMA_OP_WRITE data2 raddr2 size data2;
  server_round Server;;
  mret (w1, w2).

Lemma serves_write r q shm srv shm' srv' m :
  serves (r :: q) shm srv shm' srv' -> sim_remote_memory_ptr srv = Some m ->
  op_type r = RDMA_OP_WRITE -> data_in_shm_buffer r = true -> 0 < req_size r -> in_sim r ->
  exists shm1 srv1, serves q shm1 srv1 shm' srv' /\ page_buffer shm1 = page_buffer shm /\
    sim_remote_memory_ptr srv1 =
      Some (mem_write m (remote_addr r - sim_base) (take (Z.to_nat (req_size r)) (page_buffer shm))).
Proof.
  intros Hs Hm Hop Hd Hsz Hin. inversion Hs as [|? ? ? ? e shm1 srv1 r' ? ? H1 Hr' Hn]; subst.
  exists (retire (head shm) e r' shm1), srv1. split; [done|].
  destruct (retire_fields (head shm) e r' shm1) as (_ & -> & _).
  inversion H1 as [| |? []| |? Ho|m' _ _ _ Hm'|? ? ? ? Ho|? ? ? Ho| |]; subst; simpl in *; try congruence; try lia; try done.
  assert (m' = m) as -> by congruence. done.
Qed.

(** C30: there is one page buffer for all requests in flight: when two
    writes are submitted before the server runs, both are accepted and
    completed, but the first one's destination receives the bytes of the
    second. *)
Theorem second_write_clobbers (shm : rdma_shm_t) (srv cli : rdma_proc) (m : mem)
    (data1 raddr1 data2 raddr2 size : Z) :
  quiet id shm srv cli m -> request_id_counter cli < 2 ^ 64 - 3 ->
  data1 <> 0 -> data2 <> 0 -> 0 < size <= RDMA_PAGE_BUFFER_SIZE ->
  in_remote raddr1 size -> in_remote raddr2 size ->
  let bs2 := mem_read (p_mem cli) data2 (Z.to_nat size) in
  wp (two_writes data1 raddr1 data2 raddr2 size)
     (fun r s' => r = (request_id_counter cli, request_id_counter cli + 1) /\
        sim_remote_memory_ptr (server s') =
          Some (mem_write (mem_write m (raddr1 - sim_base) bs2) (raddr2 - sim_base) bs2))
     (conn shm srv cli).
Proof.
  intros [Hring Hok Hsd Hco Hm] Hctr Hd1 Hd2 Hsz Hin1 Hin2 bs2. unfold two_writes. wp_norm.
  assert (Hcar : forall d, d <> 0 -> carries_data RDMA_OP_WRITE size d = true).
  { intros d Hd. unfold carries_data. rewrite bool_decide_eq_true_2 by done. lia. }
  destruct (in_remote_u64 _ _ Hin1 ltac:(lia)) as [Hr1 Hs64]. destruct (in_remote_u64 _ _ Hin2 ltac:(lia)) as [Hr2 _].
  pose proof (ring_count _ _ Hring) as Hc. simpl in Hc. pose proof (co_counter _ _ _ Hco) as Hctr0.
  wp_call (submit_spec id G key nid clk shm srv cli []) as w1 s1 [-> ->];
    [apply Hco|apply Hok|done|rewrite Hc; done|lia|]. rewrite Hcar by done. wp_norm.
  set (bs1 := mem_read (p_mem cli) data1 (Z.to_nat size)).
  assert (Hbs1 : length bs1 = Z.to_nat size) by apply length_mem_read.
  assert (Hbs2 : length bs2 = Z.to_nat size) by apply length_mem_read.
  set (r1 := submitted _ _ _ _ _ _ _). set (pb1 := splice 0 bs1 _).
  assert (Hpb1 : length pb1 = Z.to_nat RDMA_PAGE_BUFFER_SIZE).
  { unfold pb1. rewrite length_splice; rewrite (ring_buffer _ _ Hring); lia. }
  assert (Hring1 : ring (queued r1 pb1 size shm) [r1]).
  { apply (ring_queued shm []); [done|rewrite Hc; done| |done]. split; [done|]. split_and!; try done. intros _. simpl. lia. }
  wp_call (submit_spec id G key nid clk (queued r1 pb1 size shm) srv _ [r1]) as w2 s2 [-> ->];
    [apply Hco|apply Hok|done|simpl; rewrite Hc; done|lia|]. rewrite Hcar by done. wp_norm.
  set (r2 := submitted _ _ _ _ _ _ _). set (shm2 := queued r2 _ size _).
  assert (Hring2 : ring shm2 [r1; r2]).
  { apply (ring_queued _ [r1]); [done|simpl; rewrite Hc; done| |].
    - split; [done|]. split_and!; try done. intros _. simpl. lia.
    - change (page_buffer (queued r1 pb1 size shm)) with pb1. rewrite length_splice, Hpb1; [done|].
      change (p_mem (set_request_id_counter _ _)) with (p_mem cli). fold bs2. rewrite Hpb1. lia. }
  assert (Hok2 : server_ok id shm2 srv) by (destruct Hok; by constructor).
  wp_call (server_round_spec id G key nid clk shm2 srv _ [r1; r2]) as stop s3 (-> & shm' & srv' & -> & Hs); [done..|].
  wp_norm. split; [simpl; rewrite u64_small by (unfold in_u64; lia); done|].
  destruct (serves_write _ _ _ _ _ _ m Hs) as (sh1 & sv1 & Hs1 & Hp1 & Hm1); try done; [simpl; lia|].
  destruct (serves_write _ _ _ _ _ _ _ Hs1 Hm1) as (sh2 & sv2 & Hs2 & _ & Hm2); try done; [simpl; lia|].
  inversion Hs2; subst. simpl. rewrite Hm2, Hp1. simpl.
  rewrite splice_front; [done|done|]. fold pb1. rewrite Hpb1. lia.
Qed.
End surprises.

(** ** Further witnesses *)

Definition demo_stop : rdma_request_t := submitted (0, 0) 1 RDMA_OP_SHUTDOWN 0 0 0 false.

Lemma shutdown_ends_server_witness :
  wp (rdma_server_process_requests Server 2)
     (fun r _ => r = Some 0)
     (demo_conn (queued demo_stop (page_buffer shm_up) 0 shm_up) demo_srv (demo_cli [])).
Proof.
  eapply wp_mono.
  - apply (shutdown_ends_server 0 ∅ (Some 0) 1 (0, 0) _ _ _ [demo_stop] 2); [| |done|by left|lia].
    + apply (ring_queued shm_up []); [by constructor|done| |done]. split; [done|]. by split_and!.
    + by constructor.
  - by intros r s' [-> _].
Defined.

Lemma client_cannot_allocate_witness :
  wp (a ← rdma_sim_allocate Client 4096 false; f ← rdma_sim_free Client sim_base; mret (a, f))
     (fun r s' => r = ((ENOMEM, None), EINVAL) /\ s' = demo_conn shm_up demo_srv (demo_cli []))
     (demo_conn shm_up demo_srv (demo_cli [])).
Proof. apply client_cannot_allocate; [done|done|done|lia]. Defined.

Lemma unserved_request_unknown_witness :
  wp (rdma_wait_request (mret tt) Client 1)
     (fun r s' => r = (-1, ENOENT) /\ r <> (-1, ETIMEDOUT) /\ s' = demo_conn demo_queued demo_srv (demo_cli []))
     (demo_conn demo_queued demo_srv (demo_cli [])).
Proof.
  apply unserved_request_unknown; [done|done|lia|].
  apply Forall_insert; [|done]. apply Forall_replicate. simpl. lia.
Defined.

Definition demo_two : list byte := [Byte.x01; Byte.x02].

Lemma second_write_clobbers_witness :
  wp (two_writes 4096 sim_base 4097 (sim_base + 64) 1)
     (fun r s' => r = (1, 2) /\ (exists m, sim_remote_memory_ptr (server s') = Some m /\ m 0 = Byte.x02))
     (demo_conn shm_up demo_srv (demo_cli demo_two)).
Proof.
  eapply wp_mono.
  - apply (second_write_clobbers 0 ∅ (Some 0) 1 (0, 0) shm_up demo_srv (demo_cli demo_two) (fun _ => Byte.x00)
      4096 sim_base 4097 (sim_base + 64) 1); try done. apply (shm_up_quiet _ _ (demo_mem demo_two) []).
  - intros r s' [-> ->]. split; [done|]. eexists. split; [done|]. by vm_compute.
Defined.
