(* ===== verification/RingTypes.v ===== *)
(** The shared segment is well typed: in every state the two processes can
    bring it into, each segment has its 128 request slots and its page
    buffer, the two indices are slots of the ring, the count is at most its
    size, and the tail is the count's distance from the head. *)

From S2P Require Import Prelude UserPage RdmaAlloc RdmaSim.

Local Open Scope Z_scope.

Record shm_typed (shm : rdma_shm_t) : Prop := mk_shm_typed {
  ty_requests : length (requests shm) = Z.to_nat MAX_RDMA_REQUESTS;
  ty_buffer : length (page_buffer shm) = Z.to_nat RDMA_PAGE_BUFFER_SIZE;
  ty_head : 0 <= head shm < MAX_RDMA_REQUESTS;
  ty_tail : 0 <= tail shm < MAX_RDMA_REQUESTS;
  ty_count : 0 <= count shm <= MAX_RDMA_REQUESTS;
  ty_distance : tail shm = (head shm + count shm) mod MAX_RDMA_REQUESTS;
}.

Definition sys_typed (x : rdma_sys) : Prop := forall id shm, segs x !! id = Some shm -> shm_typed shm.

(** Between the two halves of a queue operation: what is known of the head,
    the tail and the count of the segment [me] is attached to. *)
Definition typed_with (P : Z -> Z -> Z -> Prop) (me : role) (x : rdma_sys) : Prop :=
  sys_typed x /\
  forall id shm, rdma_shm (proc me x) = Some id -> segs x !! id = Some shm -> P (head shm) (tail shm) (count shm).

(** An assignment that leaves the queue alone. *)
Definition off_queue (f : rdma_shm_t -> rdma_shm_t) : Prop :=
  forall shm, shm_typed shm -> shm_typed (f shm) /\ head (f shm) = head shm /\ tail (f shm) = tail shm /\ count (f shm) = count shm.

Lemma zero_shm_typed : shm_typed zero_shm.
Proof. split; try done; simpl; try apply length_replicate. Qed.

Lemma typed_weaken P me x : typed_with P me x -> sys_typed x.
Proof. by intros [? _]. Qed.

(** [carries I J m]: a returning run of [m] from a state of [I] ends in one
    of [J]. *)
Definition carries {A} (I J : rdma_sys -> Prop) (m : M rdma_sys A) : Prop :=
  forall x, I x -> wlp m (fun _ y => J y) x.

Lemma carries_bind {A B} (I J : rdma_sys -> Prop) (m : M rdma_sys A) (f : A -> M rdma_sys B) :
  keeps I m -> (forall a, carries I J (f a)) -> carries I J (m ≫= f).
Proof. intros Hm Hf x Hx. wlp_norm. eapply wlp_mono; [by apply Hm|]. intros a y Hy. by apply Hf. Qed.

Lemma carries_then {A B} (I J : rdma_sys -> Prop) (m : M rdma_sys A) (f : A -> M rdma_sys B) :
  carries I J m -> (forall a, keeps J (f a)) -> carries I J (m ≫= f).
Proof. intros Hm Hf x Hx. wlp_norm. eapply wlp_mono; [by apply Hm|]. intros a y Hy. by apply Hf. Qed.

Lemma carries_keeps {A} (I J : rdma_sys -> Prop) (m : M rdma_sys A) :
  keeps I m -> (forall x, I x -> J x) -> carries I J m.
Proof. intros Hm HIJ x Hx. eapply wlp_mono; [by apply Hm|]. auto. Qed.

Section primitives.
Variable P : Z -> Z -> Z -> Prop.
Variable me : role.

Lemma typed_upd_proc f : (forall p, rdma_shm (f p) = rdma_shm p) -> keeps (typed_with P me) (upd_proc me f).
Proof.
  intros Hf. apply keeps_modify. intros x [Ht Hp]. split; [by destruct me|].
  intros id shm. destruct me; simpl in *; rewrite Hf; apply Hp.
Qed.

(** The segment a process is attached to. *)
Lemma wlp_the_shm (Q : rdma_shm_t -> rdma_sys -> Prop) x :
  (forall id shm, rdma_shm (proc me x) = Some id -> segs x !! id = Some shm -> Q shm x) -> wlp (the_shm me) Q x.
Proof. intros HQ. unfold the_shm. wlp_norm. intros id Hid. wlp_norm. intros shm Hs. eauto. Qed.

Lemma wlp_upd_shm f (Q : unit -> rdma_sys -> Prop) x :
  (forall id shm, rdma_shm (proc me x) = Some id -> segs x !! id = Some shm -> Q tt (set_segs (<[id := f shm]> (segs x)) x)) ->
  wlp (upd_shm me f) Q x.
Proof. intros HQ. unfold upd_shm. wlp_norm. intros id Hid. wlp_norm. intros shm Hs. wlp_norm. eauto. Qed.

Lemma typed_upd_shm f : off_queue f -> keeps (typed_with P me) (upd_shm me f).
Proof.
  intros Hf x [Ht Hp]. apply wlp_upd_shm. intros id shm Hid Hs. destruct (Hf _ (Ht _ _ Hs)) as (Ht' & Hh & Htl & Hc). split.
  - intros id' shm' Hs'. simpl in Hs'. apply lookup_insert_Some in Hs' as [[<- <-]|[_ ?]]; [done|by eapply Ht].
  - intros id' shm' Hid' Hs'. assert (id' = id) as -> by (destruct me; simpl in *; congruence).
    simpl in Hs'. rewrite lookup_insert_eq in Hs'. injection Hs' as <-. rewrite Hh, Htl, Hc. by eapply Hp.
Qed.
End primitives.

#[export] Hint Extern 1 (keeps (typed_with _ _) (upd_proc _ _)) => (apply typed_upd_proc; by intros []) : keeps.
#[export] Hint Extern 1 (keeps (typed_with _ _) (upd_shm _ _)) =>
  (apply typed_upd_shm; intros ? []; split; [split; simpl; rewrite ?length_insert; done|done]) : keeps.

Section operations.
Variable P : Z -> Z -> Z -> Prop.
Variable me : role.
Notation typed := (typed_with P me).

Lemma typed_malloc : keeps typed (malloc me).
Proof. unfold malloc. keeps_tac. Qed.
Lemma typed_os_ok : keeps typed (os_ok me).
Proof. unfold os_ok. keeps_tac. Qed.
Lemma typed_the_shm : keeps typed (the_shm me).
Proof. unfold the_shm. keeps_tac. Qed.
Hint Resolve typed_malloc typed_os_ok typed_the_shm : keeps.
Lemma typed_connected : keeps typed (connected me).
Proof. unfold connected. keeps_tac. Qed.
Lemma typed_the_req i : keeps typed (the_req me i).
Proof. unfold the_req. keeps_tac. Qed.
Hint Resolve typed_connected typed_the_req : keeps.
Lemma typed_upd_req i f : keeps typed (upd_req me i f).
Proof. unfold upd_req. keeps_tac. Qed.
Lemma typed_timestamp : keeps typed rdma_get_timestamp.
Proof. unfold rdma_get_timestamp. keeps_tac. Qed.
Lemma typed_proc_read a n : keeps typed (proc_read me a n).
Proof. unfold proc_read. keeps_tac. Qed.
Lemma typed_proc_write a bs : keeps typed (proc_write me a bs).
Proof. unfold proc_write. keeps_tac. Qed.
Lemma typed_sim_read a n : keeps typed (sim_read me a n).
Proof. unfold sim_read. keeps_tac. Qed.
Lemma typed_sim_write a bs : keeps typed (sim_write me a bs).
Proof. unfold sim_write. keeps_tac. Qed.
Lemma typed_buffer_read a n : keeps typed (page_buffer_read me a n).
Proof. unfold page_buffer_read. keeps_tac. Qed.

(** A write into the page buffer keeps its length: the code's bounds. *)
Lemma typed_buffer_write off bs : keeps typed (page_buffer_write me off bs).
Proof.
  unfold page_buffer_write. destruct (_ && _) eqn:E; [|apply keeps_fail]. apply typed_upd_shm. intros shm [].
  split; [split; try done|done]. simpl. rewrite length_splice; [done|]. lia.
Qed.
Hint Resolve typed_upd_req typed_timestamp typed_proc_read typed_proc_write typed_sim_read typed_sim_write typed_buffer_read
  typed_buffer_write : keeps.

(** The server's allocator and one request served. *)
Lemma typed_allocate size null : keeps typed (rdma_sim_allocate me size null).
Proof. unfold rdma_sim_allocate. keeps_tac. Qed.
Lemma typed_free a : keeps typed (rdma_sim_free me a).
Proof. unfold rdma_sim_free. keeps_tac. Qed.
Hint Resolve typed_allocate typed_free : keeps.
Lemma typed_handle i : keeps typed (rdma_server_handle_request me i).
Proof. unfold rdma_server_handle_request. keeps_tac. Qed.
Lemma typed_finish r : keeps typed (finish_request me r).
Proof. unfold finish_request. keeps_tac. Qed.
End operations.

#[export] Hint Resolve typed_malloc typed_os_ok typed_the_shm typed_connected typed_the_req typed_upd_req typed_timestamp
  typed_proc_read typed_proc_write typed_buffer_write typed_allocate typed_free typed_handle typed_finish : keeps.

(** ** The two operations of the queue *)

Section queue.
Variable me : role.

Lemma sys_any {A} (m : M rdma_sys A) : keeps (typed_with (fun _ _ _ => True) me) m -> keeps sys_typed m.
Proof. intros Hm x Hx. eapply wlp_mono; [by apply (Hm x)|]. intros a y. apply typed_weaken. Qed.

(** A reading of the segment fixes what is known of it. *)
Lemma carries_look {A} (Q : Z -> Z -> Z -> Prop) (P : rdma_shm_t -> Z -> Z -> Z -> Prop) (J : rdma_sys -> Prop)
    (f : rdma_shm_t -> M rdma_sys A) :
  (forall shm, P shm (head shm) (tail shm) (count shm)) ->
  (forall shm, Q (head shm) (tail shm) (count shm) -> carries (typed_with (P shm) me) J (f shm)) ->
  carries (typed_with Q me) J (the_shm me ≫= f).
Proof.
  intros HP Hf x [Hx Hq]. wlp_norm. apply wlp_the_shm. intros id shm Hid Hs. apply (Hf shm); [by eapply Hq|].
  split; [done|]. intros id' shm' Hid' Hs'. assert (shm' = shm) as -> by congruence. apply HP.
Qed.

Lemma carries_any {A} (J : rdma_sys -> Prop) (m : M rdma_sys A) :
  carries (typed_with (fun _ _ _ => True) me) J m -> carries sys_typed J m.
Proof. intros Hm x Hx. by apply (Hm x). Qed.

Lemma carries_queue (P : Z -> Z -> Z -> Prop) (h t c : Z -> Z -> Z -> Z) :
  (forall hd tl n, P hd tl n -> 0 <= hd < MAX_RDMA_REQUESTS -> 0 <= n <= MAX_RDMA_REQUESTS ->
    tl = (hd + n) mod MAX_RDMA_REQUESTS ->
    0 <= h hd tl n < MAX_RDMA_REQUESTS /\ 0 <= c hd tl n <= MAX_RDMA_REQUESTS /\
    t hd tl n = (h hd tl n + c hd tl n) mod MAX_RDMA_REQUESTS) ->
  carries (typed_with P me) sys_typed (upd_shm me (fun s =>
    set_queue (h (head s) (tail s) (count s)) (t (head s) (tail s) (count s)) (c (head s) (tail s) (count s)) s)).
Proof.
  intros HQ x [Ht Hp]. apply wlp_upd_shm. intros id shm Hid Hs id' shm' Hs'. simpl in Hs'.
  apply lookup_insert_Some in Hs' as [[<- <-]|[_ ?]]; [|by eapply Ht].
  destruct (Ht _ _ Hs) as [? ? ? ? ? Hd]. destruct (HQ _ _ _ (Hp _ _ Hid Hs)) as (Hh & Hc & Htl); [done..|].
  split; simpl; try done. rewrite Htl. by apply Z.mod_pos_bound.
Qed.

Lemma sys_submit op l r s d : keeps sys_typed (rdma_submit_request me op l r s d).
Proof.
  unfold rdma_submit_request. apply keeps_bind; [apply sys_any; eauto with keeps|]. intros []; simpl; [|apply keeps_ret].
  apply carries_any, (carries_look _ (fun shm hd tl n => tl = tail shm /\ n = count shm)); [done|]. intros shm _.
  destruct (_ <=? _) eqn:Hroom; [apply carries_keeps; [apply keeps_ret|apply typed_weaken]|].
  apply carries_bind; [keeps_tac|]. intros p. apply carries_bind; [keeps_tac|]. intros _.
  apply carries_bind; [keeps_tac|]. intros now. apply carries_bind; [keeps_tac|]. intros _.
  apply carries_bind; [keeps_tac|]. intros []; simpl; [|apply carries_keeps; [apply keeps_ret|apply typed_weaken]].
  apply carries_then.
  - apply (carries_queue _ (fun hd _ _ => hd) (fun _ _ _ => (tail shm + 1) mod MAX_RDMA_REQUESTS) (fun _ _ n => n + 1)).
    intros hd tl n [-> ->] Hh Hc Hd. rewrite Hd, Zplus_mod_idemp_l. repeat split; try lia. f_equal. lia.
  - intros _. apply sys_any. keeps_tac.
Qed.

Lemma process_typed : carries (typed_with (fun _ _ n => 0 < n) me) sys_typed (process_one me).
Proof.
  unfold process_one. apply (carries_look _ (fun shm hd tl n => hd = head shm /\ n = count shm)); [done|].
  intros shm Hpos. apply carries_bind; [keeps_tac|]. intros r. apply carries_bind; [keeps_tac|]. intros _.
  apply (carries_queue _ (fun _ _ _ => (head shm + 1) mod MAX_RDMA_REQUESTS) (fun _ tl _ => tl) (fun _ _ n => n - 1)).
  intros hd tl n [-> ->] Hh Hc Hd. rewrite Hd, Zplus_mod_idemp_l.
  pose proof (Z.mod_pos_bound (head shm + 1) MAX_RDMA_REQUESTS). repeat split; try lia. f_equal. lia.
Qed.

Lemma sys_drain n : keeps sys_typed (drain me n).
Proof.
  induction n as [|n IH]; simpl; apply carries_any, (carries_look _ (fun shm _ _ c => c = count shm)); try done;
    intros shm _; (destruct (0 <? count shm) eqn:E; [|apply carries_keeps; [apply keeps_ret|apply typed_weaken]]).
  - apply carries_keeps; [apply keeps_fail|apply typed_weaken].
  - apply carries_then; [|done]. intros x [Hx Hc]. apply process_typed. split; [done|]. intros id s Hid Hs.
    rewrite (Hc _ _ Hid Hs). lia.
Qed.

Lemma sys_round : keeps sys_typed (server_round me).
Proof.
  unfold server_round. apply keeps_bind; [apply sys_any; eauto with keeps|]. intros shm.
  destruct (shutdown_requested shm); [apply keeps_ret|]. destruct (_ =? 0); [apply keeps_ret|].
  apply keeps_bind; [apply sys_drain|]. intros _. apply keeps_ret.
Qed.

(** ** Attaching, detaching and waiting *)

Lemma sys_upd_proc f : keeps sys_typed (upd_proc me f).
Proof. apply keeps_modify. intros x Hx. by destruct me. Qed.

Lemma sys_upd_shm f : (forall shm, shm_typed shm -> shm_typed (f shm)) -> keeps sys_typed (upd_shm me f).
Proof.
  intros Hf x Hx. apply wlp_upd_shm. intros id shm Hid Hs id' shm' Hs'. simpl in Hs'.
  apply lookup_insert_Some in Hs' as [[<- <-]|[_ ?]]; [apply Hf|]; by eapply Hx.
Qed.

Lemma sys_remove id : keeps sys_typed (shm_remove id).
Proof. apply keeps_modify. intros x Hx. by destruct (bool_decide _). Qed.

Lemma sys_create : keeps sys_typed (shmget_create me).
Proof.
  unfold shmget_create. apply keeps_bind; [apply sys_any; eauto with keeps|]. intros []; simpl; [|apply keeps_ret].
  intros x Hx. wlp_norm. destruct (shm_key x); [by wlp_norm|]. intros id shm Hs. simpl in Hs.
  apply lookup_insert_Some in Hs as [[<- <-]|[_ ?]]; [apply zero_shm_typed|by eapply Hx].
Qed.
End queue.

#[export] Hint Resolve sys_submit sys_drain sys_round sys_upd_proc sys_remove sys_create : keeps.
#[export] Hint Extern 2 (keeps sys_typed (upd_shm _ _)) => (apply sys_upd_shm; first [by intros ? []|intros _ _; apply zero_shm_typed]) : keeps.
#[export] Hint Extern 3 (keeps sys_typed _) => (eapply sys_any; solve [eauto 2 with keeps nocore]) : keeps.

(** ** Every public operation *)

Section fabric.
(** What happens elsewhere during one [usleep]. *)
Variable usleep : M rdma_sys unit.
Hypothesis usleep_typed : keeps sys_typed usleep.
Variable me : role.
Hint Resolve usleep_typed : keeps.

Lemma sys_allocator : keeps sys_typed (init_sim_remote_memory_allocator me).
Proof. unfold init_sim_remote_memory_allocator. keeps_tac. Qed.
Hint Resolve sys_allocator : keeps.
Lemma sys_init_wait n : keeps sys_typed (init_wait usleep me n).
Proof. induction n; simpl; keeps_tac. Qed.
Hint Resolve sys_init_wait : keeps.
Lemma sys_init srv : keeps sys_typed (rdma_sim_init usleep me srv).
Proof. unfold rdma_sim_init, shmget_find. keeps_tac. Qed.
Hint Resolve sys_init : keeps.
Lemma sys_get_shm : keeps sys_typed (get_rdma_shm usleep me).
Proof. unfold get_rdma_shm. keeps_tac. Qed.
Lemma sys_cleanup srv : keeps sys_typed (rdma_sim_cleanup me srv).
Proof. unfold rdma_sim_cleanup. keeps_tac. Qed.
Lemma sys_wait_loop id k n : keeps sys_typed (wait_loop usleep me id k n).
Proof. revert k. induction n; intros k; simpl; keeps_tac. Qed.
Hint Resolve sys_wait_loop : keeps.
Lemma sys_wait id : keeps sys_typed (rdma_wait_request usleep me id).
Proof. unfold rdma_wait_request. keeps_tac. Qed.
Lemma sys_rounds n : keeps sys_typed (server_rounds me n).
Proof. induction n; simpl; keeps_tac. Qed.
Hint Resolve sys_rounds : keeps.
Lemma sys_requests n : keeps sys_typed (rdma_server_process_requests me n).
Proof. unfold rdma_server_process_requests. keeps_tac. Qed.
End fabric.

(** ** Sequences of operations *)

(** The entry points of [rdma_sim.h] with their arguments. *)
Inductive fabric_call : Type :=
  | CallInit (is_server : bool)
  | CallGetShm
  | CallCleanup (is_server : bool)
  | CallAllocate (size : Z) (remote_addr_null : bool)
  | CallFree (addr : Z)
  | CallSubmit (op : rdma_op_type_e) (laddr raddr size data : Z)
  | CallWait (id : Z)
  | CallHandle (index : Z)
  | CallProcess (rounds : nat).

Definition run_call (usleep : M rdma_sys unit) (me : role) (c : fabric_call) : M rdma_sys unit :=
  match c with
  | CallInit srv => rdma_sim_init usleep me srv;; mret tt
  | CallGetShm => get_rdma_shm usleep me;; mret tt
  | CallCleanup srv => rdma_sim_cleanup me srv
  | CallAllocate size null => rdma_sim_allocate me size null;; mret tt
  | CallFree a => rdma_sim_free me a;; mret tt
  | CallSubmit op l r s d => rdma_submit_request me op l r s d;; mret tt
  | CallWait id => rdma_wait_request usleep me id;; mret tt
  | CallHandle i => rdma_server_handle_request me i;; mret tt
  | CallProcess n => rdma_server_process_requests me n;; mret tt
  end.

Fixpoint run_calls (usleep : M rdma_sys unit) (l : list (role * fabric_call)) : M rdma_sys unit :=
  match l with
  | [] => mret tt
  | (me, c) :: l => run_call usleep me c;; run_calls usleep l
  end.

Lemma sys_call usleep me c : keeps sys_typed usleep -> keeps sys_typed (run_call usleep me c).
Proof.
  intros Hu. destruct c; simpl; try (apply keeps_bind; [|intros ?; apply keeps_ret]);
    eauto using sys_init, sys_get_shm, sys_cleanup, sys_wait, sys_requests, sys_any, typed_allocate, typed_free, typed_handle
      with keeps.
Qed.

Lemma sys_server_turn : keeps sys_typed server_turn.
Proof. unfold server_turn. keeps_tac. Qed.

(** C18: The shared segment is well typed for ever: in whatever order the
    server and the client call the entry points of the fabric, with any
    arguments, and whatever typed steps the other process takes while one of
    them sleeps, every shared memory segment keeps its 128 request slots and
    its full page buffer, its head and tail stay slots of the ring, its
    count stays between 0 and 128, and the tail stays the count's distance
    behind the head. *)
Theorem fabric_typed usleep l x :
  keeps sys_typed usleep -> sys_typed x -> wlp (run_calls usleep l) (fun _ => sys_typed) x.
Proof.
  intros Hu. revert x. induction l as [|[me c] l IH]; intros x Hx; simpl; [by wlp_norm|].
  wlp_norm. eapply wlp_mono; [by apply (sys_call usleep me c Hu)|]. intros [] y. apply IH.
Qed.

(** A session: the server comes up, the client attaches, writes and frees,
    both go down, and the server comes up again. *)
Definition typed_demo : list (role * fabric_call) :=
  [(Server, CallInit true); (Client, CallInit false); (Server, CallAllocate 100 false);
   (Client, CallSubmit RDMA_OP_WRITE 0 sim_base 8 0); (Client, CallSubmit RDMA_OP_SHUTDOWN 0 0 0 0);
   (Server, CallProcess 2); (Client, CallWait 1); (Client, CallCleanup false); (Server, CallCleanup true);
   (Server, CallInit true)].

Definition idle_proc (heap : list Z) : rdma_proc :=
  mk_proc None (-1) false 1 [] None (fun _ => Byte.x00) heap (replicate 8 true).

Definition idle_sys : rdma_sys := mk_sys ∅ None 1 (idle_proc [1; 2; 3; 4; 5; 6]) (idle_proc []) (0, 0).

Definition demo_ends (o : outcome (unit * rdma_sys)) : bool :=
  match o with
  | Done (_, y) => bool_decide (size (segs y) = 2%nat) && bool_decide (shm_key y = Some 2)
  | Fault _ => false
  end.

Lemma fabric_typed_witness :
  exists y, run_calls server_turn typed_demo idle_sys = Done (tt, y) /\
    size (segs y) = 2%nat /\ shm_key y = Some 2 /\ sys_typed y.
Proof.
  assert (H0 : sys_typed idle_sys) by (intros id shm Hs; by destruct (lookup_empty_Some id shm Hs)).
  pose proof (fabric_typed server_turn typed_demo idle_sys sys_server_turn H0) as H.
  assert (He : demo_ends (run_calls server_turn typed_demo idle_sys) = true) by (vm_compute; reflexivity).
  unfold wlp in H. destruct (run_calls _ _ _) as [[[] y]|]; [|done]. exists y.
  simpl in He. apply andb_true_iff in He as [Hs%bool_decide_eq_true Hk%bool_decide_eq_true]. done.
Defined.
