(* ===== verification/TestChain.v ===== *)
(** The test program [src/src/test_pointer_prefetch.c]: a chain of pages, each
    of which ends with the address of the next.

    The program runs over the bytes of its process; [owned] says which
    addresses it may touch, and an access elsewhere is a fault.  Printing,
    time measurement and sleeping are left out. *)

From S2P Require Import Prelude UserPage.

Local Open Scope Z_scope.

(** ** The program *)

Definition NUM_PAGES : Z := 30.

(** The offset of [next_ptr] in a [test_node_t]: [data] has 4088 bytes. *)
Definition sizeof_data : Z := PAGE_SIZE - 8.

Section program.
Variable owned : Z -> bool.

Definition owned_range (a n : Z) : bool := forallb owned (map (fun i => a + Z.of_nat i) (seq 0 (Z.to_nat n))).

Definition load_byte (a : Z) : M mem byte :=
  if owned a then gets (fun m => m a) else fail InvalidAccess.
Definition load_word (a : Z) : M mem Z :=
  if owned_range a 8 then gets (fun m => le_combine (mem_read m a 8)) else fail InvalidAccess.
Definition store_word (a w : Z) : M mem unit :=
  if owned_range a 8 then modify (fun m => mem_write m a (le_split 8 w)) else fail InvalidAccess.
Definition memset (a c n : Z) : M mem unit :=
  if owned_range a n then modify (fun m => mem_write m a (replicate (Z.to_nat n) (byte.of_Z c))) else fail InvalidAccess.

(** *** The chain *)

(** The loop of [setup_pointer_chain], [n] pages from page [i] on. *)
Fixpoint setup_loop (base_addr i : Z) (n : nat) : M mem unit :=
  match n with
  | O => mret tt
  | S n =>
      let current := base_addr + i * PAGE_SIZE in
      let next := base_addr + (i + 1) * PAGE_SIZE in
      memset current (65 + i mod 26) sizeof_data;;
      store_word (current + sizeof_data) next;;
      load_byte (current + 100);;
      setup_loop base_addr (i + 1) n
  end.

Definition setup_pointer_chain (base_addr num_pages : Z) : M mem unit :=
  setup_loop base_addr 0 (Z.to_nat (num_pages - 1));;
  let last := base_addr + (num_pages - 1) * PAGE_SIZE in
  memset last 90 sizeof_data;;
  store_word (last + sizeof_data) 0;;
  load_byte (last + 100);;
  mret tt.

(** The loop of [traverse_pointer_chain] with [n] pages left to visit: the
    pages visited, and [page_count] at the end. *)
Fixpoint traverse_loop (current page_count : Z) (n : nat) : M mem (list Z * Z) :=
  match n with
  | O => mret ([], page_count)
  | S n =>
      if current =? 0 then mret ([], page_count)
      else
        load_byte (current + 100);;
        load_byte (current + 2000);;
        load_byte (current + 4000);;
        next_ptr ← load_word (current + sizeof_data);
        if next_ptr =? 0 then mret ([current], page_count)
        else
          '(visited, count) ← traverse_loop next_ptr (page_count + 1) n;
          mret (current :: visited, count)
  end.

Definition traverse_pointer_chain (base_addr : Z) : M mem (list Z * Z) :=
  traverse_loop base_addr 0 (Z.to_nat NUM_PAGES).

(** *** [main] *)

(** Step 2: the pages are filled and chained. *)
Fixpoint main_fill (memory i : Z) (n : nat) : M mem unit :=
  match n with
  | O => mret tt
  | S n =>
      let page := memory + i * PAGE_SIZE in
      let tailptr := page + PAGE_SIZE - 8 in
      memset page 0x42 (PAGE_SIZE - 8);;
      store_word tailptr (if i <? NUM_PAGES - 1 then memory + (i + 1) * PAGE_SIZE else 0);;
      main_fill memory (i + 1) n
  end.

(** Step 3: [while (curr && *curr && page_idx < NUM_PAGES)]. *)
Fixpoint main_walk (curr : Z) (n : nat) : M mem unit :=
  if curr =? 0 then mret tt
  else
    w ← load_word curr;
    if w =? 0 then mret tt
    else
      match n with
      | O => mret tt
      | S n =>
          load_byte (curr + 128);;
          main_walk w n
      end.

(** [memory] is what [mmap] returns.  After the walk the program unmaps it
    and reports success. *)
Definition test_main (memory : option Z) : M mem Z :=
  match memory with
  | None => mret 1
  | Some memory =>
      main_fill memory 0 (Z.to_nat NUM_PAGES);;
      main_walk memory (Z.to_nat NUM_PAGES);;
      mret 0
  end.

(** ** Chains in memory *)

(** [path m l]: each page of [l] ends with the address of the next one, and
    the last one with null. *)
Fixpoint path (m : mem) (l : list Z) : Prop :=
  match l with
  | [] => True
  | a :: l' =>
      a <> 0 /\ le_combine (mem_read m (a + sizeof_data) 8) = (match l' with b :: _ => b | [] => 0 end) /\ path m l'
  end.

(** The pages of a chain of [n] pages from page [i] of [base] on. *)
Definition pages_of (base : Z) (i n : nat) : list Z := (fun j => base + Z.of_nat j * PAGE_SIZE) <$> seq i n.

Definition owns_page (a : Z) : Prop := forall x, a <= x < a + PAGE_SIZE -> owned x = true.
End program.

(** ** Steps *)

Section steps.
Variable owned : Z -> bool.
Implicit Types m : mem.

Lemma owned_range_true a n : (forall x, a <= x < a + n -> owned x = true) -> owned_range owned a n = true.
Proof.
  intros H. apply forallb_forall. intros x (i & <- & Hi)%in_map_iff. apply in_seq in Hi. apply H. lia.
Qed.

Lemma wp_load_byte a (Q : byte -> mem -> Prop) m : owned a = true -> Q (m a) m -> wp (load_byte owned a) Q m.
Proof. intros Ho HQ. unfold load_byte. rewrite Ho. by wp_norm. Qed.
Lemma wp_load_word a (Q : Z -> mem -> Prop) m :
  (forall x, a <= x < a + 8 -> owned x = true) -> Q (le_combine (mem_read m a 8)) m -> wp (load_word owned a) Q m.
Proof. intros Ho HQ. unfold load_word. rewrite owned_range_true by done. by wp_norm. Qed.
Lemma wp_store_word a w (Q : unit -> mem -> Prop) m :
  (forall x, a <= x < a + 8 -> owned x = true) -> Q tt (mem_write m a (le_split 8 w)) -> wp (store_word owned a w) Q m.
Proof. intros Ho HQ. unfold store_word. rewrite owned_range_true by done. by wp_norm. Qed.
Lemma wp_memset a c n (Q : unit -> mem -> Prop) m :
  (forall x, a <= x < a + n -> owned x = true) ->
  Q tt (mem_write m a (replicate (Z.to_nat n) (byte.of_Z c))) -> wp (memset owned a c n) Q m.
Proof. intros Ho HQ. unfold memset. rewrite owned_range_true by done. by wp_norm. Qed.

(** A traversal visits the whole of a path that it may touch. *)
Lemma traverse_path l m c n a :
  path m l -> Forall (owns_page owned) l -> (length l <= n)%nat -> head l = Some a ->
  wp (traverse_loop owned a c n) (fun r m' => m' = m /\ r = (l, c + Z.of_nat (length l) - 1)) m.
Proof.
  revert c n a. induction l as [|b l IH]; intros c n a Hp Ho Hn Ha; [done|]. simplify_eq/=.
  destruct Hp as (Ha & Hw & Hp). apply Forall_cons in Ho as [Hoa Ho]. destruct n as [|n]; [lia|]. simpl.
  rewrite (proj2 (Z.eqb_neq _ _) Ha).
  do 3 (wp_norm; apply wp_load_byte; [apply Hoa; unfold PAGE_SIZE, BASEPAGE_SIZE; lia|]).
  wp_norm. apply wp_load_word; [intros x Hx; apply Hoa; unfold sizeof_data, PAGE_SIZE, BASEPAGE_SIZE in *; lia|].
  rewrite Hw. destruct l as [|b l]; [wp_norm; split; [done|]; f_equal; simpl; lia|].
  destruct Hp as (Hb & Hwb & Hp). rewrite (proj2 (Z.eqb_neq _ _) Hb). wp_norm.
  eapply wp_mono; [apply (IH (c + 1) n b); [done|done|simpl in *; lia|done]|].
  intros r m' [-> ->]. wp_norm. split; [done|]. f_equal. simpl length. lia.
Qed.

(** ** Setting up a chain *)

Definition chained m base i n : Prop :=
  forall j, i <= j < i + n -> le_combine (mem_read m (base + j * PAGE_SIZE + sizeof_data) 8) = base + (j + 1) * PAGE_SIZE.

Lemma word_same m m' a : (forall x, a <= x < a + 8 -> m' x = m x) -> mem_read m' a 8 = mem_read m a 8.
Proof. intros H. unfold mem_read. apply list_fmap_ext. intros i x [-> Hi]%lookup_seq. simpl. apply H. lia. Qed.

Lemma word_written m a w : in_u64 w -> le_combine (mem_read (mem_write m a (le_split 8 w)) a 8) = w.
Proof.
  intros Hw. rewrite mem_read_stored by apply length_le_split_8. rewrite le_combine_split. by apply u64_small.
Qed.

Lemma setup_loop_spec base i n m :
  (forall x, base + i * PAGE_SIZE <= x < base + (i + Z.of_nat n) * PAGE_SIZE -> owned x = true) ->
  0 <= base + i * PAGE_SIZE -> base + (i + Z.of_nat n) * PAGE_SIZE < 2 ^ 64 ->
  wp (setup_loop owned base i n)
     (fun _ m' => chained m' base i (Z.of_nat n) /\ forall x, x < base + i * PAGE_SIZE -> m' x = m x) m.
Proof.
  revert i m. assert (HP : PAGE_SIZE = 4096) by done. assert (Hsz : sizeof_data = 4088) by done.
  induction n as [|n IH]; intros i m Ho Hlo Hhi; simpl.
  { wp_norm. split; [|done]. intros j Hj. lia. }
  wp_norm. apply wp_memset; [intros x Hx; apply Ho; lia|].
  wp_norm. apply wp_store_word; [intros x Hx; apply Ho; lia|].
  wp_norm. apply wp_load_byte; [apply Ho; lia|]. set (m1 := mem_write _ _ _).
  eapply wp_mono; [apply (IH (i + 1) m1); [intros x Hx; apply Ho; lia|lia|lia]|].
  intros [] m' [Hc Hout]. split.
  - intros j Hj. destruct (decide (j = i)) as [->|]; [|apply Hc; lia].
    rewrite (word_same m1 m') by (intros x Hx; apply Hout; lia). apply word_written. unfold in_u64. lia.
  - intros x Hx. rewrite Hout by lia. unfold m1. rewrite !mem_write_out; [done| |]; rewrite ?length_replicate, ?length_le_split_8; lia.
Qed.

Lemma chained_path m base i n :
  0 < base -> 0 <= i -> chained m base i (Z.of_nat n) ->
  le_combine (mem_read m (base + (i + Z.of_nat n) * PAGE_SIZE + sizeof_data) 8) = 0 ->
  path m (pages_of base (Z.to_nat i) (S n)).
Proof.
  intros Hb. revert i. induction n as [|n IH]; intros i Hi Hc H0.
  - simpl. rewrite Z2Nat.id by lia. split; [unfold PAGE_SIZE, BASEPAGE_SIZE; lia|]. split; [|done]. by rewrite Z.add_0_r in H0.
  - change (pages_of base (Z.to_nat i) (S (S n))) with
      (base + Z.of_nat (Z.to_nat i) * PAGE_SIZE :: pages_of base (S (Z.to_nat i)) (S n)).
    assert (IH' := IH (i + 1)). replace (Z.to_nat (i + 1)) with (S (Z.to_nat i)) in IH' by lia.
    split; [unfold PAGE_SIZE, BASEPAGE_SIZE; lia|]. split; [|apply IH'; [lia| |]].
    + simpl. rewrite Z2Nat.id by lia. rewrite Hc by lia. do 2 f_equal. lia.
    + intros j Hj. apply Hc. lia.
    + rewrite <- H0. do 4 f_equal. lia.
Qed.
End steps.

(** ** What the program does *)

Section theorems.
Variable owned : Z -> bool.
Implicit Types m : mem.

Lemma setup_spec base n m :
  (0 < n)%nat -> 0 < base -> base + Z.of_nat n * PAGE_SIZE < 2 ^ 64 ->
  (forall x, base <= x < base + Z.of_nat n * PAGE_SIZE -> owned x = true) ->
  wp (setup_pointer_chain owned base (Z.of_nat n)) (fun _ m' => path m' (pages_of base 0 n)) m.
Proof.
  assert (HP : PAGE_SIZE = 4096) by done. assert (Hsz : sizeof_data = 4088) by done.
  destruct n as [|n]; [lia|]. intros _ Hb Hhi Ho. unfold setup_pointer_chain. wp_norm.
  replace (Z.to_nat (Z.of_nat (S n) - 1)) with n by lia.
  eapply wp_mono; [apply (setup_loop_spec owned base 0 n m); [intros x Hx; apply Ho; lia|lia|lia]|].
  intros [] m1 [Hc _]. wp_norm. apply wp_memset; [intros x Hx; apply Ho; lia|].
  wp_norm. apply wp_store_word; [intros x Hx; apply Ho; lia|]. wp_norm. apply wp_load_byte; [apply Ho; lia|]. wp_norm.
  set (m2 := mem_write _ _ _). apply (chained_path m2 base 0 n); [done|done| |].
  - intros j Hj. rewrite <- (Hc j Hj). f_equal. apply word_same. intros x Hx. unfold m2.
    rewrite !mem_write_out; [done| |]; rewrite ?length_replicate, ?length_le_split_8; lia.
  - replace (base + (0 + Z.of_nat n) * PAGE_SIZE + sizeof_data) with (base + (Z.of_nat (S n) - 1) * PAGE_SIZE + sizeof_data) by lia.
    by apply word_written.
Qed.

Lemma pages_owned base n :
  (forall x, base <= x < base + Z.of_nat n * PAGE_SIZE -> owned x = true) -> Forall (owns_page owned) (pages_of base 0 n).
Proof.
  intros Ho. apply Forall_fmap, Forall_forall. intros j Hj x Hx. apply elem_of_seq in Hj. apply Ho.
  unfold PAGE_SIZE, BASEPAGE_SIZE in *. lia.
Qed.

Lemma length_pages_of base i n : length (pages_of base i n) = n.
Proof. unfold pages_of. by rewrite length_fmap, length_seq. Qed.

(** The chain the test sets up is the chain it walks: for any number of
    pages up to NUM_PAGES in memory of its own, whatever was there before,
    [traverse_pointer_chain] after [setup_pointer_chain] visits every page
    once, in order, touches nothing else, and counts one page less than it
    visits. *)
Theorem setup_then_traverse (base : Z) (n : nat) (m : mem) :
  (0 < n)%nat -> Z.of_nat n <= NUM_PAGES -> 0 < base -> base + Z.of_nat n * PAGE_SIZE < 2 ^ 64 ->
  (forall x, base <= x < base + Z.of_nat n * PAGE_SIZE -> owned x = true) ->
  wp (setup_pointer_chain owned base (Z.of_nat n);; traverse_pointer_chain owned base)
     (fun r _ => r = (pages_of base 0 n, Z.of_nat n - 1)) m.
Proof.
  intros Hn HN Hb Hhi Ho. wp_norm. eapply wp_mono; [by apply setup_spec|]. intros [] m1 Hp.
  eapply wp_mono; [apply (traverse_path owned (pages_of base 0 n) m1 0 (Z.to_nat NUM_PAGES) base Hp)|].
  - by apply pages_owned.
  - rewrite length_pages_of. lia.
  - destruct n; [lia|]. simpl. f_equal. lia.
  - intros r m' [_ ->]. rewrite length_pages_of. by rewrite Z.add_0_l.
Qed.

(** *** The walk of [main] *)

Definition fill_word : Z := 0x4242424242424242.

Lemma main_fill_spec memory i n m :
  (forall x, memory + i * PAGE_SIZE <= x < memory + (i + Z.of_nat n) * PAGE_SIZE -> owned x = true) ->
  wp (main_fill owned memory i n)
     (fun _ m' => (forall x, x < memory + i * PAGE_SIZE -> m' x = m x) /\
        ((0 < n)%nat -> le_combine (mem_read m' (memory + i * PAGE_SIZE) 8) = fill_word)) m.
Proof.
  revert i m. assert (HP : PAGE_SIZE = 4096) by done.
  induction n as [|n IH]; intros i m Ho; simpl; [wp_norm; split; [done|lia]|].
  wp_norm. apply wp_memset; [intros x Hx; apply Ho; lia|]. wp_norm. apply wp_store_word; [intros x Hx; apply Ho; lia|].
  set (m1 := mem_write _ _ _). eapply wp_mono; [apply (IH (i + 1) m1); intros x Hx; apply Ho; lia|].
  intros [] m' [Hout _]. split.
  - intros x Hx. rewrite Hout by lia. unfold m1. rewrite !mem_write_out; [done| |]; rewrite ?length_replicate, ?length_le_split_8; lia.
  - intros _. rewrite (word_same m1 m') by (intros x Hx; apply Hout; lia). unfold m1.
    rewrite mem_read_write_disjoint by (rewrite ?length_le_split_8; lia).
    replace (mem_read (mem_write m _ _) _ 8) with (replicate 8 (byte.of_Z 0x42)); [done|].
    rewrite HP. change (Z.to_nat (4096 - 8)) with (8 + 4080)%nat. apply list_eq. intros j.
    destruct (decide (j < 8)%nat) as [Hj|Hj].
    + rewrite mem_read_lookup, lookup_replicate_2 by done. unfold mem_write. rewrite length_replicate.
      replace (_ && _) with true by lia. f_equal. rewrite nth_lookup, lookup_replicate_2 by lia. done.
    + rewrite !(proj2 (lookup_ge_None _ _)); [done|rewrite length_mem_read; lia|rewrite length_replicate; lia].
Qed.

Lemma load_word_stray a m : owned a = false -> load_word owned a m = Fault InvalidAccess.
Proof. intros Ho. unfold load_word, owned_range. simpl. by rewrite Z.add_0_r, Ho. Qed.

Lemma walk_stray a n m : owned a = false -> a <> 0 -> main_walk owned a n m = Fault InvalidAccess.
Proof.
  intros Ho Ha. destruct n; simpl; rewrite (proj2 (Z.eqb_neq _ _) Ha); unfold mbind, M_bind; by rewrite load_word_stray.
Qed.

Lemma main_walk_step a n :
  main_walk owned a (S n) =
  if a =? 0 then mret tt
  else w ← load_word owned a; if w =? 0 then mret tt else load_byte owned (a + 128);; main_walk owned w n.
Proof. done. Qed.

(** C35: The walk of the test's [main] does not follow the chain it has built.
    It takes the first word of a page for the address of the next page, but
    the links are in the last words: its second step reads from
    0x4242424242424242, the bytes the pages are filled with, which is no
    address of the program, and the program dies before it unmaps anything
    or reports success. *)
Theorem main_walk_strays (memory : Z) (m : mem) :
  0 < memory ->
  (forall x, memory <= x < memory + NUM_PAGES * PAGE_SIZE -> owned x = true) ->
  owned fill_word = false ->
  test_main owned (Some memory) m = Fault InvalidAccess.
Proof.
  intros Hm Ho Hf. assert (HP : PAGE_SIZE = 4096) by done. assert (HN : NUM_PAGES = 30) by done.
  destruct (wp_elim _ _ _ (main_fill_spec memory 0 (Z.to_nat NUM_PAGES) m ltac:(intros x Hx; apply Ho; lia)))
    as ([] & m1 & Hrun & _ & Hw). rewrite Z.mul_0_l, Z.add_0_r in Hw. specialize (Hw ltac:(lia)).
  unfold test_main. change (main_walk owned memory (Z.to_nat NUM_PAGES)) with (main_walk owned memory (S 29)). rewrite main_walk_step. unfold mbind, M_bind. rewrite Hrun.
  rewrite (proj2 (Z.eqb_neq _ _)) by lia. unfold load_word. rewrite owned_range_true by (intros x Hx; apply Ho; lia).
  unfold mbind, M_bind, gets. rewrite Hw. change (fill_word =? 0) with false. cbv iota.
  unfold load_byte. rewrite Ho by lia. unfold gets. by rewrite walk_stray.
Qed.
End theorems.

(** ** Instances *)

(** Two megabytes from 0x7f0000200000 on. *)
Definition demo_base : Z := 0x7f0000200000.
Definition demo_owned (a : Z) : bool := (demo_base <=? a) && (a <? demo_base + 2 * 1024 * 1024).
Definition blank : mem := fun _ => Byte.x00.

Lemma setup_then_traverse_witness :
  wp (setup_pointer_chain demo_owned demo_base 30;; traverse_pointer_chain demo_owned demo_base)
     (fun r _ => length r.1 = 30%nat /\ r.2 = 29) blank.
Proof.
  eapply wp_mono.
  - apply (setup_then_traverse demo_owned demo_base 30 blank); [lia|unfold NUM_PAGES; lia|done|done|].
    intros x Hx. unfold demo_owned. unfold PAGE_SIZE, BASEPAGE_SIZE in Hx. lia.
  - intros r m ->. split; reflexivity.
Defined.

Lemma main_walk_strays_witness : test_main demo_owned (Some demo_base) blank = Fault InvalidAccess.
Proof.
  apply main_walk_strays; [done| |done].
  intros x Hx. unfold demo_owned. unfold NUM_PAGES, PAGE_SIZE, BASEPAGE_SIZE in Hx. lia.
Defined.
