(* ===== verification/Timer.v ===== *)
(** The timer arithmetic of [src/src/timer.c] and [timer.h].

    A [long] is a 64-bit signed integer whose overflow is undefined: an
    operation that leaves its range is [None].  The conversions to [double]
    are left out: [elapsed_micro] is the integer that is converted. *)

From S2P Require Import Prelude.

Local Open Scope Z_scope.

(** ** Data *)

Record timeval : Type := mk_timeval {
  tv_sec : Z;
  tv_usec : Z;
}.

Record timespec : Type := mk_timespec {
  ts_sec : Z;
  ts_nsec : Z;
}.

(** The value of an expression of type [long]. *)
Definition in_long (z : Z) : Prop := - 2 ^ 63 <= z < 2 ^ 63.
#[export] Instance in_long_dec z : Decision (in_long z).
Proof. unfold in_long. apply _. Defined.
Definition long (z : Z) : option Z := if decide (in_long z) then Some z else None.

(** ** Operations *)

Definition timeDiff (a b : timeval) : option timeval :=
  sec ← long (tv_sec a - tv_sec b);
  usec ← long (tv_usec a - tv_usec b);
  if usec <? 0 then
    sec ← long (sec - 1);
    usec ← long (usec + 1000000);
    Some (mk_timeval sec usec)
  else Some (mk_timeval sec usec).

(** The macro [tv_to_micro]. *)
Definition tv_to_micro (t : timeval) : option Z :=
  x ← long (tv_sec t * 1000000);
  long (x + tv_usec t).

Definition elapsed_micro (starttime endtime : timeval) : option Z :=
  diff ← timeDiff endtime starttime;
  tv_to_micro diff.

Definition clock_time_elapsed (start end_ : timespec) : option Z :=
  seconds ← long (ts_sec end_ - ts_sec start);
  nanoseconds ← long (ts_nsec end_ - ts_nsec start);
  x ← long (seconds * 1000000000);
  long (x + nanoseconds).

(** ** Properties *)

(** What the system call returns: the small part is less than a second, and
    a time since 1970 fits 40 bits for some thirty thousand years. *)
Definition timeval_ok (t : timeval) : Prop := 0 <= tv_sec t < 2 ^ 40 /\ 0 <= tv_usec t < 1000000.
Definition timespec_ok (t : timespec) : Prop := 0 <= ts_sec t < 2 ^ 40 /\ 0 <= ts_nsec t < 1000000000.

Definition micros (t : timeval) : Z := tv_sec t * 1000000 + tv_usec t.
Definition nanos (t : timespec) : Z := ts_sec t * 1000000000 + ts_nsec t.

Lemma long_small z : in_long z -> long z = Some z.
Proof. intros H. unfold long. by rewrite decide_True. Qed.
Lemma long_overflow z : ~ in_long z -> long z = None.
Proof. intros H. unfold long. by rewrite decide_False. Qed.

Ltac long_step := rewrite long_small by (unfold in_long in *; lia); cbn [mbind option_bind].

(** [timeDiff] is the exact difference with the small part in its range,
    also when the result is negative. *)
Lemma timeDiff_exact a b : timeval_ok a -> timeval_ok b ->
  exists d, timeDiff a b = Some d /\ 0 <= tv_usec d < 1000000 /\ micros d = micros a - micros b.
Proof.
  intros [] []. unfold timeDiff. repeat long_step. destruct (Z.ltb_spec (tv_usec a - tv_usec b) 0).
  - repeat long_step. eexists. split; [reflexivity|]. unfold micros. simpl. lia.
  - eexists. split; [done|]. unfold micros. simpl. lia.
Qed.

Lemma elapsed_micro_exact starttime endtime : timeval_ok starttime -> timeval_ok endtime ->
  elapsed_micro starttime endtime = Some (micros endtime - micros starttime).
Proof.
  intros Hs He. destruct (timeDiff_exact endtime starttime He Hs) as (d & E & Hd & Hm). destruct Hs, He.
  unfold elapsed_micro. rewrite E. cbn [mbind option_bind]. unfold tv_to_micro, micros in *. repeat long_step. f_equal. lia.
Qed.

(** The multiplication by [1000000000] overflows only for two times more than
    292 years apart. *)
Lemma clock_time_elapsed_exact start end_ :
  timespec_ok start -> timespec_ok end_ -> Z.abs (ts_sec end_ - ts_sec start) < 9223372036 ->
  clock_time_elapsed start end_ = Some (nanos end_ - nanos start).
Proof.
  intros [] [] Hd. unfold clock_time_elapsed, nanos. repeat long_step. f_equal. lia.
Qed.

Lemma clock_time_elapsed_overflows start end_ :
  timespec_ok start -> timespec_ok end_ -> 9223372037 <= Z.abs (ts_sec end_ - ts_sec start) ->
  clock_time_elapsed start end_ = None.
Proof.
  intros [] [] Hd. unfold clock_time_elapsed. repeat long_step. by rewrite long_overflow by (unfold in_long; lia).
Qed.
