(* ===== verification/SwapFile.v ===== *)
(** The path of the swap file, from [extmem_init] of [src/src/core.c].

    A C string is the list of its bytes without the terminating NUL.  What
    the file system says about a path and the calls that open it are in the
    environment (Core.v). *)

From S2P Require Import Prelude.
From Stdlib Require Import Strings.String.

Local Open Scope nat_scope.

(** ** Definitions *)

(** [default_local_swapfile], and the name in a directory. *)
Definition default_local_swapfile : list byte := list_byte_of_string "extmem_swap_backing_file.dat".
Definition swapfile_in_directory : list byte := list_byte_of_string "/extmem_swap.bin".

(** [sizeof(actual_swap_file_path)] *)
Definition sizeof_path : nat := 1024.

(** What [snprintf] leaves in a buffer of [n] bytes, and [strncpy] of [n - 1]
    bytes with the last one set to NUL. *)
Definition fit_buffer (n : nat) (s : list byte) : list byte := take (n - 1) s.

(** [diskpath] when [SWAPDIR] is [swapdir]. *)
Definition swap_diskpath (swapdir : option (list byte)) : list byte := default default_local_swapfile swapdir.

(** [is_dir path]: [stat] succeeds and finds a directory. *)
Definition actual_swap_file_path (is_dir : list byte -> bool) (diskpath : list byte) : list byte :=
  if is_dir diskpath then fit_buffer sizeof_path (diskpath ++ swapfile_in_directory)
  else fit_buffer sizeof_path diskpath.

(** ** Properties *)

Section path.
Variable is_dir : list byte -> bool.
Implicit Types d : list byte.

(** The path and its NUL fit the buffer. *)
Lemma swap_path_fits d : List.length (actual_swap_file_path is_dir d) < sizeof_path.
Proof. unfold actual_swap_file_path, fit_buffer, sizeof_path. case_match; rewrite length_take; lia. Qed.

(** A file is opened under its own name, a directory gets the file inside. *)
Lemma swap_path_exact d :
  List.length d < 1008 ->
  actual_swap_file_path is_dir d = if is_dir d then d ++ swapfile_in_directory else d.
Proof.
  intros Hd. assert (Hn : List.length swapfile_in_directory = 16) by reflexivity.
  unfold actual_swap_file_path, fit_buffer, sizeof_path. case_match; apply take_ge; rewrite ?length_app; lia.
Qed.

(** A longer directory loses the end of the name: the path names something
    else, the directory itself when it has 1023 bytes. *)
Lemma swap_path_of_long_directory d :
  is_dir d = true -> List.length d = 1023 -> actual_swap_file_path is_dir d = d.
Proof.
  intros Hi Hd. unfold actual_swap_file_path, fit_buffer, sizeof_path. rewrite Hi.
  change (1024 - 1) with 1023. rewrite <- Hd. apply take_app_length.
Qed.
End path.
