(* ===== verification/ServerProcess.v ===== *)
(** The server's process, [src/src/rdma_process.c]: options, signals, and the
    loop around [rdma_server_process_requests].

    The process is a state machine whose steps are the stretches of its code
    between two points where it can be kept waiting; signals and what the
    client does come between them, in any order. *)

From S2P Require Import Prelude RdmaAlloc RdmaSim RdmaProtocol.
From stdpp Require Import strings.

Local Open Scope Z_scope.

(** ** The process *)

Definition SIGHUP : Z := 1.
Definition SIGINT : Z := 2.
Definition SIGTERM : Z := 15.

(** Both processes' RDMA state, the [static shutdown_requested] of
    [rdma_process.c] (the segment has a flag of the same name), and the
    signals that have a handler. *)
Record server_process : Type := mk_server_process {
  sp_sys : rdma_sys;
  sp_shutdown_requested : bool;
  sp_handled : list Z;
}.

Definition sys_lens : lens server_process rdma_sys :=
  Lens sp_sys (fun x s => mk_server_process x (sp_shutdown_requested s) (sp_handled s)).
Definition sys {A} (m : M rdma_sys A) : M server_process A := zoom sys_lens m.

Definition signal_handler (sig : Z) : M server_process unit :=
  modify (fun s => mk_server_process (sp_sys s) true (sp_handled s)).

Definition install_signal_handlers : M server_process unit :=
  modify (fun s => mk_server_process (sp_sys s) (sp_shutdown_requested s) [SIGTERM; SIGINT; SIGHUP]).

(** Where the process is. *)
Inductive position : Type :=
  | Starting                 (* [main_loop] is entered *)
  | Testing                  (* at the condition of its loop *)
  | Serving                  (* inside [rdma_server_process_requests] *)
  | Returned (result : Z)    (* back from it *)
  | Asleep                   (* in the [usleep] of an idle loop *)
  | Ended (code : Z)         (* the process has exited *)
  | Killed (sig : Z).        (* a signal without a handler *)

Section loop.
(** What happens during the waits of [rdma_sim_init]; a server has none. *)
Variable usleep : M rdma_sys unit.

(** The end of [main_loop]. *)
Definition main_loop_end : M server_process position :=
  sys (rdma_sim_cleanup Server true);;
  mret (Ended 0).

(** [main_loop], from one point where it can wait to the next.  Exit codes
    are those of [main]. *)
Definition main_loop_step (p : position) : M server_process position :=
  match p with
  | Starting =>
      r ← sys (rdma_sim_init usleep Server true);
      if negb (r =? 0) then mret (Ended (-1))
      else
        shm ← sys (get_rdma_shm usleep Server);
        match shm with
        | None => sys (rdma_sim_cleanup Server true);; mret (Ended (-1))
        | Some _ => mret Testing
        end
  | Testing =>
      stop ← gets sp_shutdown_requested;
      shm ← sys (the_shm Server);
      if negb stop && negb (shutdown_requested shm) then
        c ← sys (connected Server);
        mret (if (c : bool) then Serving else Returned (-1))
      else main_loop_end
  | Serving =>
      stop ← sys (server_round Server);
      mret (if (stop : bool) then Returned 0 else Serving)
  | Returned result =>
      stop ← gets sp_shutdown_requested;
      shm ← sys (the_shm Server);
      if negb (result =? 0) && negb stop && negb (shutdown_requested shm) then main_loop_end
      else
        mret (if count shm =? 0 then Asleep else Testing)
  | Asleep => mret Testing
  | Ended _ | Killed _ => mret p
  end.

(** A signal arrives. *)
Definition deliver (sig : Z) (p : position) : M server_process position :=
  match p with
  | Ended _ | Killed _ => mret p
  | _ =>
      handled ← gets sp_handled;
      if bool_decide (sig ∈ handled) then signal_handler sig;; mret p
      else mret (Killed sig)
  end.

(** ** [main] *)

Inductive command : Type :=
  | Exit (code : Z)
  | Run_server (daemon_mode verbose : bool).

Definition is_help (a : string) : bool := bool_decide (a = "-h"%string \/ a = "--help"%string).
Definition is_verbose (a : string) : bool := bool_decide (a = "-v"%string \/ a = "--verbose"%string).
Definition is_daemon (a : string) : bool := bool_decide (a = "-d"%string \/ a = "--daemon"%string).

(** The loop over [argv], without the program's name. *)
Fixpoint options (args : list string) (verbose daemon_mode : bool) : command :=
  match args with
  | [] => Run_server daemon_mode verbose
  | a :: args =>
      if is_help a then Exit 0
      else if is_verbose a then options args true daemon_mode
      else if is_daemon a then options args verbose true
      else Exit 1
  end.

(** [run_as_daemon]: [pid] is what [fork] returns in this process. *)
Definition run_as_daemon (pid : Z) : position :=
  if pid <? 0 then Ended (-1)
  else if 0 <? pid then Ended 0
  else Starting.

Definition main (args : list string) (pid : Z) : M server_process position :=
  match options args false false with
  | Exit code => mret (Ended code)
  | Run_server daemon_mode _ =>
      install_signal_handlers;;
      mret (if daemon_mode then run_as_daemon pid else Starting)
  end.

(** ** Runs *)

(** A step of the process, a signal, or something the client does. *)
Inductive event : Type :=
  | Tick
  | Signal (sig : Z)
  | Client_does (m : M rdma_sys unit).

Definition one_event (e : event) (p : position) : M server_process position :=
  match e with
  | Tick => main_loop_step p
  | Signal sig => deliver sig p
  | Client_does m => sys m;; mret p
  end.

Fixpoint run_process (es : list event) (p : position) : M server_process position :=
  match es with
  | [] => mret p
  | e :: es => p ← one_event e p; run_process es p
  end.
End loop.

(** ** Options *)

(** The first argument that is a help option or unknown decides; without one
    the process runs, and the options are those given anywhere. *)
Lemma options_spec args v d :
  options args v d =
  match List.find (fun a => is_help a || negb (is_verbose a || is_daemon a)) args with
  | Some a => Exit (if is_help a then 0 else 1)
  | None => Run_server (d || existsb is_daemon args) (v || existsb is_verbose args)
  end.
Proof.
  revert v d. induction args as [|a args IH]; intros v d; simpl; [by rewrite !orb_false_r|].
  destruct (is_help a) eqn:Hh; simpl; [by rewrite Hh|].
  destruct (is_verbose a) eqn:Hv; simpl.
  - rewrite IH. assert (Hd : is_daemon a = false).
    { unfold is_verbose, is_daemon in *. apply bool_decide_eq_true in Hv. apply bool_decide_eq_false.
      destruct Hv as [-> | ->]; by intros [|]. }
    rewrite Hd. simpl. by rewrite orb_true_r.
  - destruct (is_daemon a) eqn:Hd; simpl; [|by rewrite Hh]. rewrite IH. simpl. by rewrite !orb_true_r.
Qed.

(** ** Sessions *)

Section sessions.
Context (id : Z) (G : gmap Z rdma_shm_t) (nid : Z) (clk : Z * Z).
Notation key := (Some id).
Notation conn := (RdmaSim.conn id G key nid clk).

Definition not_shutdown (r : rdma_request_t) : Prop := op_type r <> RDMA_OP_SHUTDOWN.

(** The server is up under its key, with [q] queued. *)
Record up (shm : rdma_shm_t) (srv : rdma_proc) (q : list rdma_request_t) : Prop := mk_up {
  up_ring : ring shm q;
  up_server : server_ok id shm srv;
  up_shmid : shmid srv = id;
}.

Lemma serves_shmid q shm srv shm' srv' : serves q shm srv shm' srv' -> shmid srv' = shmid srv.
Proof. induction 1 as [|r q shm srv e shm1 srv1 r' shm' srv' Hs _ _ IH]; [done|]. rewrite IH. by destruct Hs. Qed.

Lemma serves_no_shutdown q shm srv shm' srv' :
  serves q shm srv shm' srv' -> Forall not_shutdown q -> shutdown_requested shm' = shutdown_requested shm.
Proof.
  induction 1 as [|r q shm srv e shm1 srv1 r' shm' srv' Hs _ _ IH]; [done|]. intros [Hr Hq]%Forall_cons.
  rewrite IH by done. destruct (retire_fields (RdmaSim.head shm) e r' shm1) as (-> & _). destruct Hs; try done.
Qed.

Lemma up_serves q shm srv shm' srv' : serves q shm srv shm' srv' -> up shm srv q -> up shm' srv' [].
Proof.
  intros Hs [Hr Ho Hi]. destruct (serves_drained _ _ _ _ _ _ Hs Hr Ho) as (Hr' & Ho' & _).
  split; [done|done|]. by rewrite (serves_shmid _ _ _ _ _ Hs).
Qed.

(** A session that nobody has asked to end. *)
Definition open_session (x : rdma_sys) : Prop := exists shm srv cli q,
  x = conn shm srv cli /\ up shm srv q /\ rdma_shm cli = key /\ shutdown_requested shm = false /\ Forall not_shutdown q.

Definition well_behaved (m : M rdma_sys unit) : Prop := forall x, open_session x -> wp m (fun _ => open_session) x.

(** Anything a client submits other than a shutdown leaves it so. *)
Lemma submit_well_behaved op laddr raddr size data :
  op <> RDMA_OP_SHUTDOWN -> in_u64 raddr -> in_u64 size ->
  (op = RDMA_OP_ALLOCATE -> size < 2 ^ 64 - SIM_REMOTE_MEMORY_ALIGN) ->
  (carries_data op size data = true -> size <= RDMA_PAGE_BUFFER_SIZE) ->
  well_behaved (rdma_submit_request Client op laddr raddr size data;; mret tt).
Proof.
  intros Hop Hra Hsz Hal Hfit x (shm & srv & cli & q & -> & [Hring Hok Hid] & Hatt & Hsd & Hq). wp_norm.
  pose proof (so_initialized _ _ _ Hok) as Hini. destruct (decide (count shm < MAX_RDMA_REQUESTS)) as [Hc|Hc].
  - wp_call (submit_spec id G key nid clk shm srv cli q op laddr raddr size data) as v s' [_ ->]; [done..|]. wp_norm.
    set (d := carries_data op size data). eexists _, srv, _, (q ++ [_]). split_and!; [reflexivity| |done|done|].
    + split; [apply ring_queued; [done|done|by split_and!|]|destruct Hok; by constructor|done]. fold d. destruct d eqn:Ed; [|apply Hring].
      rewrite length_splice; [apply Hring|].
      rewrite length_mem_read, (ring_buffer _ _ Hring). specialize (Hfit Ed). unfold RDMA_PAGE_BUFFER_SIZE in *. lia.
    + apply Forall_app. split; [done|]. by apply Forall_singleton.
  - wp_call (submit_full id G key nid clk shm srv cli op laddr raddr size data) as v s' [_ ->]; [done|done|lia|]. wp_norm.
    by exists shm, srv, cli, q.
Qed.

(** *** Single steps *)

Variable usleep : M rdma_sys unit.
Notation step := (main_loop_step usleep).

(** A process with its handlers, its flag, and the shared state. *)
Definition server (b : bool) (x : rdma_sys) : server_process := mk_server_process x b [SIGTERM; SIGINT; SIGHUP].

(** The signals that have handlers. *)
Definition caught (sig : Z) : Prop := sig = SIGTERM \/ sig = SIGINT \/ sig = SIGHUP.

Lemma wp_sys {A} (m : M rdma_sys A) (Q : A -> server_process -> Prop) b x :
  wp m (fun a x' => Q a (server b x')) x -> wp (sys m) Q (server b x).
Proof. intros H. unfold sys. by apply wp_zoom. Qed.

Lemma deliver_spec sig p b x :
  caught sig -> wp (deliver sig p) (fun p' s' => p' = p /\ (s' = server b x \/ s' = server true x)) (server b x).
Proof.
  intros Hs. destruct p; simpl; wp_norm; auto;
    (rewrite bool_decide_eq_true_2 by (simpl; rewrite !elem_of_cons; destruct Hs as [-> | [-> | ->]]; auto));
    unfold signal_handler; wp_norm; auto.
Qed.

(** A round of the server. *)
Lemma serving_step b shm srv cli q :
  up shm srv q -> shutdown_requested shm = false ->
  wp (step Serving) (fun p s' => p = Serving /\ exists shm' srv', s' = server b (conn shm' srv' cli) /\ serves q shm srv shm' srv')
    (server b (conn shm srv cli)).
Proof.
  intros [Hring Hok _] Hsd. cbn [main_loop_step]. wp_norm. apply wp_sys.
  wp_call (server_round_spec id G key nid clk shm srv cli q) as stop s' (-> & shm' & srv' & -> & Hs); [done..|]. wp_norm.
  split; [done|]. by exists shm', srv'.
Qed.

(** The loop goes on while nothing was asked of it. *)
Lemma testing_step shm srv cli q :
  up shm srv q -> shutdown_requested shm = false ->
  wp (step Testing) (fun p s' => p = Serving /\ s' = server false (conn shm srv cli)) (server false (conn shm srv cli)).
Proof.
  intros [_ Hok _] Hsd. pose proof (so_attached _ _ _ Hok) as Hatt. cbn [main_loop_step]. wp_norm.
  apply wp_sys, wp_the_shm; [done|]. rewrite Hsd. change (negb (sp_shutdown_requested (server false (conn shm srv cli))) && negb false) with true. cbv iota. wp_norm. apply wp_sys, wp_connected; [done|].
  rewrite (so_initialized _ _ _ Hok). by wp_norm.
Qed.

(** *** Nothing but a shutdown request ends the server *)

(** Events among which nobody asks for a shutdown. *)
Definition harmless (e : event) : Prop :=
  match e with
  | Tick => True
  | Signal sig => caught sig
  | Client_does m => well_behaved m
  end.

Definition serving (p : position) (s : server_process) : Prop := p = Serving /\ exists b x, s = server b x /\ open_session x.

Lemma harmless_event e s : harmless e -> serving Serving s -> wp (one_event usleep e Serving) serving s.
Proof.
  intros He (_ & b & x & -> & Hx). destruct e as [|sig|m]; cbn [one_event].
  - destruct Hx as (shm & srv & cli & q & -> & Hup & Hatt & Hsd & Hq).
    wp_call (serving_step b shm srv cli q) as p s' (-> & shm' & srv' & -> & Hs); [done|done|]. split; [done|].
    eexists b, _. split; [done|]. exists shm', srv', cli, []. split_and!; [done|by eapply up_serves|done| |done].
    by rewrite (serves_no_shutdown _ _ _ _ _ Hs).
  - wp_call (deliver_spec sig Serving b x) as p s' [-> [-> | ->]]; [done|by split; eauto..].
  - wp_norm. apply wp_sys. eapply wp_mono; [by apply He|]. intros [] x' Hx'. wp_norm. split; [done|]. eauto.
Qed.


(** *** A shutdown request does *)

(** What the server leaves: no segment under the key, its memory freed, and
    the flag raised in the segment that clients may still have. *)
Definition torn_down (x : rdma_sys) : Prop := exists shm srv cli,
  x = mk_sys (<[id := shm]> G) None nid srv cli clk /\ shutdown_requested shm = true /\
  rdma_shm srv = None /\ shmid srv = -1 /\ is_initialized srv = false /\ sim_remote_memory_ptr srv = None.

(** The rest of the process's life after a shutdown request: at most [n]
    more steps. *)
Definition ending (n : nat) (p : position) (x : rdma_sys) : Prop :=
  match n with
  | 0%nat => p = Ended 0 /\ torn_down x
  | _ => exists shm srv cli q, x = conn shm srv cli /\ up shm srv q /\
      match n with
      | 1%nat => p = Testing /\ shutdown_requested shm = true
      | 2%nat => p = Asleep /\ shutdown_requested shm = true
      | 3%nat => p = Returned 0 /\ shutdown_requested shm = true
      | 4%nat => p = Serving /\ shutdown_requested shm = true
      | _ => p = Serving /\ shutdown_requested shm = false /\ Exists (fun r => op_type r = RDMA_OP_SHUTDOWN) q
      end
  end.

Lemma cleanup_spec b shm srv cli q :
  up shm srv q -> id <> -1 ->
  wp main_loop_end (fun p s' => p = Ended 0 /\ exists x, s' = server b x /\ torn_down x) (server b (conn shm srv cli)).
Proof.
  intros [_ Hok Hid] Hne. unfold main_loop_end. wp_norm. apply wp_sys. unfold rdma_sim_cleanup. wp_norm.
  change (proc Server (conn shm srv cli)) with srv. pose proof (so_attached _ _ _ Hok) as Hatt. rewrite Hatt, Hid. destruct (so_memory _ _ _ Hok) as [m Hm]. rewrite Hm.
  rewrite (bool_decide_eq_true_2 (Some id <> None)), (bool_decide_eq_true_2 (is_Some (Some m))) by (done || eauto).
  apply wp_when_true; [done|]. wp_norm. apply wp_when_true; [done|]. apply wp_upd_shm; [done|]. wp_norm. apply wp_upd_proc.
  wp_norm. apply wp_when_true; [simpl; lia|]. unfold shm_remove. wp_norm. simpl. rewrite bool_decide_eq_true_2 by done.
  unfold upd_proc. wp_norm. split; [done|]. eexists. split; [done|].
  by eexists (set_shutdown_requested true shm), _, cli.
Qed.

Lemma ending_step n p b x :
  id <> -1 -> ending (S n) p x ->
  wp (step p) (fun p' s' => exists n' x', (n' <= n)%nat /\ s' = server b x' /\ ending n' p' x') (server b x).
Proof.
  intros Hne (shm & srv & cli & q & -> & Hup & Hp). pose proof (so_attached _ _ _ (up_server _ _ _ Hup)) as Hatt.
  destruct n as [|[|[|[|n]]]].
  - destruct Hp as [-> Hsd]. cbn [main_loop_step]. wp_norm. apply wp_sys, wp_the_shm; [done|]. rewrite Hsd, andb_false_r.
    eapply wp_mono; [by eapply cleanup_spec|]. intros p' s' (-> & x & -> & Hx). by exists 0%nat, x.
  - destruct Hp as [-> Hsd]. cbn [main_loop_step]. wp_norm. exists 1%nat. eexists. split; [lia|]. split; [done|].
    by exists shm, srv, cli, q.
  - destruct Hp as [-> Hsd]. cbn [main_loop_step]. wp_norm. apply wp_sys, wp_the_shm; [done|]. simpl. wp_norm.
    destruct (count shm =? 0); [exists 2%nat|exists 1%nat]; (eexists; split; [lia|]; split; [done|]; by exists shm, srv, cli, q).
  - destruct Hp as [-> Hsd]. cbn [main_loop_step]. wp_norm. apply wp_sys. unfold server_round. wp_norm. apply wp_the_shm; [done|].
    rewrite Hsd. wp_norm. exists 3%nat. eexists. split; [lia|]. split; [done|]. by exists shm, srv, cli, q.
  - destruct Hp as (-> & Hsd & Hex). wp_call (serving_step b shm srv cli q) as p s' (-> & shm' & srv' & -> & Hs); [done|done|].
    exists 4%nat. eexists. split; [lia|]. split; [done|]. exists shm', srv', cli, []. split_and!; [done|by eapply up_serves|done|].
    eapply serves_shutdown; [done|]. by right.
Qed.

Definition is_tick (e : event) : bool := match e with Tick => true | _ => false end.

End sessions.

(** ** From the command line to a session *)

(** A process that has just been started: no handlers, nothing set up. *)
Definition new_process (x : rdma_sys) : server_process := mk_server_process x false [].

(** C27: with options that ask for a server, in the process itself or in the
    child of [run_as_daemon], and two successful allocations, the program
    installs its handlers, creates the segment, and is inside
    [rdma_server_process_requests] after two steps; a client that then calls
    [rdma_sim_init] has an open session with it. *)
Theorem main_opens_session usleep args d v pid sm cm m1 m2 sml cml clk :
  options args false false = Run_server d v -> (d = true -> pid = 0) -> m1 <> 0 -> m2 <> 0 ->
  wp (p ← main args pid; run_process usleep [Tick; Tick; Client_does (rdma_sim_init usleep Client false;; mret tt)] p)
    (fun p s' => p = Serving /\ exists x, s' = server false x /\ open_session 0 ∅ 1 clk x)
    (new_process (sys0 sm cm (m1 :: m2 :: sml) cml clk)).
Proof.
  intros Hargs Hpid H1 H2. unfold main. rewrite Hargs. wp_norm. unfold install_signal_handlers. wp_norm.
  replace (if d then run_as_daemon pid else Starting) with Starting by (destruct d; [rewrite Hpid|]; done).
  change (wp (run_process usleep [Tick; Tick; Client_does (rdma_sim_init usleep Client false;; mret tt)] Starting)
    (fun p s' => p = Serving /\ exists x, s' = server false x /\ open_session 0 ∅ 1 clk x)
    (server false (sys0 sm cm (m1 :: m2 :: sml) cml clk))).
  cbn [run_process one_event main_loop_step]. wp_norm. apply wp_sys.
  wp_call server_init_spec as r x [-> ->]; [done..|]. simpl negb. cbv iota. wp_norm. apply wp_sys.
  unfold get_rdma_shm. wp_norm. cbn [rdma_shm proc RdmaSim.conn server_up RdmaSim.server]. wp_norm. apply wp_the_shm; [done|]. wp_norm.
  destruct (shm_up_quiet sm sml cm cml) as [Hr Ho Hsd Hc _].
  assert (Hup : up 0 shm_up (server_up sm sml) []) by by split.
  wp_call (testing_step 0 ∅ 1 clk usleep shm_up (server_up sm sml) (proc0 cm cml) []) as p s' [-> ->]; [done..|].
  wp_norm. apply wp_sys. wp_norm.
  wp_call client_init_spec as r x [-> ->]. wp_norm. split; [done|]. eexists. split; [done|]. exists shm_up, (server_up sm sml), (client_up cm cml), [].
  by split_and!.
Qed.

(** ** Instances *)

Lemma main_opens_session_witness :
  wp (p ← main ["-v"; "-d"]%string 0; run_process (mret tt) [Tick; Tick; Client_does (rdma_sim_init (mret tt) Client false;; mret tt)] p)
    (fun p _ => p = Serving) (new_process (sys0 (fun _ => Byte.x00) (fun _ => Byte.x00) [1; 2] [] (0, 0))).
Proof.
  eapply wp_mono; [apply (main_opens_session (mret tt) ["-v"; "-d"]%string true true 0 _ _ 1 2 [] [] (0, 0)); done|]. by intros p s' [-> _].
Defined.

(** A client submits a write; [SIGTERM] arrives before and after. *)
Definition unheeded : list event :=
  [Signal SIGTERM; Tick; Client_does (rdma_submit_request Client RDMA_OP_WRITE 4096 sim_base 2 4096;; mret tt); Tick;
   Signal SIGINT; Tick].


