(* ===== verification/StorageRdma.v ===== *)
(** The RDMA storage backend: [src/src/storage_rdma.c], the storage manager
    in front of it ([src/src/storagemanager.c]) and the two pointer
    conversions of [src/src/pointer_prefetch.c] it applies to the last word
    of every page.

    The state adds to the fabric ([rdma_sys]) the address translator and the
    file's [static] variables.  The operations run in the client process. *)

From S2P Require Import Prelude UserPage AddressTranslation RdmaAlloc RdmaSim RdmaProtocol.

Local Open Scope Z_scope.

(** ** State *)

Definition MAX_REMOTE_REGIONS : Z := 65536.

Record remote_region_t : Type := mk_remote_region {
  rr_virtual_offset : Z;
  rr_remote_addr : Z;
  rr_size : Z;
  rr_in_use : bool;
  rr_last_access : Z;
  rr_dirty : bool;
}.

#[export] Instance remote_region_eq_dec : EqDecision remote_region_t.
Proof. solve_decision. Defined.

Definition zero_region : remote_region_t := mk_remote_region 0 0 0 false 0 false.

(** The counters [rdma_reads], [rdma_writes], [rdma_hits], [rdma_misses],
    [rdma_allocations] and [rdma_frees]. *)
Record rdma_counters : Type := mk_counters {
  rdma_reads : Z;
  rdma_writes : Z;
  rdma_hits : Z;
  rdma_misses : Z;
  rdma_allocations : Z;
  rdma_frees : Z;
}.

Record storage_state : Type := mk_storage {
  st_sys : rdma_sys;
  st_trans : address_translator_t;
  rdma_initialized : bool;
  rdma_process_pid : Z;
  remote_regions : list remote_region_t;
  num_remote_regions : Z;
  counters : rdma_counters;
  total_reads : Z;
  total_writes : Z;
}.

Definition set_sys x s := mk_storage x (st_trans s) (rdma_initialized s) (rdma_process_pid s)
  (remote_regions s) (num_remote_regions s) (counters s) (total_reads s) (total_writes s).
Definition set_trans x s := mk_storage (st_sys s) x (rdma_initialized s) (rdma_process_pid s)
  (remote_regions s) (num_remote_regions s) (counters s) (total_reads s) (total_writes s).
Definition set_rdma_initialized x s := mk_storage (st_sys s) (st_trans s) x (rdma_process_pid s)
  (remote_regions s) (num_remote_regions s) (counters s) (total_reads s) (total_writes s).
Definition set_rdma_process_pid x s := mk_storage (st_sys s) (st_trans s) (rdma_initialized s) x
  (remote_regions s) (num_remote_regions s) (counters s) (total_reads s) (total_writes s).
Definition set_remote_regions x n s := mk_storage (st_sys s) (st_trans s) (rdma_initialized s) (rdma_process_pid s)
  x n (counters s) (total_reads s) (total_writes s).
Definition set_storage_counters x s := mk_storage (st_sys s) (st_trans s) (rdma_initialized s) (rdma_process_pid s)
  (remote_regions s) (num_remote_regions s) x (total_reads s) (total_writes s).
Definition set_totals r w s := mk_storage (st_sys s) (st_trans s) (rdma_initialized s) (rdma_process_pid s)
  (remote_regions s) (num_remote_regions s) (counters s) r w.

(** [counter++] on [uint64_t]. *)
Definition incr (x : Z) : Z := u64 (x + 1).
Definition count_read c := mk_counters (incr (rdma_reads c)) (rdma_writes c) (rdma_hits c) (rdma_misses c)
  (rdma_allocations c) (rdma_frees c).
Definition count_write c := mk_counters (rdma_reads c) (incr (rdma_writes c)) (rdma_hits c) (rdma_misses c)
  (rdma_allocations c) (rdma_frees c).
Definition count_hit c := mk_counters (rdma_reads c) (rdma_writes c) (incr (rdma_hits c)) (rdma_misses c)
  (rdma_allocations c) (rdma_frees c).
Definition count_miss c := mk_counters (rdma_reads c) (rdma_writes c) (rdma_hits c) (incr (rdma_misses c))
  (rdma_allocations c) (rdma_frees c).
Definition count_allocation c := mk_counters (rdma_reads c) (rdma_writes c) (rdma_hits c) (rdma_misses c)
  (incr (rdma_allocations c)) (rdma_frees c).
Definition count_free c := mk_counters (rdma_reads c) (rdma_writes c) (rdma_hits c) (rdma_misses c)
  (rdma_allocations c) (incr (rdma_frees c)).

Definition sys_lens : lens storage_state rdma_sys := Lens st_sys set_sys.
Definition trans_lens : lens storage_state address_translator_t := Lens st_trans set_trans.

(** A call into the fabric, and one into the translator. *)
Definition rdma {A} (m : M rdma_sys A) : M storage_state A := zoom sys_lens m.
Definition translator {A} (m : M address_translator_t A) : M storage_state A := zoom trans_lens m.

Definition upd_counters (f : rdma_counters -> rdma_counters) : M storage_state unit :=
  modify (fun s => set_storage_counters (f (counters s)) s).

(** [remote_regions[i]] and an assignment to it. *)
Definition region_at (i : nat) : M storage_state remote_region_t :=
  rs ← gets remote_regions; deref (rs !! i).

Definition upd_region (i : nat) (f : remote_region_t -> remote_region_t) : M storage_state unit :=
  r ← region_at i;
  modify (fun s => set_remote_regions (<[i := f r]> (remote_regions s)) (num_remote_regions s) s).

Definition set_last_access x r := mk_remote_region (rr_virtual_offset r) (rr_remote_addr r) (rr_size r)
  (rr_in_use r) x (rr_dirty r).
Definition set_dirty x r := mk_remote_region (rr_virtual_offset r) (rr_remote_addr r) (rr_size r)
  (rr_in_use r) (rr_last_access r) x.
Definition set_in_use x r := mk_remote_region (rr_virtual_offset r) (rr_remote_addr r) (rr_size r)
  x (rr_last_access r) (rr_dirty r).

(** [time(NULL)], in seconds. *)
Definition time_now : M storage_state Z := rdma (tv ← gets clock; mret tv.1).

(** ** Pointer conversion *)

Definition POINTER_OFFSET_FROM_END : Z := 8.

(** The address of the last word of a page at [page_data]. *)
Definition page_end_word (page_data : Z) : Z := page_data + PAGE_SIZE - POINTER_OFFSET_FROM_END.

Definition read_word (a : Z) : M storage_state Z :=
  bs ← rdma (proc_read Client a 8); mret (le_combine bs).

Definition write_word (a w : Z) : M storage_state unit := rdma (proc_write Client a (le_split 8 w)).

Definition convert_pointers_for_remote_storage (page_data page_va : Z) : M storage_state Z :=
  if page_data =? 0 then mret (-1)
  else
    let pointer_addr := page_end_word page_data in
    local_pointer ← read_word pointer_addr;
    if local_pointer =? 0 then mret 0
    else
      v ← translator (is_valid_local_pointer local_pointer);
      if (v : bool) then
        result ← translator (convert_local_to_remote_pointer local_pointer);
        if valid result then write_word pointer_addr (converted_pointer result);; mret 0
        else write_word pointer_addr 0;; mret (-1)
      else mret 0.

Definition convert_pointers_from_remote_storage (page_data page_va : Z) : M storage_state Z :=
  if page_data =? 0 then mret (-1)
  else
    let pointer_addr := page_end_word page_data in
    remote_pointer ← read_word pointer_addr;
    if remote_pointer =? 0 then mret 0
    else
      v ← translator (is_valid_remote_pointer remote_pointer);
      if (v : bool) then
        result ← translator (convert_remote_to_local_pointer remote_pointer);
        if valid result then write_word pointer_addr (converted_pointer result);; mret 0
        else write_word pointer_addr 0;; mret (-1)
      else mret 0.

(** ** The region table *)

(** The index of the first region from [i] on that satisfies [f]. *)
Fixpoint first_index (f : remote_region_t -> bool) (i : nat) (rs : list remote_region_t) : option nat :=
  match rs with
  | [] => None
  | r :: rs => if f r then Some i else first_index f (S i) rs
  end.

Definition find_remote_region (virtual_offset : Z) : M storage_state (option nat) :=
  s ← get;
  mret (first_index (fun r => rr_in_use r && (rr_virtual_offset r =? virtual_offset)) 0
          (take (Z.to_nat (num_remote_regions s)) (remote_regions s))).

(** The scan for the least recently accessed region from index [i] on. *)
Fixpoint oldest_region (oldest_time : Z) (oldest : option nat) (i : nat) (rs : list remote_region_t) : option nat :=
  match rs with
  | [] => oldest
  | r :: rs =>
      if rr_in_use r && (rr_last_access r <? oldest_time)
      then oldest_region (rr_last_access r) (Some i) (S i) rs
      else oldest_region oldest_time oldest (S i) rs
  end.

(** The scan of the request ring for the slot of [req_id]. *)
Fixpoint find_slot (req_id : Z) (rs : list rdma_request_t) : option rdma_request_t :=
  match rs with
  | [] => None
  | r :: rs => if request_id r =? req_id then Some r else find_slot req_id rs
  end.

(** [register_address_region]; a node is allocated when the base is new. *)
Definition register_region (lb sz rb : Z) : M storage_state Z :=
  t ← gets st_trans;
  ok ← (match update_region lb sz rb (regions t) with
        | None => if initialized t then node ← rdma (malloc Client); mret (negb (node =? 0)) else mret true
        | Some _ => mret true
        end);
  translator (register_address_region ok lb sz rb).

Section storage.
(** What the other processes do during a [usleep]; [posix_spawn] of the
    server process (its pid, or [None]); whether [kill(pid, 0)] finds the
    process; and reaping and killing it. *)
Variable usleep : M rdma_sys unit.
Variable spawn_rdma_process : M rdma_sys (option Z).
Variable process_alive : Z -> M rdma_sys bool.
Variable stop_process : Z -> M rdma_sys unit.

(** The slot a new region gets: a free one, or the least recently accessed
    one, whose remote memory is given back. *)
Definition choose_slot : M storage_state (option nat) :=
  s ← get;
  match first_index (fun r => negb (rr_in_use r)) 0 (remote_regions s) with
  | Some i => mret (Some i)
  | None =>
      match oldest_region UINT64_MAX None 0 (take (Z.to_nat (num_remote_regions s)) (remote_regions s)) with
      | None => mret None
      | Some i =>
          r ← region_at i;
          rdma (rdma_sim_free Client (rr_remote_addr r));;
          upd_counters count_free;;
          mret (Some i)
      end
  end.

(** The index of the allocated region, or [None] for NULL. *)
Definition allocate_remote_region (key_virtual_offset size : Z) : M storage_state (option nat) :=
  slot ← choose_slot;
  match slot with
  | None => mret None
  | Some free_index =>
      req_id ← rdma (rdma_submit_request Client RDMA_OP_ALLOCATE 0 0 size 0);
      if req_id =? 0 then mret None
      else
        '(ret, _) ← rdma (rdma_wait_request usleep Client req_id);
        if negb (ret =? 0) then mret None
        else
          shm ← rdma (get_rdma_shm usleep Client);
          let remote_addr :=
            match shm with
            | Some shm => match find_slot req_id (requests shm) with Some r => remote_addr r | None => 0 end
            | None => 0
            end in
          if remote_addr =? 0 then mret None
          else
            now ← time_now;
            upd_region free_index (fun _ => mk_remote_region key_virtual_offset remote_addr size true now false);;
            s ← get;
            when (num_remote_regions s <=? Z.of_nat free_index)
              (modify (fun s => set_remote_regions (remote_regions s) (Z.of_nat free_index + 1) s));;
            upd_counters count_allocation;;
            mret (Some free_index)
  end.

(** ** Start and stop *)

(** The polling loop of [start_rdma_process]. *)
Fixpoint start_wait (pid : Z) (n : nat) : M storage_state Z :=
  match n with
  | O => rdma (stop_process pid);; mret (-1)
  | S n =>
      rdma usleep;;
      up ← rdma (process_alive pid);
      if negb up then mret (-1)
      else
        r ← rdma (rdma_sim_init usleep Client false);
        if r =? 0 then mret 0 else start_wait pid n
  end.

Definition start_rdma_process : M storage_state Z :=
  pid ← rdma spawn_rdma_process;
  match pid with
  | None => mret (-1)
  | Some pid => modify (set_rdma_process_pid pid);; start_wait pid 10
  end.

(** The retries of the initial request: the last return value. *)
Fixpoint init_retry (req_id ret : Z) (n : nat) : M storage_state Z :=
  match n with
  | O => mret ret
  | S n =>
      '(ret, _) ← rdma (rdma_wait_request usleep Client req_id);
      if ret =? 0 then mret 0
      else rdma usleep;; init_retry req_id ret n
  end.

Definition rdma_storage_init : M storage_state Z :=
  s ← get;
  if rdma_initialized s then mret 0
  else
    modify (set_remote_regions (replicate (Z.to_nat MAX_REMOTE_REGIONS) zero_region) 0);;
    r ← rdma (rdma_sim_init usleep Client false);
    ret ← (if r =? 0 then mret 0 else start_rdma_process);
    if negb (ret =? 0) then mret (-1)
    else
      req_id ← rdma (rdma_submit_request Client RDMA_OP_INIT 0 0 0 0);
      ret ← init_retry req_id 0 5;
      if negb (ret =? 0) then
        rdma (rdma_sim_cleanup Client false);;
        pid ← gets rdma_process_pid;
        rdma (stop_process pid);;
        mret (-1)
      else
        modify (set_rdma_initialized true);;
        modify (set_storage_counters (mk_counters 0 0 0 0 0 0));;
        mret 0.

Definition rdma_storage_shutdown : M storage_state unit :=
  s ← get;
  if negb (rdma_initialized s) then mret tt
  else
    req_id ← rdma (rdma_submit_request Client RDMA_OP_SHUTDOWN 0 0 0 0);
    rdma (rdma_wait_request usleep Client req_id);;
    rdma (rdma_sim_cleanup Client false);;
    rdma (stop_process (rdma_process_pid s));;
    modify (set_rdma_initialized false).

Definition rdma_allocate_page_offset (size : Z) : M storage_state Z :=
  i ← gets rdma_initialized;
  if negb i then mret UINT64_MAX
  else
    region ← allocate_remote_region 0 size;
    match region with
    | None => mret UINT64_MAX
    | Some i => r ← region_at i; mret (rr_virtual_offset r)
    end.

(** ** Pages *)

(** [memcpy(dest, rdma_shm->page_buffer, size)]. *)
Definition copy_from_page_buffer (dest size : Z) : M storage_state unit :=
  if dest =? 0 then fail InvalidAccess
  else
    bs ← rdma (page_buffer_read Client 0 size);
    rdma (proc_write Client dest bs).

Definition rdma_read_page (fd virtual_offset dest size : Z) : M storage_state Z :=
  i ← gets rdma_initialized;
  if negb i then mret (-1)
  else
    upd_counters count_read;;
    region ← find_remote_region virtual_offset;
    match region with
    | None => upd_counters count_miss;; mret (- EFAULT)
    | Some i =>
        now ← time_now;
        upd_region i (set_last_access now);;
        r ← region_at i;
        upd_counters count_hit;;
        req_id ← rdma (rdma_submit_request Client RDMA_OP_READ dest (rr_remote_addr r) size 0);
        '(ret, _) ← rdma (rdma_wait_request usleep Client req_id);
        if negb (ret =? 0) then mret (-1)
        else
          shm ← rdma (get_rdma_shm usleep Client);
          when (bool_decide (is_Some shm)) (copy_from_page_buffer dest size);;
          when (size =? PAGE_SIZE) (convert_pointers_from_remote_storage dest virtual_offset;; mret tt);;
          mret 0
    end.

(** A region of another size is given up and allocated again. *)
Definition fit_region (virtual_offset size : Z) (i : nat) : M storage_state (option nat) :=
  r ← region_at i;
  if negb (rr_size r =? size) then
    rdma (rdma_sim_free Client (rr_remote_addr r));;
    upd_counters count_free;;
    upd_region i (set_in_use false);;
    allocate_remote_region virtual_offset size
  else mret (Some i).

(** The region a write goes to, found or allocated; [None] when an
    allocation fails. *)
Definition write_region (virtual_offset size : Z) : M storage_state (option nat) :=
  region ← find_remote_region virtual_offset;
  match region with
  | Some i => upd_counters count_hit;; fit_region virtual_offset size i
  | None =>
      region ← allocate_remote_region virtual_offset size;
      match region with
      | Some i => upd_counters count_miss;; fit_region virtual_offset size i
      | None => mret None
      end
  end.

Definition rdma_write_page (fd virtual_offset src size : Z) : M storage_state Z :=
  i ← gets rdma_initialized;
  if negb i then mret (-1)
  else
    upd_counters count_write;;
    region ← write_region virtual_offset size;
    match region with
    | None => mret (- ENOMEM)
    | Some i =>
        now ← time_now;
        upd_region i (fun r => set_dirty true (set_last_access now r));;
        r ← region_at i;
        converted_page_data ← rdma (malloc Client);
        if converted_page_data =? 0 then mret (- ENOMEM)
        else
          bs ← rdma (proc_read Client src size);
          rdma (proc_write Client converted_page_data bs);;
            when (size =? PAGE_SIZE)
            (register_region virtual_offset size (rr_remote_addr r);;
             convert_pointers_for_remote_storage converted_page_data virtual_offset;;
             mret tt);;
          req_id ← rdma (rdma_submit_request Client RDMA_OP_WRITE converted_page_data (rr_remote_addr r) size
                           converted_page_data);
          if req_id =? 0 then mret (-1)
          else
            '(ret, _) ← rdma (rdma_wait_request usleep Client req_id);
            if negb (ret =? 0) then mret (-1) else mret 0
    end.

Definition rdma_get_storage_stats : M storage_state (Z * Z * Z * Z) :=
  c ← gets counters; mret (rdma_reads c, rdma_writes c, rdma_hits c, rdma_misses c).

(** ** The storage manager *)

Definition storage_init : M storage_state Z :=
  ret ← rdma_storage_init;
  if negb (ret =? 0) then mret (-1)
  else modify (set_totals 0 0);; mret 0.

Definition storage_shutdown : M storage_state unit := rdma_storage_shutdown.

Definition write_page (fd offset src size : Z) : M storage_state Z :=
  modify (fun s => set_totals (total_reads s) (incr (total_writes s)) s);;
  ret ← rdma_write_page fd offset src size;
  mret (if negb (ret =? 0) then -1 else 0).

Definition read_page (fd offset dest size : Z) : M storage_state Z :=
  modify (fun s => set_totals (incr (total_reads s)) (total_writes s) s);;
  ret ← rdma_read_page fd offset dest size;
  mret (if negb (ret =? 0) then -1 else 0).

Definition get_storage_stats : M storage_state (Z * Z * Z * Z) := rdma_get_storage_stats.
End storage.
