(* ===== verification/StorageSpec.v ===== *)
(** The RDMA storage as a map from virtual offsets to pages: what
    [src/src/storage_rdma.c] and the storage manager promise to the pager,
    and the pointer conversion of [src/src/pointer_prefetch.c] that a page
    goes through on its way there and back. *)

From S2P Require Import Prelude UserPage AddressTranslation RdmaAlloc RdmaSim RdmaProtocol StorageRdma.

Local Open Scope Z_scope.

(** ** Pages in storage *)

Definition last_word : nat := Z.to_nat (PAGE_SIZE - POINTER_OFFSET_FROM_END).

(** A word in the local heap's range becomes 0 in storage, one in the remote
    heap's range becomes 0 when it is read back. *)
Definition local_range (w : Z) : bool := (0x7f0000000000 <=? w) && (w <? 0x7fffffffffffffff).
Definition remote_range (w : Z) : bool := (0x2000000000 <=? w) && (w <? 0x3fffffffff).

Definition clear_if (f : Z -> bool) (bs : list byte) : list byte :=
  if f (load_u64 bs last_word) then store_u64 bs last_word 0 else bs.

Definition to_storage : list byte -> list byte := clear_if local_range.
Definition from_storage : list byte -> list byte := clear_if remote_range.

(** A translator whose regions are those of storage: disk offsets below the
    local heap, remote addresses above the remote heap. *)
Record storage_translator (t : address_translator_t) : Prop := mk_storage_translator {
  sr_initialized : initialized t = true;
  sr_local : local_heap_base t = 0x7f0000000000 /\ local_heap_end t = 0x7fffffffffffffff;
  sr_remote : remote_heap_base t = 0x2000000000 /\ remote_heap_end t = 0x3fffffffff;
  sr_regions : Forall (fun r => local_end r <= 0x7f0000000000 /\ 0x3fffffffff <= remote_base r) (regions t);
}.

Definition in_disk (vo : Z) : Prop := 0 <= vo /\ vo + PAGE_SIZE <= 0x7f0000000000.

Lemma first_region_none f rs : Forall (fun r => f r = false) rs -> first_region f rs = None.
Proof. induction 1 as [|r rs Hr _ IH]; simpl; [done|]. by rewrite Hr. Qed.

Lemma length_clear_if f bs : length bs = page_bytes -> length (clear_if f bs) = page_bytes.
Proof. intros H. unfold clear_if. destruct (f _); [|done]. rewrite length_store_u64; [done|]. rewrite H. vm_compute. lia. Qed.

(** A conversion at [a] in process memory: only the last word of the page is
    rewritten. *)
Definition cleared (f : Z -> bool) (a : Z) (m m' : mem) : Prop :=
  mem_read m' a page_bytes = clear_if f (mem_read m a page_bytes) /\
  (forall x, x < a + PAGE_SIZE - 8 \/ a + PAGE_SIZE <= x -> m' x = m x).

Lemma cleared_same (f : Z -> bool) a m :
  f (le_combine (mem_read m (page_end_word a) 8)) = false -> cleared f a m m.
Proof.
  intros H. split; [|done]. unfold clear_if. rewrite load_u64_mem by (vm_compute; lia).
  change (a + Z.of_nat last_word) with (a + (PAGE_SIZE - POINTER_OFFSET_FROM_END)).
  rewrite Z.add_sub_assoc. unfold page_end_word in H. by rewrite H.
Qed.

Lemma cleared_write (f : Z -> bool) a m :
  f (le_combine (mem_read m (page_end_word a) 8)) = true ->
  cleared f a m (mem_write m (page_end_word a) (le_split 8 0)).
Proof.
  intros H. assert (Ha : page_end_word a = a + Z.of_nat last_word).
  { unfold page_end_word. change (Z.of_nat last_word) with (PAGE_SIZE - POINTER_OFFSET_FROM_END). lia. }
  split.
  - rewrite Ha, store_u64_mem by (vm_compute; lia). unfold clear_if.
    rewrite load_u64_mem, <- Ha, H by (vm_compute; lia). done.
  - intros x Hx. apply mem_write_out. rewrite length_le_split_8. unfold page_end_word, POINTER_OFFSET_FROM_END. lia.
Qed.

Section storage_spec.
Context (id : Z) (G : gmap Z rdma_shm_t) (key : option Z) (nid : Z) (clk : Z * Z).
Context (pid tr tw : Z).
Abbreviation conn := (RdmaSim.conn id G key nid clk).

(** A storage state with the given variable parts. *)
Definition stored (shm : rdma_shm_t) (srv cli : rdma_proc) (t : address_translator_t)
    (rs : list remote_region_t) (n : Z) (c : rdma_counters) : storage_state :=
  mk_storage (conn shm srv cli) t true pid rs n c tr tw.

Lemma wp_rdma {A} (m : M rdma_sys A) (Q : A -> storage_state -> Prop) shm srv cli t rs n c :
  wp (rdma m) Q (stored shm srv cli t rs n c) <->
  wp m (fun a x => Q a (mk_storage x t true pid rs n c tr tw)) (conn shm srv cli).
Proof. apply (wp_zoom sys_lens). Qed.

(** Fold a storage state back into the form of the lemmas. *)
Ltac fold_stored :=
  repeat match goal with
  | |- context [mk_storage (RdmaSim.conn id G key nid clk ?shm ?srv ?cli) ?t true pid ?rs ?n ?c tr tw] =>
      change (mk_storage (RdmaSim.conn id G key nid clk shm srv cli) t true pid rs n c tr tw)
        with (stored shm srv cli t rs n c)
  end.

Lemma wp_translator {A} (m : M address_translator_t A) (Q : A -> storage_state -> Prop) s :
  wp (translator m) Q s <-> wp m (fun a x => Q a (set_trans x s)) (st_trans s).
Proof. apply (wp_zoom trans_lens). Qed.

Lemma wp_read_word a (Q : Z -> storage_state -> Prop) shm srv cli t rs n c :
  Q (le_combine (mem_read (p_mem cli) a 8)) (stored shm srv cli t rs n c) ->
  wp (read_word a) Q (stored shm srv cli t rs n c).
Proof. intros HQ. unfold read_word. wp_norm. apply wp_rdma. unfold proc_read. by wp_norm. Qed.

Lemma wp_write_word a w (Q : unit -> storage_state -> Prop) shm srv cli t rs n c :
  Q tt (stored shm srv (set_p_mem (mem_write (p_mem cli) a (le_split 8 w)) cli) t rs n c) ->
  wp (write_word a w) Q (stored shm srv cli t rs n c).
Proof. intros HQ. unfold write_word. apply wp_rdma. unfold proc_write. by apply wp_upd_proc. Qed.

Lemma convert_for_spec a vo shm srv cli t rs n c :
  storage_translator t -> a <> 0 ->
  wp (convert_pointers_for_remote_storage a vo)
     (fun _ s' => exists m', s' = stored shm srv (set_p_mem m' cli) t rs n c /\ cleared local_range a (p_mem cli) m')
     (stored shm srv cli t rs n c).
Proof.
  intros [Hi [Hl1 Hl2] _ Hrs] Ha. unfold convert_pointers_for_remote_storage.
  replace (a =? 0) with false by lia. cbv zeta. wp_norm. apply wp_read_word.
  set (w := le_combine _). destruct (w =? 0) eqn:E0.
  { wp_norm. exists (p_mem cli). split; [by destruct cli|]. apply cleared_same. fold w. unfold local_range. lia. }
  wp_norm. apply wp_translator. unfold is_valid_local_pointer. rewrite E0. wp_norm. simpl st_trans. rewrite Hi.
  simpl negb. cbv iota. wp_norm. rewrite Hl1, Hl2. fold (local_range w).
  destruct (local_range w) eqn:Ew.
  - wp_norm. apply wp_translator. simpl st_trans. unfold convert_local_to_remote_pointer. rewrite E0. wp_norm.
    rewrite Hi. simpl negb. cbv iota. rewrite first_region_none.
    + wp_norm. cbn [valid]. wp_norm. apply wp_write_word. wp_norm. eexists. split; [done|]. by apply cleared_write.
    + eapply Forall_impl; [exact Hrs|]. intros r [Hr _]. unfold local_match, local_range in *. lia.
  - wp_norm. exists (p_mem cli). split; [by destruct cli|]. by apply cleared_same.
Qed.

Lemma convert_from_spec a vo shm srv cli t rs n c :
  storage_translator t -> a <> 0 ->
  wp (convert_pointers_from_remote_storage a vo)
     (fun _ s' => exists m', s' = stored shm srv (set_p_mem m' cli) t rs n c /\ cleared remote_range a (p_mem cli) m')
     (stored shm srv cli t rs n c).
Proof.
  intros [Hi _ [Hl1 Hl2] Hrs] Ha. unfold convert_pointers_from_remote_storage.
  replace (a =? 0) with false by lia. cbv zeta. wp_norm. apply wp_read_word.
  set (w := le_combine _). destruct (w =? 0) eqn:E0.
  { wp_norm. exists (p_mem cli). split; [by destruct cli|]. apply cleared_same. fold w. unfold remote_range. lia. }
  wp_norm. apply wp_translator. unfold is_valid_remote_pointer. rewrite E0. wp_norm. simpl st_trans. rewrite Hi.
  simpl negb. cbv iota. wp_norm. rewrite Hl1, Hl2. fold (remote_range w).
  destruct (remote_range w) eqn:Ew.
  - wp_norm. apply wp_translator. simpl st_trans. unfold convert_remote_to_local_pointer. rewrite E0. wp_norm.
    rewrite Hi. simpl negb. cbv iota. rewrite first_region_none.
    + wp_norm. cbn [valid]. wp_norm. apply wp_write_word. wp_norm. eexists. split; [done|]. by apply cleared_write.
    + eapply Forall_impl; [exact Hrs|]. intros r [_ Hr]. unfold remote_match, remote_range in *. lia.
  - wp_norm. exists (p_mem cli). split; [by destruct cli|]. by apply cleared_same.
Qed.

Lemma update_region_forall (P : address_region_t -> Prop) lb sz rb rs rs' :
  update_region lb sz rb rs = Some rs' -> Forall P rs -> P (mk_region lb (u64 (lb + sz)) rb sz true) -> Forall P rs'.
Proof.
  revert rs'. induction rs as [|r rs IH]; intros rs'; simpl; [done|]. destruct (local_base r =? lb) eqn:E.
  - intros [= <-] [_ Hrs]%Forall_cons Hnew. apply Forall_cons. split; [|done].
    by replace (local_base r) with lb by lia.
  - destruct (update_region lb sz rb rs) as [rs0|]; [|done]. intros [= <-] [Hr Hrs]%Forall_cons Hnew.
    apply Forall_cons. auto.
Qed.

Lemma register_region_spec vo ra shm srv cli t rs n c :
  storage_translator t -> in_disk vo -> sim_base <= ra ->
  wp (register_region vo PAGE_SIZE ra)
     (fun _ s' => exists t' mal, s' = stored shm srv (set_p_malloc mal cli) t' rs n c /\ storage_translator t')
     (stored shm srv cli t rs n c).
Proof.
  intros Ht [Hv1 Hv2] Hra. pose proof Ht as [Hi Hl Hr Hrs].
  assert (Hnew : local_end (mk_region vo (u64 (vo + PAGE_SIZE)) ra PAGE_SIZE true) <= 0x7f0000000000 /\
                 0x3fffffffff <= remote_base (mk_region vo (u64 (vo + PAGE_SIZE)) ra PAGE_SIZE true)).
  { simpl. rewrite u64_small by (unfold in_u64, PAGE_SIZE, BASEPAGE_SIZE in *; lia). unfold sim_base in Hra. lia. }
  assert (Hreg : forall ok mal,
    wp (translator (register_address_region ok vo PAGE_SIZE ra))
      (fun _ s' => exists t' mal, s' = stored shm srv (set_p_malloc mal cli) t' rs n c /\ storage_translator t')
      (stored shm srv (set_p_malloc mal cli) t rs n c)).
  { intros ok mal. apply wp_translator. simpl st_trans. unfold register_address_region. wp_norm. rewrite Hi.
    simpl negb. cbv iota. destruct (update_region vo PAGE_SIZE ra (regions t)) as [rs'|] eqn:Eu; wp_norm.
    - exists (AddressTranslation.set_regions rs' t), mal. split; [done|]. constructor; try done. simpl.
      by eapply update_region_forall.
    - destruct ok; wp_norm.
      + eexists _, mal. split; [reflexivity|]. constructor; try done. simpl. by apply Forall_cons.
      + exists t, mal. done. }
  unfold register_region. wp_norm. simpl st_trans.
  assert (Hsame : stored shm srv cli t rs n c = stored shm srv (set_p_malloc (p_malloc cli) cli) t rs n c)
    by (by destruct cli).
  destruct (update_region vo PAGE_SIZE ra (regions t)) eqn:Eu; [wp_norm; rewrite Hsame; apply Hreg|].
  rewrite Hi. wp_norm. apply wp_rdma. unfold malloc. wp_norm. rewrite proc_conn. simpl procs.
  destruct (p_malloc cli) as [|x mal] eqn:Em.
  - wp_norm. specialize (Hreg (negb (0 =? 0)) []). fold_stored. rewrite Hsame. apply Hreg.
  - wp_norm. apply wp_upd_proc. wp_norm. apply Hreg.
Qed.

(** ** The region table *)

(** The regions in use have distinct keys, lie in the used prefix, and each
    owns a live page-sized block of the remote memory [m]; [st] is what they
    hold. *)
Record table_ok (rs : list remote_region_t) (n : Z) (bs : list mem_block_t) (m : mem)
    (st : gmap Z (list byte)) : Prop := mk_table_ok {
  tb_length : length rs = Z.to_nat MAX_REMOTE_REGIONS;
  tb_num : 0 <= n <= MAX_REMOTE_REGIONS;
  tb_used : forall i r, rs !! i = Some r -> rr_in_use r = true ->
    Z.of_nat i < n /\ rr_size r = PAGE_SIZE /\ in_disk (rr_virtual_offset r) /\
    allocated bs (taken (rr_remote_addr r) PAGE_SIZE);
  tb_keys : forall i j ri rj, rs !! i = Some ri -> rs !! j = Some rj -> rr_in_use ri = true -> rr_in_use rj = true ->
    rr_virtual_offset ri = rr_virtual_offset rj \/ rr_remote_addr ri = rr_remote_addr rj -> i = j;
  tb_contents : forall vo pg, st !! vo = Some pg <->
    exists i r, rs !! i = Some r /\ rr_in_use r = true /\ rr_virtual_offset r = vo /\
      pg = mem_read m (rr_remote_addr r - sim_base) page_bytes;
}.

Lemma first_index_Some f k rs i :
  first_index f k rs = Some i -> exists j r, i = (k + j)%nat /\ rs !! j = Some r /\ f r = true.
Proof.
  revert k. induction rs as [|r rs IH]; intros k; simpl; [done|]. destruct (f r) eqn:E.
  - intros [= <-]. exists 0%nat, r. split; [lia|done].
  - intros H. destruct (IH _ H) as (j & x & -> & Hj & Hx). exists (S j), x. split; [lia|done].
Qed.

Lemma first_index_None f k rs r : first_index f k rs = None -> r ∈ rs -> f r = false.
Proof.
  revert k. induction rs as [|x rs IH]; intros k; simpl; [by intros _ ?%elem_of_nil|].
  destruct (f x) eqn:E; [done|]. intros H [->|Hr]%elem_of_cons; [done|by eapply IH].
Qed.

(** A lookup finds the region of a stored page, and only those. *)
Lemma find_region_spec vo shm srv cli t rs n c bs m st :
  table_ok rs n bs m st ->
  wp (find_remote_region vo)
     (fun o s' => s' = stored shm srv cli t rs n c /\
        match o with
        | Some i => exists r, rs !! i = Some r /\ rr_in_use r = true /\ rr_virtual_offset r = vo
        | None => st !! vo = None
        end)
     (stored shm srv cli t rs n c).
Proof.
  intros Ht. unfold find_remote_region. wp_norm. split; [done|]. cbn [num_remote_regions remote_regions stored].
  destruct (first_index _ 0 _) as [i|] eqn:E.
  - apply first_index_Some in E as (j & r & -> & Hj & Hr). apply lookup_take_Some in Hj as [Hj _].
    exists r. split; [done|]. lia.
  - apply eq_None_not_Some. intros [pg Hpg]. apply (tb_contents _ _ _ _ _ Ht) in Hpg as (i & r & Hi & Hu & Hv & _).
    assert (Hin : r ∈ take (Z.to_nat n) rs).
    { apply list_elem_of_lookup. exists i. apply lookup_take_Some. split; [done|].
      destruct (tb_used _ _ _ _ _ Ht _ _ Hi Hu) as (?&_). lia. }
    pose proof (first_index_None _ _ _ _ E Hin) as Hf. simpl in Hf. rewrite Hu, Hv in Hf. simpl in Hf. lia.
Qed.

(** Bookkeeping on a region changes nothing that is stored. *)
Lemma table_touch rs n bs m st i r r' :
  table_ok rs n bs m st -> rs !! i = Some r ->
  rr_virtual_offset r' = rr_virtual_offset r -> rr_remote_addr r' = rr_remote_addr r ->
  rr_size r' = rr_size r -> rr_in_use r' = rr_in_use r ->
  table_ok (<[i := r']> rs) n bs m st.
Proof.
  intros [Hlen Hnum Hused Hkeys Hcont] Hi Ev Ea Es Eu.
  assert (Hget : forall j x, <[i := r']> rs !! j = Some x -> exists y, rs !! j = Some y /\
    rr_virtual_offset x = rr_virtual_offset y /\ rr_remote_addr x = rr_remote_addr y /\
    rr_size x = rr_size y /\ rr_in_use x = rr_in_use y).
  { intros j x [(->&->&_)|[_ Hj]]%list_lookup_insert_Some; eauto 10. }
  constructor; [by rewrite length_insert|done| | |].
  - intros j x Hj Hu. destruct (Hget _ _ Hj) as (y & Hy & -> & -> & -> & Eq). apply Hused; [done|congruence].
  - intros j k x y Hj Hk Hux Huy. destruct (Hget _ _ Hj) as (x' & Hx' & -> & -> & _ & E1).
    destruct (Hget _ _ Hk) as (y' & Hy' & -> & -> & _ & E2). intros H. eapply Hkeys; eauto; congruence.
  - intros vo pg. rewrite Hcont. split.
    + intros (j & x & Hj & Hu & Hv & ->). destruct (decide (j = i)) as [->|Hne].
      * simplify_eq. exists i, r'. rewrite list_lookup_insert_eq by (by eapply lookup_lt_Some).
        split_and!; congruence.
      * exists j, x. by rewrite list_lookup_insert_ne.
    + intros (j & x & Hj & Hu & Hv & ->). destruct (Hget _ _ Hj) as (y & Hy & Ev' & Ea' & _ & Eu').
      exists j, y. split_and!; congruence.
Qed.

(** Two pages' blocks are disjoint. *)
Lemma table_disjoint rs n bs used m st i j ri rj :
  table_ok rs n bs m st -> alloc_inv bs used ->
  rs !! i = Some ri -> rs !! j = Some rj -> rr_in_use ri = true -> rr_in_use rj = true -> i <> j ->
  rr_remote_addr ri + PAGE_SIZE <= rr_remote_addr rj \/ rr_remote_addr rj + PAGE_SIZE <= rr_remote_addr ri.
Proof.
  intros Ht Hinv Hi Hj Hui Huj Hne.
  destruct (tb_used _ _ _ _ _ Ht _ _ Hi Hui) as (_&_&_&Hai). destruct (tb_used _ _ _ _ _ Ht _ _ Hj Huj) as (_&_&_&Haj).
  apply (alloc_inv_disjoint _ _ _ _ Hinv Hai Haj). intros [= Heq]. apply Hne. eapply tb_keys; eauto.
Qed.

(** Writing a page's remote block. *)
Lemma table_write rs n bs used m st i r pg :
  table_ok rs n bs m st -> alloc_inv bs used -> rs !! i = Some r -> rr_in_use r = true -> length pg = page_bytes ->
  table_ok rs n bs (mem_write m (rr_remote_addr r - sim_base) pg) (<[rr_virtual_offset r := pg]> st).
Proof.
  intros Ht Hinv Hi Hu Hlen. pose proof Ht as [H1 H2 H3 H4 H5].
  assert (Hpb : Z.of_nat page_bytes = PAGE_SIZE) by done.
  constructor; try done. intros vo pg'. rewrite lookup_insert_Some, H5.
  assert (Hother : forall j x, rs !! j = Some x -> rr_in_use x = true -> j <> i ->
    mem_read (mem_write m (rr_remote_addr r - sim_base) pg) (rr_remote_addr x - sim_base) page_bytes =
    mem_read m (rr_remote_addr x - sim_base) page_bytes).
  { intros j x Hj Hux Hne. apply mem_read_write_disjoint. rewrite Hlen, Hpb.
    destruct (table_disjoint _ _ _ _ _ _ _ _ _ _ Ht Hinv Hj Hi Hux Hu Hne); lia. }
  split.
  - intros [[<- <-]|[Hne (j & x & Hj & Hux & Hv & ->)]].
    + exists i, r. split_and!; try done. rewrite <- Hlen. symmetry. apply mem_read_write_same.
    + exists j, x. split_and!; try done. symmetry. apply (Hother j); [done|done|].
      intros ->. simplify_eq.
  - intros (j & x & Hj & Hux & Hv & ->). destruct (decide (j = i)) as [->|Hne].
    + left. simplify_eq. split; [done|]. rewrite <- Hlen. symmetry. apply mem_read_write_same.
    + right. split; [|exists j, x; split_and!; try done; by apply (Hother j)].
      intros Heq. apply Hne. eapply H4; eauto. left. congruence.
Qed.

(** A new region on a fresh block. *)
Lemma table_add rs n bs bs' m st i r0 vo a now :
  table_ok rs n bs m st -> st !! vo = None -> in_disk vo ->
  rs !! i = Some r0 -> rr_in_use r0 = false ->
  (forall b, allocated bs' b <-> b = taken a PAGE_SIZE \/ allocated bs b) -> unoccupied bs a PAGE_SIZE ->
  table_ok (<[i := mk_remote_region vo a PAGE_SIZE true now false]> rs)
    (if n <=? Z.of_nat i then Z.of_nat i + 1 else n) bs' m (<[vo := mem_read m (a - sim_base) page_bytes]> st).
Proof.
  intros [Hlen Hnum Hused Hkeys Hcont] Hvo Hd Hi Hu0 Hbs Hun.
  set (rnew := mk_remote_region _ _ _ _ _ _).
  assert (Hilt : (i < Z.to_nat MAX_REMOTE_REGIONS)%nat) by (rewrite <- Hlen; by eapply lookup_lt_Some).
  assert (Hget : forall j x, <[i := rnew]> rs !! j = Some x -> rr_in_use x = true ->
    (j = i /\ x = rnew) \/ (j <> i /\ rs !! j = Some x /\ rr_virtual_offset x <> vo /\ rr_remote_addr x <> a)).
  { intros j x [(->&->&_)|[Hne Hj]]%list_lookup_insert_Some Hu; [by left|]. right. split_and!; try done.
    - intros Hv. assert (Hs : is_Some (st !! vo)); [|rewrite Hvo in Hs; by destruct Hs].
      exists (mem_read m (rr_remote_addr x - sim_base) page_bytes). apply Hcont. eauto 10.
    - intros <-. destruct (Hused _ _ Hj Hu) as (_&_&_&Ha). destruct (Hun _ Ha); simpl in *; unfold PAGE_SIZE, BASEPAGE_SIZE in *; lia. }
  constructor.
  - by rewrite length_insert.
  - destruct (n <=? Z.of_nat i) eqn:E; lia.
  - intros j x Hj Hu. destruct (Hget _ _ Hj Hu) as [[-> ->]|(_ & Hj' & _)].
    + split_and!; [destruct (n <=? Z.of_nat i) eqn:E; lia|done|done|apply Hbs; by left].
    + destruct (Hused _ _ Hj' Hu) as (?&?&?&?). split_and!; try done; [destruct (n <=? Z.of_nat i) eqn:E; lia|].
      apply Hbs. by right.
  - intros j k x y Hj Hk Hux Huy.
    destruct (Hget _ _ Hj Hux) as [[-> ->]|(Hji & Hj' & Hxv & Hxa)];
      destruct (Hget _ _ Hk Huy) as [[-> ->]|(Hki & Hk' & Hyv & Hya)]; simpl.
    + done.
    + intros [?|?]; congruence.
    + intros [?|?]; congruence.
    + by eapply Hkeys.
  - intros v pg. rewrite lookup_insert_Some, Hcont. split.
    + intros [[<- <-]|[Hne (j & x & Hj & Hu & Hv & ->)]].
      * exists i, rnew. rewrite list_lookup_insert_eq by lia. done.
      * exists j, x. rewrite list_lookup_insert_ne; [done|]. intros ->. congruence.
    + intros (j & x & Hj & Hu & Hv & ->). destruct (Hget _ _ Hj Hu) as [[-> ->]|(Hji & Hj' & Hxv & Hxa)].
      * by left.
      * right. split; [congruence|]. eauto 10.
Qed.

Lemma choose_slot_free shm srv cli t rs n c i :
  first_index (fun r => negb (rr_in_use r)) 0 rs = Some i ->
  wp choose_slot (fun o s' => o = Some i /\ s' = stored shm srv cli t rs n c) (stored shm srv cli t rs n c).
Proof. intros Hi. unfold choose_slot. wp_norm. cbn [remote_regions stored]. rewrite Hi. by wp_norm. Qed.

Lemma find_slot_unique shm r j :
  requests shm !! j = Some r -> unique_id shm r -> find_slot (request_id r) (requests shm) = Some r.
Proof.
  intros Hj Hu. unfold unique_id in Hu. revert j Hj Hu. generalize (requests shm) as l.
  induction l as [|x l IH]; intros j Hj Hu; [done|]. simpl. destruct (request_id x =? request_id r) eqn:E.
  - f_equal. by apply (Hu 0%nat x); [|lia].
  - destruct j as [|j]; simpl in Hj; [simplify_eq; lia|]. apply (IH j Hj).
    intros k y Hk Hy. destruct (Hu (S k) y Hk Hy) as [-> Hun]. split; [done|].
    intros k' Hk'. specialize (Hun (S k') Hk'). lia.
Qed.

Lemma wp_get_rdma_shm usleep shm srv cli (Q : option rdma_shm_t -> rdma_sys -> Prop) :
  rdma_shm cli = Some id -> Q (Some shm) (conn shm srv cli) -> wp (get_rdma_shm usleep Client) Q (conn shm srv cli).
Proof.
  intros Hatt HQ. unfold get_rdma_shm. wp_norm. rewrite proc_conn. simpl procs. rewrite Hatt. wp_norm.
  by apply wp_the_shm.
Qed.

Lemma wp_region_at i r (Q : remote_region_t -> storage_state -> Prop) shm srv cli t rs n c :
  rs !! i = Some r -> Q r (stored shm srv cli t rs n c) -> wp (region_at i) Q (stored shm srv cli t rs n c).
Proof. intros Hi HQ. unfold region_at. wp_norm. by apply wp_deref with r. Qed.

Lemma wp_upd_region i r f (Q : unit -> storage_state -> Prop) shm srv cli t rs n c :
  rs !! i = Some r -> Q tt (stored shm srv cli t (<[i := f r]> rs) n c) ->
  wp (upd_region i f) Q (stored shm srv cli t rs n c).
Proof. intros Hi HQ. unfold upd_region. wp_norm. by apply wp_region_at with r. Qed.

Lemma wp_upd_counters f (Q : unit -> storage_state -> Prop) shm srv cli t rs n c :
  Q tt (stored shm srv cli t rs n (f c)) -> wp (upd_counters f) Q (stored shm srv cli t rs n c).
Proof. done. Qed.

Lemma wp_time_now (Q : Z -> storage_state -> Prop) shm srv cli t rs n c :
  Q clk.1 (stored shm srv cli t rs n c) -> wp time_now Q (stored shm srv cli t rs n c).
Proof. intros HQ. unfold time_now. apply wp_rdma. by wp_norm. Qed.

(** Allocating a region for a page that is not stored, while a slot is
    free: the page gets whatever its new block holds. *)
Lemma allocate_region_spec vo shm srv cli m t rs n c st i0 :
  quiet id shm srv cli m -> request_id_counter cli < 2 ^ 64 - 2 ->
  table_ok rs n (sim_remote_memory_blocks srv) m st -> st !! vo = None -> in_disk vo ->
  first_index (fun r => negb (rr_in_use r)) 0 rs = Some i0 ->
  wp (allocate_remote_region server_turn vo PAGE_SIZE)
     (fun o s' => exists shm' srv' rs' n' c', s' = stored shm' srv' (bump cli) t rs' n' c' /\
        quiet id shm' srv' (bump cli) m /\
        match o with
        | Some i => exists r pg, rs' !! i = Some r /\ rr_in_use r = true /\ rr_virtual_offset r = vo /\
            table_ok rs' n' (sim_remote_memory_blocks srv') m (<[vo := pg]> st)
        | None => table_ok rs' n' (sim_remote_memory_blocks srv') m st /\ no_fit PAGE_SIZE (sim_remote_memory_blocks srv)
        end)
     (stored shm srv cli t rs n c).
Proof.
  intros Hq Hctr Ht Hvo Hd Hi0. unfold allocate_remote_region. wp_norm.
  wp_call choose_slot_free as o s' [-> ->]; [done|]. wp_norm. apply wp_rdma.
  wp_call (allocate_request_spec id G key nid clk shm srv cli m) as v s1 [-> Hw]; [done|done|done|].
  pose proof (co_counter _ _ _ (qu_client _ _ _ _ _ Hq)) as Hc0.
  replace (request_id_counter cli =? 0) with false by lia. wp_norm.
  apply (wp_zoom sys_lens). eapply wp_mono; [exact Hw|].
  intros [ret ec] s2 (shm2 & srv2 & -> & Hq2 & Hres). cbn [over sys_lens]. unfold set_sys. simpl. fold_stored.
  destruct Hres as [[[= -> ->] (a & r2 & j & Hj & Hid & Hu & Ha & Hblk & Hun)]|([= -> ->] & Hblk & Hfit)].
  - simpl negb. cbv iota. wp_norm. apply wp_rdma. apply wp_get_rdma_shm; [apply Hq2|]. fold_stored.
    rewrite <- Hid, (find_slot_unique _ _ _ Hj Hu), Ha.
    assert (Hnew : allocated (sim_remote_memory_blocks srv2) (taken a PAGE_SIZE)) by (apply Hblk; by left).
    destruct (alloc_inv_member _ _ _ (so_blocks _ _ _ (qu_server _ _ _ _ _ Hq2)) (proj1 Hnew)) as (Hlo & _). simpl in Hlo.
    replace (a =? 0) with false by (unfold sim_base in Hlo; lia). wp_norm. apply wp_time_now. wp_norm.
    apply first_index_Some in Hi0 as (k & r0 & -> & Hk & Hfree). simpl in *.
    pose proof (table_add _ _ _ _ _ _ _ _ vo a clk.1 Ht Hvo Hd Hk ltac:(by destruct (rr_in_use r0)) Hblk Hun) as Htab.
    apply wp_upd_region with r0; [done|]. wp_norm. cbn [num_remote_regions stored].
    destruct (n <=? Z.of_nat k) eqn:En.
    + apply wp_when_true; [done|]. wp_norm. do 5 eexists. split; [reflexivity|]. split; [done|].
      do 2 eexists. split; [apply list_lookup_insert_eq; by eapply lookup_lt_Some|]. split; [done|]. split; [done|].
      exact Htab.
    + apply wp_when_false; [done|]. wp_norm. do 5 eexists. split; [reflexivity|]. split; [done|].
      do 2 eexists. split; [apply list_lookup_insert_eq; by eapply lookup_lt_Some|]. split; [done|]. split; [done|].
      exact Htab.
  - simpl negb. cbv iota. wp_norm. do 5 eexists. split; [reflexivity|]. split; [done|]. by rewrite Hblk.
Qed.

(** *** Reading and writing a page *)

(** [n] bytes at [a]. *)
Definition outside (a n x : Z) : Prop := x < a \/ a + n <= x.

Lemma quiet_mem shm srv cli m f :
  rdma_shm (f cli) = rdma_shm cli -> request_id_counter (f cli) = request_id_counter cli ->
  quiet id shm srv cli m -> quiet id shm srv (f cli) m.
Proof. intros E1 E2 [H1 H2 H3 [H4 H5 H6] H7]. constructor; try done. constructor; [by rewrite E1|by rewrite E2..]. Qed.

Lemma quiet_set_mem shm srv cli m x : quiet id shm srv cli m -> quiet id shm srv (set_p_mem x cli) m.
Proof. intros [Hring Hok Hsd [] Hm]. by constructor. Qed.

Lemma page_in_remote bs used a : alloc_inv bs used -> allocated bs (taken a PAGE_SIZE) -> in_remote a PAGE_SIZE.
Proof. intros Hinv [Hin _]. destruct (alloc_inv_member _ _ _ Hinv Hin) as (?&_&?&_). done. Qed.

Lemma wp_copy_from_page_buffer dest (Q : unit -> storage_state -> Prop) shm srv cli t rs n c :
  rdma_shm cli = Some id -> dest <> 0 ->
  Q tt (stored shm srv (set_p_mem (mem_write (p_mem cli) dest (take page_bytes (page_buffer shm))) cli) t rs n c) ->
  wp (copy_from_page_buffer dest PAGE_SIZE) Q (stored shm srv cli t rs n c).
Proof.
  intros Hatt Hd HQ. unfold copy_from_page_buffer. replace (dest =? 0) with false by lia. wp_norm. apply wp_rdma.
  apply wp_page_buffer_read; [done|done|done|]. fold_stored. apply wp_rdma. unfold proc_write. by apply wp_upd_proc.
Qed.

Lemma mem_write_outside m a bs x n :
  Z.of_nat (length bs) = n -> outside a n x -> mem_write m a bs x = m x.
Proof. intros <- H. by apply mem_write_out. Qed.

Lemma read_page_hit fd vo dest shm srv cli m t rs n c st pg :
  quiet id shm srv cli m -> request_id_counter cli < 2 ^ 64 - 2 -> storage_translator t ->
  table_ok rs n (sim_remote_memory_blocks srv) m st -> st !! vo = Some pg -> dest <> 0 ->
  wp (rdma_read_page server_turn fd vo dest PAGE_SIZE)
     (fun ret s' => ret = 0 /\ exists shm' cli' rs' c', s' = stored shm' srv cli' t rs' n c' /\
        quiet id shm' srv cli' m /\ request_id_counter cli' = request_id_counter cli + 1 /\
        table_ok rs' n (sim_remote_memory_blocks srv) m st /\
        mem_read (p_mem cli') dest page_bytes = from_storage pg /\
        (forall x, outside dest PAGE_SIZE x -> p_mem cli' x = p_mem cli x) /\ p_malloc cli' = p_malloc cli)
     (stored shm srv cli t rs n c).
Proof.
  intros Hq Hctr Htr Htab Hpg Hdest. unfold rdma_read_page. wp_norm. cbn [rdma_initialized stored negb]. wp_norm.
  apply wp_upd_counters. wp_norm. wp_call find_region_spec as o s' [-> Hfind]; [done|].
  destruct o as [i|]; [|congruence]. destruct Hfind as (r & Hi & Hu & Hv). wp_norm. apply wp_time_now.
  wp_norm. apply wp_upd_region with r; [done|]. set (r' := set_last_access _ r).
  assert (Htab' : table_ok (<[i := r']> rs) n (sim_remote_memory_blocks srv) m st) by (by eapply table_touch).
  assert (Hi' : <[i := r']> rs !! i = Some r') by (apply list_lookup_insert_eq; by eapply lookup_lt_Some).
  wp_norm. apply wp_region_at with r'; [done|]. wp_norm. apply wp_upd_counters. wp_norm. apply wp_rdma.
  destruct (tb_used _ _ _ _ _ Htab' _ _ Hi' Hu) as (_ & _ & _ & Hal).
  pose proof (page_in_remote _ _ _ (so_blocks _ _ _ (qu_server _ _ _ _ _ Hq)) Hal) as Hin.
  wp_call (read_spec id G key nid clk shm srv cli m) as v s1 [-> Hw]; [done|done|done|done|done|].
  wp_norm. apply (wp_zoom sys_lens). eapply wp_mono; [exact Hw|].
  intros [ret ec] s2 ([= -> ->] & shm2 & -> & Hq2 & Hpb). cbn [over sys_lens]. unfold set_sys. simpl. fold_stored.
  simpl negb. cbv iota. wp_norm. apply wp_rdma. apply wp_get_rdma_shm; [apply Hq2|]. fold_stored.
  wp_norm. apply wp_when_true; [done|]. apply wp_copy_from_page_buffer; [apply Hq2|done|].
  wp_norm.
  assert (Hbs : take page_bytes (page_buffer shm2) = pg).
  { apply (tb_contents _ _ _ _ _ Htab') in Hpg as (j & x & Hj & Hux & Hvx & ->).
    assert (j = i) as -> by (eapply (tb_keys _ _ _ _ _ Htab'); eauto; left; simpl; congruence).
    rewrite Hj in Hi'. simplify_eq. exact Hpb. }
  assert (Hlen : length pg = page_bytes).
  { rewrite <- Hbs, length_take, (ring_buffer _ _ (qu_ring _ _ _ _ _ Hq2)). done. }
  rewrite Hbs. wp_call convert_from_spec as ret s3 (m' & -> & Hm1 & Hm2); [done|done|]. wp_norm. split; [done|].
  do 4 eexists. split; [reflexivity|]. split; [apply quiet_set_mem, quiet_set_mem, Hq2|].
  split; [simpl; apply u64_small; pose proof (co_counter _ _ _ (qu_client _ _ _ _ _ Hq)); unfold in_u64; lia|].
  split; [done|]. simpl in *. split_and!; [| |done].
  - rewrite Hm1. unfold from_storage. f_equal. rewrite <- Hlen. apply mem_read_write_same.
  - intros x Hx. rewrite Hm2 by (unfold outside, PAGE_SIZE, BASEPAGE_SIZE in *; lia).
    rewrite !(mem_write_outside _ _ _ _ PAGE_SIZE); try done; by rewrite ?Hlen, ?length_mem_read.
Qed.

Lemma read_page_miss fd vo dest size shm srv cli m t rs n c st :
  table_ok rs n (sim_remote_memory_blocks srv) m st -> st !! vo = None ->
  wp (rdma_read_page server_turn fd vo dest size)
     (fun ret s' => ret = - EFAULT /\ s' = stored shm srv cli t rs n (count_miss (count_read c)))
     (stored shm srv cli t rs n c).
Proof.
  intros Htab Hno. unfold rdma_read_page. wp_norm. cbn [rdma_initialized stored negb]. wp_norm.
  apply wp_upd_counters. wp_norm. wp_call find_region_spec as o s' [-> Hfind]; [done|].
  destruct o as [i|].
  - destruct Hfind as (r & Hi & Hu & Hv). exfalso. assert (Hs : is_Some (st !! vo)); [|rewrite Hno in Hs; by destruct Hs].
    eexists. apply (tb_contents _ _ _ _ _ Htab). eauto 10.
  - wp_norm. by apply wp_upd_counters.
Qed.

(** A page can be stored: it already is, or a slot of the table is free. *)
Definition has_slot (rs : list remote_region_t) (st : gmap Z (list byte)) (vo : Z) : Prop :=
  is_Some (st !! vo) \/ is_Some (first_index (fun r => negb (rr_in_use r)) 0 rs).

Lemma wp_fit_region usleep vo i r (Q : option nat -> storage_state -> Prop) shm srv cli t rs n c bs m st :
  table_ok rs n bs m st -> rs !! i = Some r -> rr_in_use r = true ->
  Q (Some i) (stored shm srv cli t rs n c) ->
  wp (fit_region usleep vo PAGE_SIZE i) Q (stored shm srv cli t rs n c).
Proof.
  intros Ht Hi Hu HQ. unfold fit_region. wp_norm. apply wp_region_at with r; [done|].
  destruct (tb_used _ _ _ _ _ Ht _ _ Hi Hu) as (_ & -> & _). rewrite Z.eqb_refl. simpl negb. cbv iota. by wp_norm.
Qed.

Lemma write_region_spec vo shm srv cli m t rs n c st :
  quiet id shm srv cli m -> request_id_counter cli < 2 ^ 64 - 2 ->
  table_ok rs n (sim_remote_memory_blocks srv) m st -> in_disk vo -> has_slot rs st vo ->
  wp (write_region server_turn vo PAGE_SIZE)
     (fun o s' => exists shm' srv' cli' rs' n' c', s' = stored shm' srv' cli' t rs' n' c' /\
        (cli' = cli \/ cli' = bump cli) /\ quiet id shm' srv' cli' m /\
        match o with
        | Some i => exists r st', rs' !! i = Some r /\ rr_in_use r = true /\ rr_virtual_offset r = vo /\
            table_ok rs' n' (sim_remote_memory_blocks srv') m st' /\
            (st' = st \/ st !! vo = None /\ exists pg, st' = <[vo := pg]> st)
        | None => table_ok rs' n' (sim_remote_memory_blocks srv') m st /\ st !! vo = None /\
            no_fit PAGE_SIZE (sim_remote_memory_blocks srv)
        end)
     (stored shm srv cli t rs n c).
Proof.
  intros Hq Hctr Htab Hd Hslot. unfold write_region. wp_norm.
  wp_call find_region_spec as o s' [-> Hfind]; [done|].
  destruct o as [i|].
  - destruct Hfind as (r & Hi & Hu & Hv). wp_norm. apply wp_upd_counters. wp_norm.
    eapply wp_fit_region; [done..|]. do 6 eexists. split; [reflexivity|]. split; [by left|]. split; [done|].
    exists r, st. split_and!; auto.
  - destruct Hslot as [[? Hs]|[i0 Hi0]]; [congruence|]. wp_norm.
    wp_call allocate_region_spec as o s' (shm' & srv' & rs' & n' & c' & -> & Hq' & Ho); [done..|].
    destruct o as [i|].
    + destruct Ho as (r & pg & Hi & Hu & Hv & Ht). wp_norm. apply wp_upd_counters. wp_norm.
      eapply wp_fit_region; [done..|]. do 6 eexists. split; [reflexivity|]. split; [by right|]. split; [done|].
      exists r, (<[vo := pg]> st). split_and!; eauto.
    + destruct Ho as [Ho Hfit]. wp_norm. do 6 eexists. split; [reflexivity|]. split; [by right|]. done.
Qed.

(** The part of [rdma_write_page] after its region is settled. *)
Lemma write_out_spec vo src i r shm srv cli m t rs n c st a mal :
  quiet id shm srv cli m -> request_id_counter cli < 2 ^ 64 - 2 -> storage_translator t ->
  table_ok rs n (sim_remote_memory_blocks srv) m st -> in_disk vo ->
  rs !! i = Some r -> rr_in_use r = true -> rr_virtual_offset r = vo ->
  p_malloc cli = a :: mal -> a <> 0 ->
  let bs := mem_read (p_mem cli) src page_bytes in
  wp (converted_page_data ← rdma (malloc Client);
      if converted_page_data =? 0 then mret (- ENOMEM)
      else
        bs ← rdma (proc_read Client src PAGE_SIZE);
        rdma (proc_write Client converted_page_data bs);;
        when (PAGE_SIZE =? PAGE_SIZE)
          (register_region vo PAGE_SIZE (rr_remote_addr r);;
           convert_pointers_for_remote_storage converted_page_data vo;;
           mret tt);;
        req_id ← rdma (rdma_submit_request Client RDMA_OP_WRITE converted_page_data (rr_remote_addr r) PAGE_SIZE
                         converted_page_data);
        if req_id =? 0 then mret (-1)
        else
          '(ret, _) ← rdma (rdma_wait_request server_turn Client req_id);
          if negb (ret =? 0) then mret (-1) else mret 0)
     (fun ret s' => ret = 0 /\ exists shm' srv' cli' t' m', s' = stored shm' srv' cli' t' rs n c /\
        quiet id shm' srv' cli' m' /\ storage_translator t' /\
        request_id_counter cli' = request_id_counter cli + 1 /\
        table_ok rs n (sim_remote_memory_blocks srv') m' (<[vo := to_storage bs]> st) /\
        (forall x, outside a PAGE_SIZE x -> p_mem cli' x = p_mem cli x))
     (stored shm srv cli t rs n c).
Proof.
  intros Hq Hctr Htr Htab Hd Hi Hu Hv Hmal Ha bs. wp_norm. apply wp_rdma. unfold malloc. wp_norm.
  rewrite proc_conn. simpl procs. rewrite Hmal. wp_norm. apply wp_upd_proc. wp_norm. simpl with_proc. fold_stored.
  replace (a =? 0) with false by lia. wp_norm. apply wp_rdma. unfold proc_read. wp_norm. rewrite proc_conn.
  simpl procs. fold_stored. apply wp_rdma. unfold proc_write. apply wp_upd_proc. simpl with_proc. fold_stored.
  change (Z.to_nat PAGE_SIZE) with page_bytes. change (p_mem (set_p_malloc mal cli)) with (p_mem cli). fold bs.
  assert (Hlen : length bs = page_bytes) by apply length_mem_read.
  destruct (tb_used _ _ _ _ _ Htab _ _ Hi Hu) as (_ & _ & _ & Hal).
  pose proof (page_in_remote _ _ _ (so_blocks _ _ _ (qu_server _ _ _ _ _ Hq)) Hal) as Hin.
  wp_norm. apply wp_when_true; [done|]. wp_norm.
  wp_call register_region_spec as ret0 s1 (t' & mal' & -> & Htr'); [done|done|apply Hin|]. wp_norm.
  wp_call convert_for_spec as ret1 s2 (m1 & -> & Hm1 & Hm2); [done|done|]. wp_norm. apply wp_rdma.
  set (cli2 := set_p_mem m1 _). assert (Hq2 : quiet id shm srv cli2 m).
  { by apply (quiet_mem shm srv cli m (fun _ => cli2)). }
  wp_call (write_spec id G key nid clk shm srv cli2 m) as v s3 [-> Hw]; [done|done|done|done|done|].
  pose proof (co_counter _ _ _ (qu_client _ _ _ _ _ Hq)) as Hc0.
  change (request_id_counter cli2) with (request_id_counter cli).
  replace (request_id_counter cli =? 0) with false by lia. wp_norm.
  apply (wp_zoom sys_lens). eapply wp_mono; [exact Hw|].
  intros [ret' ec] s4 ([= -> ->] & shm2 & srv2 & -> & Hq3 & Hblk). cbn [over sys_lens]. unfold set_sys. simpl. fold_stored.
  wp_norm. split; [done|]. do 5 eexists. split; [reflexivity|]. split; [exact Hq3|]. split; [done|].
  split; [simpl; apply u64_small; unfold in_u64; lia|]. split.
  - rewrite Hblk, <- Hv. change (Z.to_nat PAGE_SIZE) with page_bytes.
    assert (E : mem_read m1 a page_bytes = to_storage bs).
    { rewrite Hm1. unfold to_storage. f_equal. simpl. rewrite <- Hlen. apply mem_read_write_same. }
    simpl p_mem. rewrite E. eapply table_write; [done|apply Hq|done|done|]. by apply length_clear_if.
  - intros x Hx. simpl in Hm2 |- *. rewrite Hm2 by (unfold outside, PAGE_SIZE, BASEPAGE_SIZE in *; lia).
    apply (mem_write_outside _ _ _ _ PAGE_SIZE); [by rewrite Hlen|done].
Qed.

(** The two ways a write runs out of memory: the scratch buffer, whose
    failure leaves the region just allocated for a new page in the table, and
    the remote memory. *)
Definition no_memory (st : gmap Z (list byte)) (vo : Z) (bs : list mem_block_t) (a : Z) (st' : gmap Z (list byte)) : Prop :=
  (a = 0 /\ (st' = st \/ (st !! vo = None /\ exists pg, st' = <[vo := pg]> st))) \/
  (st !! vo = None /\ no_fit PAGE_SIZE bs /\ st' = st).

Lemma write_page_spec fd vo src shm srv cli m t rs n c st :
  quiet id shm srv cli m -> request_id_counter cli < 2 ^ 64 - 3 -> storage_translator t ->
  table_ok rs n (sim_remote_memory_blocks srv) m st -> in_disk vo -> has_slot rs st vo ->
  let bs := mem_read (p_mem cli) src page_bytes in
  let a := hd 0 (p_malloc cli) in
  wp (rdma_write_page server_turn fd vo src PAGE_SIZE)
     (fun ret s' => exists shm' srv' cli' t' rs' n' c' m' st', s' = stored shm' srv' cli' t' rs' n' c' /\
        quiet id shm' srv' cli' m' /\ storage_translator t' /\
        request_id_counter cli' <= request_id_counter cli + 2 /\
        table_ok rs' n' (sim_remote_memory_blocks srv') m' st' /\
        (forall x, outside a PAGE_SIZE x -> p_mem cli' x = p_mem cli x) /\
        ((ret = 0 /\ st' = <[vo := to_storage bs]> st) \/
         (ret = - ENOMEM /\ no_memory st vo (sim_remote_memory_blocks srv) a st')))
     (stored shm srv cli t rs n c).
Proof.
  intros Hq Hctr Htr Htab Hd Hslot bs a. unfold rdma_write_page. wp_norm. cbn [rdma_initialized stored negb]. wp_norm.
  apply wp_upd_counters. wp_norm.
  wp_call write_region_spec as o s' (shm1 & srv1 & cli1 & rs1 & n1 & c1 & -> & Hcli & Hq1 & Ho); [done|lia|done|done|done|].
  pose proof (co_counter _ _ _ (qu_client _ _ _ _ _ Hq)) as Hc0.
  assert (Hcli' : p_mem cli1 = p_mem cli /\ p_malloc cli1 = p_malloc cli /\
    request_id_counter cli1 <= request_id_counter cli + 1).
  { destruct Hcli as [->| ->]; simpl; split_and!; try done; [lia|]. rewrite u64_small by (unfold in_u64; lia). lia. }
  destruct Hcli' as (Hmem & Hmal & Hctr1).
  destruct o as [i|].
  2:{ wp_norm. do 9 eexists. split; [reflexivity|]. split; [exact Hq1|]. split; [done|]. split; [lia|]. split; [apply Ho|].
      split; [by intros x _; simpl; rewrite Hmem|]. right. split; [done|]. right. naive_solver. }
  destruct Ho as (r & st1 & Hi & Hu & Hv & Htab1 & Hst1). wp_norm. apply wp_time_now. wp_norm.
  apply wp_upd_region with r; [done|]. wp_norm. set (r' := set_dirty _ _).
  assert (Htab2 : table_ok (<[i := r']> rs1) n1 (sim_remote_memory_blocks srv1) m st1) by (by eapply table_touch).
  assert (Hi' : <[i:=r']> rs1 !! i = Some r') by (apply list_lookup_insert_eq; by eapply lookup_lt_Some).
  apply wp_region_at with r'; [done|].
  assert (Hmiss : a = 0 \/ p_malloc cli1 = a :: tl (p_malloc cli1) /\ a <> 0).
  { unfold a. rewrite Hmal. destruct (p_malloc cli) as [|x l]; simpl; [by left|].
    destruct (decide (x = 0)); [by left|by right]. }
  destruct Hmiss as [Ha0|[Hma Hane]].
  - wp_norm. apply wp_rdma. unfold malloc. wp_norm. rewrite proc_conn. simpl procs.
    assert (Hz : p_malloc cli1 = [] \/ exists l, p_malloc cli1 = 0 :: l).
    { unfold a in Ha0. rewrite Hmal. destruct (p_malloc cli) as [|x l]; [by left|]. simpl in Ha0. subst. eauto. }
    destruct Hz as [->|[l ->]]; wp_norm; [|apply wp_upd_proc; wp_norm; simpl with_proc; fold_stored];
      (do 9 eexists; split; [reflexivity|]; split; [first [exact Hq1|by apply (quiet_mem _ _ _ _ (set_p_malloc _))]|];
       split; [done|]; split; [simpl; lia|]; split; [exact Htab2|]; split; [by intros x _; simpl; rewrite Hmem|];
       right; split; [done|]; left; split; [done|]; destruct Hst1 as [->|[? [pg ->]]]; eauto 10).
  - assert (Hgo := write_out_spec vo src i r' shm1 srv1 cli1 m t _ n1 c1 st1 a (tl (p_malloc cli1)) Hq1
      ltac:(lia) Htr Htab2 Hd Hi' Hu Hv Hma Hane). cbv zeta in Hgo.
    eapply wp_mono; [exact Hgo|]. intros ret s2 (-> & shm2 & srv2 & cli2 & t2 & m2 & -> & Hq2 & Htr2 & Hc2 & Htab3 & Hout).
    do 9 eexists. split; [reflexivity|]. split; [exact Hq2|]. split; [done|]. split; [lia|]. split; [exact Htab3|].
    rewrite <- Hmem. split; [done|]. left. split; [done|]. unfold bs. rewrite <- Hmem.
    destruct Hst1 as [->|[? [pg ->]]]; [done|]. by rewrite insert_insert_eq.
Qed.
End storage_spec.

(** ** The storage as a map *)

(** [s] is a running storage that holds the pages [st]; [k] more operations
    cannot exhaust the request identifiers. *)
Definition storage_rep (k : Z) (s : storage_state) (st : gmap Z (list byte)) : Prop :=
  exists id G key nid clk pid tr tw shm srv cli m t rs n c,
    s = stored id G key nid clk pid tr tw shm srv cli t rs n c /\
    quiet id shm srv cli m /\ storage_translator t /\ 0 <= k /\ request_id_counter cli + 2 * k < 2 ^ 64 - 3 /\
    table_ok rs n (sim_remote_memory_blocks srv) m st.

(** The memory of the process, and the address its next [malloc] returns. *)
Definition client_mem (s : storage_state) : mem := p_mem (client (st_sys s)).
Definition next_malloc (s : storage_state) : Z := hd 0 (p_malloc (client (st_sys s))).

(** The blocks of the remote memory. *)
Definition remote_blocks (s : storage_state) : list mem_block_t := sim_remote_memory_blocks (server (st_sys s)).

Lemma full_table_size rs n bs m st :
  table_ok rs n bs m st -> first_index (fun r => negb (rr_in_use r)) 0 rs = None ->
  (Z.to_nat MAX_REMOTE_REGIONS <= size st)%nat.
Proof.
  intros [Hlen Hnum Hused Hkeys Hcont] Hnone. rewrite <- Hlen, <- (length_fmap rr_virtual_offset).
  assert (Huse : forall r, r ∈ rs -> rr_in_use r = true).
  { intros r Hr. pose proof (first_index_None _ _ _ _ Hnone Hr) as Hf. simpl in Hf. by destruct (rr_in_use r). }
  assert (Hnd : NoDup (rr_virtual_offset <$> rs)).
  { apply NoDup_alt. intros i j x Hi Hj. rewrite list_lookup_fmap in Hi, Hj.
    destruct (rs !! i) as [ri|] eqn:Ei; [|done]. destruct (rs !! j) as [rj|] eqn:Ej; [|done]. simpl in Hi, Hj.
    eapply Hkeys; eauto using list_elem_of_lookup_2. left. congruence. }
  rewrite <- (size_list_to_set (C := gset Z)) by done. rewrite <- size_dom. apply subseteq_size.
  intros vo Hvo. apply elem_of_list_to_set, list_elem_of_fmap in Hvo as (r & -> & Hr).
  apply list_elem_of_lookup in Hr as [i Hi]. apply elem_of_dom. eexists. apply Hcont.
  exists i, r. split_and!; eauto. eapply Huse, list_elem_of_lookup_2, Hi.
Qed.

Lemma table_has_slot rs n bs m st vo :
  table_ok rs n bs m st -> is_Some (st !! vo) \/ (size st < Z.to_nat MAX_REMOTE_REGIONS)%nat -> has_slot rs st vo.
Proof.
  intros Ht [?|Hs]; [by left|]. right. destruct (first_index _ 0 rs) as [i|] eqn:E; [by exists i|].
  pose proof (full_table_size _ _ _ _ _ Ht E). lia.
Qed.

(** The storage manager around one call of the backend. *)
Lemma wp_manager (m : M storage_state Z) (f : storage_state -> storage_state) (Q : Z -> storage_state -> Prop) s :
  wp m (fun ret s' => Q (if negb (ret =? 0) then -1 else 0) s') (f s) ->
  wp (modify f;; ret ← m; mret (if negb (ret =? 0) then -1 else 0)) Q s.
Proof. intros H. wp_norm. eapply wp_mono; [exact H|]. intros ret s' HQ. by wp_norm. Qed.

Lemma rep_write k s st fd vo src :
  storage_rep (k + 1) s st -> 0 <= k -> in_disk vo ->
  is_Some (st !! vo) \/ (size st < Z.to_nat MAX_REMOTE_REGIONS)%nat ->
  wp (write_page server_turn fd vo src PAGE_SIZE)
     (fun ret s' => exists st', storage_rep k s' st' /\
        (forall x, outside (next_malloc s) PAGE_SIZE x -> client_mem s' x = client_mem s x) /\
        ((ret = 0 /\ st' = <[vo := to_storage (mem_read (client_mem s) src page_bytes)]> st) \/
         (ret = -1 /\ no_memory st vo (remote_blocks s) (next_malloc s) st')))
     s.
Proof.
  intros (id & G & key & nid & clk & pid & tr & tw & shm & srv & cli & m & t & rs & n & c & -> & Hq & Htr & _ & Hctr & Htab) Hk Hd Hroom.
  unfold write_page. apply wp_manager. eapply wp_mono.
  - apply (write_page_spec id G key nid clk pid tr (incr tw) fd vo src shm srv cli m t rs n c st);
      [done|lia|done|done|done|by eapply table_has_slot].
  - intros ret s' (shm' & srv' & cli' & t' & rs' & n' & c' & m' & st' & -> & Hq' & Htr' & Hc' & Htab' & Hmem & Hres).
    exists st'. split.
    + do 16 eexists. split; [reflexivity|]. split; [exact Hq'|]. split; [done|]. split; [done|]. split; [lia|done].
    + split; [exact Hmem|]. destruct Hres as [[-> ->]|[-> Hst]]; [by left|by right].
Qed.

Lemma rep_read k s st fd vo dest :
  storage_rep (k + 1) s st -> 0 <= k -> dest <> 0 ->
  wp (read_page server_turn fd vo dest PAGE_SIZE)
     (fun ret s' => storage_rep k s' st /\
        match st !! vo with
        | Some pg => ret = 0 /\ mem_read (client_mem s') dest page_bytes = from_storage pg /\
            (forall x, outside dest PAGE_SIZE x -> client_mem s' x = client_mem s x) /\
            next_malloc s' = next_malloc s
        | None => ret = -1 /\ client_mem s' = client_mem s
        end)
     s.
Proof.
  intros (id & G & key & nid & clk & pid & tr & tw & shm & srv & cli & m & t & rs & n & c & -> & Hq & Htr & _ & Hctr & Htab) Hk Hd.
  unfold read_page. apply wp_manager. destruct (st !! vo) as [pg|] eqn:Evo.
  - eapply wp_mono.
    + apply (read_page_hit id G key nid clk pid (incr tr) tw fd vo dest shm srv cli m t rs n c st pg); try done. lia.
    + intros ret s' (-> & shm' & cli' & rs' & c' & -> & Hq' & Hc' & Htab' & Hpg & Hout & Hmal). split.
      * do 16 eexists. split; [reflexivity|]. split; [exact Hq'|]. split; [done|]. split; [done|]. split; [lia|done].
      * split; [done|]. split; [exact Hpg|]. split; [exact Hout|]. unfold next_malloc. simpl. by rewrite Hmal.
  - eapply wp_mono.
    + by apply (read_page_miss id G key nid clk pid (incr tr) tw fd vo dest PAGE_SIZE shm srv cli m t rs n c st).
    + intros ret s' [-> ->]. split; [|done].
      do 16 eexists. split; [reflexivity|]. split; [exact Hq|]. split; [done|]. split; [done|]. split; [lia|done].
Qed.

(** C36: while it has room the storage is a map from virtual offsets to
    pages.  Let a page be written at an offset that is already stored, or while
    fewer than [MAX_REMOTE_REGIONS] pages are (a write that finds the table
    full takes another page's region, and is not covered), and let the
    client's request counter not be at its end.  A write that returns 0
    replaces exactly the page at its offset by the bytes at the source with an
    outgoing pointer cleared.  It fails, with -1, only when its scratch buffer
    cannot be allocated or a page not yet stored finds no free block of the
    remote memory, and then leaves every other page alone (and its own, if
    that was stored).  Only the scratch buffer changes in process memory. *)
Theorem write_page_refines (k : Z) (s : storage_state) (st : gmap Z (list byte)) (fd vo src : Z) :
  storage_rep (k + 1) s st -> 0 <= k -> in_disk vo ->
  is_Some (st !! vo) \/ (size st < Z.to_nat MAX_REMOTE_REGIONS)%nat ->
  wp (write_page server_turn fd vo src PAGE_SIZE)
     (fun ret s' => exists st', storage_rep k s' st' /\
        (forall x, outside (next_malloc s) PAGE_SIZE x -> client_mem s' x = client_mem s x) /\
        ((ret = 0 /\ st' = <[vo := to_storage (mem_read (client_mem s) src page_bytes)]> st) \/
         (ret = -1 /\ (next_malloc s = 0 \/ st !! vo = None /\ no_fit PAGE_SIZE (remote_blocks s)) /\
          delete vo st' = delete vo st /\ (is_Some (st !! vo) -> st' = st))))
     s.
Proof.
  intros Hr Hk Hd Hroom. wp_call rep_write as ret s' (st' & Hr' & Hm & Hres); [done..|].
  exists st'. split; [done|]. split; [done|]. destruct Hres as [?|[-> Hno]]; [by left|]. right. split; [done|].
  destruct Hno as [[Ha [->|(Hn & pg & ->)]]|(Hn & Hfit & ->)]; [by auto| |by auto]. split; [by left|].
  split; [by rewrite delete_insert_eq|]. intros [? ?]. congruence.
Qed.

(** C37: a page read changes no stored page; for a stored offset it returns
    0 and puts the stored bytes, with an incoming pointer cleared, at the
    destination and nowhere else; for any other offset it returns -1 and
    leaves the process memory as it is. *)
Theorem read_page_refines (k : Z) (s : storage_state) (st : gmap Z (list byte)) (fd vo dest : Z) :
  storage_rep (k + 1) s st -> 0 <= k -> dest <> 0 ->
  wp (read_page server_turn fd vo dest PAGE_SIZE)
     (fun ret s' => storage_rep k s' st /\
        match st !! vo with
        | Some pg => ret = 0 /\ mem_read (client_mem s') dest page_bytes = from_storage pg /\
            (forall x, outside dest PAGE_SIZE x -> client_mem s' x = client_mem s x)
        | None => ret = -1 /\ client_mem s' = client_mem s
        end)
     s.
Proof.
  intros Hr Hk Hd. wp_call rep_read as ret s' [Hr' Hres]; [done..|]. split; [done|].
  destruct (st !! vo); naive_solver.
Qed.

(** ** Swapping a page out and in *)

Lemma to_then_from bs :
  length bs = page_bytes -> from_storage (to_storage bs) = clear_if (fun w => local_range w || remote_range w) bs.
Proof.
  intros Hlen. unfold from_storage, to_storage, clear_if.
  destruct (local_range (load_u64 bs last_word)) eqn:El; simpl; [|done].
  rewrite load_store_u64; [done| |done]. rewrite Hlen. vm_compute. lia.
Qed.

Lemma size_insert_le (st : gmap Z (list byte)) vo pg : (size (<[vo := pg]> st) <= size st + 1)%nat.
Proof. destruct (st !! vo) eqn:E; [rewrite map_size_insert_Some by eauto|rewrite map_size_insert_None by done]; lia. Qed.

(** A page is written, another one is written, and the first is read. *)
Definition swap_out_in (fd vo1 src1 vo2 src2 dest : Z) : M storage_state (Z * Z * Z) :=
  w1 ← write_page server_turn fd vo1 src1 PAGE_SIZE;
  w2 ← write_page server_turn fd vo2 src2 PAGE_SIZE;
  r ← read_page server_turn fd vo1 dest PAGE_SIZE;
  mret (w1, w2, r).

(** Swapping out and in is exact up to one word.  With a
    scratch buffer and room in the remote memory, the write succeeds and the
    page is read back unchanged, whatever other page was
    written in between, except that a last word that lies in the local
    heap's range (0x7f0000000000 to 0x7fffffffffffffff) or in the remote
    heap's range (0x2000000000 to 0x3fffffffff) comes back as 0. *)
Theorem swap_roundtrip (k : Z) (s : storage_state) (st : gmap Z (list byte)) (fd vo1 src1 vo2 src2 dest : Z) :
  storage_rep (k + 3) s st -> 0 <= k -> in_disk vo1 -> in_disk vo2 -> vo1 <> vo2 -> dest <> 0 ->
  (size st + 1 < Z.to_nat MAX_REMOTE_REGIONS)%nat ->
  next_malloc s <> 0 -> is_Some (st !! vo1) \/ ~ no_fit PAGE_SIZE (remote_blocks s) ->
  wp (swap_out_in fd vo1 src1 vo2 src2 dest)
     (fun '(w1, w2, r) s' => w1 = 0 /\ r = 0 /\
        mem_read (client_mem s') dest page_bytes =
          clear_if (fun w => local_range w || remote_range w) (mem_read (client_mem s) src1 page_bytes))
     s.
Proof.
  intros Hr Hk Hd1 Hd2 Hne Hdest Hroom Hmal Hfit. unfold swap_out_in. wp_norm.
  wp_call (rep_write (k + 2)) as w1 s1 (st1 & Hr1 & Hm1 & Hw1);
    [by replace (k + 2 + 1) with (k + 3) by lia|lia|done|right; lia|]. wp_norm.
  destruct Hw1 as [[-> ->]|[_ [[? _]|(Hnone & Hno & _)]]]; [|done|by destruct Hfit as [[? ?]|?]; [congruence|]].
  set (bs := mem_read (client_mem s) src1 page_bytes) in *.
  wp_call (rep_write (k + 1)) as w2 s2 (st2 & Hr2 & Hm2 & Hw2);
    [by replace (k + 1 + 1) with (k + 2) by lia|lia|done|right; pose proof (size_insert_le st vo1 (to_storage bs)); lia|].
  wp_norm. wp_call (rep_read k) as r s3 [Hr3 Hres]; [done|done|done|]. wp_norm.
  assert (Hst2 : st2 !! vo1 = Some (to_storage bs)).
  { destruct Hw2 as [[_ ->]|[_ [[_ [->|(_&pg&->)]]|(_&_&->)]]]; rewrite ?(lookup_insert_ne _ vo2) by done; apply lookup_insert_eq. }
  rewrite Hst2 in Hres. destruct Hres as (-> & -> & _). split; [done|]. split; [done|].
  apply to_then_from, length_mem_read.
Qed.

(** ** Starting the storage *)

Section init_request.
Context (id : Z) (G : gmap Z rdma_shm_t) (key : option Z) (nid : Z) (clk : Z * Z).

Lemma init_request_spec shm srv cli m :
  quiet id shm srv cli m -> request_id_counter cli < 2 ^ 64 - 2 ->
  wp (rdma_submit_request Client RDMA_OP_INIT 0 0 0 0)
     (fun v s1 => v = request_id_counter cli /\
        wp (rdma_wait_request server_turn Client v)
           (fun res s2 => res = (0, 0) /\ exists shm2, s2 = RdmaSim.conn id G key nid clk shm2 srv (bump cli) /\
              quiet id shm2 srv (bump cli) m) s1)
     (RdmaSim.conn id G key nid clk shm srv cli).
Proof.
  intros Hq Hctr. eapply wp_mono; [by apply (request_spec id G key nid clk _ _ _ m)|].
  change (carries_data RDMA_OP_INIT 0 0) with false. cbv zeta. intros v s1 (-> & -> & Hwait).
  split; [done|]. apply Hwait.
  intros e shm1 srv2 r' Hs Hr' Hring2 Hok2 Hco2 Hslot _. destruct Hq as [Hring Hok Hsd Hco Hm].
  set (r := submitted _ _ _ _ _ _ _) in *.
  inversion Hs as [| | |[?|?]|? Ho|? Ho|? ? ? ? Ho|? ? ? Ho| |]; subst; try done; simpl in *.
  rewrite list_lookup_insert_eq in Hr' by (rewrite length_insert, (ring_requests _ _ Hring);
    pose proof (ring_head _ _ Hring); lia). simplify_eq.
  unfold settle, finish_request. simpl. wp_norm. split; [done|]. eexists. split; [done|]. by constructor.
Qed.
End init_request.

(** The translator after [address_translator_init]. *)
Definition translator_up : address_translator_t :=
  mk_translator [] 0x7f0000000000 0x7fffffffffffffff 0x2000000000 0x3fffffffff true.

(** A process whose storage was never initialised, and its translator in the
    state [t]. *)
Definition storage_fresh (t : address_translator_t) (x : rdma_sys) : storage_state :=
  mk_storage x t false (-1) [] 0 (mk_counters 0 0 0 0 0 0) 0 0.
Definition storage0 (x : rdma_sys) : storage_state := storage_fresh translator_up x.

Definition empty_regions : list remote_region_t := replicate (Z.to_nat MAX_REMOTE_REGIONS) zero_region.

Lemma empty_table bs m : table_ok (replicate (Z.to_nat MAX_REMOTE_REGIONS) zero_region) 0 bs m ∅.
Proof.
  constructor.
  - apply length_replicate.
  - unfold MAX_REMOTE_REGIONS. lia.
  - by intros i r [-> _]%lookup_replicate.
  - by intros i j ri rj [-> _]%lookup_replicate.
  - intros vo pg. rewrite lookup_empty. split; [done|]. by intros (i & r & [-> _]%lookup_replicate & ? & _).
Qed.

Lemma rdma_init_spec (spawn : M rdma_sys (option Z)) (alive : Z -> M rdma_sys bool) (stop : Z -> M rdma_sys unit)
    sm cm sml cml clk t :
  wp (rdma_storage_init server_turn spawn alive stop)
     (fun ret s' => ret = 0 /\ exists shm2,
        s' = stored 0 ∅ (Some 0) 1 clk (-1) 0 0 shm2 (server_up sm sml) (bump (client_up cm cml)) t empty_regions 0
               (mk_counters 0 0 0 0 0 0) /\
        quiet 0 shm2 (server_up sm sml) (bump (client_up cm cml)) (fun _ => Byte.x00))
     (storage_fresh t (RdmaSim.conn 0 ∅ (Some 0) 1 clk shm_up (server_up sm sml) (proc0 cm cml))).
Proof.
  unfold rdma_storage_init. wp_norm. cbn [rdma_initialized storage_fresh].
  wp_norm. apply (wp_zoom sys_lens).
  wp_call client_init_spec as r s' [-> ->]. simpl (0 =? 0). cbv iota. wp_norm. simpl (negb _). cbv iota. wp_norm.
  apply (wp_zoom sys_lens). pose proof (shm_up_quiet sm sml cm cml) as Hq.
  wp_call (init_request_spec 0 ∅ (Some 0) 1 clk _ _ _ _ Hq) as v s1 [-> Hw]; [simpl; lia|].
  cbn [init_retry]. wp_norm. apply (wp_zoom sys_lens). eapply wp_mono; [exact Hw|].
  intros [ret ec] s2 ([= -> ->] & shm2 & -> & Hq2). simpl (0 =? 0). cbv iota. wp_norm. simpl (negb _). cbv iota. wp_norm.
  split; [done|]. by exists shm2.
Qed.

Lemma fresh_storage_rep k clk shm sm sml cm cml t :
  quiet 0 shm (server_up sm sml) (bump (client_up cm cml)) (fun _ => Byte.x00) -> storage_translator t -> 0 <= k < 2 ^ 62 ->
  storage_rep k (stored 0 ∅ (Some 0) 1 clk (-1) 0 0 shm (server_up sm sml) (bump (client_up cm cml)) t empty_regions 0
    (mk_counters 0 0 0 0 0 0)) ∅.
Proof.
  intros Hq Ht Hk. do 16 eexists. split; [reflexivity|]. split; [exact Hq|]. split; [done|]. split; [lia|].
  split; [change (request_id_counter (bump (client_up cm cml))) with 2; lia|]. apply empty_table.
Qed.

Lemma translator_up_storage : storage_translator translator_up.
Proof. by constructor. Qed.

(** In a process that starts next to an initialised server,
    [storage_init] attaches to it, completes the handshake request, and
    returns 0 with a storage that holds no page. *)
Theorem storage_starts (spawn : M rdma_sys (option Z)) (alive : Z -> M rdma_sys bool) (stop : Z -> M rdma_sys unit)
    sm cm sml cml clk (k : Z) :
  0 <= k < 2 ^ 62 ->
  wp (storage_init server_turn spawn alive stop)
     (fun ret s' => ret = 0 /\ storage_rep k s' ∅)
     (storage0 (RdmaSim.conn 0 ∅ (Some 0) 1 clk shm_up (server_up sm sml) (proc0 cm cml))).
Proof.
  intros Hk. unfold storage_init. wp_norm. eapply wp_mono; [apply rdma_init_spec|].
  intros r s' (-> & shm2 & -> & Hq). simpl (0 =? 0). simpl (negb _). cbv iota. wp_norm. split; [done|].
  by apply (fresh_storage_rep k clk shm2 sm sml cm cml translator_up Hq translator_up_storage).
Qed.

(** ** Instances *)

(** A storage without pages, in a process with memory [m] whose [malloc]
    returns the addresses [ml]. *)
Definition demo_store (m : mem) (ml : list Z) : storage_state :=
  stored 0 ∅ (Some 0) 1 (0, 0) (-1) 0 0 shm_up (server_up (fun _ => Byte.x00) []) (client_up m ml) translator_up
    (replicate (Z.to_nat MAX_REMOTE_REGIONS) zero_region) 0 (mk_counters 0 0 0 0 0 0).

Lemma demo_store_rep m ml k : 0 <= k < 2 ^ 62 -> storage_rep k (demo_store m ml) ∅.
Proof.
  intros Hk. do 16 eexists. split; [reflexivity|]. split; [apply shm_up_quiet|]. split; [by constructor|].
  split; [lia|]. split; [change (request_id_counter _) with 1; lia|]. apply empty_table.
Qed.

(** A page at 4096 that ends in the word 0x7f1234567000. *)
Definition demo_page_mem : mem := mem_write (fun _ => Byte.x00) (4096 + Z.of_nat last_word) (le_split 8 0x7f1234567000).

Lemma demo_room m ml : ~ no_fit PAGE_SIZE (remote_blocks (demo_store m ml)).
Proof. intros Hf. apply (alloc_block_None true) in Hf. by vm_compute in Hf. Qed.

Lemma write_page_refines_witness :
  wp (write_page server_turn 0 4096 8192 PAGE_SIZE)
     (fun ret s' => ret = 0 /\ exists pg, storage_rep 0 s' {[4096 := pg]})
     (demo_store (fun _ => Byte.x00) [65536]).
Proof.
  eapply wp_mono.
  - apply (write_page_refines 0 _ ∅); [apply demo_store_rep; lia|lia|split; [lia|done]|].
    right. rewrite map_size_empty. unfold MAX_REMOTE_REGIONS. lia.
  - intros ret s' (st' & Hr & _ & [[-> ->]|(_ & [?|[_ Hno]] & _)]); [|done|by apply demo_room in Hno].
    split; [done|]. by eexists.
Defined.

Lemma read_page_refines_witness :
  wp (read_page server_turn 0 4096 8192 PAGE_SIZE)
     (fun ret s' => ret = -1 /\ storage_rep 0 s' ∅)
     (demo_store (fun _ => Byte.x00) [65536]).
Proof.
  eapply wp_mono.
  - apply (read_page_refines 0 _ ∅); [apply demo_store_rep; lia|lia|done].
  - intros ret s' [Hr Hres]. rewrite lookup_empty in Hres. by destruct Hres.
Defined.

(** The word at the end of the page is lost. *)
Lemma swap_roundtrip_witness :
  wp (swap_out_in 0 4096 4096 8192 16384 32768)
     (fun _ s' => mem_read (client_mem s') 32768 page_bytes <> mem_read demo_page_mem 4096 page_bytes)
     (demo_store demo_page_mem [65536; 131072]).
Proof.
  eapply wp_mono.
  - apply (swap_roundtrip 0 _ ∅); [apply demo_store_rep; lia|lia|split; [lia|done]|split; [lia|done]|lia|lia| |done|].
    + rewrite map_size_empty. unfold MAX_REMOTE_REGIONS. lia.
    + right. apply demo_room.
  - intros [[w1 w2] r] s' (_ & _ & ->). intros E. apply (f_equal (fun bs => load_u64 bs last_word)) in E.
    by vm_compute in E.
Defined.

Lemma storage_starts_witness :
  wp (storage_init server_turn (mret None) (fun _ => mret false) (fun _ => mret tt))
     (fun ret s' => ret = 0 /\ storage_rep 5 s' ∅)
     (storage0 (RdmaSim.conn 0 ∅ (Some 0) 1 (0, 0) shm_up (server_up (fun _ => Byte.x00) []) (proc0 (fun _ => Byte.x00) []))).
Proof. apply (storage_starts _ _ _ _ _ _ _ (0, 0) 5). lia. Defined.
