(* ===== verification/Machine.v ===== *)
(** The state of the paging process: everything the fault handlers of
    [src/src/core.c], the pointer prefetcher and the LRU policy share, and
    the kernel they call.

    A machine is the storage ([storage_state], which contains the memory of
    the process), the page descriptors and lists ([fifo_state]), the page
    hash, the kernel's own state and the global variables.  The kernel is a
    type class: its operations are parameters, and [KernelLaws] states the
    documented behaviour the theorems rely on. *)

From S2P Require Import Prelude UserPage AddressTranslation Fifo RdmaAlloc RdmaSim StorageRdma.

Local Open Scope Z_scope.

(** ** Global variables *)

(** The [uint64_t], [int] and pointer globals of [core.c], thread-locals of
    the one running thread included. *)
Inductive var : Type :=
  | dramsize | disksize | diskfd
  | mem_mmaped | mem_allocated | pages_allocated | pages_freed
  | first_faults_handled | major_faults_handled
  | migrations_up | migrations_down | bytes_migrated | migration_waits
  | main_mmap | buffer_space | page_cache | prefetch_buffer
  | prev_fault_1 | prev_fault_2 | prev_fault_global_1 | prev_fault_global_2
  | safe_to_free | main_vma_va | main_vma_size | main_vma_priority | block_head.

(** The [bool] globals, those of the policy included. *)
Inductive flag : Type :=
  | is_init | internal_call | buffer_allocated | prefetch_buffer_allocated
  | kswapd_running | shrinkage_running | in_kswapd.

#[export] Instance var_eq_dec : EqDecision var.
Proof. solve_decision. Defined.
#[export] Instance flag_eq_dec : EqDecision flag.
Proof. solve_decision. Defined.

Definition update {X Y : Type} `{EqDecision X} (f : X -> Y) (x : X) (y : Y) : X -> Y :=
  fun z => if decide (z = x) then y else f z.

Lemma update_eq {X Y} `{EqDecision X} (f : X -> Y) x y : update f x y x = y.
Proof. unfold update. by rewrite decide_True. Qed.

Lemma update_ne {X Y} `{EqDecision X} (f : X -> Y) x y z : z <> x -> update f x y z = f z.
Proof. intros H. unfold update. by rewrite decide_False. Qed.

(** ** The prefetcher's variables *)

Inductive prefetch_status_e : Type :=
  | PREFETCH_NONE | PREFETCH_REQUESTED | PREFETCH_IN_PROGRESS | PREFETCH_COMPLETED | PREFETCH_FAILED.

#[export] Instance prefetch_status_eq_dec : EqDecision prefetch_status_e.
Proof. solve_decision. Defined.

Record prefetch_record_t : Type := mk_record {
  source_va : Z;
  target_va : Z;
  pointer_value : Z;
  pr_remote_addr : Z;
  rdma_request_id : Z;
  pr_status : prefetch_status_e;
  pr_timestamp : Z;
}.

#[export] Instance prefetch_record_eq_dec : EqDecision prefetch_record_t.
Proof. solve_decision. Defined.

Record prefetch_stats_t : Type := mk_stats {
  total_attempts : Z;
  successful_prefetch : Z;
  failed_prefetch : Z;
  cache_hits : Z;
  invalid_pointers : Z;
  pointer_validations : Z;
}.

(** The list [prefetch_records_head], first node first, and the other
    [static]s of [pointer_prefetch.c]. *)
Record prefetch_vars : Type := mk_prefetch {
  prefetch_records : list prefetch_record_t;
  prefetch_stats_g : prefetch_stats_t;
  prefetch_initialized : bool;
  max_prefetch_distance_g : Z;
  pointer_validation_threshold_g : Z;
}.

(** ** The kernel *)

(** What the code calls of the kernel, over the kernel's state and the
    memory of the process.  A [bool] result is false for -1; [libc_mmap]
    returns [None] for [MAP_FAILED]; a flag query returns the two result
    words. *)
Class Kernel (K : Type) : Type := {
  uffdio_copy : Z -> Z -> Z -> M (K * mem) bool;               (* dst, src, len *)
  uffdio_register : Z -> Z -> M (K * mem) bool;                (* start, len *)
  uffdio_writeprotect : Z -> Z -> bool -> M (K * mem) bool;
  uffdio_get_flag : Z -> Z -> Z -> M (K * mem) (option (Z * Z));  (* va, flag1, flag2 *)
  uffdio_clear_flag : Z -> Z -> Z -> M (K * mem) bool;
  madvise_dontneed : Z -> Z -> M (K * mem) bool;
  libc_mmap : Z -> Z -> Z -> Z -> Z -> M (K * mem) (option Z);  (* addr, length, prot, flags, offset *)
  libc_munmap : Z -> Z -> M (K * mem) Z;
}.

(** The constants of [mmap] in the Linux ABI. *)
Definition PROT_READ : Z := 1.
Definition PROT_WRITE : Z := 2.
Definition MAP_SHARED : Z := 0x1.
Definition MAP_PRIVATE : Z := 0x2.
Definition MAP_ANONYMOUS : Z := 0x20.
Definition MAP_NORESERVE : Z := 0x4000.
Definition MAP_POPULATE : Z := 0x8000.
Definition MAP_STACK : Z := 0x20000.
Definition MAP_HUGETLB : Z := 0x40000.

(** [flags & f] is all of [f], [flags |= f] and [flags &= ~f]. *)
Definition has_flag (flags f : Z) : bool := Z.land flags f =? f.
Definition add_flag (flags f : Z) : Z := Z.lor flags f.
Definition drop_flag (flags f : Z) : Z := Z.ldiff flags f.

(** ** The machine *)

Section machine.
Context {K : Type}.

Record machine : Type := mk_machine {
  m_store : storage_state;
  m_fifo : fifo_state;
  m_hash : gmap Z ptr;
  m_next : ptr;
  m_kern : K;
  m_pf : prefetch_vars;
  vars : var -> Z;
  flags : flag -> bool;
}.

Definition set_store x s := mk_machine x (m_fifo s) (m_hash s) (m_next s) (m_kern s) (m_pf s) (vars s) (flags s).
Definition set_fifo x s := mk_machine (m_store s) x (m_hash s) (m_next s) (m_kern s) (m_pf s) (vars s) (flags s).
Definition set_hash x s := mk_machine (m_store s) (m_fifo s) x (m_next s) (m_kern s) (m_pf s) (vars s) (flags s).
Definition set_next_ptr x s := mk_machine (m_store s) (m_fifo s) (m_hash s) x (m_kern s) (m_pf s) (vars s) (flags s).
Definition set_kern x s := mk_machine (m_store s) (m_fifo s) (m_hash s) (m_next s) x (m_pf s) (vars s) (flags s).
Definition set_pf x s := mk_machine (m_store s) (m_fifo s) (m_hash s) (m_next s) (m_kern s) x (vars s) (flags s).
Definition set_vars x s := mk_machine (m_store s) (m_fifo s) (m_hash s) (m_next s) (m_kern s) (m_pf s) x (flags s).
Definition set_flags x s := mk_machine (m_store s) (m_fifo s) (m_hash s) (m_next s) (m_kern s) (m_pf s) (vars s) x.

Definition store_lens : lens machine storage_state := Lens m_store set_store.
Definition fifo_lens : lens machine fifo_state := Lens m_fifo set_fifo.

(** The memory of the process, inside the fabric's state. *)
Definition the_mem (s : machine) : mem := p_mem (client (st_sys (m_store s))).
Definition set_the_mem (x : mem) (s : machine) : machine :=
  let st := m_store s in
  let y := st_sys st in
  set_store (set_sys (mk_sys (segs y) (shm_key y) (next_shmid y) (server y) (set_p_mem x (client y)) (clock y)) st) s.

Definition kern_lens : lens machine (K * mem) :=
  Lens (fun s => (m_kern s, the_mem s)) (fun x s => set_the_mem x.2 (set_kern x.1 s)).

(** A call of the storage, of a list operation, of the kernel. *)
Definition store {A} (m : M storage_state A) : M machine A := zoom store_lens m.
Definition fifo {A} (m : M fifo_state A) : M machine A := zoom fifo_lens m.
Definition kern {A} (m : M (K * mem) A) : M machine A := zoom kern_lens m.

Definition get_var (x : var) : M machine Z := gets (fun s => vars s x).
Definition set_var (x : var) (z : Z) : M machine unit := modify (fun s => set_vars (update (vars s) x z) s).
(** [x += z] on [uint64_t]. *)
Definition add_var (x : var) (z : Z) : M machine unit :=
  modify (fun s => set_vars (update (vars s) x (u64 (vars s x + z))) s).
Definition get_flag (x : flag) : M machine bool := gets (fun s => flags s x).
Definition set_flag (x : flag) (b : bool) : M machine unit := modify (fun s => set_flags (update (flags s) x b) s).

(** A field of a page descriptor, and an assignment to one. *)
Definition page_get (p : ptr) : M machine user_page := fifo (page_at p).
Definition page_set (p : ptr) (f : user_page -> user_page) : M machine unit := fifo (upd_page p f).

Lemma set_fifo_same s : set_fifo (m_fifo s) s = s.
Proof. by destruct s. Qed.

Lemma wp_page_get p pg (Q : user_page -> machine -> Prop) s :
  pages (m_fifo s) !! p = Some pg -> Q pg s -> wp (page_get p) Q s.
Proof.
  intros Hp HQ. apply (wp_zoom fifo_lens). apply wp_page_at with pg; [done|]. simpl. by rewrite set_fifo_same.
Qed.

(** [calloc(1, sizeof(struct user_page))]. *)
Definition calloc_page : M machine ptr :=
  p ← gets m_next;
  modify (fun s => set_next_ptr (Pos.succ p) (set_fifo (mk_fifo_state (<[p := page0]> (pages (m_fifo s))) (lists (m_fifo s))) s));;
  mret p.

(** ** The page hash *)

(** [HASH_ADD] after the check that the address is not in the table. *)
Definition add_page (p : ptr) : M machine unit :=
  pg ← page_get p;
  s ← get;
  c_assert (bool_decide (m_hash s !! va pg = None));;
  modify (set_hash (<[va pg := p]> (m_hash s))).

(** [HASH_DEL] unlinks the descriptor itself, whatever its key. *)
Definition remove_page (p : ptr) : M machine unit :=
  modify (fun s => set_hash (base.filter (fun x : Z * ptr => x.2 <> p) (m_hash s)) s).

Definition find_page (va : Z) : M machine (option ptr) := gets (fun s => m_hash s !! va).

Definition get_user_page (va : Z) : M machine (option ptr) := find_page va.
End machine.
Arguments machine K : clear implicits.

(** ** Observability: the accessed and dirty bits *)

Definition PT_ACCESSED_FLAG : Z := 0x20.
Definition PT_DIRTY_FLAG : Z := 0x40.

Section observability.
Context {K : Type} `{Kernel K}.

(** [pt_clear_bits], [pt_clear_accessed_flag] and [pt_clear_dirty_flag] are
    one ioctl on different flags. *)
Definition pt_clear (flag1 flag2 : Z) (p : ptr) : M (machine K) unit :=
  pg ← page_get p;
  c_assert (va pg mod PAGE_SIZE =? 0);;
  ok ← kern (uffdio_clear_flag (va pg) flag1 flag2);
  c_assert ok.

Definition pt_clear_bits (p : ptr) : M (machine K) unit := pt_clear PT_ACCESSED_FLAG PT_DIRTY_FLAG p.
Definition pt_clear_accessed_flag (p : ptr) : M (machine K) unit := pt_clear PT_ACCESSED_FLAG 0 p.
Definition pt_clear_dirty_flag (p : ptr) : M (machine K) unit := pt_clear PT_DIRTY_FLAG 0 p.

Definition pt_get_bits (p : ptr) : M (machine K) Z :=
  pg ← page_get p;
  c_assert (va pg mod PAGE_SIZE =? 0);;
  r ← kern (uffdio_get_flag (va pg) PT_ACCESSED_FLAG PT_DIRTY_FLAG);
  match r with
  | Some (res1, res2) => mret (Z.lor res1 res2)
  | None => fail AssertFail
  end.
End observability.

(** ** What the kernel promises *)

(** [registered k v]: the page at [v] is under userfaultfd; [missing k v]:
    besides, it is not mapped, so that the next access faults and
    [UFFDIO_COPY] can fill it.  The laws are those of the manual pages for
    page-sized ranges; the flag ioctls are an extension of the kernel the
    program runs on. *)
Class KernelLaws (K : Type) `{Kernel K} : Type := {
  registered : K -> Z -> Prop;
  missing : K -> Z -> Prop;
  missing_registered k v : missing k v -> registered k v;
  copy_law k m dst src :
    wp (uffdio_copy dst src PAGE_SIZE)
       (fun ok x => if (ok : bool)
          then missing k dst /\ x.2 = mem_write m dst (mem_read m src page_bytes) /\
            (forall v, missing x.1 v <-> missing k v /\ v <> dst) /\ (forall v, registered x.1 v <-> registered k v)
          else ~ missing k dst /\ x = (k, m)) (k, m);
  writeprotect_law k m v b :
    wp (uffdio_writeprotect v PAGE_SIZE b)
       (fun ok x => (registered k v -> ok = true) /\ x.2 = m /\
          (forall v, missing x.1 v <-> missing k v) /\ (forall v, registered x.1 v <-> registered k v)) (k, m);
  get_flag_law k m v f1 f2 :
    wp (uffdio_get_flag v f1 f2) (fun r x => (registered k v -> is_Some r) /\ x = (k, m)) (k, m);
  clear_flag_law k m v f1 f2 :
    wp (uffdio_clear_flag v f1 f2)
       (fun ok x => (registered k v -> ok = true) /\ x.2 = m /\
          (forall v, missing x.1 v <-> missing k v) /\ (forall v, registered x.1 v <-> registered k v)) (k, m);
  madvise_law k m v :
    wp (madvise_dontneed v PAGE_SIZE)
       (fun ok x => (registered k v -> ok = true) /\
          (forall a, a < v \/ v + PAGE_SIZE <= a -> x.2 a = m a) /\
          (ok = true -> registered k v -> missing x.1 v) /\
          (forall u, u <> v -> missing x.1 u <-> missing k u) /\ (forall u, registered x.1 u <-> registered k u)) (k, m);
  mmap_law k m a len pr fl off :
    wp (libc_mmap a len pr fl off)
       (fun r x => (forall b, r = Some b -> 0 < b) /\ x.2 = m /\
          (forall v, missing x.1 v <-> missing k v) /\ (forall v, registered x.1 v <-> registered k v)) (k, m);
}.

(** ** A concrete kernel *)

(** Registered ranges, mapped pages, the flag words of every page, and the
    addresses [mmap] returns next. *)
Record sim_kernel : Type := mk_sim_kernel {
  sk_registered : list (Z * Z);
  sk_mapped : gset Z;
  sk_flags : Z -> Z;
  sk_mmaps : list Z;
}.

Definition sk_is_registered (k : sim_kernel) (v : Z) : bool :=
  existsb (fun r : Z * Z => (r.1 <=? v) && (v <? r.1 + r.2)) (sk_registered k).
Definition sk_is_missing (k : sim_kernel) (v : Z) : bool :=
  sk_is_registered k v && bool_decide (v ∉ sk_mapped k).

#[export] Instance sim_kernel_ops : Kernel sim_kernel := {|
  uffdio_copy dst src len := fun x =>
    if sk_is_missing x.1 dst
    then Done (true, (mk_sim_kernel (sk_registered x.1) ({[dst]} ∪ sk_mapped x.1) (sk_flags x.1) (sk_mmaps x.1),
                      mem_write x.2 dst (mem_read x.2 src (Z.to_nat len))))
    else Done (false, x);
  uffdio_register start len := fun x =>
    Done (true, (mk_sim_kernel ((start, len) :: sk_registered x.1) (sk_mapped x.1) (sk_flags x.1) (sk_mmaps x.1), x.2));
  uffdio_writeprotect v len b := fun x => Done (sk_is_registered x.1 v, x);
  uffdio_get_flag v f1 f2 := fun x =>
    Done (if sk_is_registered x.1 v then Some (Z.land (sk_flags x.1 v) f1, Z.land (sk_flags x.1 v) f2) else None, x);
  uffdio_clear_flag v f1 f2 := fun x =>
    Done (sk_is_registered x.1 v,
          (mk_sim_kernel (sk_registered x.1) (sk_mapped x.1)
             (update (sk_flags x.1) v (Z.ldiff (sk_flags x.1 v) (Z.lor f1 f2))) (sk_mmaps x.1), x.2));
  madvise_dontneed v len := fun x =>
    Done (true, (mk_sim_kernel (sk_registered x.1) (sk_mapped x.1 ∖ {[v]}) (sk_flags x.1) (sk_mmaps x.1), x.2));
  libc_mmap a len pr fl off := fun x =>
    match sk_mmaps x.1 with
    | b :: l => Done (if 0 <? b then Some b else None,
                      (mk_sim_kernel (sk_registered x.1) (sk_mapped x.1) (sk_flags x.1) l, x.2))
    | [] => Done (None, x)
    end;
  libc_munmap a len := fun x => Done (0, x);
|}.

#[export] Instance sim_kernel_laws : KernelLaws sim_kernel.
Proof.
  refine {| registered := fun k v => sk_is_registered k v = true; missing := fun k v => sk_is_missing k v = true |};
    unfold sk_is_missing; intros k *; unfold wp; simpl.
  - intros [? _]%andb_true_iff. done.
  - unfold sk_is_missing. destruct (sk_is_registered k dst && _) eqn:E; simpl; [|by split]. split; [done|].
    split; [done|]. split; [|done]. intros v. rewrite !andb_true_iff, !bool_decide_eq_true.
    unfold sk_is_registered. simpl. set_solver.
  - naive_solver.
  - destruct (sk_is_registered k v); naive_solver.
  - naive_solver.
  - split; [done|]. split; [done|]. unfold sk_is_registered. simpl. split; [|split; [|done]].
    + intros _ ->. simpl. apply bool_decide_eq_true. set_solver.
    + intros u Hu. rewrite !andb_true_iff, !bool_decide_eq_true. set_solver.
  - destruct (sk_mmaps k) as [|b l]; simpl; [done|]. split; [|done]. destruct (0 <? b) eqn:E; naive_solver lia.
Defined.
