(* ===== verification/UtHash.v ===== *)
(** The hash table of [src/src/uthash.h], as [src/src/core.c] uses it for the
    page hash.

    An element is a [struct user_page] with its [UT_hash_handle] [hh]; the
    distance [hho] between the two is fixed, so a pointer to either is the
    same [ptr] here.  Elements are in two kinds of doubly linked lists at
    once: the one of all elements in the order they were added ([prev],
    [next]), and the one of their bucket ([hh_prev], [hh_next]).  The key of
    an element is not copied: the handle points at the [va] of the page.

    Compiled without [HASH_BLOOM], [HASH_DEBUG], [HASH_FUNCTION] and
    [HASH_NONFATAL_OOM]: a failed [malloc] ends the process. *)

From S2P Require Import Prelude UserPage.

Local Open Scope Z_scope.

(** ** Data *)

(** The value in an [unsigned]. *)
Definition u32 (z : Z) : Z := z mod 2 ^ 32.

Record UT_hash_bucket : Type := mk_bucket {
  hh_head : option ptr;
  count : Z;
  expand_mult : Z;
}.

(** After [uthash_bzero]. *)
Definition zero_bucket : UT_hash_bucket := mk_bucket None 0 0.

(** [buckets] is an array of [num_buckets] buckets; those without an entry
    are zero. *)
Record UT_hash_table : Type := mk_table {
  buckets : gmap Z UT_hash_bucket;
  num_buckets : Z;
  log2_num_buckets : Z;
  num_items : Z;
  tail : option ptr;
  ideal_chain_maxlen : Z;
  nonideal_items : Z;
  ineff_expands : Z;
  noexpand : Z;
}.

Record UT_hash_handle : Type := mk_handle {
  tbl : Z;
  prev : option ptr;
  next : option ptr;
  hh_prev : option ptr;
  hh_next : option ptr;
  key : option ptr;      (* the element whose [va] it points at *)
  keylen : Z;
  hashv : Z;
}.

(** The head pointer [pages] of [core.c]; the handles; the tables on the
    heap, by address; the [va] of every page; and what [libc_malloc] returns
    next, 0 for NULL. *)
Record hash_state : Type := mk_hash {
  pages : option ptr;
  handles : gmap ptr UT_hash_handle;
  tables : gmap Z UT_hash_table;
  va_of : gmap ptr Z;
  mallocs : list Z;
}.

(** *** Assignments *)

Definition set_tbl x h := mk_handle x (prev h) (next h) (hh_prev h) (hh_next h) (key h) (keylen h) (hashv h).
Definition set_prev x h := mk_handle (tbl h) x (next h) (hh_prev h) (hh_next h) (key h) (keylen h) (hashv h).
Definition set_next x h := mk_handle (tbl h) (prev h) x (hh_prev h) (hh_next h) (key h) (keylen h) (hashv h).
Definition set_hh_prev x h := mk_handle (tbl h) (prev h) (next h) x (hh_next h) (key h) (keylen h) (hashv h).
Definition set_hh_next x h := mk_handle (tbl h) (prev h) (next h) (hh_prev h) x (key h) (keylen h) (hashv h).
Definition set_key k l v h := mk_handle (tbl h) (prev h) (next h) (hh_prev h) (hh_next h) k l v.

Definition set_buckets x t := mk_table x (num_buckets t) (log2_num_buckets t) (num_items t) (tail t)
  (ideal_chain_maxlen t) (nonideal_items t) (ineff_expands t) (noexpand t).
Definition set_num_items x t := mk_table (buckets t) (num_buckets t) (log2_num_buckets t) x (tail t)
  (ideal_chain_maxlen t) (nonideal_items t) (ineff_expands t) (noexpand t).
Definition set_tail x t := mk_table (buckets t) (num_buckets t) (log2_num_buckets t) (num_items t) x
  (ideal_chain_maxlen t) (nonideal_items t) (ineff_expands t) (noexpand t).
Definition set_ideal x y t := mk_table (buckets t) (num_buckets t) (log2_num_buckets t) (num_items t) (tail t)
  x y (ineff_expands t) (noexpand t).

Definition set_pages x s := mk_hash x (handles s) (tables s) (va_of s) (mallocs s).
Definition set_handles x s := mk_hash (pages s) x (tables s) (va_of s) (mallocs s).
Definition set_tables x s := mk_hash (pages s) (handles s) x (va_of s) (mallocs s).
Definition set_va_of x s := mk_hash (pages s) (handles s) (tables s) x (mallocs s).
Definition set_mallocs x s := mk_hash (pages s) (handles s) (tables s) (va_of s) x.

(** *** Access *)

Definition the_hh (p : ptr) : M hash_state UT_hash_handle :=
  h ← gets handles; deref (h !! p).
Definition upd_hh (p : ptr) (f : UT_hash_handle -> UT_hash_handle) : M hash_state unit :=
  x ← the_hh p;
  modify (fun s => set_handles (<[p := f x]> (handles s)) s).

Definition the_tbl (id : Z) : M hash_state UT_hash_table :=
  ts ← gets tables; deref (ts !! id).
Definition upd_tbl (id : Z) (f : UT_hash_table -> UT_hash_table) : M hash_state unit :=
  t ← the_tbl id;
  modify (fun s => set_tables (<[id := f t]> (tables s)) s).

(** [(head)->hh.tbl] *)
Definition head_tbl : M hash_state Z :=
  h ← gets pages;
  p ← deref h;
  x ← the_hh p;
  mret (tbl x).

Definition bucket_at (bs : gmap Z UT_hash_bucket) (i : Z) : UT_hash_bucket := default zero_bucket (bs !! i).

(** [tbl->buckets[i]] *)
Definition the_bucket (id i : Z) : M hash_state UT_hash_bucket :=
  t ← the_tbl id;
  if (0 <=? i) && (i <? num_buckets t) then mret (bucket_at (buckets t) i) else fail InvalidAccess.
Definition upd_bucket (id i : Z) (f : UT_hash_bucket -> UT_hash_bucket) : M hash_state unit :=
  b ← the_bucket id i;
  upd_tbl id (fun t => set_buckets (<[i := f b]> (buckets t)) t).

Definition set_hh_head x b := mk_bucket x (count b) (expand_mult b).
Definition set_count x b := mk_bucket (hh_head b) x (expand_mult b).

(** ** The hash function *)

(** [HASH_JEN_MIX]: nine lines of two subtractions and an exclusive or. *)
Definition HASH_JEN_MIX (abc : Z * Z * Z) : Z * Z * Z :=
  let '(a, b, c) := abc in
  let a := Z.lxor (u32 (u32 (a - b) - c)) (Z.shiftr c 13) in
  let b := Z.lxor (u32 (u32 (b - c) - a)) (u32 (Z.shiftl a 8)) in
  let c := Z.lxor (u32 (u32 (c - a) - b)) (Z.shiftr b 13) in
  let a := Z.lxor (u32 (u32 (a - b) - c)) (Z.shiftr c 12) in
  let b := Z.lxor (u32 (u32 (b - c) - a)) (u32 (Z.shiftl a 16)) in
  let c := Z.lxor (u32 (u32 (c - a) - b)) (Z.shiftr b 5) in
  let a := Z.lxor (u32 (u32 (a - b) - c)) (Z.shiftr c 3) in
  let b := Z.lxor (u32 (u32 (b - c) - a)) (u32 (Z.shiftl a 10)) in
  let c := Z.lxor (u32 (u32 (c - a) - b)) (Z.shiftr b 15) in
  (a, b, c).

(** [_hj_key[i]], and a little-endian word of the key. *)
Definition key_at (bs : list byte) (i : nat) : Z := byte.unsigned (nth i bs Byte.x00).
Definition key_word (bs : list byte) (i : nat) : Z :=
  key_at bs i + Z.shiftl (key_at bs (i + 1)) 8 + Z.shiftl (key_at bs (i + 2)) 16 + Z.shiftl (key_at bs (i + 3)) 24.

(** [while (_hj_k >= 12U)], on what is left of the key. *)
Fixpoint jen_loop (n : nat) (bs : list byte) (abc : Z * Z * Z) : list byte * (Z * Z * Z) :=
  match n with
  | O => (bs, abc)
  | S n =>
      if (12 <=? length bs)%nat then
        let '(i, j, h) := abc in
        jen_loop n (drop 12 bs)
          (HASH_JEN_MIX (u32 (i + key_word bs 0), u32 (j + key_word bs 4), u32 (h + key_word bs 8)))
      else (bs, abc)
  end.

(** One [case] of the [switch], which falls through to the next. *)
Definition jen_case (bs : list byte) (k i : nat) (shift : Z) (x : Z) : Z :=
  if (k <=? length bs)%nat then u32 (x + Z.shiftl (key_at bs i) shift) else x.

Definition HASH_JEN (bs : list byte) : Z :=
  let '(rest, (i, j, h)) := jen_loop (length bs) bs (0x9e3779b9, 0x9e3779b9, 0xfeedbeef) in
  let h := u32 (h + u32 (Z.of_nat (length bs))) in
  let h := jen_case rest 9 8 8 (jen_case rest 10 9 16 (jen_case rest 11 10 24 h)) in
  let j := jen_case rest 5 4 0 (jen_case rest 6 5 8 (jen_case rest 7 6 16 (jen_case rest 8 7 24 j))) in
  let i := jen_case rest 1 0 0 (jen_case rest 2 1 8 (jen_case rest 3 2 16 (jen_case rest 4 3 24 i))) in
  (HASH_JEN_MIX (i, j, h)).2.

Definition HASH_VALUE (bs : list byte) : Z := HASH_JEN bs.

Definition HASH_TO_BKT (hashv num_bkts : Z) : Z := Z.land hashv (u32 (num_bkts - 1)).

(** ** Operations *)

Definition HASH_BKT_CAPACITY_THRESH : Z := 10.
Definition sizeof_UT_hash_bucket : Z := 16.
Definition sizeof_UT_hash_table : Z := 64.

(** The bytes of a page's key. *)
Definition va_bytes (v : Z) : list byte := le_split 8 v.
#[export] Instance byte_eq_dec : EqDecision byte := Byte.byte_eq_dec.

Definition the_va (p : ptr) : M hash_state Z :=
  vs ← gets va_of; deref (vs !! p).
Definition the_key (k : option ptr) : M hash_state (list byte) :=
  p ← deref k;
  v ← the_va p;
  mret (va_bytes v).

(** More steps than any list of handles has. *)
Definition chain_fuel : M hash_state nat := gets (fun s => S (size (handles s))).

Section uthash.
(** [HASH_INITIAL_NUM_BUCKETS] and its logarithm, and a size no block of the
    heap reaches. *)
Variable initial_num_buckets : Z.
Variable initial_num_buckets_log2 : Z.
Variable max_block : Z.

(** [uthash_malloc], and what every caller does with NULL. *)
Definition uthash_malloc (sz : Z) : M hash_state Z :=
  s ← get;
  match mallocs s with
  | [] => mret 0
  | x :: rest =>
      modify (set_mallocs rest);;
      mret (if max_block <=? sz then 0 else x)
  end.
Definition HASH_RECORD_OOM : M hash_state unit := fail Exited.

Definition HASH_MAKE_TABLE (head : ptr) : M hash_state unit :=
  id ← uthash_malloc sizeof_UT_hash_table;
  upd_hh head (set_tbl id);;
  if id =? 0 then HASH_RECORD_OOM
  else
    modify (fun s => set_tables (<[id := mk_table ∅ 0 0 0 None 0 0 0 0]> (tables s)) s);;
    upd_tbl id (fun t => mk_table ∅ initial_num_buckets initial_num_buckets_log2 0 (Some head) 0 0 0 0);;
    b ← uthash_malloc (initial_num_buckets * sizeof_UT_hash_bucket);
    if b =? 0 then HASH_RECORD_OOM else mret tt.

Definition HASH_APPEND_LIST (add : ptr) : M hash_state unit :=
  upd_hh add (set_next None);;
  id ← head_tbl;
  t ← the_tbl id;
  upd_hh add (set_prev (tail t));;
  last ← deref (tail t);
  upd_hh last (set_next (Some add));;
  upd_tbl id (set_tail (Some add)).

(** The [while] of [HASH_EXPAND_BUCKETS]: the chain from [thh] into the new
    buckets [nb]. *)
Fixpoint move_chain (n : nat) (id : Z) (thh : option ptr) (nb : gmap Z UT_hash_bucket) :
    M hash_state (gmap Z UT_hash_bucket) :=
  match thh with
  | None => mret nb
  | Some p =>
      match n with
      | O => fail OutOfFuel
      | S n =>
          x ← the_hh p;
          let nxt := hh_next x in
          t ← the_tbl id;
          let bkt := HASH_TO_BKT (hashv x) (u32 (num_buckets t * 2)) in
          let b := bucket_at nb bkt in
          let c := u32 (count b + 1) in
          let over := ideal_chain_maxlen t <? c in
          when over (upd_tbl id (fun t => set_ideal (ideal_chain_maxlen t) (u32 (nonideal_items t + 1)) t));;
          let mult :=
            if over && (u32 (expand_mult b * ideal_chain_maxlen t) <? c) then u32 (expand_mult b + 1) else expand_mult b in
          upd_hh p (set_hh_prev None);;
          upd_hh p (set_hh_next (hh_head b));;
          match hh_head b with
          | Some q => upd_hh q (set_hh_prev (Some p))
          | None => mret tt
          end;;
          move_chain n id nxt (<[bkt := mk_bucket (Some p) c mult]> nb)
      end
  end.

(** The [for] over the old buckets, from [i]. *)
Fixpoint move_buckets (n : nat) (id i : Z) (nb : gmap Z UT_hash_bucket) : M hash_state (gmap Z UT_hash_bucket) :=
  match n with
  | O => mret nb
  | S n =>
      b ← the_bucket id i;
      fuel ← chain_fuel;
      nb ← move_chain fuel id (hh_head b) nb;
      move_buckets n id (i + 1) nb
  end.

Definition HASH_EXPAND_BUCKETS (id : Z) : M hash_state unit :=
  t ← the_tbl id;
  new ← uthash_malloc (2 * num_buckets t * sizeof_UT_hash_bucket);
  if new =? 0 then HASH_RECORD_OOM
  else
    let rest := Z.land (num_items t) (u32 (u32 (num_buckets t * 2) - 1)) in
    upd_tbl id (set_ideal (u32 (Z.shiftr (num_items t) (log2_num_buckets t + 1) + (if rest =? 0 then 0 else 1))) 0);;
    nb ← move_buckets (Z.to_nat (num_buckets t)) id 0 ∅;
    t ← the_tbl id;
    let ineff := if Z.shiftr (num_items t) 1 <? nonideal_items t then u32 (ineff_expands t + 1) else 0 in
    upd_tbl id (fun t => mk_table nb (u32 (num_buckets t * 2)) (u32 (log2_num_buckets t + 1)) (num_items t) (tail t)
      (ideal_chain_maxlen t) (nonideal_items t) ineff (if 1 <? ineff then 1 else noexpand t)).

Definition HASH_ADD_TO_BKT (id i : Z) (addhh : ptr) : M hash_state unit :=
  upd_bucket id i (fun b => set_count (u32 (count b + 1)) b);;
  b ← the_bucket id i;
  upd_hh addhh (set_hh_next (hh_head b));;
  upd_hh addhh (set_hh_prev None);;
  match hh_head b with
  | Some q => upd_hh q (set_hh_prev (Some addhh))
  | None => mret tt
  end;;
  upd_bucket id i (set_hh_head (Some addhh));;
  x ← the_hh addhh;
  t ← the_tbl (tbl x);
  when ((u32 (u32 (expand_mult b + 1) * HASH_BKT_CAPACITY_THRESH) <=? count b) && (noexpand t =? 0))
    (HASH_EXPAND_BUCKETS (tbl x)).

Definition HASH_ADD_TO_TABLE (hash : Z) (add : ptr) : M hash_state unit :=
  id ← head_tbl;
  upd_tbl id (fun t => set_num_items (u32 (num_items t + 1)) t);;
  t ← the_tbl id;
  HASH_ADD_TO_BKT id (HASH_TO_BKT hash (num_buckets t)) add.

(** [HASH_ADD(hh, pages, va, sizeof(uint64_t), add)] *)
Definition HASH_ADD (add : ptr) : M hash_state unit :=
  bs ← the_key (Some add);
  let hash := HASH_VALUE bs in
  upd_hh add (set_key (Some add) 8 hash);;
  head ← gets pages;
  match head with
  | None =>
      upd_hh add (set_next None);;
      upd_hh add (set_prev None);;
      HASH_MAKE_TABLE add;;
      modify (set_pages (Some add))
  | Some _ =>
      id ← head_tbl;
      upd_hh add (set_tbl id);;
      HASH_APPEND_LIST add
  end;;
  HASH_ADD_TO_TABLE hash add.

(** The [while] of [HASH_FIND_IN_BKT]. *)
Fixpoint find_in_chain (n : nat) (out : option ptr) (bs : list byte) (hashval : Z) : M hash_state (option ptr) :=
  match out with
  | None => mret None
  | Some p =>
      match n with
      | O => fail OutOfFuel
      | S n =>
          x ← the_hh p;
          found ← (if (hashv x =? hashval) && (keylen x =? Z.of_nat (length bs))
                   then k ← the_key (key x); mret (bool_decide (k = bs))
                   else mret false);
          if (found : bool) then mret (Some p) else find_in_chain n (hh_next x) bs hashval
      end
  end.

(** [HASH_FIND(hh, pages, key, sizeof(uint64_t), out)], on the bytes of the key *)
Definition HASH_FIND (bs : list byte) : M hash_state (option ptr) :=
  head ← gets pages;
  match head with
  | None => mret None
  | Some _ =>
      let hash := HASH_VALUE bs in
      id ← head_tbl;
      t ← the_tbl id;
      b ← the_bucket id (HASH_TO_BKT hash (num_buckets t));
      fuel ← chain_fuel;
      find_in_chain fuel (hh_head b) bs hash
  end.

Definition HASH_DEL_IN_BKT (id i : Z) (delhh : ptr) : M hash_state unit :=
  upd_bucket id i (fun b => set_count (u32 (count b - 1)) b);;
  b ← the_bucket id i;
  x ← the_hh delhh;
  when (bool_decide (hh_head b = Some delhh)) (upd_bucket id i (set_hh_head (hh_next x)));;
  match hh_prev x with
  | Some q => upd_hh q (set_hh_next (hh_next x))
  | None => mret tt
  end;;
  match hh_next x with
  | Some q => upd_hh q (set_hh_prev (hh_prev x))
  | None => mret tt
  end.

(** [HASH_DEL(pages, del)] *)
Definition HASH_DEL (del : ptr) : M hash_state unit :=
  x ← the_hh del;
  if bool_decide (prev x = None) && bool_decide (next x = None) then
    id ← head_tbl;
    the_tbl id;;
    modify (fun s => set_tables (delete id (tables s)) s);;
    modify (set_pages None)
  else
    id ← head_tbl;
    t ← the_tbl id;
    when (bool_decide (tail t = Some del)) (upd_tbl id (set_tail (prev x)));;
    match prev x with
    | Some q => upd_hh q (set_next (next x))
    | None => modify (set_pages (next x))
    end;;
    match next x with
    | Some q => upd_hh q (set_prev (prev x))
    | None => mret tt
    end;;
    id ← head_tbl;
    t ← the_tbl id;
    HASH_DEL_IN_BKT id (HASH_TO_BKT (hashv x) (num_buckets t)) del;;
    id ← head_tbl;
    upd_tbl id (fun t => set_num_items (u32 (num_items t - 1)) t).

(** ** The page hash of [core.c] *)

(** [page->va = va] *)
Definition assign_va (page : ptr) (va : Z) : M hash_state unit :=
  modify (fun s => set_va_of (<[page := va]> (va_of s)) s).

Definition add_page (page : ptr) : M hash_state unit :=
  bs ← the_key (Some page);
  p ← HASH_FIND bs;
  c_assert (bool_decide (p = None));;
  HASH_ADD page.

Definition remove_page (page : ptr) : M hash_state unit := HASH_DEL page.

Definition find_page (va : Z) : M hash_state (option ptr) := HASH_FIND (va_bytes va).
End uthash.

(** The constants of the header. *)
Definition HASH_INITIAL_NUM_BUCKETS : Z := 2097152.
Definition HASH_INITIAL_NUM_BUCKETS_LOG2 : Z := 21.
