(* ===== verification/UtHashSpec.v ===== *)
(** The hash table of UtHash.v implements a finite map, whatever the hash
    function does and through every expansion of its buckets. *)

From S2P Require Import Prelude UserPage UtHash.

Local Open Scope Z_scope.

(** ** Runs that may end the process *)

(** [wpx m Q s]: from [s], [m] returns with [Q], or the process has run out
    of memory and exits; there is no other fault. *)
Definition wpx {S A} (m : M S A) (Q : A -> S -> Prop) (s : S) : Prop :=
  match m s with Done (a, s') => Q a s' | Fault f => f = Exited end.
#[global] Arguments wpx : simpl never.

Section wpx_rules.
Context {S : Type}.
Implicit Types s : S.

Lemma wpx_ret {A} (a : A) (Q : A -> S -> Prop) s : wpx (mret a) Q s <-> Q a s.
Proof. done. Qed.
Lemma wpx_bind {A B} (m : M S A) (f : A -> M S B) (Q : B -> S -> Prop) s :
  wpx (m ≫= f) Q s <-> wpx m (fun a s' => wpx (f a) Q s') s.
Proof. unfold wpx, mbind, M_bind. by destruct (m s) as [[]|]. Qed.
Lemma wpx_mono {A} (m : M S A) (Q Q' : A -> S -> Prop) s :
  wpx m Q s -> (forall a s', Q a s' -> Q' a s') -> wpx m Q' s.
Proof. unfold wpx. destruct (m s) as [[a s']|]; auto. Qed.
Lemma wpx_get (Q : S -> S -> Prop) s : wpx get Q s <-> Q s s.
Proof. done. Qed.
Lemma wpx_gets {A} (f : S -> A) (Q : A -> S -> Prop) s : wpx (gets f) Q s <-> Q (f s) s.
Proof. done. Qed.
Lemma wpx_modify (f : S -> S) (Q : unit -> S -> Prop) s : wpx (modify f) Q s <-> Q tt (f s).
Proof. done. Qed.
Lemma wpx_assert (b : bool) (Q : unit -> S -> Prop) s : b = true -> Q tt s -> wpx (c_assert b) Q s.
Proof. by intros ->. Qed.
Lemma wpx_deref {A} (o : option A) a (Q : A -> S -> Prop) s : o = Some a -> Q a s -> wpx (deref o) Q s.
Proof. by intros ->. Qed.
Lemma wpx_when (b : bool) (m : M S unit) (Q : unit -> S -> Prop) s :
  (b = true -> wpx m Q s) -> (b = false -> Q tt s) -> wpx (when b m) Q s.
Proof. destruct b; unfold when; intros H1 H2; [by apply H1|by apply wpx_ret, H2]. Qed.
Lemma wpx_match {A} (o : option A) (f : A -> M S unit) (Q : unit -> S -> Prop) s :
  (forall a, o = Some a -> wpx (f a) Q s) -> (o = None -> Q tt s) ->
  wpx (match o with Some a => f a | None => mret tt end) Q s.
Proof. destruct o; intros H1 H2; [by apply H1|by apply wpx_ret, H2]. Qed.
Lemma wpx_exit {A} (Q : A -> S -> Prop) s : wpx (fail Exited) Q s.
Proof. done. Qed.
End wpx_rules.

Create Rewrite HintDb runx.
#[export] Hint Rewrite @wpx_ret @wpx_bind @wpx_get @wpx_gets @wpx_modify : runx.
Ltac wpx_norm := autorewrite with runx; cbv beta.

(** ** Doubly linked lists *)

(** The links of elements, backward and forward. *)
Abbreviation links := (gmap ptr (option ptr * option ptr)).

Definition link_prev (p : ptr) (v : option ptr) (G : links) : links := alter (fun xy => (v, xy.2)) p G.
Definition link_next (p : ptr) (v : option ptr) (G : links) : links := alter (fun xy => (xy.1, v)) p G.

Definition first_or (l : list ptr) (nx : option ptr) : option ptr := match l with [] => nx | p :: _ => Some p end.
Definition last_or (l : list ptr) (pr : option ptr) : option ptr := match last l with Some p => Some p | None => pr end.

(** The segment [l], entered from [pr] and left for [nx]. *)
Fixpoint seg (G : links) (pr : option ptr) (l : list ptr) (nx : option ptr) : Prop :=
  match l with
  | [] => True
  | p :: l => G !! p = Some (pr, first_or l nx) /\ seg G (Some p) l nx
  end.

Lemma seg_app G pr l1 l2 nx : seg G pr (l1 ++ l2) nx <-> seg G pr l1 (first_or l2 nx) /\ seg G (last_or l1 pr) l2 nx.
Proof.
  revert pr. induction l1 as [|p l1 IH]; intros pr; simpl; [unfold last_or; simpl; naive_solver|].
  rewrite IH. assert (E : last_or l1 (Some p) = last_or (p :: l1) pr).
  { unfold last_or. destruct l1 as [|q l1]; [done|]. simpl. destruct (last (q :: l1)) eqn:El; [done|]. by apply last_None in El. }
  rewrite E. destruct l1; simpl; naive_solver.
Qed.

Lemma seg_frame G G' pr l nx : (forall p, p ∈ l -> G' !! p = G !! p) -> seg G pr l nx -> seg G' pr l nx.
Proof.
  revert pr. induction l as [|p l IH]; intros pr Heq; simpl; [done|]. intros [Hp Hs]. split; [rewrite Heq; [done|by left]|].
  apply IH; [|done]. intros q Hq. apply Heq. by right.
Qed.

Lemma seg_alter G f p pr l nx : p ∉ l -> seg G pr l nx -> seg (alter f p G) pr l nx.
Proof. intros Hp. apply seg_frame. intros q Hq. apply lookup_alter_ne. by intros ->. Qed.

Lemma seg_in G pr l nx p : seg G pr l nx -> p ∈ l -> is_Some (G !! p).
Proof.
  revert pr. induction l as [|q l IH]; intros pr; simpl; [by intros _ ?%elem_of_nil|].
  intros [Hq Hs] [->|Hp]%elem_of_cons; [by rewrite Hq|by eapply IH].
Qed.

Lemma seg_link_next G p pr l nx v : p ∉ l -> seg G pr (l ++ [p]) nx -> seg (link_next p v G) pr (l ++ [p]) v.
Proof.
  intros Hp. rewrite !seg_app. simpl. intros (Hl & He & _). split; [by apply seg_alter|]. split; [|done].
  unfold link_next. by rewrite lookup_alter_eq, He.
Qed.

Lemma seg_link_prev G p pr l nx v : p ∉ l -> seg G pr (p :: l) nx -> seg (link_prev p v G) v (p :: l) nx.
Proof.
  intros Hp. simpl. intros [He Hl]. split; [|by apply seg_alter]. unfold link_prev. by rewrite lookup_alter_eq, He.
Qed.

(** *** A list as a whole *)

Definition dll (G : links) (l : list ptr) : Prop := seg G None l None.

Lemma first_or_head l : first_or l None = head l.
Proof. by destruct l. Qed.
Lemma last_or_last l : last_or l None = last l.
Proof. unfold last_or. by destruct (last l). Qed.
Lemma last_snoc_or l p pr : last_or (l ++ [p]) pr = Some p.
Proof. unfold last_or. by rewrite last_snoc. Qed.

(** What the code writes to put [p] in front of [l], to append it, and to
    take it out. *)
Definition pushed (p : ptr) (l : list ptr) (G : links) : links :=
  let G := link_prev p None (link_next p (head l) G) in
  match head l with Some q => link_prev q (Some p) G | None => G end.

Definition appended (p : ptr) (l : list ptr) (G : links) : links :=
  let G := link_prev p (last l) (link_next p None G) in
  match last l with Some q => link_next q (Some p) G | None => G end.

Definition unlinked (l1 l2 : list ptr) (G : links) : links :=
  let G := match last l1 with Some q => link_next q (head l2) G | None => G end in
  match head l2 with Some q => link_prev q (last l1) G | None => G end.

Lemma dll_middle G l1 p l2 : dll G (l1 ++ p :: l2) -> G !! p = Some (last l1, head l2).
Proof. unfold dll. rewrite seg_app. simpl. rewrite last_or_last, first_or_head. by intros (_ & ? & _). Qed.

Lemma dll_pushed G p l : is_Some (G !! p) -> p ∉ l -> NoDup l -> dll G l -> dll (pushed p l G) (p :: l).
Proof.
  intros [[a b] Hp] Hn Hd Hl. unfold dll, pushed in *. simpl. rewrite first_or_head.
  assert (Hp' : link_prev p None (link_next p (head l) G) !! p = Some (None, head l)).
  { unfold link_prev, link_next. by rewrite !lookup_alter_eq, Hp. }
  destruct l as [|q l]; simpl in *; [done|]. apply not_elem_of_cons in Hn as [Hpq Hn]. apply NoDup_cons in Hd as [Hq Hd].
  split; [unfold link_prev at 1; by rewrite lookup_alter_ne|].
  apply (seg_link_prev _ q None l None); [done|]. unfold link_prev, link_next. destruct Hl as [Hql Hl].
  split; [by rewrite !lookup_alter_ne|]. by do 2 (apply seg_alter; [done|]).
Qed.

Lemma dll_appended G p l : is_Some (G !! p) -> p ∉ l -> NoDup l -> dll G l -> dll (appended p l G) (l ++ [p]).
Proof.
  intros [[a b] Hp] Hn Hd Hl. unfold dll, appended in *.
  assert (Hp' : link_prev p (last l) (link_next p None G) !! p = Some (last l, None)).
  { unfold link_prev, link_next. by rewrite !lookup_alter_eq, Hp. }
  assert (Hl' : seg (link_prev p (last l) (link_next p None G)) None l None) by (by do 2 (apply seg_alter; [done|])).
  destruct l as [|q l _] using rev_ind; [done|]. rewrite last_snoc in *. apply not_elem_of_app in Hn as [Hn Hpq].
  apply not_elem_of_cons in Hpq as [Hpq _]. apply NoDup_app in Hd as (Hd & Hdq & _).
  rewrite seg_app. simpl. rewrite last_snoc_or. split.
  - apply (seg_link_next _ q None l None); [|done]. intros Hq. apply (Hdq q Hq). by left.
  - unfold link_next at 1. rewrite lookup_alter_ne by done. done.
Qed.

Lemma dll_unlinked G l1 p l2 : NoDup (l1 ++ p :: l2) -> dll G (l1 ++ p :: l2) -> dll (unlinked l1 l2 G) (l1 ++ l2).
Proof.
  intros Hd Hl. unfold dll, unlinked in *. rewrite seg_app in Hl. simpl in Hl. destruct Hl as (H1 & _ & H2).
  apply NoDup_app in Hd as (Hd1 & Hd12 & Hd2). apply NoDup_cons in Hd2 as [Hp Hd2]. rewrite seg_app, last_or_last, first_or_head.
  set (G1 := match last l1 with Some q => link_next q (head l2) G | None => G end).
  assert (H1' : seg G1 None l1 (head l2)).
  { unfold G1. destruct l1 as [|q l1 _] using rev_ind; [done|]. rewrite last_snoc. eapply seg_link_next; [|done].
    apply NoDup_app in Hd1 as (_ & Hq & _). intros Hin. apply (Hq q Hin). by left. }
  assert (H2' : seg G1 (Some p) l2 None).
  { unfold G1. destruct (last l1) as [q|] eqn:Eq; [|done]. apply seg_alter; [|done]. intros Hq.
    apply (Hd12 q); [|by right]. by apply last_Some_elem_of. }
  destruct l2 as [|q l2]; simpl in *; [done|]. apply NoDup_cons in Hd2 as [Hq Hd2]. split.
  - apply seg_alter; [|done]. intros Hin. apply (Hd12 q Hin). right. by left.
  - by apply (seg_link_prev _ q (Some p) l2 None).
Qed.

(** *** Other lists stay as they are *)

Lemma pushed_frame p l G c : p ∉ c -> (forall q, q ∈ l -> q ∉ c) -> dll G c -> dll (pushed p l G) c.
Proof.
  intros Hp Hl Hc. unfold pushed. destruct l as [|q l]; simpl.
  - by do 2 (apply seg_alter; [done|]).
  - apply seg_alter; [apply Hl; by left|]. by do 2 (apply seg_alter; [done|]).
Qed.

Lemma unlinked_frame l1 l2 G c : (forall q, q ∈ l1 ++ l2 -> q ∉ c) -> dll G c -> dll (unlinked l1 l2 G) c.
Proof.
  intros Hl Hc. unfold unlinked.
  assert (H1 : dll (match last l1 with Some q => link_next q (head l2) G | None => G end) c).
  { destruct (last l1) as [q|] eqn:E; [|done]. apply seg_alter; [|done]. apply Hl, elem_of_app. left. by apply last_Some_elem_of. }
  destruct l2 as [|q l2]; [done|]. apply seg_alter; [|done]. apply Hl, elem_of_app. right. by left.
Qed.

(** ** Handles as links and data *)

Definition order_links (H : gmap ptr UT_hash_handle) : links := (fun x => (prev x, next x)) <$> H.
Definition bucket_links (H : gmap ptr UT_hash_handle) : links := (fun x => (hh_prev x, hh_next x)) <$> H.
Definition data (H : gmap ptr UT_hash_handle) : gmap ptr (Z * option ptr * Z * Z) :=
  (fun x => (tbl x, key x, keylen x, hashv x)) <$> H.

Section views.
Implicit Types H : gmap ptr UT_hash_handle.

Lemma order_set_prev v p H : order_links (alter (set_prev v) p H) = link_prev p v (order_links H).
Proof. by apply fmap_alter. Qed.
Lemma order_set_next v p H : order_links (alter (set_next v) p H) = link_next p v (order_links H).
Proof. by apply fmap_alter. Qed.
Lemma bucket_set_prev v p H : bucket_links (alter (set_hh_prev v) p H) = link_prev p v (bucket_links H).
Proof. by apply fmap_alter. Qed.
Lemma bucket_set_next v p H : bucket_links (alter (set_hh_next v) p H) = link_next p v (bucket_links H).
Proof. by apply fmap_alter. Qed.

Lemma view_same {B} (g : UT_hash_handle -> B) f p H : (forall x, g (f x) = g x) -> g <$> alter f p H = g <$> H.
Proof.
  intros Hg. rewrite (fmap_alter g f id) by (intros x _; apply Hg). apply map_eq. intros i. destruct (decide (p = i)) as [->|Hne].
  - rewrite lookup_alter_eq. by destruct (_ !! i).
  - by rewrite lookup_alter_ne.
Qed.
End views.

(** Simplify the views of updated handles. *)
Ltac views :=
  repeat match goal with
  | |- _ => rewrite order_set_prev || rewrite order_set_next || rewrite bucket_set_prev || rewrite bucket_set_next
  | |- context [order_links (alter ?f ?p ?H)] => change (order_links (alter f p H)) with ((fun x => (prev x, next x)) <$> alter f p H); rewrite view_same by done; fold (order_links H)
  | |- context [bucket_links (alter ?f ?p ?H)] => change (bucket_links (alter f p H)) with ((fun x => (hh_prev x, hh_next x)) <$> alter f p H); rewrite view_same by done; fold (bucket_links H)
  | |- context [data (alter ?f ?p ?H)] => change (data (alter f p H)) with ((fun x => (tbl x, key x, keylen x, hashv x)) <$> alter f p H); rewrite view_same by done; fold (data H)
  end.

Lemma is_Some_alter {A} (f : A -> A) p q (H : gmap ptr A) : is_Some (H !! q) -> is_Some (alter f p H !! q).
Proof.
  intros [x Hx]. destruct (decide (p = q)) as [->|Hne]; [rewrite lookup_alter_eq, Hx; by eexists|by rewrite lookup_alter_ne, Hx].
Qed.

(** ** Rules of the accesses *)

Section access.
Implicit Types s : hash_state.

Lemma wpx_the_hh p x (Q : UT_hash_handle -> hash_state -> Prop) s : handles s !! p = Some x -> Q x s -> wpx (the_hh p) Q s.
Proof. intros Hp HQ. unfold the_hh. wpx_norm. by apply wpx_deref with x. Qed.

Lemma wpx_upd_hh p f (Q : unit -> hash_state -> Prop) s :
  is_Some (handles s !! p) -> Q tt (set_handles (alter f p (handles s)) s) -> wpx (upd_hh p f) Q s.
Proof.
  intros [x Hx] HQ. unfold upd_hh. wpx_norm. apply (wpx_the_hh p x); [done|]. wpx_norm. by rewrite <- (alter_alt_Some f _ _ x).
Qed.

Lemma wpx_the_tbl id t (Q : UT_hash_table -> hash_state -> Prop) s : tables s = {[id := t]} -> Q t s -> wpx (the_tbl id) Q s.
Proof. intros Ht HQ. unfold the_tbl. wpx_norm. apply wpx_deref with t; [|done]. by rewrite Ht, lookup_singleton_eq. Qed.

Lemma wpx_upd_tbl id t f (Q : unit -> hash_state -> Prop) s :
  tables s = {[id := t]} -> Q tt (set_tables {[id := f t]} s) -> wpx (upd_tbl id f) Q s.
Proof.
  intros Ht HQ. unfold upd_tbl. wpx_norm. apply (wpx_the_tbl id t); [done|]. wpx_norm. by rewrite Ht, insert_singleton_eq.
Qed.

Lemma wpx_head_tbl h x (Q : Z -> hash_state -> Prop) s :
  pages s = Some h -> handles s !! h = Some x -> Q (tbl x) s -> wpx head_tbl Q s.
Proof.
  intros Hh Hx HQ. unfold head_tbl. wpx_norm. apply wpx_deref with h; [done|]. wpx_norm. apply (wpx_the_hh h x); [done|]. by wpx_norm.
Qed.

Lemma wpx_the_bucket id t i (Q : UT_hash_bucket -> hash_state -> Prop) s :
  tables s = {[id := t]} -> 0 <= i < num_buckets t -> Q (bucket_at (buckets t) i) s -> wpx (the_bucket id i) Q s.
Proof.
  intros Ht Hi HQ. unfold the_bucket. wpx_norm. apply (wpx_the_tbl id t); [done|].
  replace ((0 <=? i) && (i <? num_buckets t)) with true by lia. by wpx_norm.
Qed.

Lemma wpx_upd_bucket id t i f (Q : unit -> hash_state -> Prop) s :
  tables s = {[id := t]} -> 0 <= i < num_buckets t ->
  Q tt (set_tables {[id := set_buckets (<[i := f (bucket_at (buckets t) i)]> (buckets t)) t]} s) -> wpx (upd_bucket id i f) Q s.
Proof. intros Ht Hi HQ. unfold upd_bucket. wpx_norm. apply (wpx_the_bucket id t); [done..|]. by apply (wpx_upd_tbl id t). Qed.

Lemma wpx_malloc mb sz (Q : Z -> hash_state -> Prop) s :
  (forall x ms, x <> 0 -> sz < mb -> Q x (set_mallocs ms s)) -> (forall ms, Q 0 (set_mallocs ms s)) -> wpx (uthash_malloc mb sz) Q s.
Proof.
  intros H1 H0. unfold uthash_malloc. wpx_norm. destruct (mallocs s) as [|x ms] eqn:E; wpx_norm.
  - specialize (H0 []). destruct s. simpl in *. by subst.
  - destruct (Z.leb_spec mb sz); [apply H0|]. destruct (decide (x = 0)) as [->|Hx]; [apply H0|by apply H1].
Qed.
End access.

Lemma bucket_at_insert bs i b j : bucket_at (<[i := b]> bs) j = if decide (i = j) then b else bucket_at bs j.
Proof. unfold bucket_at. destruct (decide (i = j)) as [->|Hne]; [by rewrite lookup_insert_eq|by rewrite lookup_insert_ne]. Qed.

(** ** Keys *)

Lemma va_bytes_inj v w : in_u64 v -> in_u64 w -> va_bytes v = va_bytes w -> v = w.
Proof.
  unfold va_bytes, in_u64. intros Hv Hw E. apply (f_equal le_combine) in E. rewrite !le_combine_split in E.
  change (8 * Z.of_nat 8) with 64 in E. rewrite !Z.mod_small in E by lia. done.
Qed.

(** The bucket of a hash value. *)
Lemma to_bucket h k : 0 <= k <= 32 -> HASH_TO_BKT h (u32 (2 ^ k)) = h mod 2 ^ k.
Proof.
  intros Hk. unfold HASH_TO_BKT. replace (u32 (u32 (2 ^ k) - 1)) with (Z.ones k).
  - apply Z.land_ones. lia.
  - rewrite Z.ones_equiv. unfold u32. rewrite Zminus_mod_idemp_l. rewrite Z.mod_small; [lia|].
    pose proof (Z.pow_pos_nonneg 2 k ltac:(lia) ltac:(lia)). pose proof (Z.pow_le_mono_r 2 k 32 ltac:(lia) ltac:(lia)). lia.
Qed.

Lemma pow_u32 k : 0 <= k <= 31 -> u32 (2 ^ k) = 2 ^ k.
Proof.
  intros Hk. apply Z.mod_small. pose proof (Z.pow_pos_nonneg 2 k ltac:(lia) ltac:(lia)).
  pose proof (Z.pow_lt_mono_r 2 k 32 ltac:(lia) ltac:(lia)). lia.
Qed.

Lemma in_bucket h k : 0 <= k <= 31 -> HASH_TO_BKT h (2 ^ k) = h mod 2 ^ k.
Proof. intros Hk. rewrite <- (to_bucket h k) by lia. by rewrite pow_u32. Qed.

Lemma mod_range h k : 0 <= k -> 0 <= h mod 2 ^ k < 2 ^ k.
Proof. intros Hk. apply Z.mod_pos_bound. lia. Qed.

(** ** The table as a map *)

(** [p] is in the table at [id] under the key [v]. *)
Definition element (s : hash_state) (id : Z) (p : ptr) (v : Z) : Prop :=
  data (handles s) !! p = Some (id, Some p, 8, HASH_VALUE (va_bytes v)) /\ va_of s !! p = Some v /\ in_u64 v.

(** The bucket [b] has the chain [c]. *)
Record chain (G : links) (b : UT_hash_bucket) (c : list ptr) : Prop := mk_chain {
  ch_head : hh_head b = head c;
  ch_count : count b = Z.of_nat (length c);
  ch_dll : dll G c;
  ch_nodup : NoDup c;
}.

Definition slot (s : hash_state) (k : Z) (p : ptr) (j : Z) : Prop :=
  exists v, va_of s !! p = Some v /\ HASH_VALUE (va_bytes v) mod 2 ^ k = j.

(** The table [t] at [id] holds the elements [l], oldest first, in buckets
    with the chains [C], and stands for the map [m]. *)
Record full (s : hash_state) (id : Z) (t : UT_hash_table) (k : Z) (l : list ptr) (C : Z -> list ptr) (m : gmap Z ptr) : Prop := mk_full {
  fu_pages : pages s = head l;
  fu_some : l <> [];
  fu_tables : tables s = {[id := t]};
  fu_tail : tail t = last l;
  fu_items : num_items t = Z.of_nat (length l);
  fu_buckets : num_buckets t = 2 ^ k;
  fu_log : log2_num_buckets t = k;
  fu_range : 0 <= k <= 31;
  fu_order : dll (order_links (handles s)) l;
  fu_nodup : NoDup l;
  fu_elements : forall p, p ∈ l -> exists v, element s id p v;
  fu_chains : forall j, 0 <= j < 2 ^ k -> chain (bucket_links (handles s)) (bucket_at (buckets t) j) (C j);
  fu_members : forall j p, 0 <= j < 2 ^ k -> p ∈ C j <-> p ∈ l /\ slot s k p j;
  fu_map : forall v p, m !! v = Some p <-> p ∈ l /\ va_of s !! p = Some v;
}.

(** No element is in use twice, and an [unsigned] can count them. *)
Definition small (s : hash_state) : Prop := Z.of_nat (size (handles s)) < 2 ^ 32.

Inductive rep (s : hash_state) (m : gmap Z ptr) : Prop :=
  | rep_empty : pages s = None -> tables s = ∅ -> m = ∅ -> rep s m
  | rep_full id t k l C : full s id t k l C m -> rep s m.

Lemma data_lookup H p d : data H !! p = Some d -> exists x, H !! p = Some x /\ (tbl x, key x, keylen x, hashv x) = d.
Proof. unfold data. rewrite lookup_fmap. intros (x & -> & Hx)%fmap_Some. eauto. Qed.

Lemma order_lookup H p : is_Some (order_links H !! p) <-> is_Some (H !! p).
Proof. unfold order_links. by rewrite lookup_fmap, fmap_is_Some. Qed.
Lemma bucket_lookup H p : is_Some (bucket_links H !! p) <-> is_Some (H !! p).
Proof. unfold bucket_links. by rewrite lookup_fmap, fmap_is_Some. Qed.

Lemma element_handle s id p v : element s id p v -> exists x, handles s !! p = Some x /\
  tbl x = id /\ key x = Some p /\ keylen x = 8 /\ hashv x = HASH_VALUE (va_bytes v).
Proof. intros (Hd & _). apply data_lookup in Hd as (x & Hx & E). exists x. by simplify_eq. Qed.

Lemma slot_fun s k p j j' : slot s k p j -> slot s k p j' -> j = j'.
Proof. intros (v & Hv & <-) (w & Hw & <-). congruence. Qed.

Lemma slot_element s id k p v j : element s id p v -> slot s k p j <-> HASH_VALUE (va_bytes v) mod 2 ^ k = j.
Proof. intros (_ & Hv & _). split; [intros (w & Hw & <-); congruence|]. intros <-. by exists v. Qed.

Lemma list_length (s : hash_state) (l : list ptr) : NoDup l -> (forall p, p ∈ l -> is_Some (handles s !! p)) -> (length l <= size (handles s))%nat.
Proof.
  intros Hn Hin. rewrite <- (size_list_to_set (C := gset ptr)) by done. rewrite <- size_dom.
  apply subseteq_size. intros p Hp%elem_of_list_to_set. apply elem_of_dom. auto.
Qed.

Lemma wpx_the_va p v (Q : Z -> hash_state -> Prop) s : va_of s !! p = Some v -> Q v s -> wpx (the_va p) Q s.
Proof. intros Hv HQ. unfold the_va. wpx_norm. by apply wpx_deref with v. Qed.

Lemma wpx_the_key p v (Q : list byte -> hash_state -> Prop) s : va_of s !! p = Some v -> Q (va_bytes v) s -> wpx (the_key (Some p)) Q s.
Proof. intros Hv HQ. unfold the_key. wpx_norm. apply wpx_deref with p; [done|]. wpx_norm. apply (wpx_the_va p v); [done|]. by wpx_norm. Qed.

(** ** Looking up *)

Definition answer (s : hash_state) (v : Z) (c : list ptr) (r : option ptr) : Prop :=
  match r with
  | Some p => p ∈ c /\ va_of s !! p = Some v
  | None => forall p, p ∈ c -> va_of s !! p <> Some v
  end.

Lemma find_chain_spec s id v c pr n :
  in_u64 v -> seg (bucket_links (handles s)) pr c None -> (forall p, p ∈ c -> exists w, element s id p w) -> (length c <= n)%nat ->
  wpx (find_in_chain n (head c) (va_bytes v) (HASH_VALUE (va_bytes v))) (fun r s' => s' = s /\ answer s v c r) s.
Proof.
  intros Hv. revert pr n. induction c as [|p c IH]; intros pr n Hs He Hn; simpl.
  - destruct n; simpl; wpx_norm; (split; [done|]); by intros p ?%elem_of_nil.
  - destruct n as [|n]; simpl in Hn; [lia|]. destruct Hs as [Hp Hs]. destruct (He p) as [w Hw]; [by left|].
    destruct (element_handle _ _ _ _ Hw) as (x & Hx & _ & Hk & Hl & Hh). destruct Hw as (_ & Hva & Hwu).
    assert (Hnx : hh_next x = head c).
    { unfold bucket_links in Hp. rewrite lookup_fmap, Hx in Hp. simpl in Hp. rewrite <- first_or_head. by injection Hp. }
    cbn [find_in_chain]. wpx_norm. apply (wpx_the_hh p x); [done|]. wpx_norm. rewrite Hk, Hl, Hh, Hnx.
    assert (Hrest : va_of s !! p <> Some v -> wpx (find_in_chain n (head c) (va_bytes v) (HASH_VALUE (va_bytes v))) (fun r s' => s' = s /\ answer s v (p :: c) r) s).
    { intros Hne. eapply wpx_mono; [apply (IH (Some p)); [done| |lia]|].
      - intros q Hq. apply He. by right.
      - intros [r|] s' [-> Ha]; split; try done; simpl in *; [split; [right|]; apply Ha|].
        intros q [->|Hq]%elem_of_cons; auto. }
    destruct (decide (w = v)) as [->|Hne].
    + rewrite Z.eqb_refl. change (8 =? Z.of_nat (length (va_bytes v))) with true. simpl. wpx_norm. apply (wpx_the_key p v); [done|].
      wpx_norm. rewrite bool_decide_eq_true_2 by done. wpx_norm. split; [done|]. split; [by left|done].
    + destruct (_ && _).
      * wpx_norm. apply (wpx_the_key p w); [done|]. wpx_norm. rewrite bool_decide_eq_false_2; [apply Hrest; congruence|].
        intros E. by apply Hne, va_bytes_inj.
      * wpx_norm. apply Hrest. congruence.
Qed.

Lemma find_spec s m v : rep s m -> in_u64 v -> wpx (HASH_FIND (va_bytes v)) (fun r s' => s' = s /\ r = m !! v) s.
Proof.
  intros [Hp Ht ->|id t k l C Hf] Hv; unfold HASH_FIND; wpx_norm; [by rewrite Hp|].
  rewrite (fu_pages _ _ _ _ _ _ _ Hf). pose proof (fu_some _ _ _ _ _ _ _ Hf) as Hl. destruct l as [|h l]; [done|].
  destruct (fu_elements _ _ _ _ _ _ _ Hf h) as [w Hw]; [by left|]. destruct (element_handle _ _ _ _ Hw) as (x & Hx & Hid & _).
  simpl. wpx_norm. apply (wpx_head_tbl h x); [apply (fu_pages _ _ _ _ _ _ _ Hf)|done|]. rewrite Hid.
  wpx_norm. apply (wpx_the_tbl id t); [apply Hf|]. pose proof (fu_range _ _ _ _ _ _ _ Hf) as Hk.
  set (hv := HASH_VALUE (va_bytes v)). set (j := hv mod 2 ^ k).
  assert (Hb : HASH_TO_BKT hv (num_buckets t) = j).
  { rewrite (fu_buckets _ _ _ _ _ _ _ Hf). by apply in_bucket. }
  rewrite Hb. assert (Hj : 0 <= j < 2 ^ k) by (apply mod_range; lia).
  wpx_norm. apply (wpx_the_bucket id t); [apply Hf|by rewrite (fu_buckets _ _ _ _ _ _ _ Hf)|]. unfold chain_fuel. wpx_norm.
  destruct (fu_chains _ _ _ _ _ _ _ Hf j Hj) as [Hch _ Hd Hn]. rewrite Hch.
  assert (Hin : forall p, p ∈ C j -> p ∈ h :: l) by (intros p Hp; by apply (fu_members _ _ _ _ _ _ _ Hf j p Hj)).
  eapply wpx_mono.
  - apply (find_chain_spec s id v (C j) None); [done|done| |].
    + intros p Hp. apply (fu_elements _ _ _ _ _ _ _ Hf). auto.
    + apply le_S, list_length; [done|]. intros p Hp. eapply bucket_lookup, seg_in; [exact Hd|done].
  - intros r s' [-> Ha]. split; [done|]. destruct r as [p|]; simpl in Ha.
    + symmetry. apply (fu_map _ _ _ _ _ _ _ Hf). destruct Ha. auto.
    + destruct (m !! v) as [p|] eqn:Em; [|done]. apply (fu_map _ _ _ _ _ _ _ Hf) in Em as [Hp Hpv].
      exfalso. apply (Ha p); [|done]. apply (fu_members _ _ _ _ _ _ _ Hf j p Hj). split; [done|]. by exists v.
Qed.

(** ** Moving chains *)

Lemma link_comm p a b G : link_next p a (link_prev p b G) = link_prev p b (link_next p a G).
Proof.
  unfold link_next, link_prev. apply map_eq. intros i. destruct (decide (p = i)) as [->|Hne].
  - rewrite !lookup_alter_eq. by destruct (G !! i).
  - by rewrite !lookup_alter_ne.
Qed.

(** The elements of [c] lead from one to the next. *)
Fixpoint fwd (G : links) (c : list ptr) : Prop :=
  match c with
  | [] => True
  | p :: c => (exists a, G !! p = Some (a, head c)) /\ fwd G c
  end.

Lemma seg_fwd G pr c : seg G pr c None -> fwd G c.
Proof. revert pr. induction c as [|p c IH]; intros pr; simpl; [done|]. rewrite first_or_head. intros [Hp Hs]. eauto. Qed.

Lemma fwd_frame G G' c : (forall p, p ∈ c -> G' !! p = G !! p) -> fwd G c -> fwd G' c.
Proof.
  induction c as [|p c IH]; intros Heq; simpl; [done|]. intros [[a Hp] Hf]. split; [exists a; rewrite Heq; [done|by left]|].
  apply IH; [|done]. intros q Hq. apply Heq. by right.
Qed.

Lemma pushed_other p l G q : q <> p -> (forall x, x ∈ l -> q <> x) -> pushed p l G !! q = G !! q.
Proof.
  intros Hp Hl. unfold pushed, link_prev, link_next. destruct l as [|x l]; simpl; [by rewrite !lookup_alter_ne|].
  rewrite !lookup_alter_ne; [done|done|done|]. intros ->. apply (Hl q); [by left|done].
Qed.

(** The parts of the state that moving elements between buckets leaves. *)
Record beside (s s' : hash_state) : Prop := mk_beside {
  be_pages : pages s' = pages s;
  be_va : va_of s' = va_of s;
  be_data : data (handles s') = data (handles s);
  be_order : order_links (handles s') = order_links (handles s);
}.

Lemma beside_refl s : beside s s.
Proof. done. Qed.
Lemma beside_trans s1 s2 s3 : beside s1 s2 -> beside s2 s3 -> beside s1 s3.
Proof. intros [] []. split; congruence. Qed.

Lemma beside_tables_l T s s' : beside (set_tables T s) s' -> beside s s'.
Proof. by intros []. Qed.
Lemma beside_tables_r T s s' : beside s s' -> beside s (set_tables T s').
Proof. by intros []. Qed.

Lemma data_size (H H' : gmap ptr UT_hash_handle) : data H' = data H -> size H' = size H.
Proof. intros E. apply (f_equal size) in E. unfold data in E. by rewrite !map_size_fmap in E. Qed.

Lemma beside_small s s' : beside s s' -> small s -> small s'.
Proof. intros Hb. unfold small. by rewrite (data_size _ _ (be_data _ _ Hb)). Qed.
Lemma beside_element s s' id p v : beside s s' -> element s id p v -> element s' id p v.
Proof. intros [_ Hv Hd _]. unfold element. by rewrite Hv, Hd. Qed.
Lemma beside_slot s s' k p j : beside s s' -> slot s' k p j <-> slot s k p j.
Proof. intros [_ Hv _ _]. unfold slot. by rewrite Hv. Qed.

Lemma element_some s id p v : element s id p v -> is_Some (handles s !! p).
Proof. intros He. destruct (element_handle _ _ _ _ He) as (x & Hx & _). by rewrite Hx. Qed.

(** A new array and its chains. *)
Definition chains (s : hash_state) (nb : gmap Z UT_hash_bucket) (k : Z) (N : Z -> list ptr) : Prop :=
  forall j, 0 <= j < 2 ^ k -> chain (bucket_links (handles s)) (bucket_at nb j) (N j).

Definition with_front (N : Z -> list ptr) (i : Z) (p : ptr) : Z -> list ptr := fun j => if decide (i = j) then p :: N j else N j.

(** An element is put in front of a chain. *)
Lemma chains_push s s' nb k N i p c mult :
  chains s nb k N -> 0 <= i < 2 ^ k -> (forall j, 0 <= j < 2 ^ k -> p ∉ N j) -> is_Some (handles s !! p) ->
  (forall j q, 0 <= j < 2 ^ k -> j <> i -> q ∈ N i -> q ∉ N j) ->
  bucket_links (handles s') = pushed p (N i) (bucket_links (handles s)) -> c = Z.of_nat (S (length (N i))) ->
  chains s' (<[i := mk_bucket (Some p) c mult]> nb) k (with_front N i p).
Proof.
  intros Hc Hi Hp Hs Hdis Hl -> j Hj. unfold with_front. rewrite bucket_at_insert, Hl. destruct (Hc i Hi) as [Hh Hct Hd Hn].
  destruct (decide (i = j)) as [<-|Hne].
  - split; [done|done|apply dll_pushed; [by apply bucket_lookup|by apply Hp|done|done]|]. apply NoDup_cons. split; [by apply Hp|done].
  - destruct (Hc j Hj) as [Hh' Hct' Hd' Hn']. split; [done|done| |done]. apply pushed_frame; [by apply Hp| |done].
    intros q Hq. by apply Hdis.
Qed.

Lemma chain_small s b c p : small s -> chain (bucket_links (handles s)) b c -> p ∉ c -> is_Some (handles s !! p) ->
  u32 (count b + 1) = Z.of_nat (S (length c)).
Proof.
  intros Hs [_ -> Hd Hn] Hp Hx. unfold small in Hs. assert (Hl : (length (p :: c) <= size (handles s))%nat).
  { apply list_length; [by apply NoDup_cons|]. intros q [->|Hq]%elem_of_cons; [done|]. eapply bucket_lookup, seg_in; [exact Hd|done]. }
  simpl in Hl. unfold u32. rewrite Z.mod_small; lia.
Qed.

(** The assignments that put [p] in front, in either order. *)
Lemma front_spec {A} s p l (m : M hash_state A) (Q : A -> hash_state -> Prop) :
  is_Some (handles s !! p) -> (forall q, q ∈ l -> is_Some (handles s !! q)) ->
  (forall s', beside s s' -> tables s' = tables s -> bucket_links (handles s') = pushed p l (bucket_links (handles s)) -> wpx m Q s') ->
  let link := match head l with Some q => upd_hh q (set_hh_prev (Some p)) | None => mret tt end in
  wpx (upd_hh p (set_hh_prev None);; upd_hh p (set_hh_next (head l));; link;; m) Q s /\
  wpx (upd_hh p (set_hh_next (head l));; upd_hh p (set_hh_prev None);; link;; m) Q s.
Proof.
  intros Hp Hl HQ link.
  assert (Hend : forall H1, bucket_links H1 = link_prev p None (link_next p (head l) (bucket_links (handles s))) ->
    data H1 = data (handles s) -> order_links H1 = order_links (handles s) -> (forall q, q ∈ l -> is_Some (H1 !! q)) ->
    wpx (link;; m) Q (set_handles H1 s)).
  { intros H1 Hb Hd Ho Hs. wpx_norm. apply wpx_match.
    - intros q Hq. apply wpx_upd_hh; [apply Hs; destruct l; simplify_eq/=; by left|]. apply HQ.
      + split; try done; simpl; by views.
      + done.
      + simpl. views. rewrite Hb. unfold pushed. by rewrite Hq.
    - intros Hn. apply HQ; [by split|done|]. simpl. unfold pushed. by rewrite Hb, Hn. }
  split; (wpx_norm; apply wpx_upd_hh; [done|]; wpx_norm; apply wpx_upd_hh; [by apply is_Some_alter|]; apply Hend;
    [|simpl; by views|simpl; by views|intros q Hq; by do 2 apply is_Some_alter; apply Hl]).
  - simpl. views. apply link_comm.
  - simpl. by views.
Qed.

(** Every element of the new chains is in its slot. *)
Definition placed (s : hash_state) (k : Z) (N : Z -> list ptr) : Prop :=
  forall j p, 0 <= j < 2 ^ k -> p ∈ N j -> slot s k p j.

Lemma placed_apart s k N i j q : placed s k N -> 0 <= i < 2 ^ k -> 0 <= j < 2 ^ k -> j <> i -> q ∈ N i -> q ∉ N j.
Proof. intros Hp Hi Hj Hne Hq Hq'. apply Hne. by eapply slot_fun; apply Hp. Qed.

(** What moving the elements [c] into the new buckets achieves. *)
Record moved (s : hash_state) (id : Z) (t : UT_hash_table) (k : Z) (c : list ptr) (N : Z -> list ptr)
    (nb' : gmap Z UT_hash_bucket) (s' : hash_state) : Prop := mk_moved {
  mv_beside : beside s s';
  mv_tables : exists a b, tables s' = {[id := set_ideal a b t]};
  mv_chains : exists N', chains s' nb' k N' /\ forall j p, 0 <= j < 2 ^ k -> p ∈ N' j <-> p ∈ N j \/ p ∈ c /\ slot s k p j;
  mv_rest : forall c', (forall q, q ∈ c' -> q ∉ c /\ forall j, 0 <= j < 2 ^ k -> q ∉ N j) ->
    fwd (bucket_links (handles s)) c' -> fwd (bucket_links (handles s')) c';
}.

Lemma with_front_elem N i p j q : q ∈ with_front N i p j <-> (q = p /\ j = i) \/ q ∈ N j.
Proof.
  unfold with_front. destruct (decide (i = j)) as [<-|Hne]; rewrite ?elem_of_cons; [tauto|].
  split; [auto|]. intros [[_ ->]|?]; done.
Qed.

(** One element moved, then the others. *)
Lemma moved_cons s id t k p c N i nb' s2 s' a1 b1 :
  beside s s2 -> bucket_links (handles s2) = pushed p (N i) (bucket_links (handles s)) -> slot s k p i -> 0 <= i < 2 ^ k ->
  moved s2 id (set_ideal a1 b1 t) k c (with_front N i p) nb' s' -> moved s id t k (p :: c) N nb' s'.
Proof.
  intros Hb Hl Hsl Hi [Hmb [a2 [b2 Hmt]] [N' [Hmc Hmm]] Hmr]. split.
  - by eapply beside_trans.
  - by exists a2, b2.
  - exists N'. split; [done|]. intros j q Hj. rewrite Hmm, with_front_elem, elem_of_cons, (beside_slot _ _ _ _ _ Hb) by done. split.
    + intros [[[-> ->]|Hq]|[Hq Hs]]; [right; split; [by left|done]|by left|right; split; [by right|done]].
    + intros [Hq|[[->|Hq] Hs]]; [left; by right|left; left; split; [done|by eapply slot_fun]|by right].
  - intros c' Hc' Hfw. apply Hmr.
    + intros q Hq. destruct (Hc' q Hq) as [Hq1 Hq2]. apply not_elem_of_cons in Hq1 as [Hqp Hqc]. split; [done|].
      intros j Hj. rewrite with_front_elem. intros [[-> _]|Hin]; [done|]. by apply (Hq2 j).
    + eapply fwd_frame; [|exact Hfw]. intros q Hq. destruct (Hc' q Hq) as [Hq1 Hq2]. apply not_elem_of_cons in Hq1 as [Hqp _].
      rewrite Hl. apply pushed_other; [done|]. intros y Hy ->. by apply (Hq2 i Hi).
Qed.

(** What the loop over a chain starts from. *)
Record movable (s : hash_state) (id : Z) (t : UT_hash_table) (k : Z) (c : list ptr) (nb : gmap Z UT_hash_bucket)
    (N : Z -> list ptr) : Prop := mk_movable {
  ma_tables : tables s = {[id := t]};
  ma_fwd : fwd (bucket_links (handles s)) c;
  ma_nodup : NoDup c;
  ma_elements : forall p, p ∈ c -> exists v, element s id p v;
  ma_chains : chains s nb k N;
  ma_placed : placed s k N;
  ma_apart : forall j p, 0 <= j < 2 ^ k -> p ∈ c -> p ∉ N j;
}.

Lemma movable_cons s id t k p c nb N i s2 t2 mult :
  movable s id t k (p :: c) nb N -> beside s s2 -> tables s2 = {[id := t2]} ->
  bucket_links (handles s2) = pushed p (N i) (bucket_links (handles s)) -> slot s k p i -> 0 <= i < 2 ^ k ->
  movable s2 id t2 k c (<[i := mk_bucket (Some p) (Z.of_nat (S (length (N i)))) mult]> nb) (with_front N i p).
Proof.
  intros [Ht Hf Hnd He Hch Hpl Hdis] Hb Ht2 Hl Hsl Hi. apply NoDup_cons in Hnd as [Hpc Hnd]. destruct Hf as [_ Hf].
  destruct (He p) as [v Hv]; [by left|].
  assert (Hpn : forall j, 0 <= j < 2 ^ k -> p ∉ N j) by (intros j Hj; apply Hdis; [done|by left]). split.
  - done.
  - eapply fwd_frame; [|exact Hf]. intros q Hq. rewrite Hl. apply pushed_other; [by intros ->|].
    intros y Hy ->. apply (Hdis i y Hi); [by right|done].
  - done.
  - intros q Hq. destruct (He q) as [w Hw]; [by right|]. exists w. by eapply beside_element.
  - apply (chains_push s); [done|done|done|by eapply element_some| |done|done]. intros j q Hj Hne. by eapply placed_apart.
  - intros j q Hj. rewrite with_front_elem, (beside_slot _ _ _ _ _ Hb). intros [[-> ->]|Hq]; [done|by apply Hpl].
  - intros j q Hj Hq. rewrite with_front_elem. intros [[-> _]|Hq']; [done|]. apply (Hdis j q Hj); [by right|done].
Qed.

Lemma double_pow k : 1 <= k -> 2 ^ (k - 1) * 2 = 2 ^ k.
Proof. intros Hk. replace k with (Z.succ (k - 1)) at 2 by lia. rewrite Z.pow_succ_r; lia. Qed.

Lemma move_chain_spec id k c s t n nb N :
  movable s id t k c nb N -> num_buckets t = 2 ^ (k - 1) -> 1 <= k <= 31 -> small s -> (length c <= n)%nat ->
  wpx (move_chain n id (head c) nb) (moved s id t k c N) s.
Proof.
  revert s t n nb N. induction c as [|p c IH]; intros s t n nb N Hmov Hnum Hk Hsm Hn.
  - destruct Hmov as [Ht _ _ _ Hch _ _]. destruct n; simpl; wpx_norm; split; try done; try (by destruct t; eexists _, _);
      exists N; (split; [done|]); intros j q _; (split; [by left|]); intros [?|[?%elem_of_nil _]]; done.
  - destruct n as [|n]; simpl in Hn; [lia|]. pose proof Hmov as [Ht [[a Hpl'] _] _ He Hch _ Hdis].
    destruct (He p) as [v Hv]; [by left|]. destruct (element_handle _ _ _ _ Hv) as (x & Hx & _ & _ & _ & Hh).
    assert (Hnx : hh_next x = head c) by (unfold bucket_links in Hpl'; rewrite lookup_fmap, Hx in Hpl'; by injection Hpl').
    set (i := HASH_VALUE (va_bytes v) mod 2 ^ k). assert (Hi : 0 <= i < 2 ^ k) by (apply mod_range; lia).
    assert (Hsl : slot s k p i) by by eapply slot_element.
    assert (Hpn : p ∉ N i) by (apply Hdis; [done|by left]). destruct (Hch i Hi) as [Hhd _ Hdl _].
    cbn [move_chain head]. wpx_norm. apply (wpx_the_hh p x); [done|]. wpx_norm. apply (wpx_the_tbl id t); [done|].
    rewrite Hh, Hnum, Hnx, double_pow, pow_u32, in_bucket by lia. fold i.
    rewrite (chain_small s _ (N i) p Hsm (Hch i Hi) Hpn), Hhd by by eapply element_some. wpx_norm.
    set (over := _ <? Z.of_nat _). set (mult := if _ && _ then _ else _).
    set (rest := move_chain n id (head c) _).
    assert (Hgo : forall a1 b1 s1, tables s1 = {[id := set_ideal a1 b1 t]} -> s1 = set_tables (tables s1) s ->
      wpx (upd_hh p (set_hh_prev None);; upd_hh p (set_hh_next (head (N i)));;
        (match head (N i) with Some q => upd_hh q (set_hh_prev (Some p)) | None => mret tt end);; rest) (moved s id t k (p :: c) N) s1).
    { intros a1 b1 s1 Ht1 Hs1. apply front_spec.
      - rewrite Hs1. by eapply element_some.
      - intros q Hq. rewrite Hs1. eapply bucket_lookup, seg_in; [exact Hdl|done].
      - intros s2 Hb2 Ht2 Hl2. assert (Hb : beside s s2) by (eapply beside_trans; [|exact Hb2]; by rewrite Hs1).
        replace (bucket_links (handles s1)) with (bucket_links (handles s)) in Hl2 by by rewrite Hs1.
        eapply wpx_mono; [apply (IH s2 (set_ideal a1 b1 t) n _ (with_front N i p))|].
        + eapply movable_cons; [exact Hmov|done|by rewrite Ht2|done..].
        + done.
        + done.
        + by eapply beside_small.
        + lia.
        + intros nb' s'. by apply moved_cons. }
    apply wpx_when; intros _.
    + apply (wpx_upd_tbl id t); [done|]. by apply (Hgo (ideal_chain_maxlen t) (u32 (nonideal_items t + 1))).
    + apply (Hgo (ideal_chain_maxlen t) (nonideal_items t)); [by destruct t|by destruct s].
Qed.

(** ** Expanding the table *)

(** The old buckets from [i] on, while the others are moved. *)
Record pending (s : hash_state) (id : Z) (t : UT_hash_table) (k i : Z) (C : Z -> list ptr) (nb : gmap Z UT_hash_bucket)
    (N : Z -> list ptr) : Prop := mk_pending {
  pe_tables : tables s = {[id := t]};
  pe_heads : forall j, i <= j < 2 ^ (k - 1) -> hh_head (bucket_at (buckets t) j) = head (C j);
  pe_fwd : forall j, i <= j < 2 ^ (k - 1) -> fwd (bucket_links (handles s)) (C j);
  pe_nodup : forall j, i <= j < 2 ^ (k - 1) -> NoDup (C j);
  pe_elements : forall j p, i <= j < 2 ^ (k - 1) -> p ∈ C j -> exists v, element s id p v;
  pe_apart : forall j p j', i <= j < 2 ^ (k - 1) -> p ∈ C j -> 0 <= j' < 2 ^ k -> p ∉ N j';
  pe_disjoint : forall j j' p, i <= j < 2 ^ (k - 1) -> i <= j' < 2 ^ (k - 1) -> p ∈ C j -> p ∈ C j' -> j = j';
  pe_chains : chains s nb k N;
  pe_placed : placed s k N;
}.

Definition moved_all (s : hash_state) (id : Z) (t : UT_hash_table) (k i : Z) (C N : Z -> list ptr)
    (nb' : gmap Z UT_hash_bucket) (s' : hash_state) : Prop :=
  beside s s' /\ (exists a b, tables s' = {[id := set_ideal a b t]}) /\
  exists N', chains s' nb' k N' /\ forall j p, 0 <= j < 2 ^ k ->
    p ∈ N' j <-> p ∈ N j \/ exists j0, i <= j0 < 2 ^ (k - 1) /\ p ∈ C j0 /\ slot s k p j.

Lemma pending_next s id t k i C nb N nb' s' :
  pending s id t k i C nb N -> i < 2 ^ (k - 1) -> moved s id t k (C i) N nb' s' ->
  exists N' a b, pending s' id (set_ideal a b t) k (i + 1) C nb' N' /\
    forall j p, 0 <= j < 2 ^ k -> p ∈ N' j <-> p ∈ N j \/ p ∈ C i /\ slot s k p j.
Proof.
  intros [Ht Hh Hf Hn He Ha Hd Hc Hp] Hi [Hb (a & b & Ht') (N' & Hc' & HN) Hr]. exists N', a, b. split; [|done].
  assert (Hne : forall j p, i + 1 <= j < 2 ^ (k - 1) -> p ∈ C j -> p ∉ C i).
  { intros j p Hj Hq Hq'. assert (i = j) by (apply (Hd i j p); [lia|lia|done|done]). lia. }
  split.
  - done.
  - intros j Hj. apply Hh. lia.
  - intros j Hj. apply Hr; [|apply Hf; lia]. intros q Hq. split; [by apply (Hne j)|]. intros j' Hj'. apply (Ha j); [lia|done|done].
  - intros j Hj. apply Hn. lia.
  - intros j p Hj Hq. destruct (He j p) as [v Hv]; [lia|done|]. exists v. by eapply beside_element.
  - intros j p j' Hj Hq Hj' Hin. apply HN in Hin as [Hin|[Hin _]]; [|by apply (Hne j p)|done]. apply (Ha j p j'); [lia|done..].
  - intros j j' p Hj Hj'. apply Hd; lia.
  - done.
  - intros j p Hj Hin. apply (beside_slot _ _ _ _ _ Hb). apply HN in Hin as [Hin|[_ Hs]]; [by apply Hp|done|done].
Qed.

Lemma move_buckets_spec id k C n s t i nb N :
  pending s id t k i C nb N -> num_buckets t = 2 ^ (k - 1) -> 1 <= k <= 31 -> small s -> 0 <= i -> Z.of_nat n = 2 ^ (k - 1) - i ->
  wpx (move_buckets n id i nb) (moved_all s id t k i C N) s.
Proof.
  revert s t i nb N. induction n as [|n IH]; intros s t i nb N Hpe Hnum Hk Hsm Hi Hn; cbn [move_buckets]; wpx_norm.
  - split; [done|]. split; [rewrite (pe_tables _ _ _ _ _ _ _ _ Hpe); destruct t; by eexists _, _|].
    exists N. split; [apply Hpe|]. intros j p Hj. split; [by left|]. intros [?|(j0 & ? & _)]; [done|lia].
  - pose proof Hpe as [Ht Hh Hf Hnd He Ha Hd Hc Hp]. assert (Hlt : i < 2 ^ (k - 1)) by lia.
    apply (wpx_the_bucket id t); [done|lia|]. unfold chain_fuel. wpx_norm. rewrite Hh by lia.
    eapply wpx_mono; [eapply (move_chain_spec id k (C i) s t)|].
    + split; [done|apply Hf; lia|apply Hnd; lia|intros p Hq; apply (He i); [lia|done]|done|done|].
      intros j p Hj Hq. apply (Ha i); [lia|done|done].
    + done.
    + done.
    + done.
    + apply le_S, list_length; [apply Hnd; lia|]. intros p Hq. destruct (He i p) as [v Hv]; [lia|done|]. by eapply element_some.
    + intros nb1 s1 Hm. destruct (pending_next _ _ _ _ _ _ _ _ _ _ Hpe Hlt Hm) as (N1 & a & b & Hpe1 & HN1).
      pose proof (mv_beside _ _ _ _ _ _ _ _ Hm) as Hb. simpl in Hn.
      eapply wpx_mono; [apply (IH s1 _ (i + 1) nb1 N1 Hpe1); [done|done|by eapply beside_small|lia|lia]|].
      intros nb' s' (Hb' & (a2 & b2 & Ht2) & N2 & Hc2 & HN2). split; [by eapply beside_trans|]. split; [by exists a2, b2|].
      exists N2. split; [done|]. intros j p Hj. rewrite HN2, HN1 by done. split.
      * intros [[?|[? ?]]|(j0 & ? & ? & Hs)]; [by left|right; exists i; split_and!; [lia|lia|done|done]|].
        right. exists j0. split; [lia|]. split; [done|]. by apply (beside_slot _ _ _ _ _ Hb).
      * intros [?|(j0 & Hj0 & ? & Hs)]; [by left; left|]. destruct (decide (j0 = i)) as [->|Hne]; [left; by right|].
        right. exists j0. split; [lia|]. split; [done|]. by apply (beside_slot _ _ _ _ _ Hb).
Qed.

Lemma full_pending s id t k l C m ms t1 :
  full s id t k l C m -> buckets t1 = buckets t ->
  pending (set_tables {[id := t1]} (set_mallocs ms s)) id t1 (k + 1) 0 C ∅ (fun _ => []).
Proof.
  intros Hf Hb1. assert (Ek : k + 1 - 1 = k) by lia. split; rewrite ?Ek.
  - done.
  - intros j Hj. rewrite Hb1. by apply (fu_chains _ _ _ _ _ _ _ Hf).
  - intros j Hj. eapply seg_fwd. by apply (fu_chains _ _ _ _ _ _ _ Hf).
  - intros j Hj. by apply (fu_chains _ _ _ _ _ _ _ Hf).
  - intros j p Hj Hp. apply (fu_elements _ _ _ _ _ _ _ Hf). by apply (fu_members _ _ _ _ _ _ _ Hf j p Hj).
  - intros j p j' _ _ _. apply not_elem_of_nil.
  - intros j j' p Hj Hj' Hp Hp'. apply (fu_members _ _ _ _ _ _ _ Hf) in Hp as [_ Hs]; [|done].
    apply (fu_members _ _ _ _ _ _ _ Hf) in Hp' as [_ Hs']; [|done]. by eapply slot_fun.
  - intros j Hj. split; [done|done|done|apply NoDup_nil_2].
  - intros j p _ Hp. by apply elem_of_nil in Hp.
Qed.

(** Nothing but the array and its size is different. *)
Lemma full_rebucket s s' id t t' k l C N' m :
  full s id t k l C m -> beside s s' -> tables s' = {[id := t']} -> chains s' (buckets t') (k + 1) N' -> k < 31 ->
  (forall j p, 0 <= j < 2 ^ (k + 1) -> p ∈ N' j <-> exists j0, 0 <= j0 < 2 ^ k /\ p ∈ C j0 /\ slot s (k + 1) p j) ->
  tail t' = tail t -> num_items t' = num_items t -> num_buckets t' = 2 ^ (k + 1) -> log2_num_buckets t' = k + 1 ->
  full s' id t' (k + 1) l N' m.
Proof.
  intros [Hpg Hsome Ht Htl Hit Hnb Hlog Hr Hord Hnd Hel Hch Hmem Hmap] Hb Ht' Hc Hk HN Htl' Hit' Hnb' Hlog'.
  pose proof Hb as [Ep Ev Ed Eo]. split; try congruence; try done.
  - lia.
  - intros p Hp. destruct (Hel p Hp) as [v Hv]. exists v. by eapply beside_element.
  - intros j p Hj. rewrite HN, (beside_slot _ _ _ _ _ Hb) by done. split.
    + intros (j0 & Hj0 & Hp & Hs). split; [by apply (Hmem j0 p Hj0)|done].
    + intros [Hp Hs]. destruct (Hel p Hp) as [v Hv]. exists (HASH_VALUE (va_bytes v) mod 2 ^ k).
      assert (0 <= HASH_VALUE (va_bytes v) mod 2 ^ k < 2 ^ k) by (apply mod_range; lia).
      split; [done|]. split; [|done]. apply Hmem; [done|]. split; [done|]. by eapply slot_element.
  - intros v p. by rewrite Ev.
Qed.

Lemma expand_spec mb s id t k l C m :
  mb <= 2 ^ 36 -> small s -> full s id t k l C m ->
  wpx (HASH_EXPAND_BUCKETS mb id) (fun _ s' => beside s s' /\ exists t' k' C', full s' id t' k' l C' m) s.
Proof.
  intros Hmb Hsm Hf. pose proof (fu_tables _ _ _ _ _ _ _ Hf) as Ht. pose proof (fu_buckets _ _ _ _ _ _ _ Hf) as Hnb.
  pose proof (fu_range _ _ _ _ _ _ _ Hf) as Hr.
  unfold HASH_EXPAND_BUCKETS. wpx_norm. apply (wpx_the_tbl id t); [done|]. wpx_norm. apply wpx_malloc; [|done].
  intros new ms Hnew Hsz. replace (new =? 0) with false by lia. wpx_norm.
  assert (Hk : k < 31).
  { destruct (Z.eq_dec k 31) as [->|]; [|lia]. rewrite Hnb in Hsz. unfold sizeof_UT_hash_bucket in Hsz. lia. }
  eapply (wpx_upd_tbl id t); [done|]. set (t1 := set_ideal _ _ t). wpx_norm.
  eapply wpx_mono; [apply (move_buckets_spec id (k + 1) C _ _ t1)|].
  - by apply (full_pending _ _ t _ l _ m).
  - simpl. rewrite Hnb. f_equal. lia.
  - lia.
  - done.
  - lia.
  - rewrite Hnb, Z2Nat.id by lia. replace (k + 1 - 1) with k by lia. lia.
  - intros nb s1 (Hb & (a & b & Ht1) & N' & Hc & HN). wpx_norm. eapply wpx_the_tbl; [exact Ht1|]. wpx_norm.
    eapply wpx_upd_tbl; [exact Ht1|]. wpx_norm.
    assert (Hb' : beside s s1) by (eapply beside_trans; [|exact Hb]; done). split; [by eapply beside_trans|].
    set (t' := mk_table _ _ _ _ _ _ _ _ _). exists t', (k + 1), N'.
    apply (full_rebucket s _ id t t' k l C N' m); try done.
    + destruct Hb' as []. by split.
    + intros j p Hj. rewrite HN by done. replace (k + 1 - 1) with k by lia. split; [|by right].
      intros [?%elem_of_nil|Hex]; [done|]. exact Hex.
    + simpl. rewrite Hnb, <- (double_pow (k + 1)) by lia. replace (k + 1 - 1) with k by lia.
      replace (2 ^ k * 2) with (2 ^ (k + 1)) by (rewrite Z.pow_add_r; lia). apply pow_u32. lia.
    + simpl. rewrite (fu_log _ _ _ _ _ _ _ Hf). apply Z.mod_small. lia.
Qed.

(** ** Adding *)

(** [add] is in the list of all elements, not in a bucket yet. *)
Record listed (s : hash_state) (id : Z) (t : UT_hash_table) (k : Z) (l : list ptr) (add : ptr) (v : Z) (C : Z -> list ptr) : Prop := mk_listed {
  li_pages : pages s = head (l ++ [add]);
  li_tables : tables s = {[id := t]};
  li_tail : tail t = Some add;
  li_items : num_items t = Z.of_nat (length l);
  li_buckets : num_buckets t = 2 ^ k;
  li_log : log2_num_buckets t = k;
  li_range : 0 <= k <= 31;
  li_order : dll (order_links (handles s)) (l ++ [add]);
  li_nodup : NoDup (l ++ [add]);
  li_new : element s id add v;
  li_elements : forall p, p ∈ l -> exists w, element s id p w;
  li_chains : chains s (buckets t) k C;
  li_members : forall j p, 0 <= j < 2 ^ k -> p ∈ C j <-> p ∈ l /\ slot s k p j;
}.

Lemma listed_elements s id t k l add v C : listed s id t k l add v C -> forall p, p ∈ l ++ [add] -> exists w, element s id p w.
Proof.
  intros Hl p [Hp|Hp]%elem_of_app; [by eapply li_elements|]. apply list_elem_of_singleton in Hp as ->. exists v. by eapply li_new.
Qed.

Lemma listed_items s id t k l add v C : listed s id t k l add v C -> small s -> u32 (num_items t + 1) = Z.of_nat (length (l ++ [add])).
Proof.
  intros Hl Hs. rewrite (li_items _ _ _ _ _ _ _ _ Hl).
  assert (length (l ++ [add]) <= size (handles s))%nat.
  { apply list_length; [by eapply li_nodup|]. intros p Hp. destruct (listed_elements _ _ _ _ _ _ _ _ Hl p Hp) as [w Hw]. by eapply element_some. }
  unfold small, u32 in *. rewrite length_app in *. simpl in *. rewrite Z.mod_small; lia.
Qed.

(** The element is in its bucket. *)
Lemma listed_full s s' id t t' k l add v C m c mult :
  listed s id t k l add v C -> small s -> beside s s' -> tables s' = {[id := t']} -> let i := HASH_VALUE (va_bytes v) mod 2 ^ k in
  bucket_links (handles s') = pushed add (C i) (bucket_links (handles s)) ->
  buckets t' = <[i := mk_bucket (Some add) c mult]> (buckets t) -> c = Z.of_nat (S (length (C i))) ->
  tail t' = tail t -> num_items t' = u32 (num_items t + 1) -> num_buckets t' = num_buckets t -> log2_num_buckets t' = log2_num_buckets t ->
  (forall w p, m !! w = Some p <-> p ∈ l ++ [add] /\ va_of s !! p = Some w) ->
  full s' id t' k (l ++ [add]) (with_front C i add) m.
Proof.
  intros Hl Hsm Hb Ht' i Hlk Hbk Hc Htl Hit Hnb Hlog Hmap. pose proof Hb as [Ep Ev Ed Eo].
  pose proof Hl as [Hpg Ht Htl0 Hit0 Hnb0 Hlog0 Hr Hord Hnd Hnew Hel Hch Hmem].
  assert (Hsl : slot s k add i) by by eapply slot_element.
  assert (Hi : 0 <= i < 2 ^ k) by (apply mod_range; lia).
  assert (Hal : add ∉ l) by (apply NoDup_app in Hnd as (_ & Hn & _); intros Hin; apply (Hn add Hin); by left).
  split.
  - by rewrite Ep.
  - by intros [_ ?]%app_nil.
  - done.
  - by rewrite Htl, last_snoc.
  - rewrite Hit. by eapply listed_items.
  - by rewrite Hnb.
  - by rewrite Hlog.
  - done.
  - by rewrite Eo.
  - done.
  - intros p Hp. destruct (listed_elements _ _ _ _ _ _ _ _ Hl p Hp) as [w Hw]. exists w. by eapply beside_element.
  - rewrite Hbk. apply (chains_push s); [done|done| |by eapply element_some| |done|done].
    + intros j Hj Hin. apply Hal. by apply (Hmem j add Hj).
    + intros j q Hj Hne Hq Hq'. apply Hne. apply (Hmem i q Hi) in Hq as [_ H1]. apply (Hmem j q Hj) in Hq' as [_ H2]. by eapply slot_fun.
  - intros j p Hj. rewrite with_front_elem, Hmem, (beside_slot _ _ _ _ _ Hb), elem_of_app, list_elem_of_singleton by done. split.
    + intros [[-> ->]|[? ?]]; [split; [by right|done]|split; [by left|done]].
    + intros [[? | ->] Hs]; [by right|]. left. split; [done|]. by eapply slot_fun.
  - intros w p. by rewrite Ev.
Qed.

Lemma add_to_table_spec mb s id t k l add v C m :
  mb <= 2 ^ 36 -> small s -> listed s id t k l add v C ->
  (forall w p, m !! w = Some p <-> p ∈ l ++ [add] /\ va_of s !! p = Some w) ->
  wpx (HASH_ADD_TO_TABLE mb (HASH_VALUE (va_bytes v)) add) (fun _ s' => beside s s' /\ exists t' k' C', full s' id t' k' (l ++ [add]) C' m) s.
Proof.
  intros Hmb Hsm Hl Hmap. pose proof Hl as [Hpg Ht Htl Hit Hnb Hlog Hr Hord Hnd Hnew Hel Hch Hmem].
  set (i := HASH_VALUE (va_bytes v) mod 2 ^ k). assert (Hi : 0 <= i < 2 ^ k) by (apply mod_range; lia).
  assert (Hal : add ∉ C i).
  { intros Hin. apply (Hmem i add Hi) in Hin as [Hin _]. apply NoDup_app in Hnd as (_ & Hn & _). apply (Hn add Hin). by left. }
  destruct (element_handle _ _ _ _ Hnew) as (xa & Hxa & Hida & _).
  unfold HASH_ADD_TO_TABLE. wpx_norm.
  assert (Hhead : exists h x, pages s = Some h /\ handles s !! h = Some x /\ tbl x = id).
  { destruct (l ++ [add]) as [|h l'] eqn:E; [by apply app_nil in E as [_ ?]|]. destruct (listed_elements _ _ _ _ _ _ _ _ Hl h) as [w Hw]; [rewrite E; by left|].
    destruct (element_handle _ _ _ _ Hw) as (x & Hx & Hid & _). by exists h, x. }
  destruct Hhead as (h & x & Hh & Hx & Hid). apply (wpx_head_tbl h x); [done|done|]. rewrite Hid.
  wpx_norm. apply (wpx_upd_tbl id t); [done|]. wpx_norm. eapply wpx_the_tbl; [reflexivity|]. cbn [num_buckets set_num_items]. rewrite Hnb, in_bucket by done.
  fold i. unfold HASH_ADD_TO_BKT. wpx_norm. eapply (wpx_upd_bucket id); [reflexivity|cbn [num_buckets set_num_items set_buckets]; rewrite Hnb; exact Hi|]. wpx_norm.
  eapply (wpx_the_bucket id); [reflexivity|cbn [num_buckets set_num_items set_buckets]; rewrite Hnb; exact Hi|]. cbn [buckets set_num_items set_buckets]. rewrite bucket_at_insert, decide_True by done.
  pose proof (Hch i Hi) as [Hhd Hct Hdl Hcn]. cbn [hh_head set_count]. rewrite Hhd.
  rewrite (chain_small s _ (C i) add Hsm (Hch i Hi) Hal) by by eapply element_some.
  set (t0 := set_buckets _ _). cbv beta. apply front_spec.
  - by exists xa.
  - intros q Hq. eapply bucket_lookup, seg_in; [exact Hdl|done].
  - intros s2 Hb2 Ht2 Hlk2. do 2 apply beside_tables_l in Hb2. wpx_norm.
    eapply (wpx_upd_bucket id); [rewrite Ht2; reflexivity|cbn [num_buckets set_num_items set_buckets t0]; rewrite Hnb; exact Hi|].
    set (t1 := set_buckets _ t0). set (s3 := set_tables _ s2). wpx_norm.
    assert (Hb3 : beside s s3) by by apply beside_tables_r.
    destruct (element_handle s3 id add v) as (x3 & Hx3 & Hid3 & _); [by eapply beside_element|].
    apply (wpx_the_hh add x3); [done|]. wpx_norm. rewrite Hid3. apply (wpx_the_tbl id t1); [reflexivity|].
    assert (Hfull : full s3 id t1 k (l ++ [add]) (with_front C i add) m).
    { eapply (listed_full s s3 id t t1 k l add v C m _ (expand_mult (bucket_at (buckets t) i))); try done.
      unfold t1, t0. cbn [buckets set_buckets set_num_items]. rewrite insert_insert_eq, bucket_at_insert, decide_True by done.
      unfold set_hh_head, set_count. cbn [count expand_mult]. done. }
    apply wpx_when; intros _.
    + eapply wpx_mono; [apply (expand_spec mb s3 id t1 k (l ++ [add]) (with_front C i add) m); [done|by eapply beside_small|done]|].
      intros _ s4 [Hb4 Hex]. split; [by eapply beside_trans|done].
    + split; [done|]. by exists t1, k, (with_front C i add).
Qed.

(** The descriptors are the same ones, with the same addresses. *)
Record same_pages (s s' : hash_state) : Prop := mk_same_pages {
  sp_va : va_of s' = va_of s;
  sp_dom : dom (handles s') = dom (handles s);
}.

Lemma beside_same s s' : beside s s' -> same_pages s s'.
Proof.
  intros [_ Hv Hd _]. split; [done|]. apply (f_equal dom) in Hd. unfold data in Hd. by rewrite !dom_fmap_L in Hd.
Qed.

Lemma same_trans s1 s2 s3 : same_pages s1 s2 -> same_pages s2 s3 -> same_pages s1 s3.
Proof. intros [] []. split; congruence. Qed.

Lemma same_small s s' : same_pages s s' -> small s -> small s'.
Proof. intros [_ Hd]. unfold small. by rewrite <- !size_dom, Hd. Qed.

Lemma data_set_key k l v p H : data (alter (set_key k l v) p H) = alter (fun d => (d.1.1.1, k, l, v)) p (data H).
Proof. by apply fmap_alter. Qed.
Lemma data_set_tbl z p H : data (alter (set_tbl z) p H) = alter (fun d => (z, d.1.1.2, d.1.2, d.2)) p (data H).
Proof. by apply fmap_alter. Qed.

(** An element whose handle has been filled in. *)
Lemma element_new s s' id p v x :
  handles s !! p = Some x -> va_of s !! p = Some v -> in_u64 v -> va_of s' = va_of s ->
  data (handles s') = alter (fun d => (id, d.1.1.2, d.1.2, d.2)) p (alter (fun d => (d.1.1.1, Some p, 8, HASH_VALUE (va_bytes v))) p (data (handles s))) ->
  element s' id p v /\ forall q w i, q <> p -> element s i q w -> element s' i q w.
Proof.
  intros Hx Hv Hu Hva Hd. unfold element. rewrite Hva, Hd. split.
  - rewrite !lookup_alter_eq. unfold data. rewrite lookup_fmap, Hx. done.
  - intros q w i Hne. by rewrite !lookup_alter_ne.
Qed.

Section adding.
Variables nb lb mb : Z.
Hypothesis initial : nb = 2 ^ lb.
Hypothesis initial_range : 0 <= lb <= 31.
Hypothesis block : mb <= 2 ^ 36.

Lemma add_first s v add :
  pages s = None -> tables s = ∅ -> va_of s !! add = Some v -> in_u64 v -> is_Some (handles s !! add) -> small s ->
  wpx (HASH_ADD nb lb mb add) (fun _ s' => same_pages s s' /\ exists id t k C, full s' id t k [add] C {[v := add]}) s.
Proof.
  intros Hpg Ht Hv Hu [x Hx] Hsm. unfold HASH_ADD. wpx_norm. apply (wpx_the_key add v); [done|]. wpx_norm.
  apply wpx_upd_hh; [by exists x|]. wpx_norm. simpl. rewrite Hpg. wpx_norm.
  apply wpx_upd_hh; [by apply is_Some_alter; exists x|]. wpx_norm. apply wpx_upd_hh; [by do 2 apply is_Some_alter; exists x|].
  unfold HASH_MAKE_TABLE. wpx_norm. apply wpx_malloc.
  - intros id ms Hid _. wpx_norm. apply wpx_upd_hh; [by do 3 apply is_Some_alter; exists x|].
    replace (id =? 0) with false by lia. wpx_norm. simpl. rewrite Ht, insert_empty.
    eapply wpx_upd_tbl; [reflexivity|]. wpx_norm. apply wpx_malloc; [|done]. intros b ms' Hb _. replace (b =? 0) with false by lia.
    wpx_norm. simpl. set (t := mk_table _ _ _ _ _ _ _ _ _). set (s1 := set_pages _ _).
    assert (Hs1 : same_pages s s1) by (split; [done|]; simpl; by rewrite !dom_alter_L).
    destruct (element_new s s1 id add v x Hx Hv Hu eq_refl) as [Hnew _].
    { simpl. rewrite data_set_tbl. f_equal. views. apply data_set_key. }
    eapply wpx_mono; [apply (add_to_table_spec mb s1 id t lb [] add v (fun _ => []) {[v := add]}); [done|by eapply same_small| |]|].
    + split; try done.
      * unfold dll. simpl. split; [|done]. views. unfold link_prev, link_next. rewrite !lookup_alter_eq. unfold order_links.
        rewrite lookup_fmap, Hx. done.
      * apply NoDup_singleton.
      * intros p Hp. by apply elem_of_nil in Hp.
      * intros j Hj. split; [done|done|done|apply NoDup_nil_2].
      * intros j p Hj. split; [by intros ?%elem_of_nil|by intros [?%elem_of_nil _]].
    + intros w p. change ([] ++ [add]) with [add]. rewrite lookup_singleton_Some, list_elem_of_singleton. simpl. split; [intros [<- <-]; done|].
      intros [-> Hw]. split; congruence.
    + intros _ s' (Hb' & t' & k' & C' & Hf). split; [eapply same_trans; [exact Hs1|by apply beside_same]|]. by exists id, t', k', C'.
  - intros ms. wpx_norm. apply wpx_upd_hh; [by do 3 apply is_Some_alter; exists x|]. simpl. wpx_norm. done.
Qed.
(** What [HASH_ADD] does to the handles before the bucket. *)
Definition listing (id hash : Z) (add : ptr) (l : list ptr) (H : gmap ptr UT_hash_handle) : gmap ptr UT_hash_handle :=
  let H := alter (set_next None) add (alter (set_tbl id) add (alter (set_key (Some add) 8 hash) add H)) in
  let H := alter (set_prev (last l)) add H in
  match last l with Some q => alter (set_next (Some add)) q H | None => H end.

Lemma listing_order id hash add l H : order_links (listing id hash add l H) = appended add l (order_links H).
Proof. unfold listing, appended. destruct (last l); by views. Qed.
Lemma listing_bucket id hash add l H : bucket_links (listing id hash add l H) = bucket_links H.
Proof. unfold listing. destruct (last l); by views. Qed.
Lemma listing_data id hash add l H :
  data (listing id hash add l H) = alter (fun d => (id, d.1.1.2, d.1.2, d.2)) add (alter (fun d => (d.1.1.1, Some add, 8, hash)) add (data H)).
Proof. unfold listing. destruct (last l); views; by rewrite data_set_tbl, data_set_key. Qed.
Lemma listing_dom id hash add l H : dom (listing id hash add l H) = dom H.
Proof. unfold listing. destruct (last l); by rewrite !dom_alter_L. Qed.

Lemma listing_listed s id t k l C m v add :
  full s id t k l C m -> va_of s !! add = Some v -> in_u64 v -> add ∉ l -> is_Some (handles s !! add) ->
  let s1 := set_tables {[id := set_tail (Some add) t]} (set_handles (listing id (HASH_VALUE (va_bytes v)) add l (handles s)) s) in
  same_pages s s1 /\ listed s1 id (set_tail (Some add) t) k l add v C.
Proof.
  intros [Hpg Hsome Ht Htl Hit Hnb Hlog Hr Hord Hnd Hel Hch Hmem _] Hv Hu Hal [x Hx] s1.
  destruct (element_new s s1 id add v x Hx Hv Hu eq_refl (listing_data _ _ _ _ _)) as [Hnew Hold].
  split; [split; [done|apply listing_dom]|]. split; try done.
  - simpl. rewrite Hpg. by destruct l.
  - simpl. rewrite listing_order. apply dll_appended; [by apply order_lookup; exists x|done..].
  - apply NoDup_app. split; [done|]. split; [|apply NoDup_singleton]. intros p Hp Hin. apply list_elem_of_singleton in Hin as ->. done.
  - intros p Hp. destruct (Hel p Hp) as [w Hw]. exists w. apply Hold; [by intros ->|done].
  - intros j Hj. simpl. rewrite listing_bucket. by apply Hch.
Qed.

Lemma append_run {A} s id t l add (rest : M hash_state A) (Q : A -> hash_state -> Prop) h xh q :
  pages s = Some h -> handles s !! h = Some xh -> tbl xh = id -> h <> add -> tables s = {[id := t]} -> tail t = Some q -> last l = Some q ->
  is_Some (handles s !! add) -> is_Some (handles s !! q) ->
  let H := alter (set_next None) add (handles s) in
  let H := alter (set_next (Some add)) q (alter (set_prev (last l)) add H) in
  wpx rest Q (set_tables {[id := set_tail (Some add) t]} (set_handles H s)) -> wpx (HASH_APPEND_LIST add;; rest) Q s.
Proof.
  intros Hpg Hh Hid Hne Ht Htl Hl Ha Hq H H' Hrest. unfold HASH_APPEND_LIST. wpx_norm. apply wpx_upd_hh; [done|]. wpx_norm.
  apply (wpx_head_tbl h xh); [done|simpl; by rewrite lookup_alter_ne|]. rewrite Hid. wpx_norm. apply (wpx_the_tbl id t); [done|]. wpx_norm.
  apply wpx_upd_hh; [by apply is_Some_alter|]. wpx_norm. apply wpx_deref with q; [done|]. wpx_norm.
  apply wpx_upd_hh; [by do 2 apply is_Some_alter|]. wpx_norm. apply (wpx_upd_tbl id t); [done|].
  unfold H', H in Hrest. rewrite Hl in Hrest. rewrite Htl. exact Hrest.
Qed.

Lemma add_more s id t k l C m v add :
  full s id t k l C m -> va_of s !! add = Some v -> in_u64 v -> m !! v = None -> add ∉ l -> is_Some (handles s !! add) -> small s ->
  wpx (HASH_ADD nb lb mb add) (fun _ s' => same_pages s s' /\ exists t' k' C', full s' id t' k' (l ++ [add]) C' (<[v := add]> m)) s.
Proof.
  intros Hf Hv Hu Hm Hal Ha Hsm. destruct (listing_listed s id t k l C m v add Hf Hv Hu Hal Ha) as [Hsame Hli].
  pose proof (fu_some _ _ _ _ _ _ _ Hf) as Hne. pose proof (fu_tail _ _ _ _ _ _ _ Hf) as Htl. pose proof (fu_pages _ _ _ _ _ _ _ Hf) as Hpg.
  assert (Hsome : forall p, p ∈ l -> is_Some (handles s !! p)).
  { intros p Hp. destruct (fu_elements _ _ _ _ _ _ _ Hf p Hp) as [w Hw]. by eapply element_some. }
  destruct l as [|h l]; [done|]. destruct (last (h :: l)) as [q|] eqn:Hq; [|by apply last_None in Hq].
  assert (Hha : h <> add) by (intros ->; apply Hal; by left).
  destruct (fu_elements _ _ _ _ _ _ _ Hf h) as [w Hw]; [by left|]. destruct (element_handle _ _ _ _ Hw) as (xh & Hxh & Hid & _).
  unfold HASH_ADD. wpx_norm. apply (wpx_the_key add v); [done|]. wpx_norm. apply wpx_upd_hh; [done|]. wpx_norm.
  simpl pages. rewrite Hpg. cbn [head]. wpx_norm. apply (wpx_head_tbl h xh); [done|simpl; by rewrite lookup_alter_ne|]. rewrite Hid.
  wpx_norm. apply wpx_upd_hh; [by apply is_Some_alter|].
  rewrite <- wpx_bind. eapply (append_run _ id t (h :: l) add _ _ h xh q); try done.
  - simpl. by rewrite !lookup_alter_ne.
  - apply (fu_tables _ _ _ _ _ _ _ Hf).
  - simpl. by do 2 apply is_Some_alter.
  - simpl. do 2 apply is_Some_alter. apply Hsome. by apply last_Some_elem_of.
  - unfold listing in Hsame, Hli. rewrite Hq in Hsame, Hli |- *. eapply wpx_mono; [apply (add_to_table_spec mb _ id (set_tail (Some add) t) k (h :: l) add v C (<[v := add]> m)); [done|by eapply same_small| |]|].
    + exact Hli.
    + intros u p. rewrite lookup_insert_Some, elem_of_app, list_elem_of_singleton. simpl va_of. pose proof (fu_map _ _ _ _ _ _ _ Hf u p) as Hfm. split.
      * intros [[<- <-]|[Hneq Hin]]; [by split; [right|]|]. apply Hfm in Hin as [? ?]. split; [by left|done].
      * intros [[Hp | ->] Hu']; [|left; split; [congruence|done]]. right. split; [|by apply Hfm]. intros ->.
        assert (m !! u = Some p) by by apply Hfm. congruence.
    + intros _ s' (Hb' & t' & k' & C' & Hf'). split; [eapply same_trans; [exact Hsame|]|by exists t', k', C'].
      by apply beside_same.
Qed.

Lemma add_spec s m v add :
  rep s m -> va_of s !! add = Some v -> in_u64 v -> m !! v = None -> (forall w, m !! w <> Some add) -> is_Some (handles s !! add) -> small s ->
  wpx (HASH_ADD nb lb mb add) (fun _ s' => same_pages s s' /\ rep s' (<[v := add]> m)) s.
Proof.
  intros [Hpg Ht ->|id t k l C Hf] Hv Hu Hm Hadd Ha Hsm.
  - eapply wpx_mono; [by apply add_first|]. intros _ s' (Hs & id & t & k & C & Hf). split; [done|].
    rewrite insert_empty. by apply (rep_full _ _ id t k [add] C).
  - eapply wpx_mono; [apply (add_more s id t k l C m v add); try done|].
    + intros Hin. apply (Hadd v). by apply (fu_map _ _ _ _ _ _ _ Hf).
    + intros _ s' (Hs & t' & k' & C' & Hf'). split; [done|]. by apply (rep_full _ _ id t' k' (l ++ [add]) C').
Qed.
End adding.

(** ** Removing *)

(** Taking an element out of the list of all elements. *)
Lemma unlist_run {A} s l1 l2 (rest : M hash_state A) (Q : A -> hash_state -> Prop) :
  (forall q, q ∈ l1 ++ l2 -> is_Some (handles s !! q)) ->
  (forall s', pages s' = match last l1 with Some _ => pages s | None => head l2 end -> tables s' = tables s -> va_of s' = va_of s ->
    data (handles s') = data (handles s) -> bucket_links (handles s') = bucket_links (handles s) ->
    order_links (handles s') = unlinked l1 l2 (order_links (handles s)) -> wpx rest Q s') ->
  wpx ((match last l1 with Some q => upd_hh q (set_next (head l2)) | None => modify (set_pages (head l2)) end);;
    (match head l2 with Some q => upd_hh q (set_prev (last l1)) | None => mret tt end);; rest) Q s.
Proof.
  intros Hs HQ. assert (H1 : forall q, last l1 = Some q -> is_Some (handles s !! q)).
  { intros q Hq. apply Hs, elem_of_app. left. by apply last_Some_elem_of. }
  assert (H2 : forall q, head l2 = Some q -> is_Some (handles s !! q)).
  { intros q Hq. apply Hs, elem_of_app. right. destruct l2; simplify_eq/=. by left. }
  unfold unlinked in HQ. wpx_norm. destruct (last l1) as [q1|], (head l2) as [q2|].
  - apply wpx_upd_hh; [by apply H1|]. wpx_norm. apply wpx_upd_hh; [by apply is_Some_alter, H2|]. apply HQ; simpl; by views.
  - apply wpx_upd_hh; [by apply H1|]. wpx_norm. apply HQ; simpl; by views.
  - wpx_norm. apply wpx_upd_hh; [by apply H2|]. apply HQ; simpl; by views.
  - wpx_norm. by apply HQ.
Qed.

(** Taking an element out of a chain. *)
Lemma unchain_run s c1 c2 (Q : unit -> hash_state -> Prop) :
  (forall q, q ∈ c1 ++ c2 -> is_Some (handles s !! q)) ->
  (forall s', beside s s' -> tables s' = tables s -> bucket_links (handles s') = unlinked c1 c2 (bucket_links (handles s)) -> Q tt s') ->
  wpx ((match last c1 with Some q => upd_hh q (set_hh_next (head c2)) | None => mret tt end);;
    (match head c2 with Some q => upd_hh q (set_hh_prev (last c1)) | None => mret tt end)) Q s.
Proof.
  intros Hs HQ. assert (H1 : forall q, last c1 = Some q -> is_Some (handles s !! q)).
  { intros q Hq. apply Hs, elem_of_app. left. by apply last_Some_elem_of. }
  assert (H2 : forall q, head c2 = Some q -> is_Some (handles s !! q)).
  { intros q Hq. apply Hs, elem_of_app. right. destruct c2; simplify_eq/=. by left. }
  unfold unlinked in HQ. wpx_norm. destruct (last c1) as [q1|], (head c2) as [q2|].
  - apply wpx_upd_hh; [by apply H1|]. apply wpx_upd_hh; [by apply is_Some_alter, H2|].
    apply HQ; [split; try done; simpl; by views|done|simpl; by views].
  - apply wpx_upd_hh; [by apply H1|]. wpx_norm. apply HQ; [split; try done; simpl; by views|done|simpl; by views].
  - wpx_norm. apply wpx_upd_hh; [by apply H2|]. apply HQ; [split; try done; simpl; by views|done|simpl; by views].
  - wpx_norm. by apply HQ.
Qed.

Definition without (C : Z -> list ptr) (i : Z) (c : list ptr) : Z -> list ptr := fun j => if decide (i = j) then c else C j.

Lemma delete_head (p : ptr) (c1 c2 : list ptr) : NoDup (c1 ++ p :: c2) ->
  (if bool_decide (head (c1 ++ p :: c2) = Some p) then head c2 else head (c1 ++ p :: c2)) = head (c1 ++ c2).
Proof.
  destruct c1 as [|q c1]; simpl; [by rewrite bool_decide_eq_true_2|]. intros [Hq _]%NoDup_cons.
  rewrite bool_decide_eq_false_2; [done|]. intros [= ->]. apply Hq, elem_of_app. right. by left.
Qed.

Lemma del_in_bkt_spec s id t k i c1 del c2 (Q : unit -> hash_state -> Prop) :
  small s -> tables s = {[id := t]} -> num_buckets t = 2 ^ k -> 0 <= i < 2 ^ k ->
  chain (bucket_links (handles s)) (bucket_at (buckets t) i) (c1 ++ del :: c2) ->
  (forall s' b', beside s s' -> tables s' = {[id := set_buckets (<[i := b']> (buckets t)) t]} ->
    bucket_links (handles s') = unlinked c1 c2 (bucket_links (handles s)) ->
    hh_head b' = head (c1 ++ c2) -> count b' = Z.of_nat (length (c1 ++ c2)) -> Q tt s') ->
  wpx (HASH_DEL_IN_BKT id i del) Q s.
Proof.
  intros Hsm Ht Hnb Hi [Hh Hc Hd Hn] HQ.
  assert (Hin : forall q, q ∈ c1 ++ del :: c2 -> is_Some (handles s !! q)) by (intros q Hq; eapply bucket_lookup, seg_in; [exact Hd|done]).
  assert (Hsub : forall q, q ∈ c1 ++ c2 -> q ∈ c1 ++ del :: c2) by (intros q; rewrite !elem_of_app, elem_of_cons; tauto).
  pose proof (dll_middle _ _ _ _ Hd) as Hmid. unfold bucket_links in Hmid. rewrite lookup_fmap in Hmid.
  destruct (handles s !! del) as [x|] eqn:Hx; [|done]. simpl in Hmid. injection Hmid as Hxp Hxn.
  assert (Hlen : u32 (count (bucket_at (buckets t) i) - 1) = Z.of_nat (length (c1 ++ c2))).
  { rewrite Hc. assert (length (c1 ++ del :: c2) <= size (handles s))%nat by (apply list_length; done). unfold small in Hsm.
    rewrite !length_app in *. simpl in *. unfold u32. rewrite Z.mod_small; lia. }
  unfold HASH_DEL_IN_BKT. wpx_norm. apply (wpx_upd_bucket id t); [done|by rewrite Hnb|]. wpx_norm.
  eapply wpx_the_bucket; [reflexivity|cbn [num_buckets set_buckets]; by rewrite Hnb|]. cbn [buckets set_buckets].
  rewrite bucket_at_insert, decide_True by done. wpx_norm. apply (wpx_the_hh del x); [done|]. wpx_norm. cbn [hh_head set_count].
  rewrite Hxp, Hxn, Hh, Hlen. pose proof (delete_head del c1 c2 Hn) as Hdh.
  apply wpx_when; intros Hb; rewrite Hb in Hdh.
  - eapply wpx_upd_bucket; [reflexivity|cbn [num_buckets set_buckets]; by rewrite Hnb|]. cbn [buckets set_buckets].
    rewrite bucket_at_insert, decide_True, insert_insert_eq by done. apply unchain_run; [intros q Hq; by apply Hin, Hsub|].
    intros s' Hb' Ht' Hl'. do 2 apply beside_tables_l in Hb'. eapply HQ; [done|exact Ht'|exact Hl'|done|done].
  - apply unchain_run; [intros q Hq; by apply Hin, Hsub|]. intros s' Hb' Ht' Hl'. apply beside_tables_l in Hb'.
    eapply HQ; [done|exact Ht'|exact Hl'|simpl; by rewrite Hh|done].
Qed.

(** The table without an element. *)
Lemma full_without s s' id t t' k l1 del l2 C m v i c1 c2 b' :
  full s id t k (l1 ++ del :: l2) C m -> m !! v = Some del -> l1 ++ l2 <> [] ->
  i = HASH_VALUE (va_bytes v) mod 2 ^ k -> C i = c1 ++ del :: c2 ->
  pages s' = head (l1 ++ l2) -> tables s' = {[id := t']} -> va_of s' = va_of s -> data (handles s') = data (handles s) ->
  order_links (handles s') = unlinked l1 l2 (order_links (handles s)) ->
  bucket_links (handles s') = unlinked c1 c2 (bucket_links (handles s)) ->
  tail t' = last (l1 ++ l2) -> num_items t' = u32 (num_items t - 1) -> num_buckets t' = num_buckets t -> log2_num_buckets t' = log2_num_buckets t ->
  small s -> buckets t' = <[i := b']> (buckets t) -> hh_head b' = head (c1 ++ c2) -> count b' = Z.of_nat (length (c1 ++ c2)) ->
  full s' id t' k (l1 ++ l2) (without C i (c1 ++ c2)) (delete v m).
Proof.
  intros Hf Hv Hne Hi HC Hpg Ht Hva Hd Ho Hb Htl Hit Hnb Hlog Hsm Hbk Hbh Hbc.
  pose proof Hf as [Hpg0 Hsome0 Ht0 Htl0 Hit0 Hnb0 Hlog0 Hr Hord Hnd Hel Hch Hmem Hmap].
  assert (Hin : forall p, p ∈ l1 ++ del :: l2 <-> p = del \/ p ∈ l1 ++ l2) by (intros p; rewrite !elem_of_app, elem_of_cons; tauto).
  assert (Hnd' : del ∉ l1 ++ l2 /\ NoDup (l1 ++ l2)) by (rewrite <- Permutation_middle in Hnd; by apply NoDup_cons in Hnd).
  destruct Hnd' as [Hdel Hnd']. pose proof (proj1 (Hmap v del) Hv) as [_ Hvd].
  assert (Hir : 0 <= i < 2 ^ k) by (subst i; apply mod_range; lia).
  destruct (Hch i Hir) as [_ _ Hcd Hcn]. rewrite HC in Hcd, Hcn.
  assert (Hcin : forall p, p ∈ c1 ++ del :: c2 <-> p = del \/ p ∈ c1 ++ c2) by (intros p; rewrite !elem_of_app, elem_of_cons; tauto).
  assert (Hcn' : del ∉ c1 ++ c2 /\ NoDup (c1 ++ c2)) by (rewrite <- Permutation_middle in Hcn; by apply NoDup_cons in Hcn).
  destruct Hcn' as [Hcdel Hcn'].
  assert (Hsl : forall p j, slot s' k p j <-> slot s k p j) by (intros p j; unfold slot; by rewrite Hva).
  assert (Hsd : slot s k del i) by (exists v; by subst i).
  split; try done.
  - rewrite Hit, Hit0. assert (length (l1 ++ del :: l2) <= size (handles s))%nat.
    { apply list_length; [done|]. intros p Hp. destruct (Hel p Hp) as [w Hw]. by eapply element_some. }
    unfold small in Hsm. rewrite !length_app in *. simpl in *. unfold u32. rewrite Z.mod_small; lia.
  - by rewrite Hnb.
  - by rewrite Hlog.
  - rewrite Ho. by eapply dll_unlinked.
  - intros p Hp. destruct (Hel p) as [w Hw]; [apply Hin; by right|]. exists w. unfold element. by rewrite Hd, Hva.
  - intros j Hj. unfold without. rewrite Hbk, bucket_at_insert, Hb. destruct (decide (i = j)) as [<-|Hij].
    + split; [done|done|by eapply dll_unlinked|done].
    + destruct (Hch j Hj) as [Hjh Hjc Hjd Hjn]. split; [done|done| |done]. apply unlinked_frame; [|done]. intros q Hq Hq'.
      apply Hij. apply (slot_fun s k q); [apply (Hmem i q Hir); rewrite HC; apply Hcin; by right|by apply (Hmem j q Hj)].
  - intros j p Hj. unfold without. rewrite Hsl. pose proof (Hmem j p Hj) as Hm. rewrite Hin in Hm. destruct (decide (i = j)) as [<-|Hij].
    + rewrite HC, Hcin in Hm. split.
      * intros Hp. assert (p <> del) by (intros ->; done). tauto.
      * intros [Hp Hs]. assert (p <> del) by (intros ->; done). tauto.
    + rewrite Hm. split; [|tauto]. intros [[->|Hp] Hs]; [|done]. destruct Hij. by eapply slot_fun.
  - intros w p. rewrite lookup_delete_Some, Hva. pose proof (Hmap w p) as Hm. rewrite Hin in Hm. split.
    + intros [Hwv Hp]. apply Hm in Hp as [[->|Hp] Hpv]; [congruence|done].
    + intros [Hp Hpv]. split; [|apply Hm; auto]. intros ->. apply Hdel. assert (Hp' : m !! w = Some p) by (apply Hm; auto). by simplify_eq.
Qed.

(** [(head)->hh.tbl], in a table whose elements are [l]. *)
Lemma wpx_some_tbl s id l (Q : Z -> hash_state -> Prop) :
  l <> [] -> pages s = head l -> (forall p, p ∈ l -> exists x, handles s !! p = Some x /\ tbl x = id) -> Q id s -> wpx head_tbl Q s.
Proof.
  intros Hne Hpg Hl HQ. destruct l as [|h l]; [done|]. destruct (Hl h) as (x & Hx & Hid); [by left|].
  apply (wpx_head_tbl h x); [done|done|]. by rewrite Hid.
Qed.

Lemma del_last s id t k l C m v del :
  full s id t k l C m -> m !! v = Some del -> l = [del] ->
  rep (set_pages None (set_tables (delete id (tables s)) s)) (delete v m).
Proof.
  intros Hf Hv ->. apply rep_empty; [done| |].
  - simpl. rewrite (fu_tables _ _ _ _ _ _ _ Hf). apply delete_singleton_eq.
  - apply map_eq. intros w. rewrite lookup_empty. destruct (delete v m !! w) as [p|] eqn:E; [|done].
    apply lookup_delete_Some in E as [Hne Hp]. apply (fu_map _ _ _ _ _ _ _ Hf) in Hp as [Hp Hpw].
    apply list_elem_of_singleton in Hp as ->. apply (fu_map _ _ _ _ _ _ _ Hf) in Hv as [_ Hv]. congruence.
Qed.

(** The second half of [HASH_DEL], out of the bucket. *)
Lemma del_bucket_spec s s1 id t k l1 del l2 C m v :
  full s id t k (l1 ++ del :: l2) C m -> small s -> m !! v = Some del -> l1 ++ l2 <> [] ->
  pages s1 = head (l1 ++ l2) -> tables s1 = {[id := set_tail (last (l1 ++ l2)) t]} -> va_of s1 = va_of s ->
  data (handles s1) = data (handles s) -> bucket_links (handles s1) = bucket_links (handles s) ->
  order_links (handles s1) = unlinked l1 l2 (order_links (handles s)) ->
  wpx (id ← head_tbl; t ← the_tbl id; HASH_DEL_IN_BKT id (HASH_TO_BKT (HASH_VALUE (va_bytes v)) (num_buckets t)) del;;
       id ← head_tbl; upd_tbl id (fun t => set_num_items (u32 (num_items t - 1)) t))
    (fun _ s' => same_pages s s' /\ rep s' (delete v m)) s1.
Proof.
  intros Hf Hsm Hv Hne Hp1 Ht1 Hv1 Hd1 Hb1 Ho1. pose proof (proj1 (fu_map _ _ _ _ _ _ _ Hf v del) Hv) as [_ Hvd].
  pose proof (fu_range _ _ _ _ _ _ _ Hf) as Hr. pose proof (fu_buckets _ _ _ _ _ _ _ Hf) as Hnb.
  assert (Hsub : forall p, p ∈ l1 ++ l2 -> p ∈ l1 ++ del :: l2) by (intros p; rewrite !elem_of_app, elem_of_cons; tauto).
  assert (Hall : forall s2, data (handles s2) = data (handles s) -> va_of s2 = va_of s ->
    forall p, p ∈ l1 ++ l2 -> exists x, handles s2 !! p = Some x /\ tbl x = id).
  { intros s2 Hd2 Hv2 p Hp. destruct (fu_elements _ _ _ _ _ _ _ Hf p (Hsub p Hp)) as [w Hw].
    destruct (element_handle s2 id p w) as (x & Hx & Hi & _); [unfold element; by rewrite Hd2, Hv2|]. by exists x. }
  set (i := HASH_VALUE (va_bytes v) mod 2 ^ k). assert (Hi : 0 <= i < 2 ^ k) by (apply mod_range; lia).
  assert (Hdc : del ∈ C i).
  { apply (fu_members _ _ _ _ _ _ _ Hf i del Hi). split; [apply elem_of_app; right; by left|by exists v]. }
  apply list_elem_of_split in Hdc as (c1 & c2 & HC).
  wpx_norm. apply (wpx_some_tbl s1 id (l1 ++ l2)); [done|done|by apply Hall|]. wpx_norm. eapply wpx_the_tbl; [exact Ht1|].
  cbn [num_buckets set_tail]. rewrite Hnb, in_bucket by done. fold i. wpx_norm.
  assert (Hsm1 : small s1) by (unfold small; rewrite (data_size _ _ Hd1); done).
  eapply (del_in_bkt_spec s1 id _ k i c1 del c2); [done|exact Ht1|done|done| |].
  - rewrite Hb1, <- HC. by apply (fu_chains _ _ _ _ _ _ _ Hf).
  - intros s2 b' Hb2 Ht2 Hl2 Hbh Hbc. destruct Hb2 as [Ep Ev Ed Eo].
    assert (Hd2 : data (handles s2) = data (handles s)) by by rewrite Ed.
    wpx_norm. apply (wpx_some_tbl s2 id (l1 ++ l2)); [done|by rewrite Ep|by apply Hall; [|rewrite Ev]|]. eapply wpx_upd_tbl; [exact Ht2|].
    set (t3 := set_num_items _ _). split.
    + split; [simpl; by rewrite Ev|]. simpl. apply (f_equal dom) in Hd2. unfold data in Hd2. by rewrite !dom_fmap_L in Hd2.
    + apply (rep_full _ _ id t3 k (l1 ++ l2) (without C i (c1 ++ c2))).
      eapply (full_without s _ id t t3 k l1 del l2 C m v i c1 c2 b'); try done; simpl; congruence.
Qed.

Lemma del_spec s m v del :
  rep s m -> small s -> m !! v = Some del -> wpx (HASH_DEL del) (fun _ s' => same_pages s s' /\ rep s' (delete v m)) s.
Proof.
  intros [_ _ ->|id t k l C Hf] Hsm Hv; [done|]. pose proof (proj1 (fu_map _ _ _ _ _ _ _ Hf v del) Hv) as [Hdl Hvd].
  assert (Hall : forall p, p ∈ l -> exists x, handles s !! p = Some x /\ tbl x = id).
  { intros p Hp. destruct (fu_elements _ _ _ _ _ _ _ Hf p Hp) as [w Hw]. destruct (element_handle _ _ _ _ Hw) as (x & Hx & Hi & _). by exists x. }
  destruct (fu_elements _ _ _ _ _ _ _ Hf del Hdl) as [v' Hdel]. assert (v' = v) as -> by (destruct Hdel as (_ & ? & _); congruence).
  destruct (element_handle _ _ _ _ Hdel) as (x & Hx & _ & _ & _ & Hhash).
  apply list_elem_of_split in Hdl as (l1 & l2 & ->). pose proof (fu_tables _ _ _ _ _ _ _ Hf) as Ht.
  pose proof (dll_middle _ _ _ _ (fu_order _ _ _ _ _ _ _ Hf)) as Hmid. unfold order_links in Hmid. rewrite lookup_fmap, Hx in Hmid.
  injection Hmid as Hxp Hxn. unfold HASH_DEL. wpx_norm. apply (wpx_the_hh del x); [done|]. wpx_norm. rewrite Hxp, Hxn, Hhash.
  destruct (bool_decide (last l1 = None) && bool_decide (head l2 = None)) eqn:Hone.
  - apply andb_true_iff in Hone as [Ho1%bool_decide_eq_true Ho2%bool_decide_eq_true]. apply last_None in Ho1 as ->. destruct l2; [|done].
    wpx_norm. apply (wpx_some_tbl s id [del]); [done|apply (fu_pages _ _ _ _ _ _ _ Hf)|done|]. wpx_norm. apply (wpx_the_tbl id t); [done|]. wpx_norm.
    split; [done|]. by apply (del_last s id t k [del] C m v del).
  - assert (Hne : l1 ++ l2 <> []) by by intros [-> ->]%app_nil.
    pose proof (fu_nodup _ _ _ _ _ _ _ Hf) as Hnd. pose proof (fu_tail _ _ _ _ _ _ _ Hf) as Htl. pose proof (fu_pages _ _ _ _ _ _ _ Hf) as Hpg.
    wpx_norm. apply (wpx_some_tbl s id (l1 ++ del :: l2)); [by apply (fu_some _ _ _ _ _ _ _ Hf)|done|done|]. wpx_norm.
    apply (wpx_the_tbl id t); [done|]. rewrite wpx_bind.
    match goal with |- wpx _ (fun _ s' => wpx ?rest ?Q s') _ =>
      assert (Hgo : forall s0, s0 = set_tables {[id := set_tail (last (l1 ++ l2)) t]} s -> wpx rest Q s0) end.
    { intros s0 ->. apply unlist_run.
      - intros q Hq. destruct (Hall q) as (y & Hy & _); [|by exists y]. revert Hq. rewrite !elem_of_app, elem_of_cons. tauto.
      - intros s1 Hp1 Ht1 Hv1 Hd1 Hb1 Ho1. apply (del_bucket_spec s s1 id t k l1 del l2 C m v); try done.
        rewrite Hp1. simpl. rewrite Hpg. destruct l1 as [|q l1]; [done|]. destruct (last (q :: l1)) eqn:E; [done|]. by apply last_None in E. }
    apply wpx_when.
    + intros Hb%bool_decide_eq_true. apply (wpx_upd_tbl id t); [done|]. apply Hgo. f_equal. f_equal. f_equal.
      rewrite Htl in Hb. destruct l2 as [|q l2] using rev_ind; [by rewrite app_nil_r|].
      exfalso. rewrite app_comm_cons, app_assoc, last_snoc in Hb. injection Hb as ->. apply NoDup_app in Hnd as (_ & _ & Hnd).
      apply NoDup_cons in Hnd as [Hnd _]. apply Hnd, elem_of_app. right. by left.
    + intros Hb%bool_decide_eq_false. apply Hgo. assert (E : last (l1 ++ l2) = tail t).
      { rewrite Htl in Hb |- *. destruct l2 as [|q l2] using rev_ind; [by rewrite last_snoc in Hb|].
        by rewrite app_comm_cons, !app_assoc, !last_snoc. }
      rewrite E. destruct s, t. simpl in *. by subst.
Qed.
