(* ===== verification/Policy.v ===== *)
(** The interface between the core and the replacement policies: the macros
    of [src/src/core.h] by which [core.c] calls the policy the build chose.
    DiskLinux.v and PageRank.v implement it. *)

From S2P Require Import Prelude UserPage AddressTranslation Fifo RdmaAlloc RdmaSim StorageRdma Machine.

Local Open Scope Z_scope.

(** One field per macro the core uses.  [policy_shutdown] is empty in both
    builds and [mmgr_stats] only prints. *)
Class Policy (K : Type) : Type := {
  paging_init : M (machine K) unit;
  pagefault : M (machine K) ptr;
  policy_add_page : ptr -> M (machine K) unit;
  policy_put_freepage : ptr -> M (machine K) unit;
  policy_detach_page : ptr -> M (machine K) unit;
  page_swapin_external_async : ptr -> M (machine K) unit;
  policy_ack_swapped_in : ptr -> ptr -> M (machine K) unit;            (* page, freepage *)
  policy_ack_vma : Z -> Z -> Z -> M (machine K) unit;                  (* start, length, priority *)
  mmgr_remove : ptr -> M (machine K) unit;
}.
