(* ===== verification/PointerPrefetch.v ===== *)
(** The pointer prefetcher: [src/src/pointer_prefetch.c] without the two
    pointer conversions, which are in [StorageRdma].

    [prefetch_mutex] brackets each operation; a pointer to a record is its
    position in the list, looked up again whenever the list changes. *)

From S2P Require Import Prelude UserPage AddressTranslation Fifo RdmaAlloc RdmaSim RdmaProtocol StorageRdma StorageSpec Machine.

Local Open Scope Z_scope.

Definition MAX_PREFETCH_DISTANCE : Z := 16 * 1024 * 1024.
Definition PREFETCH_VALIDATION_THRESHOLD : Z := 0x100000.

(** ** Assignments *)

Definition set_records x v := mk_prefetch x (prefetch_stats_g v) (prefetch_initialized v)
  (max_prefetch_distance_g v) (pointer_validation_threshold_g v).
Definition set_stats x v := mk_prefetch (prefetch_records v) x (prefetch_initialized v)
  (max_prefetch_distance_g v) (pointer_validation_threshold_g v).
Definition set_prefetch_initialized x v := mk_prefetch (prefetch_records v) (prefetch_stats_g v) x
  (max_prefetch_distance_g v) (pointer_validation_threshold_g v).

Definition set_rdma_request_id x r := mk_record (source_va r) (target_va r) (pointer_value r) (pr_remote_addr r)
  x (pr_status r) (pr_timestamp r).
Definition set_pr_remote_addr x r := mk_record (source_va r) (target_va r) (pointer_value r) x
  (rdma_request_id r) (pr_status r) (pr_timestamp r).
Definition set_pr_status x r := mk_record (source_va r) (target_va r) (pointer_value r) (pr_remote_addr r)
  (rdma_request_id r) x (pr_timestamp r).

Definition zero_stats : prefetch_stats_t := mk_stats 0 0 0 0 0 0.
Definition count_attempt t := mk_stats (incr (total_attempts t)) (successful_prefetch t) (failed_prefetch t)
  (cache_hits t) (invalid_pointers t) (pointer_validations t).
Definition count_success t := mk_stats (total_attempts t) (incr (successful_prefetch t)) (failed_prefetch t)
  (cache_hits t) (invalid_pointers t) (pointer_validations t).
Definition count_failure t := mk_stats (total_attempts t) (successful_prefetch t) (incr (failed_prefetch t))
  (cache_hits t) (invalid_pointers t) (pointer_validations t).
Definition count_cache_hit t := mk_stats (total_attempts t) (successful_prefetch t) (failed_prefetch t)
  (incr (cache_hits t)) (invalid_pointers t) (pointer_validations t).
Definition count_invalid t := mk_stats (total_attempts t) (successful_prefetch t) (failed_prefetch t)
  (cache_hits t) (incr (invalid_pointers t)) (pointer_validations t).
Definition count_validation t := mk_stats (total_attempts t) (successful_prefetch t) (failed_prefetch t)
  (cache_hits t) (invalid_pointers t) (incr (pointer_validations t)).

(** ** The record list *)

Definition record_index (va : Z) (rs : list prefetch_record_t) : option nat :=
  fst <$> list_find (fun r => target_va r = va) rs.

(** A record that is worth waiting for, or ready. *)
Definition usable (r : prefetch_record_t) : bool :=
  bool_decide (pr_status r = PREFETCH_IN_PROGRESS) || bool_decide (pr_status r = PREFETCH_COMPLETED).

(** What [cleanup_old_prefetch_records] decides for one record. *)
Definition expired (current_time : Z) (r : prefetch_record_t) : bool :=
  let max_age := 30 * 1000000 in
  let age := u64 (current_time - pr_timestamp r) in
  match pr_status r with
  | PREFETCH_FAILED => true
  | PREFETCH_COMPLETED => max_age <? age
  | PREFETCH_REQUESTED => max_age <? age
  | PREFETCH_IN_PROGRESS => max_age * 2 <? age
  | PREFETCH_NONE => false
  end.

Section prefetch.
Context {K : Type} `{Kernel K}.
(** What the other processes do during a [usleep]. *)
Variable usleep : M rdma_sys unit.

Definition upd_pf (f : prefetch_vars -> prefetch_vars) : M (machine K) unit :=
  modify (fun s => set_pf (f (m_pf s)) s).
Definition upd_stats (f : prefetch_stats_t -> prefetch_stats_t) : M (machine K) unit :=
  upd_pf (fun v => set_stats (f (prefetch_stats_g v)) v).

(** [*record], and an assignment to a field of it. *)
Definition record_at (i : nat) : M (machine K) prefetch_record_t :=
  s ← get; deref (prefetch_records (m_pf s) !! i).
Definition upd_record (i : nat) (f : prefetch_record_t -> prefetch_record_t) : M (machine K) unit :=
  r ← record_at i;
  upd_pf (fun v => set_records (<[i := f r]> (prefetch_records v)) v).

(** Calls into the fabric and the translator. *)
Definition m_rdma {A} (m : M rdma_sys A) : M (machine K) A := store (rdma m).
Definition m_translator {A} (m : M address_translator_t A) : M (machine K) A := store (translator m).

Definition find_prefetch_record (va : Z) : M (machine K) (option nat) :=
  gets (fun s => record_index va (prefetch_records (m_pf s))).

Definition add_prefetch_record (source_va target_va pointer_value : Z) : M (machine K) Z :=
  record ← find_prefetch_record target_va;
  record ← (match record with
            | Some i => mret (Some i)
            | None =>
                node ← m_rdma (malloc Client);
                if node =? 0 then mret None
                else
                  upd_pf (fun v => set_records (mk_record 0 0 0 0 0 PREFETCH_NONE 0 :: prefetch_records v) v);;
                  mret (Some 0%nat)
            end);
  match record with
  | None => mret (-1)
  | Some i =>
      now ← m_rdma rdma_get_timestamp;
      upd_record i (fun _ => mk_record source_va target_va pointer_value 0 0 PREFETCH_REQUESTED now);;
      mret 0
  end.

Definition is_prefetched_page_available (va : Z) : M (machine K) bool :=
  record ← find_prefetch_record va;
  match record with
  | Some i => r ← record_at i; mret (usable r)
  | None => mret false
  end.

(** ** Start, stop, settings *)

Definition pointer_prefetch_init : M (machine K) Z :=
  s ← get;
  if prefetch_initialized (m_pf s) then mret 0
  else
    ret ← m_translator address_translator_init;
    if negb (ret =? 0) then mret (-1)
    else
      upd_pf (fun v => set_prefetch_initialized true (set_records [] (set_stats zero_stats v)));;
      mret 0.

(** The loop of [pointer_prefetch_cleanup] over the records. *)
Fixpoint release_all (rs : list prefetch_record_t) : M (machine K) unit :=
  match rs with
  | [] => mret tt
  | r :: rs =>
      when (usable r) (when (negb (pr_remote_addr r =? 0))
        (m_rdma (rdma_sim_free Client (pr_remote_addr r));; mret tt));;
      release_all rs
  end.

Definition pointer_prefetch_cleanup : M (machine K) unit :=
  s ← get;
  if negb (prefetch_initialized (m_pf s)) then mret tt
  else
    release_all (prefetch_records (m_pf s));;
    upd_pf (fun v => set_prefetch_initialized false (set_records [] v));;
    m_translator address_translator_cleanup;;
    mret tt.

(** The loop of [cleanup_old_prefetch_records]: the records that stay. *)
Fixpoint sweep (current_time : Z) (rs : list prefetch_record_t) : M (machine K) (list prefetch_record_t) :=
  match rs with
  | [] => mret []
  | r :: rs =>
      if expired current_time r then
        when (negb (pr_remote_addr r =? 0)) (m_rdma (rdma_sim_free Client (pr_remote_addr r));; mret tt);;
        sweep current_time rs
      else
        rest ← sweep current_time rs;
        mret (r :: rest)
  end.

Definition cleanup_old_prefetch_records : M (machine K) unit :=
  current_time ← m_rdma rdma_get_timestamp;
  s ← get;
  rs ← sweep current_time (prefetch_records (m_pf s));
  upd_pf (set_records rs).

Definition reset_prefetch_stats : M (machine K) unit := upd_pf (set_stats zero_stats).
Definition set_prefetch_distance (distance : Z) : M (machine K) unit :=
  upd_pf (fun v => mk_prefetch (prefetch_records v) (prefetch_stats_g v) (prefetch_initialized v)
    distance (pointer_validation_threshold_g v)).
Definition set_pointer_validation_threshold (threshold : Z) : M (machine K) unit :=
  upd_pf (fun v => mk_prefetch (prefetch_records v) (prefetch_stats_g v) (prefetch_initialized v)
    (max_prefetch_distance_g v) threshold).

(** ** The pointer at the end of a page *)

Definition read_page_end_pointer (page : option ptr) : M (machine K) Z :=
  match page with
  | None => mret 0
  | Some page =>
      pg ← page_get page;
      if (va pg =? 0) || negb (in_dram pg) then mret 0
      else
        raw_pointer_value ← store (read_word (u64 (page_end_word (va pg))));
        upd_stats count_validation;;
        if raw_pointer_value =? 0 then mret 0
        else
          v ← m_translator (is_valid_remote_pointer raw_pointer_value);
          if (v : bool) then
            result ← m_translator (convert_remote_to_local_pointer raw_pointer_value);
            mret (if valid result then converted_pointer result else 0)
          else
            l ← m_translator (is_valid_local_pointer raw_pointer_value);
            mret (if (l : bool) then raw_pointer_value else 0)
  end.

Definition validate_pointer (pointer_value current_va : Z) : M (machine K) bool :=
  s ← get;
  let v := m_pf s in
  if pointer_value =? 0 then mret false
  else if pointer_value <? pointer_validation_threshold_g v then upd_stats count_invalid;; mret false
  else
    let distance := if current_va <? pointer_value then pointer_value - current_va else current_va - pointer_value in
    if max_prefetch_distance_g v <? distance then upd_stats count_invalid;; mret false
    else mret true.

(** ** Prefetching a page *)

Definition transfer_to_prefetch_buffer (existing_page : ptr) (prefetch_dest_remote_addr : Z) (record : nat)
    : M (machine K) Z :=
  temp_cpu_buffer ← m_rdma (malloc Client);
  if temp_cpu_buffer =? 0 then mret (-1)
  else
    pg ← page_get existing_page;
    read_err ← store (rdma_read_page usleep (-1) (virtual_offset pg) temp_cpu_buffer PAGE_SIZE);
    if negb (read_err =? 0) then mret (-1)
    else
      req_id ← m_rdma (rdma_submit_request Client RDMA_OP_WRITE 0 prefetch_dest_remote_addr PAGE_SIZE temp_cpu_buffer);
      upd_record record (set_rdma_request_id req_id);;
      if req_id =? 0 then mret (-1)
      else upd_record record (set_pr_status PREFETCH_IN_PROGRESS);; mret 0.

(** The end of [async_prefetch_page]: the record has its buffer. *)
Definition start_prefetch (existing_page : option ptr) (record : nat) : M (machine K) Z :=
  let abandon :=
    upd_record record (set_pr_status PREFETCH_FAILED);;
    r ← record_at record;
    m_rdma (rdma_sim_free Client (pr_remote_addr r));;
    upd_record record (set_pr_remote_addr 0) in
  match existing_page with
  | None => abandon
  | Some p =>
      pg ← page_get p;
      if swapped_out pg then
        r ← record_at record;
        ret ← transfer_to_prefetch_buffer p (pr_remote_addr r) record;
        when (negb (ret =? 0)) (upd_record record (set_pr_status PREFETCH_FAILED))
      else abandon
  end;;
  r ← record_at record;
  let started := bool_decide (pr_status r = PREFETCH_IN_PROGRESS) in
  upd_stats (if started then count_success else count_failure);;
  mret (if started then 0 else -1).

Definition async_prefetch_page (target_va source_va : Z) : M (machine K) Z :=
  upd_stats count_attempt;;
  existing_page ← get_user_page target_va;
  pg ← (match existing_page with Some p => pg ← page_get p; mret (Some pg) | None => mret None end);
  if (match pg with Some pg => negb (swapped_out pg) && in_dram pg | None => false end) then mret 0
  else if (match pg with Some pg => migrating pg | None => false end) then mret 0
  else
    record ← find_prefetch_record target_va;
    busy ← (match record with Some i => r ← record_at i; mret (usable r) | None => mret false end);
    if (busy : bool) then mret 0
    else
      '(e, addr) ← m_rdma (rdma_sim_allocate Client PAGE_SIZE false);
      match addr with
      | None => upd_stats count_failure;; mret (-1)
      | Some prefetch_dest_remote_addr =>
          record ← (match record with
                    | Some i => mret (Some i)
                    | None =>
                        ret ← add_prefetch_record source_va target_va target_va;
                        if negb (ret =? 0) then mret None else find_prefetch_record target_va
                    end);
          match record with
          | None =>
              m_rdma (rdma_sim_free Client prefetch_dest_remote_addr);;
              upd_stats count_failure;;
              mret (-1)
          | Some i =>
              upd_record i (set_pr_remote_addr prefetch_dest_remote_addr);;
              upd_record i (set_pr_status PREFETCH_REQUESTED);;
              start_prefetch existing_page i
          end
      end.

(** ** Serving a fault from a prefetched page *)

Definition retrieve_prefetched_data_to_local_buffer (record : nat) (local_cpu_buffer_for_copy : Z) : M (machine K) Z :=
  r ← record_at record;
  when (bool_decide (pr_status r = PREFETCH_IN_PROGRESS))
    ('(wait_ret, rdma_error_code) ← m_rdma (rdma_wait_request usleep Client (rdma_request_id r));
     upd_record record
       (set_pr_status (if (wait_ret =? 0) && (rdma_error_code =? 0) then PREFETCH_COMPLETED else PREFETCH_FAILED)));;
  r ← record_at record;
  if bool_decide (pr_status r = PREFETCH_COMPLETED) then
    rdma_read_req_id ← m_rdma (rdma_submit_request Client RDMA_OP_READ local_cpu_buffer_for_copy (pr_remote_addr r)
                                 PAGE_SIZE 0);
    if rdma_read_req_id =? 0 then upd_record record (set_pr_status PREFETCH_FAILED);; mret (-1)
    else
      '(wait_ret, rdma_error_code) ← m_rdma (rdma_wait_request usleep Client rdma_read_req_id);
      if (wait_ret =? 0) && (rdma_error_code =? 0) then
        m_rdma (rdma_sim_free Client (pr_remote_addr r));;
        upd_record record (set_pr_remote_addr 0);;
        mret 0
      else upd_record record (set_pr_status PREFETCH_FAILED);; mret (-1)
  else mret (-1).

Definition handle_page_fault_with_prefetch (page : option ptr) : M (machine K) Z :=
  s ← get;
  match page with
  | Some page =>
      if negb (prefetch_initialized (m_pf s)) then mret (-1)
      else
        buffer ← get_var buffer_space;
        c_assert (negb (buffer =? 0));;
        pg ← page_get page;
        record ← find_prefetch_record (va pg);
        match record with
        | None => mret (-1)
        | Some i =>
            r ← record_at i;
            if usable r then
              retrieve_ret ← retrieve_prefetched_data_to_local_buffer i buffer;
              if retrieve_ret =? 0 then
                ok ← kern (uffdio_copy (va pg) buffer PAGE_SIZE);
                if negb ok then
                  upd_record i (set_pr_status PREFETCH_FAILED);;
                  upd_stats count_failure;;
                  mret (-1)
                else
                  page_set page (set_in_dram true);;
                  page_set page (set_swapped_out false);;
                  page_set page (set_migrating false);;
                  upd_stats count_cache_hit;;
                  mret 0
              else upd_stats count_failure;; mret (-1)
            else mret (-1)
        end
  | None => mret (-1)
  end.
End prefetch.
