(* ===== verification/PrefetchSpec.v ===== *)
(** The prefetcher's correctness: its record list stays well formed under
    every sequence of calls; what it accepts as a pointer; which records a
    clean-up keeps; and what prefetching amounts to in a client process. *)

From S2P Require Import Prelude UserPage AddressTranslation Fifo RdmaAlloc RdmaSim RdmaProtocol.
From S2P Require Import StorageRdma StorageSpec Machine PointerPrefetch.

Local Open Scope Z_scope.

(** ** The record list *)

(** A record that was put in the list by [add_prefetch_record]: it was
    requested, and a transfer in progress has a request to wait for. *)
Definition record_wf (r : prefetch_record_t) : Prop :=
  pr_status r <> PREFETCH_NONE /\ (pr_status r = PREFETCH_IN_PROGRESS -> rdma_request_id r <> 0).

(** One record per target. *)
Definition records_wf (rs : list prefetch_record_t) : Prop := NoDup (target_va <$> rs) /\ Forall record_wf rs.

Lemma record_index_Some va rs i :
  record_index va rs = Some i -> exists r, rs !! i = Some r /\ target_va r = va.
Proof.
  unfold record_index. intros ([j r] & H & Hj)%fmap_Some. simpl in Hj. subst j.
  apply list_find_Some in H as (? & ? & _). eauto.
Qed.

Lemma record_index_None va rs : record_index va rs = None <-> va ∉ target_va <$> rs.
Proof.
  unfold record_index. rewrite fmap_None, list_find_None, Forall_forall, list_elem_of_fmap. naive_solver.
Qed.

(** Replacing a record by one with the same target. *)
Lemma records_wf_update rs i r f :
  records_wf rs -> rs !! i = Some r -> target_va (f r) = target_va r -> record_wf (f r) ->
  records_wf (<[i := f r]> rs).
Proof.
  intros [Hnd Hwf] Hi Ht Hr. split; [|by apply Forall_insert].
  rewrite list_fmap_insert, Ht, list_insert_id; [done|]. by rewrite list_lookup_fmap, Hi.
Qed.

Lemma records_wf_sublist rs rs' : rs' `sublist_of` rs -> records_wf rs -> records_wf rs'.
Proof.
  intros Hs [Hnd Hwf]. split.
  - eapply sublist_NoDup; [exact Hnd|]. by apply fmap_sublist.
  - rewrite Forall_forall in *. intros x Hx. by eapply Hwf, elem_of_sublist.
Qed.

Section prefetch_invariant.
Context {K : Type} `{Kernel K}.
Variable usleep : M rdma_sys unit.
Implicit Types s : machine K.

Definition pf_records s : list prefetch_record_t := prefetch_records (m_pf s).

Lemma wlp_store_frame {A} (m : M storage_state A) (Q : A -> machine K -> Prop) s :
  (forall a x, Q a (set_store x s)) -> wlp (store m) Q s.
Proof. intros HQ. apply (wlp_zoom_frame store_lens). intros. apply HQ. Qed.

Lemma wlp_page_get p (Q : user_page -> machine K -> Prop) s : (forall pg x, Q pg (set_fifo x s)) -> wlp (page_get p) Q s.
Proof. intros HQ. apply (wlp_zoom_frame fifo_lens). intros. apply HQ. Qed.

Lemma wlp_record_at i (Q : prefetch_record_t -> machine K -> Prop) s :
  (forall r, pf_records s !! i = Some r -> Q r s) -> wlp (record_at i) Q s.
Proof. intros HQ. unfold record_at. by wlp_norm. Qed.

Lemma wlp_upd_record i f (Q : unit -> machine K -> Prop) s :
  (forall r, pf_records s !! i = Some r ->
     Q tt (set_pf (set_records (<[i := f r]> (pf_records s)) (m_pf s)) s)) ->
  wlp (upd_record i f) Q s.
Proof.
  intros HQ. unfold upd_record. rewrite wlp_bind. apply wlp_record_at. intros r Hr. unfold upd_pf. wlp_norm. by apply HQ.
Qed.

(** Steps of an operation that only touches the records through
    [upd_record]. *)
Ltac pf_step :=
  first [ progress wlp_norm
        | progress (cbv zeta)
        | apply wlp_store_frame; intros ? ?
        | apply wlp_page_get; intros ? ?
        | apply wlp_record_at; intros ? ?
        | apply wlp_upd_record; intros ? ?
        | apply wlp_zoom_frame; intros ? ?
        | case_match ].

Lemma find_record_wlp v (Q : option nat -> machine K -> Prop) s :
  Q (record_index v (pf_records s)) s -> wlp (find_prefetch_record v) Q s.
Proof. done. Qed.

(** The record of [tv], if there is one, is not waited for. *)
Definition idle_record (tv : Z) (rs : list prefetch_record_t) : Prop :=
  forall i, record_index tv rs = Some i -> exists r, rs !! i = Some r /\ pr_status r <> PREFETCH_IN_PROGRESS.

Lemma idle_put tv i r rs :
  records_wf (<[i := r]> rs) -> (i < length rs)%nat -> target_va r = tv -> pr_status r <> PREFETCH_IN_PROGRESS ->
  idle_record tv (<[i := r]> rs).
Proof.
  intros [Hnd _] Hi Ht Hs j Hj. apply record_index_Some in Hj as (x & Hx & Htx). exists x. split; [done|].
  assert (Hri : <[i := r]> rs !! i = Some r) by by apply list_lookup_insert_eq.
  assert (j = i) as -> by (apply (NoDup_lookup _ _ _ tv Hnd); rewrite list_lookup_fmap, ?Hx, ?Hri; simpl; congruence).
  congruence.
Qed.

Lemma add_record_wf sv tv pv s :
  records_wf (pf_records s) ->
  wlp (add_prefetch_record sv tv pv)
     (fun ret s' => records_wf (pf_records s') /\ (ret = 0 -> idle_record tv (pf_records s'))) s.
Proof.
  intros Hwf. unfold add_prefetch_record. rewrite wlp_bind. apply find_record_wlp.
  set (new := mk_record sv tv pv 0 0 PREFETCH_REQUESTED).
  assert (Hfin : forall i s0, (forall now, records_wf (<[i := new now]> (pf_records s0))) ->
    wlp (now ← m_rdma rdma_get_timestamp; upd_record i (fun _ => new now);; mret 0)
      (fun ret s' => records_wf (pf_records s') /\ (ret = 0 -> idle_record tv (pf_records s'))) s0).
  { intros i s0 H1. rewrite wlp_bind. apply wlp_store_frame. intros now x. rewrite wlp_bind.
    apply wlp_upd_record. intros r' Hr'. rewrite wlp_ret. split; [apply H1|]. intros _.
    apply idle_put; [apply H1|by eapply lookup_lt_Some|done|done]. }
  assert (Hnew : forall now, record_wf (new now)) by (intros now; by split).
  destruct (record_index tv (pf_records s)) as [i|] eqn:Ei.
  - wlp_norm. apply Hfin. intros now. apply record_index_Some in Ei as (r & Hi & Ht).
    by apply (records_wf_update _ i r (fun _ => new now)).
  - rewrite !wlp_bind. apply wlp_store_frame. intros node x. destruct (node =? 0); [by wlp_norm|].
    unfold upd_pf. wlp_norm. apply Hfin. intros now. apply record_index_None in Ei.
    destruct Hwf as [Hnd Hwf]. by split; [apply NoDup_cons|apply Forall_cons].
Qed.

Lemma transfer_wf p a i r s :
  records_wf (pf_records s) -> pf_records s !! i = Some r -> pr_status r = PREFETCH_REQUESTED ->
  wlp (transfer_to_prefetch_buffer usleep p a i) (fun _ s' => records_wf (pf_records s')) s.
Proof.
  intros Hwf Hi Hr. unfold transfer_to_prefetch_buffer. rewrite wlp_bind. apply wlp_store_frame. intros buf x.
  destruct (buf =? 0); [by wlp_norm|]. rewrite wlp_bind. apply wlp_page_get. intros pg x1. rewrite wlp_bind.
  apply wlp_store_frame. intros e x2. destruct (negb (e =? 0)); [by wlp_norm|]. rewrite wlp_bind.
  apply wlp_store_frame. intros req x3. rewrite wlp_bind. apply wlp_upd_record. intros r1 Hr1.
  change (pf_records s !! i = Some r1) in Hr1. simplify_eq.
  assert (Hwf1 : records_wf (<[i := set_rdma_request_id req r]> (pf_records s))).
  { eapply records_wf_update; [done|done|done|]. split; simpl; congruence. }
  destruct (req =? 0) eqn:E; [by wlp_norm|]. rewrite wlp_bind. apply wlp_upd_record. intros r2 Hr2. wlp_norm.
  change (<[i := set_rdma_request_id req r]> (pf_records s) !! i = Some r2) in Hr2. eapply records_wf_update; [done|exact Hr2|done|].
  rewrite list_lookup_insert_eq in Hr2 by (by eapply lookup_lt_Some). simplify_eq. split; simpl; [done|lia].
Qed.

(** Marking a record as not in progress keeps it well formed. *)
Lemma fail_record_wf i s (Q : unit -> machine K -> Prop) :
  records_wf (pf_records s) ->
  (forall rs, records_wf rs -> Q tt (set_pf (set_records rs (m_pf s)) s)) ->
  wlp (upd_record i (set_pr_status PREFETCH_FAILED)) Q s.
Proof.
  intros Hwf HQ. apply wlp_upd_record. intros r Hr. apply HQ. eapply records_wf_update; [done|exact Hr|done|].
  by split.
Qed.

Lemma set_addr_wf i a s (Q : unit -> machine K -> Prop) :
  records_wf (pf_records s) ->
  (forall rs, records_wf rs -> Q tt (set_pf (set_records rs (m_pf s)) s)) ->
  wlp (upd_record i (set_pr_remote_addr a)) Q s.
Proof.
  intros Hwf HQ. apply wlp_upd_record. intros r Hr. apply HQ. eapply records_wf_update; [done|exact Hr|done|].
  exact (Forall_lookup_1 _ _ _ _ (proj2 Hwf) Hr).
Qed.

Lemma start_wf pg i r s :
  records_wf (pf_records s) -> pf_records s !! i = Some r -> pr_status r = PREFETCH_REQUESTED ->
  wlp (start_prefetch usleep pg i) (fun _ s' => records_wf (pf_records s')) s.
Proof.
  intros Hwf Hi Hr. unfold start_prefetch. cbv zeta. rewrite wlp_bind.
  apply (wlp_mono _ (fun _ s' => records_wf (pf_records s'))).
  2:{ intros [] s' Hs'. rewrite wlp_bind. apply wlp_record_at. intros r1 _. unfold upd_stats, upd_pf. by wlp_norm. }
  assert (Hgive : forall s0, records_wf (pf_records s0) ->
    wlp (upd_record i (set_pr_status PREFETCH_FAILED);;
         r ← record_at i;
         m_rdma (rdma_sim_free Client (pr_remote_addr r));;
         upd_record i (set_pr_remote_addr 0)) (fun _ s' => records_wf (pf_records s')) s0).
  { intros s0 Hs0. rewrite wlp_bind. apply fail_record_wf; [done|]. intros rs Hrs. rewrite wlp_bind.
    apply wlp_record_at. intros r1 _. rewrite wlp_bind. apply wlp_store_frame. intros e x. by apply set_addr_wf. }
  destruct pg as [p|]; [|by apply Hgive]. rewrite wlp_bind. apply wlp_page_get. intros pg x.
  destruct (swapped_out pg); [|by apply Hgive]. rewrite wlp_bind. apply wlp_record_at. intros r1 Hr1.
  rewrite wlp_bind. eapply wlp_mono; [apply (transfer_wf p _ i r); [exact Hwf|exact Hi|exact Hr]|]. intros ret s' Hs'. wlp_norm. split; [|done].
  intros _. by apply fail_record_wf.
Qed.

Lemma async_wf tv sv s :
  records_wf (pf_records s) -> wlp (async_prefetch_page usleep tv sv) (fun _ s' => records_wf (pf_records s')) s.
Proof.
  intros Hwf. unfold async_prefetch_page, upd_stats, upd_pf, get_user_page, find_page. wlp_norm.
  set (s1 := set_pf _ _). assert (Hwf1 : records_wf (pf_records s1)) by done. clearbody s1. clear s Hwf.
  generalize (m_hash s1 !! tv) as ep. intros ep.
  apply (wlp_mono _ (fun _ s' => records_wf (pf_records s'))).
  { destruct ep as [p|]; [|by wlp_norm]. rewrite wlp_bind. apply wlp_page_get. intros pg x. by wlp_norm. }
  intros pg s Hwf. clear s1 Hwf1. destruct (match pg with Some _ => _ | None => false end); [by wlp_norm|].
  destruct (match pg with Some _ => _ | None => false end); [by wlp_norm|]. rewrite wlp_bind.
  apply find_record_wlp. rewrite wlp_bind. set (idx := record_index tv (pf_records s)).
  apply (wlp_mono _ (fun busy s' => s' = s /\ (busy = false -> idle_record tv (pf_records s)))).
  { unfold idx, idle_record. destruct (record_index tv (pf_records s)) as [i|]; [|by wlp_norm].
    rewrite wlp_bind. apply wlp_record_at. intros r Hr. wlp_norm. split; [done|].
    intros Hu i' [= <-]. exists r. split; [done|]. intros E. unfold usable in Hu. by rewrite E in Hu. }
  intros busy s' [-> Hidle]. destruct busy; [by wlp_norm|]. specialize (Hidle eq_refl). rewrite wlp_bind.
  apply wlp_store_frame. intros [e [a|]] x; [|by wlp_norm]. rewrite wlp_bind.
  apply (wlp_mono _ (fun o s' => records_wf (pf_records s') /\
    forall i, o = Some i -> record_index tv (pf_records s') = Some i /\ idle_record tv (pf_records s'))).
  { unfold idx. destruct (record_index tv (pf_records s)) as [i|] eqn:Ei.
    - wlp_norm. split; [done|]. intros ? [= <-]. done.
    - rewrite wlp_bind. eapply wlp_mono; [by apply add_record_wf|]. intros ret s2 [Hwf2 Hid2].
      destruct (ret =? 0) eqn:E; simpl; [|by wlp_norm]. apply find_record_wlp. split; [done|].
      intros i Hi. split; [done|]. apply Hid2. lia. }
  intros [i|] s2 [Hwf2 Hi2].
  2:{ rewrite wlp_bind. apply wlp_store_frame. intros ? ?. by wlp_norm. }
  destruct (Hi2 i eq_refl) as [Hix Hid]. rewrite wlp_bind. apply wlp_upd_record. intros r Hr. rewrite wlp_bind.
  apply wlp_upd_record. intros r2 Hr2. change (<[i := set_pr_remote_addr a r]> (pf_records s2) !! i = Some r2) in Hr2.
  assert (Hwf3 : records_wf (<[i := set_pr_remote_addr a r]> (pf_records s2))).
  { eapply records_wf_update; [done|done|done|]. exact (Forall_lookup_1 _ _ _ _ (proj2 Hwf2) Hr). }
  eapply (start_wf _ _ (set_pr_status PREFETCH_REQUESTED r2)); [|apply list_lookup_insert_eq; by eapply lookup_lt_Some|done].
  by eapply records_wf_update.
Qed.

Lemma retrieve_wf i buf s :
  records_wf (pf_records s) ->
  wlp (retrieve_prefetched_data_to_local_buffer usleep i buf) (fun _ s' => records_wf (pf_records s')) s.
Proof.
  intros Hwf. unfold retrieve_prefetched_data_to_local_buffer. rewrite wlp_bind. apply wlp_record_at. intros r Hr.
  rewrite wlp_bind. apply (wlp_mono _ (fun _ s' => records_wf (pf_records s'))).
  { wlp_norm. split; [|done]. intros _. apply wlp_store_frame. intros [wr ec] x. apply wlp_upd_record.
    intros r1 Hr1. eapply records_wf_update; [done|exact Hr1|done|]. by destruct (_ && _). }
  intros [] s1 Hwf1. rewrite wlp_bind. apply wlp_record_at. intros r1 _.
  destruct (bool_decide _); [|by wlp_norm]. rewrite wlp_bind. apply wlp_store_frame. intros rid x.
  destruct (rid =? 0); [rewrite wlp_bind; apply fail_record_wf; [done|]; intros; by wlp_norm|].
  rewrite wlp_bind. apply wlp_store_frame. intros [wr ec] x1. destruct (_ && _).
  - rewrite wlp_bind. apply wlp_store_frame. intros e x2. rewrite wlp_bind. apply set_addr_wf; [done|]. intros. by wlp_norm.
  - rewrite wlp_bind. apply fail_record_wf; [done|]. intros. by wlp_norm.
Qed.

Lemma fault_wf page s :
  records_wf (pf_records s) ->
  wlp (handle_page_fault_with_prefetch usleep page) (fun _ s' => records_wf (pf_records s')) s.
Proof.
  intros Hwf. unfold handle_page_fault_with_prefetch, get_var. wlp_norm. destruct page as [p|]; [|by wlp_norm].
  destruct (negb _); [by wlp_norm|]. wlp_norm. intros _. apply wlp_page_get. intros pg x.
  rewrite wlp_bind. apply find_record_wlp. cbv beta. match goal with |- wlp (match ?o with Some _ => _ | None => _ end) _ _ => destruct o as [i|] end;
    [|by wlp_norm]. rewrite wlp_bind. apply wlp_record_at. intros r _. destruct (usable r); [|by wlp_norm]. rewrite wlp_bind.
  eapply wlp_mono; [by apply retrieve_wf|]. intros ret s1 Hwf1. destruct (ret =? 0).
  2:{ unfold upd_stats, upd_pf. by wlp_norm. }
  rewrite wlp_bind. apply (wlp_zoom_frame kern_lens). intros ok km. destruct (negb ok).
  - rewrite wlp_bind. apply fail_record_wf; [done|]. intros rs Hrs. unfold upd_stats, upd_pf. by wlp_norm.
  - do 3 (rewrite wlp_bind; apply (wlp_zoom_frame fifo_lens); intros ? ?). unfold upd_stats, upd_pf. by wlp_norm.
Qed.

Lemma sweep_spec now rs s :
  wlp (sweep now rs) (fun rs' s' => rs' = base.filter (fun r => expired now r = false) rs /\ pf_records s' = pf_records s) s.
Proof.
  revert s. induction rs as [|r rs IH]; intros s; simpl; [by wlp_norm|].
  destruct (expired now r) eqn:E.
  - rewrite filter_cons_False by congruence. rewrite wlp_bind.
    apply (wlp_mono _ (fun _ s' => pf_records s' = pf_records s)).
    { wlp_norm. split; [|done]. intros _. by apply wlp_store_frame. }
    intros [] s1 E1. eapply wlp_mono; [apply IH|]. intros rs' s2 [-> E2]. simpl in E1. split; [done|congruence].
  - rewrite filter_cons_True by done. rewrite wlp_bind. eapply wlp_mono; [apply IH|]. intros rs' s1 [-> E1]. by wlp_norm.
Qed.

Lemma cleanup_old_wf s :
  records_wf (pf_records s) ->
  wlp cleanup_old_prefetch_records (fun _ s' => records_wf (pf_records s')) s.
Proof.
  intros Hwf. unfold cleanup_old_prefetch_records, upd_pf. rewrite wlp_bind. apply wlp_store_frame. intros now x.
  wlp_norm. eapply wlp_mono; [apply sweep_spec|]. intros rs s' [-> _]. wlp_norm.
  eapply records_wf_sublist; [apply sublist_filter|done].
Qed.
End prefetch_invariant.

(** ** Sequences of calls *)

(** The entry points of the prefetcher. *)
Inductive prefetch_call : Type :=
  | CallInit
  | CallCleanup
  | CallAdd (source_va target_va pointer_value : Z)
  | CallAsync (target_va source_va : Z)
  | CallFault (page : option ptr)
  | CallCleanupOld
  | CallRead (page : option ptr)
  | CallValidate (pointer_value current_va : Z)
  | CallReset
  | CallDistance (distance : Z)
  | CallThreshold (threshold : Z).

Section prefetch_calls.
Context {K : Type} `{Kernel K}.
Variable usleep : M rdma_sys unit.

Definition run_call (c : prefetch_call) : M (machine K) unit :=
  match c with
  | CallInit => pointer_prefetch_init;; mret tt
  | CallCleanup => pointer_prefetch_cleanup
  | CallAdd sv tv pv => add_prefetch_record sv tv pv;; mret tt
  | CallAsync tv sv => async_prefetch_page usleep tv sv;; mret tt
  | CallFault p => handle_page_fault_with_prefetch usleep p;; mret tt
  | CallCleanupOld => cleanup_old_prefetch_records
  | CallRead p => read_page_end_pointer p;; mret tt
  | CallValidate p v => validate_pointer p v;; mret tt
  | CallReset => reset_prefetch_stats
  | CallDistance d => set_prefetch_distance d
  | CallThreshold t => set_pointer_validation_threshold t
  end.

Fixpoint run_calls (cs : list prefetch_call) : M (machine K) unit :=
  match cs with
  | [] => mret tt
  | c :: cs => run_call c;; run_calls cs
  end.

Lemma release_all_frame rs (s : machine K) : wlp (release_all rs) (fun _ _ => True) s.
Proof. unfold wlp. by destruct (release_all rs s) as [[]|]. Qed.

Lemma read_pointer_frame p (s : machine K) :
  wlp (read_page_end_pointer p) (fun _ s' => pf_records s' = pf_records s) s.
Proof.
  unfold read_page_end_pointer. destruct p as [p|]; [|by wlp_norm]. rewrite wlp_bind. apply wlp_page_get. intros pg x.
  destruct (_ || _); [by wlp_norm|]. rewrite wlp_bind. apply wlp_store_frame. intros w x1. unfold upd_stats, upd_pf.
  wlp_norm. destruct (w =? 0); [by wlp_norm|]. rewrite wlp_bind. apply wlp_store_frame. intros [] x2.
  - rewrite wlp_bind. apply wlp_store_frame. intros ? ?. by wlp_norm.
  - rewrite wlp_bind. apply wlp_store_frame. intros ? ?. by wlp_norm.
Qed.

Lemma call_wf c (s : machine K) :
  records_wf (pf_records s) -> wlp (run_call c) (fun _ s' => records_wf (pf_records s')) s.
Proof.
  intros Hwf. destruct c as [| |sv tv pv|tv sv|p| |p|p v| |d|t]; simpl run_call.
  - unfold pointer_prefetch_init. wlp_norm. destruct (prefetch_initialized _); [by wlp_norm|]. rewrite wlp_bind.
    apply wlp_store_frame. intros r x. destruct (negb _); unfold upd_pf; wlp_norm; [done|].
    split; [apply NoDup_nil_2|constructor].
  - unfold pointer_prefetch_cleanup. wlp_norm. destruct (negb _); [by wlp_norm|]. rewrite wlp_bind.
    eapply wlp_mono; [apply release_all_frame|]. intros [] s1 _. unfold upd_pf. wlp_norm. apply wlp_store_frame.
    intros ? ?. split; [apply NoDup_nil_2|constructor].
  - wlp_norm. eapply wlp_mono; [by apply add_record_wf|]. intros ? ? [? _]. by wlp_norm.
  - wlp_norm. eapply wlp_mono; [by apply async_wf|]. intros. by wlp_norm.
  - wlp_norm. eapply wlp_mono; [by apply fault_wf|]. intros. by wlp_norm.
  - by apply cleanup_old_wf.
  - wlp_norm. eapply wlp_mono; [apply read_pointer_frame|]. intros ? ? E. wlp_norm. by rewrite E.
  - wlp_norm. unfold validate_pointer, upd_stats, upd_pf. wlp_norm. cbv zeta. repeat case_match; by wlp_norm.
  - done.
  - done.
  - done.
Qed.

(** C38: whatever calls the prefetcher receives, in whatever order and with
    whatever the fabric and the kernel answer, its list never holds two
    records for one target, and every record whose transfer is in progress
    has a request to wait for. *)
Theorem prefetch_records_wf (cs : list prefetch_call) (s : machine K) :
  records_wf (pf_records s) -> wlp (run_calls cs) (fun _ s' => records_wf (pf_records s')) s.
Proof.
  revert s. induction cs as [|c cs IH]; intros s Hwf; simpl; wlp_norm; [done|].
  eapply wlp_mono; [by apply call_wf|]. intros [] s' Hwf'. by apply IH.
Qed.

(** ** What counts as a pointer *)

(** [validate_pointer] accepts exactly the non-null pointers at or above
    the threshold whose distance from the faulting page, in either
    direction, is at most the limit; it counts each rejection of a non-null
    pointer and changes nothing else. *)
Theorem validate_pointer_spec (p v : Z) (s : machine K) :
  let thr := pointer_validation_threshold_g (m_pf s) in
  let far := max_prefetch_distance_g (m_pf s) in
  wp (validate_pointer p v)
     (fun b s' => (b = true <-> p <> 0 /\ thr <= p /\ Z.abs (p - v) <= far) /\
        s' = if b || (p =? 0) then s
             else set_pf (set_stats (count_invalid (prefetch_stats_g (m_pf s))) (m_pf s)) s) s.
Proof.
  intros thr far. unfold validate_pointer, upd_stats, upd_pf. wp_norm. cbv zeta. fold thr far.
  destruct (p =? 0) eqn:E0; [wp_norm; split; [split; [done|lia]|done]|].
  destruct (p <? thr) eqn:E1; [wp_norm; split; [split; [done|lia]|done]|].
  destruct (far <? _) eqn:E2; wp_norm; (split; [split; [try done|]|done]); destruct (v <? p) eqn:E3; lia.
Qed.
End prefetch_calls.

(** ** The prefetcher in a client process *)

Section client.
Context {K : Type} `{Kernel K}.
Variable usleep : M rdma_sys unit.
Implicit Types s : machine K.

(** The process is attached to a running server, and its own block list is
    empty, as in every process that attached as a client. *)
Definition client_of_storage s : Prop :=
  (exists k st, storage_rep k (m_store s) st) /\ sim_remote_memory_blocks (client (st_sys (m_store s))) = [].

Lemma client_conn s : client_of_storage s ->
  exists id G key nid clk shm srv cli, st_sys (m_store s) = RdmaSim.conn id G key nid clk shm srv cli /\
    rdma_shm cli = Some id /\ shm_initialized shm = true /\ sim_remote_memory_blocks cli = [] /\
    storage_translator (st_trans (m_store s)).
Proof.
  intros [(k & st & id & G & key & nid & clk & pid & tr & tw & shm & srv & cli & m & t & rs & n & c & E & Hq & Ht & _) Hb].
  rewrite E in *. do 8 eexists. split; [reflexivity|]. split; [apply Hq|]. split; [apply Hq|]. by split.
Qed.

(** A call into the fabric that leaves it alone leaves the machine alone. *)
Lemma wp_m_rdma_same {A} (m : M rdma_sys A) (Q : A -> machine K -> Prop) s (P : A -> Prop) :
  wp m (fun a x => P a /\ x = st_sys (m_store s)) (st_sys (m_store s)) -> (forall a, P a -> Q a s) ->
  wp (m_rdma m) Q s.
Proof.
  intros Hm HQ. unfold m_rdma. apply (wp_zoom store_lens), (wp_zoom sys_lens). eapply wp_mono; [exact Hm|].
  intros a x [Ha ->]. simpl. replace (set_store _ s) with s; [by apply HQ|].
  destruct s as [[] ? ? ? ? ? ? ?]. done.
Qed.

Lemma wp_m_translator_same {A} (m : M address_translator_t A) (Q : A -> machine K -> Prop) s (P : A -> Prop) :
  wp m (fun a x => P a /\ x = st_trans (m_store s)) (st_trans (m_store s)) -> (forall a, P a -> Q a s) ->
  wp (m_translator m) Q s.
Proof.
  intros Hm HQ. unfold m_translator. apply (wp_zoom store_lens), (wp_zoom trans_lens). eapply wp_mono; [exact Hm|].
  intros a x [Ha ->]. simpl. replace (set_store _ s) with s; [by apply HQ|].
  destruct s as [[] ? ? ? ? ? ? ?]. done.
Qed.

Lemma client_free a s (Q : Z -> machine K -> Prop) :
  client_of_storage s -> (forall e, Q e s) -> wp (m_rdma (rdma_sim_free Client a)) Q s.
Proof.
  intros Hc HQ. destruct (client_conn s Hc) as (id & G & key & nid & clk & shm & srv & cli & E & Hatt & Hini & Hb & _).
  apply (wp_m_rdma_same _ _ _ (fun _ => True)); [|auto]. rewrite E. unfold rdma_sim_free. wp_norm.
  apply wp_connected; [done|]. rewrite Hini. simpl negb. cbv iota. wp_norm. rewrite proc_conn. simpl procs. rewrite Hb.
  by wp_norm.
Qed.

Lemma client_allocate size s (Q : Z * option Z -> machine K -> Prop) :
  client_of_storage s -> 0 < size -> Q (ENOMEM, None) s -> wp (m_rdma (rdma_sim_allocate Client size false)) Q s.
Proof.
  intros Hc Hs HQ. destruct (client_conn s Hc) as (id & G & key & nid & clk & shm & srv & cli & E & Hatt & Hini & Hb & _).
  apply (wp_m_rdma_same _ _ _ (fun r => r = (ENOMEM, None))); [|by intros ? ->]. rewrite E. unfold rdma_sim_allocate.
  replace (false || (size =? 0)) with false by lia. wp_norm. apply wp_connected; [done|]. rewrite Hini. simpl negb.
  cbv iota zeta. wp_norm. rewrite proc_conn. simpl procs. rewrite Hb. simpl alloc_block. cbv iota. by wp_norm.
Qed.

(** [gettimeofday] in microseconds. *)
Definition now_us s : Z := let tv := clock (st_sys (m_store s)) in u64 (u64 (tv.1 * 1000000) + tv.2).

Lemma client_sweep now rs s :
  client_of_storage s ->
  wp (sweep now rs) (fun rs' s' => rs' = base.filter (fun r => expired now r = false) rs /\ s' = s) s.
Proof.
  intros Hc. induction rs as [|r rs IH]; simpl; [by wp_norm|]. destruct (expired now r) eqn:E.
  - rewrite filter_cons_False by congruence. wp_norm. apply wp_when; [intros _|intros _; exact IH].
    wp_norm. apply client_free; [done|]. intros e. by wp_norm.
  - rewrite filter_cons_True by done. wp_norm. eapply wp_mono; [exact IH|]. intros rs' s' [-> ->]. by wp_norm.
Qed.

(** A clean-up in a client keeps exactly the records that have not
    failed and are younger than their limit (30 s, 60 s for a transfer in
    progress), in their order, and changes nothing else. *)
Theorem cleanup_keeps_live s :
  client_of_storage s ->
  wp cleanup_old_prefetch_records
     (fun _ s' => s' = set_pf (set_records (base.filter (fun r => expired (now_us s) r = false) (pf_records s)) (m_pf s)) s) s.
Proof.
  intros Hc. unfold cleanup_old_prefetch_records. wp_norm.
  apply (wp_m_rdma_same _ _ _ (fun now => now = now_us s)); [|intros ? ->].
  - unfold rdma_get_timestamp. by wp_norm.
  - wp_norm. eapply wp_mono; [by apply client_sweep|]. intros rs s' [-> ->]. unfold upd_pf. by wp_norm.
Qed.

(** The pointer at the end of a page that is in memory is its last
    word if that lies in the local heap, and null otherwise: a word in the
    remote heap's range never converts back. *)
Theorem page_end_pointer_spec p pg s :
  client_of_storage s -> pages (m_fifo s) !! p = Some pg ->
  va pg <> 0 -> in_dram pg = true -> 0 <= va pg -> va pg + PAGE_SIZE <= 2 ^ 64 ->
  let w := le_combine (mem_read (the_mem s) (page_end_word (va pg)) 8) in
  wp (read_page_end_pointer (Some p))
     (fun r s' => r = (if local_range w then w else 0) /\
        s' = set_pf (set_stats (count_validation (prefetch_stats_g (m_pf s))) (m_pf s)) s) s.
Proof.
  intros Hc Hp Hv0 Hd Hv1 Hv2 w. unfold read_page_end_pointer. wp_norm. apply wp_page_get with pg; [done|].
  replace (va pg =? 0) with false by lia. rewrite Hd. simpl orb. cbv iota. wp_norm.
  rewrite u64_small by (unfold in_u64, page_end_word, POINTER_OFFSET_FROM_END, PAGE_SIZE, BASEPAGE_SIZE in *; lia).
  assert (Hread : forall Q : Z -> machine K -> Prop, Q w s -> wp (store (read_word (page_end_word (va pg)))) Q s).
  { intros Q HQ. unfold store, read_word. apply (wp_zoom store_lens). wp_norm. apply (wp_zoom sys_lens). unfold proc_read.
    wp_norm. simpl. replace (set_store _ s) with s; [exact HQ|]. by destruct s as [[] ? ? ? ? ? ? ?]. }
  apply Hread. clear Hread. clearbody w. unfold upd_stats, upd_pf. wp_norm. set (s1 := set_pf _ s).
  destruct (client_conn s Hc) as (_ & _ & _ & _ & _ & _ & _ & _ & _ & _ & _ & _ & [Hi [Hl1 Hl2] [Hr1 Hr2] Hrs]).
  destruct (w =? 0) eqn:E0; [wp_norm; split; [unfold local_range; destruct (_ && _) eqn:E; lia|done]|].
  wp_norm. apply (wp_m_translator_same _ _ _ (fun b => b = remote_range w)).
  { unfold is_valid_remote_pointer. rewrite E0. wp_norm. simpl. rewrite Hi. simpl negb. cbv iota. wp_norm.
    by rewrite Hr1, Hr2. }
  intros ? ->. destruct (remote_range w) eqn:Ew; wp_norm.
  - apply (wp_m_translator_same _ _ _ (fun r => valid r = false)).
    { unfold convert_remote_to_local_pointer. rewrite E0. wp_norm. simpl. rewrite Hi. simpl negb. cbv iota.
      rewrite first_region_none; [by wp_norm|]. eapply Forall_impl; [exact Hrs|].
      intros r [_ Hr]. unfold remote_match, remote_range in *. lia. }
    intros r Hr. rewrite Hr. wp_norm. split; [|done]. destruct (local_range w) eqn:E; [|done]. unfold local_range, remote_range in *. lia.
  - apply (wp_m_translator_same _ _ _ (fun b => b = local_range w)).
    { unfold is_valid_local_pointer. rewrite E0. wp_norm. simpl. rewrite Hi. simpl negb. cbv iota. wp_norm.
      by rewrite Hl1, Hl2. }
    intros ? ->. by wp_norm.
Qed.

(** No record can serve a fault. *)
Definition no_usable s : Prop := Forall (fun r => usable r = false) (pf_records s).

(** The pages in the hash exist. *)
Definition hash_ok s : Prop := forall v p, m_hash s !! v = Some p -> is_Some (pages (m_fifo s) !! p).

(** [async_prefetch_page] has nothing to do for this page. *)
Definition prefetch_skips (o : option user_page) : bool :=
  match o with Some pg => (negb (swapped_out pg) && in_dram pg) || migrating pg | None => false end.

Lemma wp_record_at i r (Q : prefetch_record_t -> machine K -> Prop) s :
  pf_records s !! i = Some r -> Q r s -> wp (record_at i) Q s.
Proof. intros Hi HQ. unfold record_at. wp_norm. by apply wp_deref with r. Qed.

Lemma client_async tv sv s :
  client_of_storage s -> no_usable s -> hash_ok s ->
  wp (async_prefetch_page usleep tv sv)
     (fun r s' => r = (if prefetch_skips (m_hash s !! tv ≫= fun p => pages (m_fifo s) !! p) then 0 else -1) /\
        exists x, s' = set_pf (set_stats x (m_pf s)) s) s.
Proof.
  intros Hc Hu Hh. unfold async_prefetch_page, upd_stats, upd_pf, get_user_page, find_page. wp_norm.
  set (s1 := set_pf (set_stats (count_attempt _) _) s). set (o := m_hash s !! tv ≫= _).
  apply (wp_mono _ (fun pg s' => s' = s1 /\ pg = o)).
  { unfold o. change (m_hash s1) with (m_hash s). destruct (m_hash s !! tv) as [p|] eqn:Ep; [|by wp_norm].
    destruct (Hh _ _ Ep) as [pg Hpg]. wp_norm. apply wp_page_get with pg; [done|]. by wp_norm. }
  intros pg s' [-> ->]. clearbody o.
  assert (Hs1 : exists x, s1 = set_pf (set_stats x (m_pf s)) s) by (by eexists).
  unfold prefetch_skips. destruct (match o with Some pg => negb (swapped_out pg) && in_dram pg | None => false end) eqn:E1.
  { wp_norm. split; [|done]. destruct o; [|done]. by rewrite E1. }
  destruct (match o with Some pg => migrating pg | None => false end) eqn:E2.
  { wp_norm. split; [|done]. destruct o; [|done]. by rewrite E1, E2. }
  replace (match o with Some pg => _ | None => false end) with false by (destruct o; [by rewrite E1, E2|done]).
  wp_norm. unfold find_prefetch_record at 1. wp_norm.
  apply (wp_mono _ (fun busy s' => busy = false /\ s' = s1)).
  { destruct (record_index tv _) as [i|] eqn:Ei; [|by wp_norm]. destruct (record_index_Some _ _ _ Ei) as (r & Hr & _).
    wp_norm. apply wp_record_at with r; [done|]. wp_norm. split; [|done]. exact (Forall_lookup_1 _ _ _ _ Hu Hr). }
  intros busy s' [-> ->]. wp_norm. apply client_allocate; [done|done|]. wp_norm. split; [done|]. by eexists.
Qed.

(** What a fault finds when no record is usable. *)
Lemma client_fault p pg s :
  no_usable s -> pages (m_fifo s) !! p = Some pg -> prefetch_initialized (m_pf s) = true -> vars s buffer_space <> 0 ->
  wp (handle_page_fault_with_prefetch usleep (Some p)) (fun r s' => r = -1 /\ s' = s) s.
Proof.
  intros Hu Hp Hi Hb. unfold handle_page_fault_with_prefetch, get_var, find_prefetch_record. wp_norm. rewrite Hi.
  simpl negb. cbv iota. wp_norm. apply wp_assert; [lia|]. wp_norm. apply wp_page_get with pg; [done|]. wp_norm.
  destruct (record_index (va pg) _) as [i|] eqn:Ei; [|by wp_norm]. destruct (record_index_Some _ _ _ Ei) as (r & Hr & _).
  wp_norm. apply wp_record_at with r; [done|]. rewrite (Forall_lookup_1 _ _ _ _ Hu Hr). by wp_norm.
Qed.

(** C39: in a client process prefetching never serves a fault.  Starting
    without usable records, [async_prefetch_page] returns 0 only when the
    target is already in memory or being moved, and -1 otherwise (its
    [rdma_sim_allocate] has no memory to hand out); no transfer is started,
    no record, page or stored byte changes, and a fault on any page that
    follows is not served from a prefetched copy. *)
Theorem prefetch_inert tv sv p pg s :
  client_of_storage s -> no_usable s -> hash_ok s -> pages (m_fifo s) !! p = Some pg ->
  prefetch_initialized (m_pf s) = true -> vars s buffer_space <> 0 ->
  wp (r ← async_prefetch_page usleep tv sv; f ← handle_page_fault_with_prefetch usleep (Some p); mret (r, f))
     (fun '(r, f) s' =>
        r = (if prefetch_skips (m_hash s !! tv ≫= fun q => pages (m_fifo s) !! q) then 0 else -1) /\ f = -1 /\
        exists x, s' = set_pf (set_stats x (m_pf s)) s) s.
Proof.
  intros Hc Hu Hh Hp Hi Hb. wp_norm. wp_call client_async as r s1 (-> & x & ->); [done..|]. wp_norm.
  wp_call client_fault as f s2 [-> ->]; [done..|]. wp_norm. split; [done|]. split; [done|]. by exists x.
Qed.
End client.

(** ** Instances *)

(** A machine over [demo_store] with the page [pg], mapped by the hash at its
    address, and no records. *)
Definition demo_vars : var -> Z := fun x =>
  match x with buffer_space => 65536 | dramsize => 8192 | disksize => 16384 | _ => 0 end.

Definition demo_machine (m : mem) (ml : list Z) (pg : user_page) (rs : list prefetch_record_t) : machine sim_kernel :=
  mk_machine (demo_store m ml) (mk_fifo_state {[1%positive := pg]} ∅) {[va pg := 1%positive]} 2%positive
    (mk_sim_kernel [] ∅ (fun _ => 0) []) (mk_prefetch rs zero_stats true MAX_PREFETCH_DISTANCE PREFETCH_VALIDATION_THRESHOLD)
    demo_vars (fun _ => false).

Lemma demo_machine_client m ml pg rs : client_of_storage (demo_machine m ml pg rs).
Proof. split; [|done]. exists 0, ∅. by apply demo_store_rep. Qed.

Lemma demo_machine_hash m ml pg rs : hash_ok (demo_machine m ml pg rs).
Proof.
  intros v p Hv. simpl in *. apply lookup_singleton_Some in Hv as [_ <-]. rewrite lookup_singleton_eq. by eexists.
Qed.

(** A page at 4096 in memory. *)
Definition demo_resident : user_page := set_in_dram true (set_va 4096 page0).
Definition demo_record (t : Z) (st : prefetch_status_e) (ts : Z) : prefetch_record_t := mk_record 0 t t 0 1 st ts.

Lemma prefetch_records_wf_witness :
  wlp (run_calls (K := sim_kernel) (mret tt)
        [CallAdd 4096 8192 8192; CallAdd 0 8192 8200; CallAsync 8192 4096; CallCleanupOld])
    (fun _ s' => records_wf (pf_records s')) (demo_machine (fun _ => Byte.x00) [65536] demo_resident []).
Proof. apply prefetch_records_wf. split; [apply NoDup_nil_2|constructor]. Defined.

Lemma cleanup_keeps_live_witness :
  wp cleanup_old_prefetch_records
    (fun _ s' => pf_records s' = [demo_record 8192 PREFETCH_COMPLETED 0])
    (demo_machine (fun _ => Byte.x00) [] demo_resident
       [demo_record 4096 PREFETCH_FAILED 0; demo_record 8192 PREFETCH_COMPLETED 0]).
Proof.
  eapply wp_mono; [apply cleanup_keeps_live, demo_machine_client|]. intros [] s' ->. by vm_compute.
Defined.

Lemma page_end_pointer_spec_witness :
  wp (read_page_end_pointer (Some 1%positive))
    (fun r _ => r = 0x7f1234567000) (demo_machine demo_page_mem [] demo_resident []).
Proof.
  eapply wp_mono; [apply (page_end_pointer_spec 1%positive demo_resident);
    [apply demo_machine_client|done|done|done|done|done]|].
  intros r s' [-> _]. by vm_compute.
Defined.

Lemma prefetch_inert_witness :
  wp (r ← async_prefetch_page (K := sim_kernel) (mret tt) 8192 4096;
      f ← handle_page_fault_with_prefetch (mret tt) (Some 1%positive); mret (r, f))
    (fun '(r, f) s' => r = -1 /\ f = -1) (demo_machine (fun _ => Byte.x00) [65536] demo_resident []).
Proof.
  eapply wp_mono; [apply (prefetch_inert (mret tt) 8192 4096 1%positive demo_resident);
    [apply demo_machine_client|constructor|apply demo_machine_hash|done|done|done]|].
  intros [r f] s' (-> & -> & _). by split.
Defined.
