(* ===== verification/Migrate.v ===== *)
(** Moving pages between memory and storage: [extmem_disk_read] to
    [extmem_wp_page] of [src/src/core.c], in the RDMA build.

    A time stamp or a log line has no effect on the state and is left out. *)

From S2P Require Import Prelude UserPage AddressTranslation Fifo RdmaAlloc RdmaSim StorageRdma Machine.

Local Open Scope Z_scope.

Section migrate.
Context {K : Type} `{Kernel K}.
(** What the other processes do during a [usleep]. *)
Variable usleep : M rdma_sys unit.

(** [pt_to_pagesize(page->pt)], whose default case asserts. *)
Definition pagesize_of (pg : user_page) : M (machine K) Z :=
  match pt_to_pagesize (pt pg) with Some n => mret n | None => fail AssertFail end.

(** The results of the storage are ignored. *)
Definition extmem_disk_write (storage_fd src dest pagesize : Z) : M (machine K) unit :=
  store (write_page usleep storage_fd dest src pagesize);; mret tt.

Definition extmem_disk_read (storage_fd src dest pagesize : Z) : M (machine K) unit :=
  store (read_page usleep storage_fd src dest pagesize);; mret tt.

(** [libc_mmap(NULL, len, PROT_READ | PROT_WRITE,
    MAP_PRIVATE | MAP_ANONYMOUS | MAP_NORESERVE, -1, 0)]. *)
Definition map_private (len : Z) : M (machine K) (option Z) :=
  kern (libc_mmap 0 len (Z.lor PROT_READ PROT_WRITE)
          (Z.lor MAP_PRIVATE (Z.lor MAP_ANONYMOUS MAP_NORESERVE)) 0).

(** The thread's transfer page, mapped at its first use. *)
Definition ensure_buffer : M (machine K) unit :=
  b ← get_flag buffer_allocated;
  when (negb b)
    (a ← map_private PAGE_SIZE;
     match a with
     | None => fail AssertFail
     | Some a => set_var buffer_space a;; set_flag buffer_allocated true
     end).

(** [ioctl(uffd, UFFDIO_COPY, &copy)], which must succeed. *)
Definition copy_in (dst src len : Z) : M (machine K) unit :=
  ok ← kern (uffdio_copy dst src len);
  c_assert ok.

Definition extmem_migrate_updisk (page : ptr) (dram_offset : Z) : M (machine K) unit :=
  pg ← page_get page;
  c_assert (negb (in_dram pg));;
  ensure_buffer;;
  pagesize ← pagesize_of pg;
  let disk_addr_offset := virtual_offset pg in
  s ← get;
  c_assert (disk_addr_offset <? vars s disksize);;
  c_assert (dram_offset <? vars s dramsize);;
  extmem_disk_read (vars s diskfd) disk_addr_offset (vars s buffer_space) pagesize;;
  copy_in (va pg) (vars s buffer_space) pagesize;;
  c_assert (va pg mod PAGE_SIZE =? 0);;
  add_var migrations_up 1;;
  page_set page (set_virtual_offset dram_offset);;
  page_set page (set_in_dram true);;
  add_var bytes_migrated pagesize.

(** In this build the asynchronous pair reads nothing from the storage. *)
Definition core_migrate_up_async_start (page : ptr) : M (machine K) unit :=
  pg ← page_get page;
  c_assert (negb (in_dram pg));;
  ensure_buffer;;
  pagesize ← pagesize_of pg;
  let disk_addr_offset := virtual_offset pg in
  s ← get;
  c_assert (disk_addr_offset <? vars s disksize);;
  c_assert (u64 (disk_addr_offset + pagesize) <=? vars s disksize).

Definition core_migrate_up_async_finish (page : ptr) (dram_offset : Z) : M (machine K) unit :=
  pg ← page_get page;
  c_assert (negb (in_dram pg));;
  b ← get_flag buffer_allocated;
  c_assert b;;
  pagesize ← pagesize_of pg;
  let disk_addr_offset := virtual_offset pg in
  s ← get;
  c_assert (disk_addr_offset <? vars s disksize);;
  c_assert (u64 (disk_addr_offset + pagesize) <=? vars s disksize);;
  c_assert (dram_offset <? vars s dramsize);;
  c_assert (u64 (dram_offset + pagesize) <=? vars s dramsize);;
  copy_in (va pg) (vars s buffer_space) pagesize;;
  c_assert (va pg mod PAGE_SIZE =? 0);;
  add_var migrations_up 1;;
  page_set page (set_virtual_offset dram_offset);;
  page_set page (set_in_dram true);;
  add_var bytes_migrated pagesize.

Definition extmem_migrate_downdisk (page : ptr) (disk_offset : Z) (need_wp writeback : bool) : M (machine K) unit :=
  page_set page (set_migrating true);;
  pg ← page_get page;
  c_assert (in_dram pg);;
  pagesize ← pagesize_of pg;
  let old_addr_offset := virtual_offset pg in
  s ← get;
  c_assert (old_addr_offset <? vars s dramsize);;
  c_assert (u64 (old_addr_offset + pagesize) <=? vars s dramsize);;
  c_assert (disk_offset <? vars s disksize);;
  c_assert (u64 (disk_offset + pagesize) <=? vars s disksize);;
  when writeback (extmem_disk_write (vars s diskfd) (va pg) disk_offset pagesize);;
  ok ← kern (madvise_dontneed (va pg) pagesize);
  c_assert ok;;
  add_var migrations_down 1;;
  page_set page (set_virtual_offset disk_offset);;
  page_set page (set_in_dram false);;
  add_var bytes_migrated pagesize;;
  pg ← page_get page;
  c_assert (negb (swapped_out pg));;
  page_set page (set_swapped_out true);;
  pg ← page_get page;
  c_assert (migrating pg).

(** One job of a vector eviction: the page, its disk page, and whether to
    write it back. *)
Record job : Type := mk_job {
  j_page : ptr;
  j_diskpage : ptr;
  j_writeback : bool;
}.

Fixpoint vector_write (jobs : list job) : M (machine K) unit :=
  match jobs with
  | [] => mret tt
  | j :: jobs =>
      pg ← page_get (j_page j);
      c_assert (in_dram pg);;
      when (j_writeback j)
        (dpg ← page_get (j_diskpage j);
         fd ← get_var diskfd;
         extmem_disk_write fd (va pg) (virtual_offset dpg) PAGE_SIZE);;
      vector_write jobs
  end.

Fixpoint vector_unmap (jobs : list job) : M (machine K) unit :=
  match jobs with
  | [] => mret tt
  | j :: jobs =>
      pg ← page_get (j_page j);
      ok ← kern (madvise_dontneed (va pg) PAGE_SIZE);
      c_assert ok;;
      vector_unmap jobs
  end.

Fixpoint vector_mark (jobs : list job) : M (machine K) unit :=
  match jobs with
  | [] => mret tt
  | j :: jobs =>
      pg ← page_get (j_page j);
      c_assert (negb (swapped_out pg));;
      page_set (j_page j) (set_swapped_out true);;
      pg ← page_get (j_page j);
      c_assert (migrating pg);;
      vector_mark jobs
  end.

Definition extmem_migrate_downdisk_vector (jobs : list job) : M (machine K) unit :=
  vector_write jobs;; vector_unmap jobs;; vector_mark jobs.

Definition extmem_wp_page (page : ptr) (protect : bool) : M (machine K) unit :=
  pg ← page_get page;
  let addr := va pg in
  pagesize ← pagesize_of pg;
  c_assert (negb (addr =? 0));;
  c_assert (addr mod PAGE_SIZE =? 0);;
  ok ← kern (uffdio_writeprotect addr pagesize protect);
  c_assert ok.
End migrate.
