(* ===== verification/DiskLinux.v ===== *)
(** The LRU policy with disk backing: [src/src/policies/disklinux.c].

    Eight lists of page descriptors.  A descriptor of a virtual page has its
    address in [va]; the others are spare and stand for a free DRAM frame or
    a free disk slot, whose number is their [virtual_offset].  Moving a page
    exchanges its place with that of a spare descriptor.

    The endless loops of the kernel threads are given as one round each;
    threads interleave between rounds and calls. *)

From S2P Require Import Prelude UserPage AddressTranslation Fifo RdmaAlloc RdmaSim StorageRdma Machine Policy Migrate.

Local Open Scope Z_scope.

(** ** Lists and constants *)

Definition active_list : lid := 1%positive.
Definition inactive_list : lid := 2%positive.
Definition disk_active_list : lid := 3%positive.
Definition disk_written_list : lid := 4%positive.
Definition dram_free_list : lid := 5%positive.
Definition disk_free_list : lid := 6%positive.
Definition disk_reserve_list : lid := 7%positive.
Definition eviction_list : lid := 8%positive.

Definition all_lists : list lid :=
  [active_list; inactive_list; disk_active_list; disk_written_list; dram_free_list; disk_free_list;
   disk_reserve_list; eviction_list].

Definition HIGH_WATER_THRESHOLD : Z := 90.
Definition LOW_WATER_THREASHOLD : Z := 85.
Definition EVICT_VECTOR_SIZE : Z := 8.
Definition SWAP_CLUSTER_COUNT : Z := 32.

Section policy.
Context {K : Type} `{Kernel K}.
(** What the other processes do during a [usleep]. *)
Variable usleep : M rdma_sys unit.

Definition enqueue (l : lid) (p : ptr) : M (machine K) unit := fifo (enqueue_fifo l p).
Definition dequeue (l : lid) : M (machine K) (option ptr) := fifo (dequeue_fifo l).
Definition tryremove (l : option lid) (p : ptr) : M (machine K) Z := fifo (page_list_tryremove_page l p).
Definition entries (l : lid) : M (machine K) Z := q ← fifo (list_at l); mret (numentries q).

(** Waking the kswapd thread: [pthread_cond_signal] changes no state of the
    program, and when the thread runs is the interleaving's choice. *)
Definition signal_kswapd : M (machine K) unit := mret tt.

(** [do { assert(page->list == &list); ret = page_list_tryremove_page(&list, page);
    assert(ret == 0); } while (ret != 0);] *)
Definition detach_from (l : lid) (page : ptr) : M (machine K) unit :=
  pg ← page_get page;
  c_assert (bool_decide (in_list pg = Some l));;
  ret ← tryremove (Some l) page;
  c_assert (ret =? 0).

(** ** Moving one page *)

Definition lrudisk_migrate_down (page : ptr) (offset : Z) (need_wp writeback : bool) : M (machine K) unit :=
  page_set page (set_migrating true);;
  when need_wp (extmem_wp_page page true);;
  extmem_migrate_downdisk usleep page offset false writeback.

Definition lrudisk_migrate_up (page : ptr) (offset : Z) : M (machine K) unit :=
  extmem_migrate_updisk usleep page offset.

(** [freepage] becomes the spare descriptor of the disk slot [file_offset]. *)
Definition become_disk (freepage : ptr) (file_offset : Z) : M (machine K) unit :=
  page_set freepage (set_virtual_offset file_offset);;
  page_set freepage (set_in_dram false);;
  page_set freepage (set_swapped_out true);;
  page_set freepage (set_migrating false).

(** The disk copy stays as the reserve of a page that was swapped in. *)
Definition keep_reserve (page freepage : ptr) : M (machine K) unit :=
  page_set freepage (set_reserve (Some page));;
  page_set page (set_reserve (Some freepage));;
  page_set page (set_has_reserve true);;
  page_set freepage (set_has_reserve true);;
  enqueue disk_reserve_list freepage;;
  enqueue inactive_list page.

(** A disk descriptor that takes over the frame at [old_offset]. *)
Definition become_frame (diskpage : ptr) (old_offset : Z) : M (machine K) unit :=
  page_set diskpage (set_virtual_offset old_offset);;
  page_set diskpage (set_in_dram true);;
  page_set diskpage (set_present false).

(** The reserve of [page] ends. *)
Definition drop_reserve (page diskpage : ptr) : M (machine K) unit :=
  page_set diskpage (set_has_reserve false);;
  page_set diskpage (set_reserve None);;
  page_set page (set_has_reserve false);;
  page_set page (set_reserve None).

Definition lrudisk_swapin (page freepage : ptr) : M (machine K) unit :=
  pg ← page_get page;
  let file_offset := virtual_offset pg in
  fpg ← page_get freepage;
  c_assert (in_dram fpg);;
  c_assert (bool_decide (in_list fpg = Some active_list));;
  fifo (page_list_remove_page active_list freepage);;
  pg ← page_get page;
  c_assert (bool_decide (in_list pg = Some disk_active_list));;
  fifo (page_list_remove_page disk_active_list page);;
  fpg ← page_get freepage;
  lrudisk_migrate_up page (virtual_offset fpg);;
  become_disk freepage file_offset;;
  enqueue active_list page;;
  enqueue disk_free_list freepage.

(** ** Shrinking the lists *)

(** The loop of [shrink_active_list]: [tries] counts with [ret], so the
    bound on [ret] ends it.  An empty dequeue would repeat for ever. *)
Fixpoint shrink_active_loop (n : nat) : M (machine K) Z :=
  match n with
  | O => mret 0
  | S n =>
      e ← entries active_list;
      if 0 <? e then
        page ← dequeue active_list;
        match page with
        | None => fail Spinning
        | Some page =>
            page_set page (set_naccesses 0);;
            enqueue inactive_list page;;
            ret ← shrink_active_loop n;
            mret (ret + 1)
        end
      else mret 0
  end.

Definition shrink_active_list (nr_pages : Z) : M (machine K) Z :=
  if nr_pages =? 0 then mret 0
  else
    set_flag shrinkage_running true;;
    e ← entries active_list;
    ret ← shrink_active_loop (Z.to_nat (if e <? nr_pages then e else nr_pages));
    set_flag shrinkage_running false;;
    mret ret.

(** The loop of [shrink_inactive_list]: every round counts a try, so [tries]
    bounds it; [ret] is the number of pages put on the eviction list. *)
Fixpoint shrink_inactive_loop (nr_pages ret : Z) (tries : nat) : M (machine K) Z :=
  match tries with
  | O => mret ret
  | S tries =>
      e ← entries inactive_list;
      if (ret <? nr_pages) && (0 <? e) then
        page ← dequeue inactive_list;
        match page with
        | None => fail Spinning
        | Some page =>
            bits ← pt_get_bits page;
            if Z.land bits PT_ACCESSED_FLAG =? PT_ACCESSED_FLAG then
              page_set page (fun pg => set_naccesses (u64 (naccesses pg + 1)) pg);;
              pt_clear_accessed_flag page;;
              pg ← page_get page;
              (if 1 <? naccesses pg
               then page_set page (set_naccesses 0);; enqueue active_list page
               else enqueue inactive_list page);;
              shrink_inactive_loop nr_pages ret tries
            else
              page_set page (set_naccesses 0);;
              enqueue eviction_list page;;
              shrink_inactive_loop nr_pages (ret + 1) tries
        end
      else mret ret
  end.

Definition shrink_inactive_list (nr_pages : Z) : M (machine K) Z :=
  e ← entries inactive_list;
  let nr_pages := if (nr_pages =? 0) || (e <? nr_pages) then e else nr_pages in
  set_flag shrinkage_running true;;
  ret ← shrink_inactive_loop nr_pages 0 (Z.to_nat (u64 (nr_pages * 100)));
  set_flag shrinkage_running false;;
  mret ret.

(** The loop of [direct_allocate_page_asynch]; [n] rounds of the scan of the
    inactive list are left. *)
Fixpoint reclaim_loop (nr_pages to_scan_active : Z) (nr_scanned_active reclaimed : Z) (n : nat) : M (machine K) Z :=
  match n with
  | O => mret reclaimed
  | S n =>
      if reclaimed <? nr_pages then
        r ← shrink_inactive_list SWAP_CLUSTER_COUNT;
        (if nr_scanned_active <? to_scan_active
         then shrink_active_list SWAP_CLUSTER_COUNT;; mret tt
         else mret tt);;
        reclaim_loop nr_pages to_scan_active
          (if nr_scanned_active <? to_scan_active then nr_scanned_active + SWAP_CLUSTER_COUNT else nr_scanned_active)
          (s32 (reclaimed + r)) n
      else mret reclaimed
  end.

(** [while (nr_scanned_inactive < to_scan_inactive)], in steps of the cluster. *)
Definition direct_allocate_page_asynch (nr_pages priority : Z) : M (machine K) Z :=
  a ← entries active_list;
  i ← entries inactive_list;
  let to_scan_active := s32 (Z.shiftr a priority) in
  let to_scan_inactive := s32 (Z.shiftr i priority) in
  reclaim_loop nr_pages to_scan_active 0 0
    (Z.to_nat ((to_scan_inactive + SWAP_CLUSTER_COUNT - 1) / SWAP_CLUSTER_COUNT)).

(** ** Evicting pages *)

(** The common start of every eviction: protect the page, read its bits, and
    decide whether its disk copy, if any, is current. *)
Definition begin_eviction (victim : ptr) : M (machine K) bool :=
  page_set victim (set_migrating true);;
  extmem_wp_page victim true;;
  flags ← pt_get_bits victim;
  let dirty := negb (Z.land flags PT_DIRTY_FLAG =? 0) in
  pg ← page_get victim;
  mret (dirty || negb (has_reserve pg)).

(** [victim]'s reserve, checked and taken off its list. *)
Definition take_reserve (victim : ptr) : M (machine K) ptr :=
  pg ← page_get victim;
  match reserve pg with
  | None => fail AssertFail
  | Some diskpage =>
      dpg ← page_get diskpage;
      c_assert (bool_decide (reserve dpg = Some victim));;
      detach_from disk_reserve_list diskpage;;
      mret diskpage
  end.

(** A spare disk descriptor; without one the code asserts. *)
Definition take_disk_page : M (machine K) ptr :=
  diskpage ← dequeue disk_free_list;
  match diskpage with
  | None => fail AssertFail
  | Some diskpage =>
      dpg ← page_get diskpage;
      c_assert (negb (present dpg));;
      mret diskpage
  end.

(** The end of an eviction, under the checks of the code. *)
Definition finish_eviction (victim : ptr) : M (machine K) unit :=
  pg ← page_get victim;
  c_assert (migrating pg);;
  c_assert (swapped_out pg);;
  page_set victim (set_migrating false);;
  page_set victim (set_swapped_out true).

(** What the eviction worker does with a page it took from the list. *)
Definition evict_victim (victim : ptr) : M (machine K) unit :=
  writeback ← begin_eviction victim;
  pg ← page_get victim;
  if has_reserve pg then
    diskpage ← take_reserve victim;
    vpg ← page_get victim;
    let old_offset := virtual_offset vpg in
    dpg ← page_get diskpage;
    lrudisk_migrate_down victim (virtual_offset dpg) false writeback;;
    become_frame diskpage old_offset;;
    drop_reserve victim diskpage;;
    enqueue dram_free_list diskpage;;
    enqueue disk_active_list victim;;
    finish_eviction victim
  else
    diskpage ← take_disk_page;
    vpg ← page_get victim;
    let old_offset := virtual_offset vpg in
    dpg ← page_get diskpage;
    lrudisk_migrate_down victim (virtual_offset dpg) false writeback;;
    enqueue disk_active_list victim;;
    become_frame diskpage old_offset;;
    enqueue dram_free_list diskpage;;
    finish_eviction victim.

(** One round of [lrudisk_evictionworker]: false when there is nothing to
    evict and the worker sleeps. *)
Definition lrudisk_evictionworker_round : M (machine K) bool :=
  victim ← dequeue eviction_list;
  match victim with
  | None => mret false
  | Some victim => evict_victim victim;; mret true
  end.

(** The three passes over the vector in [lrudisk_evictionworker_vector]:
    each victim with its old offset and its write-back decision; the jobs
    with their disk pages; and the bookkeeping. *)
Fixpoint vector_begin (victims : list ptr) : M (machine K) (list (ptr * Z * bool)) :=
  match victims with
  | [] => mret []
  | victim :: rest =>
      page_set victim (set_migrating true);;
      pg ← page_get victim;
      let old_offset := virtual_offset pg in
      extmem_wp_page victim true;;
      flags ← pt_get_bits victim;
      let dirty := negb (Z.land flags PT_DIRTY_FLAG =? 0) in
      pg ← page_get victim;
      more ← vector_begin rest;
      mret ((victim, old_offset, dirty || negb (has_reserve pg)) :: more)
  end.

Fixpoint vector_disk_pages (vs : list (ptr * Z * bool)) : M (machine K) (list (job * Z)) :=
  match vs with
  | [] => mret []
  | (victim, old_offset, writeback) :: rest =>
      pg ← page_get victim;
      diskpage ← (if has_reserve pg then take_reserve victim else take_disk_page);
      more ← vector_disk_pages rest;
      mret ((mk_job victim diskpage writeback, old_offset) :: more)
  end.

Fixpoint vector_finish (jobs : list (job * Z)) : M (machine K) unit :=
  match jobs with
  | [] => mret tt
  | (j, old_offset) :: rest =>
      let victim := j_page j in
      let diskpage := j_diskpage j in
      pg ← page_get victim;
      (if has_reserve pg then
         become_frame diskpage old_offset;;
         drop_reserve victim diskpage;;
         enqueue dram_free_list diskpage;;
         enqueue disk_active_list victim;;
         finish_eviction victim
       else
         dpg ← page_get diskpage;
         c_assert (negb (present dpg));;
         enqueue disk_active_list victim;;
         become_frame diskpage old_offset;;
         enqueue dram_free_list diskpage;;
         finish_eviction victim);;
      vector_finish rest
  end.

(** One round of [lrudisk_evictionworker_vector]: the number of pages
    evicted. *)
Definition lrudisk_evictionworker_vector_round : M (machine K) Z :=
  victims ← fifo (dequeue_fifo_vector eviction_list EVICT_VECTOR_SIZE);
  match victims with
  | [] => mret 0
  | _ =>
      vs ← vector_begin victims;
      jobs ← vector_disk_pages vs;
      extmem_migrate_downdisk_vector usleep (map fst jobs);;
      vector_finish jobs;;
      mret (Z.of_nat (length victims))
  end.

(** ** The kswapd thread *)

(** The number of resident pages above which kswapd reclaims. *)
Definition low_water (rate dram : Z) : Z := u64 (rate * dram) / (PAGE_SIZE * 100).

(** One round of the loop of [lrudisk_synchkswapd], from its wake-up on, with
    the reclaim function and the low-water rate of the policy. *)
Definition kswapd_round (rate : Z) (direct_allocate : Z -> Z -> M (machine K) Z) : M (machine K) unit :=
  set_flag kswapd_running true;;
  a ← entries active_list;
  i ← entries inactive_list;
  dram ← get_var dramsize;
  let nr_pages := s32 (u64 (a + i) - low_water rate dram) in
  when (0 <? nr_pages) (direct_allocate nr_pages 12;; mret tt);;
  set_flag kswapd_running false.

Definition lrudisk_synchkswapd_round : M (machine K) unit :=
  kswapd_round LOW_WATER_THREASHOLD direct_allocate_page_asynch.

(** ** Free frames *)

(** [direct_allocate_page]; [None] is out of memory. *)
Definition direct_allocate_page : M (machine K) (option ptr) :=
  let take :=
    page ← dequeue dram_free_list;
    match page with
    | None => mret None
    | Some page =>
        pg ← page_get page;
        c_assert (in_dram pg);;
        enqueue inactive_list page;;
        mret (Some page)
    end in
  page ← take;
  match page with
  | Some page => mret (Some page)
  | None =>
      reclaimed ← direct_allocate_page_asynch 1 0;
      if 0 <? reclaimed then take else mret None
  end.

Definition lrudisk_allocate_page_critical : M (machine K) ptr :=
  page ← dequeue dram_free_list;
  match page with
  | Some page =>
      pg ← page_get page;
      c_assert (in_dram pg);;
      enqueue inactive_list page;;
      mret page
  | None =>
      page ← direct_allocate_page;
      match page with
      | None => fail AssertFail
      | Some page => enqueue inactive_list page;; mret page
      end
  end.

(** More resident pages than the high-water mark. *)
Definition above_high_water : M (machine K) bool :=
  running ← get_flag kswapd_running;
  a ← entries active_list;
  i ← entries inactive_list;
  dram ← get_var dramsize;
  mret (negb running && (u64 (HIGH_WATER_THRESHOLD * dram) / (PAGE_SIZE * 100) <? u64 (a + i))).

Definition fetch_free_page : M (machine K) ptr :=
  high ← above_high_water;
  when high signal_kswapd;;
  page ← dequeue dram_free_list;
  match page with
  | Some page =>
      pg ← page_get page;
      c_assert (in_dram pg);;
      mret page
  | None =>
      page ← direct_allocate_page;
      match page with None => fail AssertFail | Some page => mret page end
  end.

(** The eviction inside [fetch_free_asynch]: the frame of [page] is handed
    out under the descriptor of its disk slot. *)
Definition evict_for_frame (page : ptr) : M (machine K) ptr :=
  writeback ← begin_eviction page;
  pg ← page_get page;
  if has_reserve pg then
    diskpage ← take_reserve page;
    ppg ← page_get page;
    let old_offset := virtual_offset ppg in
    dpg ← page_get diskpage;
    lrudisk_migrate_down page (virtual_offset dpg) false writeback;;
    become_frame diskpage old_offset;;
    drop_reserve page diskpage;;
    enqueue disk_active_list page;;
    finish_eviction page;;
    mret diskpage
  else
    diskpage ← take_disk_page;
    ppg ← page_get page;
    let old_offset := virtual_offset ppg in
    dpg ← page_get diskpage;
    lrudisk_migrate_down page (virtual_offset dpg) true writeback;;
    ppg ← page_get page;
    c_assert (swapped_out ppg);;
    enqueue disk_active_list page;;
    become_frame diskpage old_offset;;
    page_set page (set_migrating false);;
    mret diskpage.

(** The loop of [fetch_free_asynch].  A round that neither finds a page nor
    lowers the priority changes nothing: the loop then waits for another
    thread.  The reclaim function is the policy's. *)
Fixpoint fetch_loop (direct_allocate : Z -> Z -> M (machine K) Z) (priority : nat) : M (machine K) ptr :=
  match priority with
  | O => fail AssertFail
  | S priority =>
      page ← dequeue dram_free_list;
      match page with
      | Some page => mret page
      | None =>
          shrinking ← get_flag shrinkage_running;
          a ← entries active_list;
          i ← entries inactive_list;
          dram ← get_var dramsize;
          let reclaim := negb shrinking && (dram / (PAGE_SIZE * 2) <? u64 (a + i)) in
          when reclaim (direct_allocate SWAP_CLUSTER_COUNT (Z.of_nat (S priority));; mret tt);;
          page ← dequeue eviction_list;
          match page with
          | Some page => evict_for_frame page
          | None => if reclaim then fetch_loop direct_allocate priority else fail Spinning
          end
      end
  end.

Definition fetch_free (direct_allocate : Z -> Z -> M (machine K) Z) : M (machine K) ptr :=
  high ← above_high_water;
  when high signal_kswapd;;
  fetch_loop direct_allocate 12.

Definition fetch_free_asynch : M (machine K) ptr := fetch_free direct_allocate_page_asynch.

(** ** The interface to the core *)

Definition lrudisk_pagefault : M (machine K) ptr :=
  page ← fetch_free_asynch;
  page_set page (set_migrating true);;
  mret page.

Definition lrudisk_track_page (page : ptr) : M (machine K) unit :=
  pg ← page_get page;
  c_assert (bool_decide (in_list pg = None));;
  enqueue inactive_list page.

Definition lrudisk_put_page_free (page : ptr) : M (machine K) unit :=
  pg ← page_get page;
  c_assert (bool_decide (in_list pg = None));;
  c_assert (va pg =? 0);;
  enqueue dram_free_list page.

Definition lrudisk_detach_page (page : ptr) : M (machine K) unit := detach_from disk_active_list page.

(** The end of a synchronous and of an asynchronous swap-in, from the free
    frame on. *)
Definition swapin_into (page freepage : ptr) (file_offset : Z) : M (machine K) unit :=
  fpg ← page_get freepage;
  c_assert (in_dram fpg);;
  detach_from disk_active_list page;;
  fpg ← page_get freepage;
  lrudisk_migrate_up page (virtual_offset fpg);;
  become_disk freepage file_offset;;
  keep_reserve page freepage.

Definition swapin_async_into (page freepage : ptr) (file_offset : Z) : M (machine K) unit :=
  fpg ← page_get freepage;
  c_assert (in_dram fpg);;
  core_migrate_up_async_finish page (virtual_offset fpg);;
  become_disk freepage file_offset;;
  keep_reserve page freepage.

Definition lrudisk_swapin_external (page : ptr) : M (machine K) unit :=
  pg ← page_get page;
  let file_offset := virtual_offset pg in
  freepage ← fetch_free_asynch;
  swapin_into page freepage file_offset.

Definition lrudisk_swapin_external_async (page : ptr) : M (machine K) unit :=
  pg ← page_get page;
  let file_offset := virtual_offset pg in
  detach_from disk_active_list page;;
  pg ← page_get page;
  when (in_dram pg) (page_set page (set_in_dram false));;
  core_migrate_up_async_start page;;
  freepage ← fetch_free_asynch;
  swapin_async_into page freepage file_offset.

Definition lrudisk_ack_swapin (page freepage : ptr) : M (machine K) unit :=
  fpg ← page_get freepage;
  let offset := virtual_offset fpg in
  pg ← page_get page;
  let file_offset := virtual_offset pg in
  c_assert (in_dram fpg);;
  c_assert (bool_decide (in_list fpg = None));;
  c_assert (swapped_out pg);;
  c_assert (migrating pg);;
  c_assert (bool_decide (in_list pg = None));;
  become_disk freepage file_offset;;
  page_set page (set_virtual_offset offset);;
  keep_reserve page freepage.

(** [lrudisk_ack_vma] only logs. *)
Definition lrudisk_ack_vma (start len : Z) (priority : Z) : M (machine K) unit := mret tt.

(** A page of the program that was taken from its list becomes a spare
    descriptor of its side, and so does its reserve. *)
Definition release_removed (page : ptr) : M (machine K) unit :=
  page_set page (set_present false);;
  page_set page (set_va 0);;
  pg ← page_get page;
  if in_dram pg then
    (if has_reserve pg then
       match reserve pg with
       | None => fail AssertFail
       | Some reserve_page =>
           rpg ← page_get reserve_page;
           c_assert (bool_decide (reserve rpg = Some page));;
           c_assert (bool_decide (in_list rpg = Some disk_reserve_list));;
           ret ← tryremove (in_list rpg) reserve_page;
           busy_wait (negb (ret =? 0));;
           page_set reserve_page (set_has_reserve false);;
           page_set reserve_page (set_reserve None);;
           page_set reserve_page (set_present false);;
           enqueue disk_free_list reserve_page;;
           page_set page (set_has_reserve false);;
           page_set page (set_reserve None)
       end
     else mret tt);;
    enqueue dram_free_list page
  else if swapped_out pg then
    page_set page (set_reserve None);;
    page_set page (set_has_reserve false);;
    enqueue disk_free_list page
  else fail AssertFail.

(** Removal of a page the program unmaps.  A page in no list makes the code
    try for ever. *)
Definition lrudisk_remove_page (page : ptr) : M (machine K) unit :=
  page_set page (set_migrating true);;
  pg ← page_get page;
  ret ← tryremove (in_list pg) page;
  busy_wait (negb (ret =? 0));;
  release_removed page;;
  page_set page (set_migrating false).

(** ** Initialisation *)

(** The loops over the frames and the disk slots, from number [i] on. *)
Fixpoint init_pages (dram : bool) (l : lid) (i : Z) (n : nat) : M (machine K) unit :=
  match n with
  | O => mret tt
  | S n =>
      p ← calloc_page;
      page_set p (set_virtual_offset (i * PAGE_SIZE));;
      page_set p (set_present false);;
      page_set p (set_in_dram dram);;
      page_set p (set_swapped_out (negb dram));;
      pt ← (match pagesize_to_pt PAGE_SIZE with Some t => mret t | None => fail AssertFail end);
      page_set p (set_pt pt);;
      page_set p (set_has_reserve false);;
      page_set p (set_reserve None);;
      enqueue l p;;
      init_pages dram l (i + 1) n
  end.

(** The threads it starts take part as rounds. *)
Definition lrudisk_init : M (machine K) unit :=
  dram ← get_var dramsize;
  init_pages true dram_free_list 0 (Z.to_nat (dram / PAGE_SIZE));;
  disk ← get_var disksize;
  init_pages false disk_free_list 0 (Z.to_nat (disk / PAGE_SIZE)).
End policy.

(** ** The policy of the default build *)

Definition disklinux {K : Type} `{Kernel K} (usleep : M rdma_sys unit) : Policy K := {|
  paging_init := lrudisk_init;
  pagefault := lrudisk_pagefault usleep;
  policy_add_page := lrudisk_track_page;
  policy_put_freepage := lrudisk_put_page_free;
  policy_detach_page := lrudisk_detach_page;
  page_swapin_external_async := lrudisk_swapin_external_async usleep;
  policy_ack_swapped_in := lrudisk_ack_swapin;
  policy_ack_vma := lrudisk_ack_vma;
  mmgr_remove := lrudisk_remove_page;
|}.
