(* ===== verification/Core.v ===== *)
(** The core of the pager: start-up, [mmap] and [munmap], the fault handlers
    and the prefetch window of [src/src/core.c], and the routing of system
    calls in [src/src/intercept_layer.c].

    The policy is any implementation of the interface of Policy.v.  One
    thread runs at a time; a wait for another thread's [migrating] flag
    is [busy_wait]. *)

From S2P Require Import Prelude UserPage AddressTranslation Fifo RdmaAlloc RdmaSim StorageRdma.
From S2P Require Import Machine Policy PointerPrefetch Migrate SwapFile.

Local Open Scope Z_scope.

Definition CORE_PREFAULT_RATE : Z := 128.
Definition CORE_PREFETCH_RATE : Z := 32.
Definition DRAMSIZE_DEFAULT : Z := 8 * (1024 * 1024 * 1024).
Definition DISKSIZE_DEFAULT : Z := 32 * (1024 * 1024 * 1024).
Definition MAX_USER_THREADS : Z := 128.
Definition SIGSEGV : Z := 11.

Section core.
Context {K : Type} `{Kernel K} {Pol : Policy K}.
(** What the other processes do during a [usleep]. *)
Variable usleep : M rdma_sys unit.

(** ** Faults *)

Definition handle_wp_fault (page : ptr) : M (machine K) unit :=
  add_var migration_waits 1;;
  pg ← page_get page;
  busy_wait (migrating pg).

(** The end of a swap-in. *)
Definition release_page (page : ptr) : M (machine K) unit :=
  page_set page (set_swapped_out false);;
  page_set page (set_migrating false).

(** The first loop of [core_try_prefetch]: the swapped-out pages that follow
    [page_boundry], each detached and with a free page for its frame. *)
Fixpoint prefetch_collect (page_boundry : Z) (n : nat) : M (machine K) (list (ptr * ptr)) :=
  match n with
  | O => mret []
  | S n =>
      let page_boundry := u64 (page_boundry + PAGE_SIZE) in
      page ← find_page page_boundry;
      match page with
      | None => mret []
      | Some page =>
          pg ← page_get page;
          c_assert (va pg =? page_boundry);;
          if migrating pg then add_var migration_waits 1;; mret []
          else if negb (swapped_out pg) then add_var migration_waits 1;; mret []
          else
            page_set page (set_migrating true);;
            c_assert (negb (va pg =? 0));;
            policy_detach_page page;;
            freepage ← pagefault;
            rest ← prefetch_collect page_boundry n;
            mret ((page, freepage) :: rest)
      end
  end.

(** The synchronous reads of the second loop, into the prefetch buffer. *)
Fixpoint prefetch_read (buffer : Z) (jobs : list (ptr * ptr)) : M (machine K) unit :=
  match jobs with
  | [] => mret tt
  | (page, _) :: jobs =>
      pg ← page_get page;
      fd ← get_var diskfd;
      extmem_disk_read usleep fd (virtual_offset pg) buffer PAGE_SIZE;;
      prefetch_read (buffer + PAGE_SIZE) jobs
  end.

(** The third loop; a failed [UFFDIO_COPY] is only logged. *)
Fixpoint prefetch_map (buffer : Z) (jobs : list (ptr * ptr)) : M (machine K) unit :=
  match jobs with
  | [] => mret tt
  | (page, freepage) :: jobs =>
      pg ← page_get page;
      kern (uffdio_copy (va pg) buffer PAGE_SIZE);;
      policy_ack_swapped_in page freepage;;
      page_set page (set_in_dram true);;
      release_page page;;
      prefetch_map (buffer + PAGE_SIZE) jobs
  end.

Definition ensure_prefetch_buffer : M (machine K) unit :=
  b ← get_flag prefetch_buffer_allocated;
  when (negb b)
    (a ← map_private (PAGE_SIZE * CORE_PREFETCH_RATE);
     match a with
     | None => fail AssertFail
     | Some a => set_var prefetch_buffer a;; set_flag prefetch_buffer_allocated true
     end).

Definition core_try_prefetch (base_boundry : Z) : M (machine K) Z :=
  c_assert (negb (base_boundry =? 0));;
  jobs ← prefetch_collect base_boundry (Z.to_nat CORE_PREFETCH_RATE);
  ensure_prefetch_buffer;;
  buffer ← get_var prefetch_buffer;
  prefetch_read buffer jobs;;
  prefetch_map buffer jobs;;
  mret (Z.of_nat (length jobs)).

(** The pointer at the end of a page just swapped in starts a prefetch. *)
Definition follow_pointer (page : ptr) (page_boundry : Z) : M (machine K) unit :=
  pg ← page_get page;
  when (in_dram pg)
    (pointer_value ← read_page_end_pointer (Some page);
     when (negb (pointer_value =? 0))
       (ok ← validate_pointer pointer_value page_boundry;
        when ok (async_prefetch_page usleep (page_align pointer_value) page_boundry;; mret tt))).

(** A third fault in a row on consecutive pages. *)
Definition sequential (page_boundry prev_1 prev_2 : Z) : bool :=
  (page_boundry =? u64 (prev_1 + PAGE_SIZE)) && (page_boundry =? u64 (prev_2 + PAGE_SIZE * 2)).

Definition handle_missing_fault (page : ptr) : M (machine K) unit :=
  set_flag internal_call true;;
  pg ← page_get page;
  let page_boundry := va pg in
  if migrating pg then
    add_var migration_waits 1;;
    busy_wait (migrating pg)
  else if negb (swapped_out pg) then
    add_var migration_waits 1;;
    busy_wait (migrating pg)
  else
    page_set page (set_migrating true);;
    prev_1 ← get_var prev_fault_1;
    prev_2 ← get_var prev_fault_2;
    let must_prefetch := sequential page_boundry prev_1 prev_2 in
    set_var prev_fault_2 prev_1;;
    set_var prev_fault_1 page_boundry;;
    ensure_buffer;;
    hit ← handle_page_fault_with_prefetch usleep (Some page);
    if hit =? 0 then
      release_page page;;
      add_var major_faults_handled 1;;
      set_flag internal_call false
    else
      pagesize_of pg;;
      page_swapin_external_async page;;
      pg' ← page_get page;
      c_assert (va pg' =? page_boundry);;
      c_assert (negb (va pg' =? 0));;
      c_assert (va pg' mod PAGE_SIZE =? 0);;
      release_page page;;
      follow_pointer page page_boundry;;
      add_var major_faults_handled 1;;
      when must_prefetch (core_try_prefetch page_boundry;; mret tt);;
      set_flag internal_call false.

(** The new page of a first touch: its address, and its place in the hash. *)
Definition adopt_page (page : ptr) (page_boundry : Z) : M (machine K) unit :=
  page_set page (set_migrating true);;
  page_set page (set_swapped_out false);;
  pg ← page_get page;
  c_assert (va pg =? 0);;
  page_set page (set_va page_boundry);;
  c_assert (negb (page_boundry =? 0));;
  c_assert (page_boundry mod PAGE_SIZE =? 0);;
  add_page page.

Definition handle_first_fault (page_boundry : Z) : M (machine K) unit :=
  set_flag internal_call true;;
  c_assert (negb (page_boundry =? 0));;
  newpage ← pagefault;
  page ← find_page page_boundry;
  match page with
  | Some page =>
      policy_put_freepage newpage;;
      pg ← page_get page;
      busy_wait (migrating pg)
  | None =>
      let page := newpage in
      adopt_page page page_boundry;;
      prev_1 ← get_var prev_fault_1;
      prev_g1 ← get_var prev_fault_global_1;
      set_var prev_fault_2 prev_1;;
      set_var prev_fault_1 page_boundry;;
      set_var prev_fault_global_2 prev_g1;;
      set_var prev_fault_global_1 page_boundry;;
      pg ← page_get page;
      pagesize ← pagesize_of pg;
      c_assert (in_dram pg);;
      zeros ← get_var page_cache;
      copy_in (va pg) zeros pagesize;;
      page_set page (set_migrating false);;
      page_set page (set_swapped_out false);;
      policy_add_page page;;
      add_var mem_allocated pagesize;;
      add_var first_faults_handled 1;;
      add_var pages_allocated 1;;
      set_flag internal_call false
  end.

(** The loop of [core_try_prefault], which no build of the repository calls;
    [pagesize] is its uninitialised local. *)
Fixpoint prefault_loop (pagesize page_boundry nr_prefault : Z) (n : nat) : M (machine K) Z :=
  match n with
  | O => mret nr_prefault
  | S n =>
      let page_boundry := u64 (page_boundry + PAGE_SIZE) in
      newpage ← pagefault;
      page ← find_page page_boundry;
      match page with
      | Some _ => policy_put_freepage newpage;; mret nr_prefault
      | None =>
          zeros ← get_var page_cache;
          ok ← kern (uffdio_copy page_boundry zeros PAGE_SIZE);
          if negb ok then policy_put_freepage newpage;; mret nr_prefault
          else
            adopt_page newpage page_boundry;;
            page_set newpage (set_migrating false);;
            page_set newpage (set_swapped_out false);;
            policy_add_page newpage;;
            add_var mem_allocated pagesize;;
            add_var pages_allocated 1;;
            prefault_loop pagesize page_boundry (nr_prefault + 1) n
      end
  end.

Definition core_try_prefault (pagesize base_boundry : Z) : M (machine K) Z :=
  c_assert (negb (base_boundry =? 0));;
  prefault_loop pagesize base_boundry 0 (Z.to_nat CORE_PREFAULT_RATE).

Definition uswap_sig_handler (code fault_addr : Z) : M (machine K) unit :=
  set_flag internal_call true;;
  let page_boundry := page_align fault_addr in
  c_assert (negb (code =? SIGSEGV));;
  page ← find_page page_boundry;
  match page with
  | None => handle_first_fault page_boundry
  | Some page =>
      pg ← page_get page;
      if swapped_out pg then handle_missing_fault page else handle_wp_fault page
  end;;
  set_flag internal_call false.

(** ** Mapping and unmapping *)

Fixpoint populate_loop (page_boundry stop : Z) (fuel : nat) : M (machine K) unit :=
  if page_boundry <? stop then
    match fuel with
    | O => fail OutOfFuel
    | S fuel => handle_first_fault page_boundry;; populate_loop (u64 (page_boundry + PAGE_SIZE)) stop fuel
    end
  else mret tt.

(** Enough rounds for [length] bytes. *)
Definition page_rounds (length : Z) : nat := S (Z.to_nat (length / PAGE_SIZE)).

Definition extmem_mmap_populate (addr length : Z) : M (machine K) unit :=
  c_assert (negb (addr =? 0));;
  c_assert (negb (length =? 0));;
  populate_loop addr (u64 (addr + length)) (page_rounds length).

(** The flags [extmem_mmap] maps with, and whether it populates. *)
Definition mmap_flags (flags : Z) : Z * bool :=
  let flags := if has_flag flags MAP_SHARED then add_flag (drop_flag flags MAP_SHARED) MAP_PRIVATE else flags in
  let flags := add_flag (add_flag flags MAP_NORESERVE) MAP_ANONYMOUS in
  let need_populate := has_flag flags MAP_POPULATE in
  let flags := if need_populate then drop_flag flags MAP_POPULATE else flags in
  (if has_flag flags MAP_HUGETLB then drop_flag flags MAP_HUGETLB else flags, need_populate).

Definition extmem_mmap (addr length prot flags fd offset : Z) : M (machine K) Z :=
  set_flag internal_call true;;
  init ← get_flag is_init;
  c_assert init;;
  c_assert (negb (length =? 0));;
  let '(flags, need_populate) := mmap_flags flags in
  let length := PAGE_ROUND_UP length in
  p ← kern (libc_mmap addr length prot flags offset);
  match p with
  | None => fail AssertFail
  | Some p =>
      set_var main_mmap p;;
      ok ← kern (uffdio_register p length);
      c_assert ok;;
      when need_populate (extmem_mmap_populate p length);;
      set_var mem_mmaped length;;
      policy_ack_vma p length 0;;
      set_flag internal_call false;;
      mret p
  end.

Fixpoint munmap_loop (page_boundry stop : Z) (fuel : nat) : M (machine K) unit :=
  if page_boundry <? stop then
    match fuel with
    | O => fail OutOfFuel
    | S fuel =>
        page ← find_page page_boundry;
        match page with
        | Some page =>
            pg ← page_get page;
            busy_wait (migrating pg);;
            page_set page (set_migrating true);;
            remove_page page;;
            mmgr_remove page;;
            pg ← page_get page;
            pagesize ← pagesize_of pg;
            add_var mem_allocated (- pagesize);;
            add_var mem_mmaped (- pagesize);;
            add_var pages_freed 1;;
            munmap_loop (u64 (page_boundry + pagesize)) stop fuel
        | None => munmap_loop (u64 (page_boundry + BASEPAGE_SIZE)) stop fuel
        end
    end
  else mret tt.

Definition extmem_munmap (addr length : Z) : M (machine K) Z :=
  set_flag internal_call true;;
  munmap_loop addr (u64 (addr + length)) (page_rounds length);;
  ret ← kern (libc_munmap addr length);
  c_assert (ret =? 0);;
  set_flag internal_call false;;
  mret ret.

(** ** Start and stop *)

(** The environment of the process: whether the log files open, [strdup]
    has memory and userfaultfd can be set up (the program asserts otherwise);
    SWAPDIR, what is a directory, and the descriptor that opening a path
    gives; and the values of DRAMSIZE and DISKSIZE. *)
Record environment : Type := mk_environment {
  env_files : bool;
  env_strdup : bool;
  env_swapdir : option (list byte);
  env_is_dir : list byte -> bool;
  env_open : list byte -> Z;
  env_uffd : bool;
  env_outputs : bool;
  env_dramsize : option Z;
  env_disksize : option Z;
}.

Section start.
Variable env : environment.
Variable spawn_rdma_process : M rdma_sys (option Z).
Variable process_alive : Z -> M rdma_sys bool.
Variable stop_process : Z -> M rdma_sys unit.

(** [core.c] calls the RDMA backend's initialisation directly. *)
Definition extmem_init : M (machine K) unit :=
  init ← get_flag is_init;
  if (init : bool) then mret tt
  else
    set_flag internal_call true;;
    c_assert (env_files env);;
    c_assert (env_strdup env);;
    let path := actual_swap_file_path (env_is_dir env) (swap_diskpath (env_swapdir env)) in
    set_var diskfd (env_open env path);;
    c_assert (0 <=? env_open env path);;
    ret ← store (rdma_storage_init usleep spawn_rdma_process process_alive stop_process);
    c_assert (ret =? 0);;
    pointer_prefetch_init;;
    c_assert (env_uffd env);;
    c_assert (env_outputs env);;
    set_var dramsize (match env_dramsize env with Some n => n | None => DRAMSIZE_DEFAULT end);;
    set_var disksize (match env_disksize env with Some n => n | None => DISKSIZE_DEFAULT end);;
    cache ← map_private (16 * PAGE_SIZE * MAX_USER_THREADS);
    match cache with
    | None => fail AssertFail
    | Some cache =>
        set_var page_cache cache;;
        store (rdma (proc_write Client cache (replicate (Z.to_nat (PAGE_SIZE * 16 * MAX_USER_THREADS)) Byte.x00)));;
        paging_init;;
        set_flag is_init true;;
        dummy_page ← calloc_page;
        add_page dummy_page;;
        set_flag internal_call false
    end.
End start.

(** [policy_shutdown] is empty in this build. *)
Definition extmem_stop : M (machine K) unit := pointer_prefetch_cleanup.

Definition extmem_clear_stats : M (machine K) unit :=
  set_var pages_allocated 0;;
  set_var pages_freed 0;;
  set_var first_faults_handled 0;;
  set_var major_faults_handled 0;;
  set_var migrations_up 0;;
  set_var migrations_down 0.

(** ** The interception layer *)

(** [Some r]: the call was handled and returns [r]; [None]: the kernel is to
    run it (a non-zero result of the hook). *)
Definition mmap_filter (addr length prot flags fd offset : Z) : M (machine K) (option Z) :=
  internal ← get_flag internal_call;
  init ← get_flag is_init;
  if negb (has_flag flags MAP_ANONYMOUS) then mret None
  else if has_flag flags MAP_STACK then mret None
  else if (internal : bool) then mret None
  else if negb init then mret None
  else if length <? 1024 * 1024 * 2 then mret None
  else r ← extmem_mmap addr length prot flags fd offset; mret (Some r).

Definition munmap_filter (addr length : Z) : M (machine K) (option Z) :=
  internal ← get_flag internal_call;
  if (internal : bool) then mret None
  else r ← extmem_munmap addr length; mret (Some r).

Definition SYS_mmap : Z := 9.
Definition SYS_munmap : Z := 11.

Definition hook (syscall_number arg0 arg1 arg2 arg3 arg4 arg5 : Z) : M (machine K) (option Z) :=
  if syscall_number =? SYS_mmap then mmap_filter arg0 arg1 (s32 arg2) (s32 arg3) (s32 arg4) arg5
  else if syscall_number =? SYS_munmap then munmap_filter arg0 arg1
  else mret None.
End core.
