(* ===== verification/Threads.v ===== *)
(** The fault handlers, [mmap] and [munmap] of [src/src/core.c] as threads.

    Every thread of the program handles its own faults, in a signal handler,
    and calls [mmap] and [munmap] itself.  This file cuts the functions of Core.v where
    the code takes or releases a lock or waits for a [migrating] flag: what
    lies between two cuts, a segment, runs at once, and segments of different
    threads interleave in any order, with rounds of the policy's threads in
    between.

    Two locks matter.  [handler_lock] is held only inside a segment.
    [allocator_lock] is held by [munmap] from its first segment to its last,
    and by a first touch while it looks the address up again and hashes the
    page; [pages_lock] covers single hash operations.

    The [__thread] variables are the thread's own: a configuration has them
    for each thread, and a segment runs with those of its thread.  Counters
    the code increments without a lock are incremented atomically here. *)

From S2P Require Import Prelude UserPage AddressTranslation Fifo RdmaAlloc RdmaSim StorageRdma.
From S2P Require Import Machine Policy PointerPrefetch Migrate Core.
From stdpp Require Import relations.

Local Open Scope Z_scope.

(** ** Threads *)

(** An [munmap] in progress: the next address, the end of the range, and its
    arguments. *)
Record unmapping : Type := mk_unmapping {
  u_next : Z;
  u_stop : Z;
  u_addr : Z;
  u_length : Z;
}.

(** A [mmap] with MAP_POPULATE in progress: the next address, the end of the
    range, and the range. *)
Record mapping : Type := mk_mapping {
  m_next : Z;
  m_stop : Z;
  m_addr : Z;
  m_length : Z;
}.

(** A prefetch in progress: the address looked at last, how many pages it may
    still take, and the pages it has taken, each with its free page. *)
Record prefetching : Type := mk_prefetching {
  p_boundry : Z;
  p_left : nat;
  p_jobs : list (ptr * ptr);
}.

(** Where a thread is. *)
Inductive thread : Type :=
  | Dispatch (code addr : Z)                       (* [uswap_sig_handler] is entered *)
  | Touch (b : Z)                                  (* [handle_first_fault] is entered *)
  | Claim (b : Z) (newpage : ptr)                  (* with a frame, before [allocator_lock] *)
  | GiveBack (newpage page : ptr)                  (* another thread was first *)
  | Fill (page : ptr) (b : Z)                      (* the page is hashed, the lock released *)
  | Await (page : ptr)                             (* at [while (page->migrating);] *)
  | Inspect (page : ptr)                           (* [handle_missing_fault] is entered *)
  | Fetch (page : ptr) (pg : user_page)            (* the page is claimed; [pg] is what was read *)
  | Served (page : ptr)                            (* from a prefetched copy, before [handler_lock] *)
  | Release (page : ptr) (b : Z) (more : bool)     (* swapped in, before [handler_lock] *)
  | Follow (page : ptr) (b : Z) (more : bool)      (* released *)
  | Prefetch (w : prefetching)                      (* at the head of the first loop of [core_try_prefetch] *)
  | PrefetchClaim (w : prefetching) (page : ptr) (old_va : Z)  (* a page was found, before [handler_lock] *)
  | PrefetchDetach (w : prefetching) (page : ptr)   (* the page is claimed *)
  | PrefetchRead (jobs : list (ptr * ptr))          (* after the first loop *)
  | PrefetchMap (buffer : Z) (jobs : list (ptr * ptr))  (* at the head of the third loop *)
  | PrefetchRelease (page : ptr) (buffer : Z) (jobs : list (ptr * ptr))  (* mapped, before [handler_lock] *)
  | Mmap (addr length prot flags fd offset : Z)     (* [extmem_mmap] is entered *)
  | MapNext (m : mapping)                           (* at the head of the loop of [extmem_mmap_populate] *)
  | Populate (m : mapping) (t : thread)             (* in [handle_first_fault] for that loop, at [t] *)
  | Munmap (addr length : Z)                        (* [extmem_munmap] before [allocator_lock] *)
  | UnmapNext (u : unmapping)                      (* at the head of its loop *)
  | UnmapWait (u : unmapping) (page : ptr)         (* at [while (page->migrating);] *)
  | UnmapTake (u : unmapping) (page : ptr)         (* after it, before [handler_lock] *)
  | UnmapPage (u : unmapping) (page : ptr)         (* the page is claimed *)
  | Finished                                       (* back in the program *).

(** Who holds [allocator_lock] between segments, and who takes it. *)
Definition holds_allocator (t : thread) : bool :=
  match t with UnmapNext _ | UnmapWait _ _ | UnmapTake _ _ | UnmapPage _ _ => true | _ => false end.
Fixpoint takes_allocator (t : thread) : bool :=
  match t with Claim _ _ | Munmap _ _ => true | Populate _ t => takes_allocator t | _ => false end.

Section threads.
Context {K : Type} `{Kernel K} {Pol : Policy K}.
(** What the other processes do during a [usleep]. *)
Variable usleep : M rdma_sys unit.

(** The end of a fault handler. *)
Definition handled : M (machine K) thread :=
  set_flag internal_call false;;
  mret Finished.

(** [uswap_sig_handler], to the handler of the kind of fault. *)
Definition at_dispatch (code addr : Z) : M (machine K) thread :=
  set_flag internal_call true;;
  let page_boundry := page_align addr in
  c_assert (negb (code =? SIGSEGV));;
  page ← find_page page_boundry;
  match page with
  | None => mret (Touch page_boundry)
  | Some page =>
      pg ← page_get page;
      if swapped_out pg then mret (Inspect page)
      else add_var migration_waits 1;; mret (Await page)
  end.

(** [handle_first_fault], to [allocator_lock]. *)
Definition at_touch (page_boundry : Z) : M (machine K) thread :=
  set_flag internal_call true;;
  c_assert (negb (page_boundry =? 0));;
  newpage ← pagefault;
  mret (Claim page_boundry newpage).

(** Under [allocator_lock]. *)
Definition at_claim (page_boundry : Z) (newpage : ptr) : M (machine K) thread :=
  page ← find_page page_boundry;
  match page with
  | Some page => mret (GiveBack newpage page)
  | None => adopt_page newpage page_boundry;; mret (Fill newpage page_boundry)
  end.

(** The page is in the hash already. *)
Definition at_give_back (newpage page : ptr) : M (machine K) thread :=
  policy_put_freepage newpage;; mret (Await page).

(** The rest of [handle_first_fault]. *)
Definition fill_page (page : ptr) (page_boundry : Z) : M (machine K) unit :=
  prev_1 ← get_var prev_fault_1;
  prev_g1 ← get_var prev_fault_global_1;
  set_var prev_fault_2 prev_1;;
  set_var prev_fault_1 page_boundry;;
  set_var prev_fault_global_2 prev_g1;;
  set_var prev_fault_global_1 page_boundry;;
  pg ← page_get page;
  pagesize ← pagesize_of pg;
  c_assert (in_dram pg);;
  zeros ← get_var page_cache;
  copy_in (va pg) zeros pagesize;;
  page_set page (set_migrating false);;
  page_set page (set_swapped_out false);;
  policy_add_page page;;
  add_var mem_allocated pagesize;;
  add_var first_faults_handled 1;;
  add_var pages_allocated 1;;
  set_flag internal_call false.

(** The rest of a first touch. *)
Definition at_fill (page : ptr) (page_boundry : Z) : M (machine K) thread :=
  fill_page page page_boundry;;
  handled.

(** [while (page->migrating);], the end of three handlers. *)
Definition at_await (page : ptr) : M (machine K) thread :=
  pg ← page_get page;
  busy_wait (migrating pg);;
  handled.

(** [handle_missing_fault], to the end of its first critical section. *)
Definition at_inspect (page : ptr) : M (machine K) thread :=
  set_flag internal_call true;;
  pg ← page_get page;
  if migrating pg then add_var migration_waits 1;; mret (Await page)
  else if negb (swapped_out pg) then add_var migration_waits 1;; mret (Await page)
  else page_set page (set_migrating true);; mret (Fetch page pg).

(** To the second critical section, or the first one of a prefetched page. *)
Definition at_fetch (page : ptr) (pg : user_page) : M (machine K) thread :=
  let page_boundry := va pg in
  prev_1 ← get_var prev_fault_1;
  prev_2 ← get_var prev_fault_2;
  let must_prefetch := sequential page_boundry prev_1 prev_2 in
  set_var prev_fault_2 prev_1;;
  set_var prev_fault_1 page_boundry;;
  ensure_buffer;;
  hit ← handle_page_fault_with_prefetch usleep (Some page);
  if hit =? 0 then mret (Served page)
  else
    pagesize_of pg;;
    page_swapin_external_async page;;
    pg' ← page_get page;
    c_assert (va pg' =? page_boundry);;
    c_assert (negb (va pg' =? 0));;
    c_assert (va pg' mod PAGE_SIZE =? 0);;
    mret (Release page page_boundry must_prefetch).

(** The page was prefetched. *)
Definition at_served (page : ptr) : M (machine K) thread :=
  release_page page;;
  add_var major_faults_handled 1;;
  set_flag internal_call false;;
  handled.

(** The critical section after a swap-in. *)
Definition at_release (page : ptr) (page_boundry : Z) (must_prefetch : bool) : M (machine K) thread :=
  release_page page;;
  mret (Follow page page_boundry must_prefetch).

(** After it. *)
Definition at_follow (page : ptr) (page_boundry : Z) (must_prefetch : bool) : M (machine K) thread :=
  follow_pointer usleep page page_boundry;;
  add_var major_faults_handled 1;;
  if must_prefetch then
    c_assert (negb (page_boundry =? 0));;
    mret (Prefetch (mk_prefetching page_boundry (Z.to_nat CORE_PREFETCH_RATE) []))
  else set_flag internal_call false;; handled.

(** The first loop of [core_try_prefetch], to its critical section. *)
Definition at_prefetch (w : prefetching) : M (machine K) thread :=
  match p_left w with
  | O => mret (PrefetchRead (p_jobs w))
  | S n =>
      let page_boundry := u64 (p_boundry w + PAGE_SIZE) in
      page ← find_page page_boundry;
      match page with
      | None => mret (PrefetchRead (p_jobs w))
      | Some page =>
          pg ← page_get page;
          c_assert (va pg =? page_boundry);;
          mret (PrefetchClaim (mk_prefetching page_boundry n (p_jobs w)) page (va pg))
      end
  end.

(** The critical section. *)
Definition at_prefetch_claim (w : prefetching) (page : ptr) (old_va : Z) : M (machine K) thread :=
  pg ← page_get page;
  if migrating pg then add_var migration_waits 1;; mret (PrefetchRead (p_jobs w))
  else if negb (swapped_out pg) then add_var migration_waits 1;; mret (PrefetchRead (p_jobs w))
  else if negb (va pg =? old_va) then mret (PrefetchRead (p_jobs w))
  else page_set page (set_migrating true);; mret (PrefetchDetach w page).

(** The rest of the first loop's body. *)
Definition at_prefetch_detach (w : prefetching) (page : ptr) : M (machine K) thread :=
  pg ← page_get page;
  c_assert (negb (va pg =? 0));;
  policy_detach_page page;;
  freepage ← pagefault;
  mret (Prefetch (mk_prefetching (p_boundry w) (p_left w) (p_jobs w ++ [(page, freepage)]))).

(** The buffer and the second loop. *)
Definition at_prefetch_read (jobs : list (ptr * ptr)) : M (machine K) thread :=
  ensure_prefetch_buffer;;
  buffer ← get_var prefetch_buffer;
  prefetch_read usleep buffer jobs;;
  mret (PrefetchMap buffer jobs).

(** The third loop, to its critical section, or the end of the handler. *)
Definition at_prefetch_map (buffer : Z) (jobs : list (ptr * ptr)) : M (machine K) thread :=
  match jobs with
  | [] => set_flag internal_call false;; handled
  | (page, freepage) :: jobs =>
      pg ← page_get page;
      kern (uffdio_copy (va pg) buffer PAGE_SIZE);;
      policy_ack_swapped_in page freepage;;
      page_set page (set_in_dram true);;
      mret (PrefetchRelease page buffer jobs)
  end.

(** Its critical section. *)
Definition at_prefetch_release (page : ptr) (buffer : Z) (jobs : list (ptr * ptr)) : M (machine K) thread :=
  release_page page;;
  mret (PrefetchMap (buffer + PAGE_SIZE) jobs).

(** [extmem_mmap] after its pages are populated. *)
Definition map_end (p length : Z) : M (machine K) thread :=
  set_var mem_mmaped length;;
  policy_ack_vma p length 0;;
  set_flag internal_call false;;
  mret Finished.

(** [extmem_mmap], to its end or to the loop of [extmem_mmap_populate]. *)
Definition at_mmap (addr length prot flags fd offset : Z) : M (machine K) thread :=
  set_flag internal_call true;;
  init ← get_flag is_init;
  c_assert init;;
  c_assert (negb (length =? 0));;
  let '(flags, need_populate) := mmap_flags flags in
  let length := PAGE_ROUND_UP length in
  p ← kern (libc_mmap addr length prot flags offset);
  match p with
  | None => fail AssertFail
  | Some p =>
      set_var main_mmap p;;
      ok ← kern (uffdio_register p length);
      c_assert ok;;
      if need_populate then
        c_assert (negb (p =? 0));;
        c_assert (negb (length =? 0));;
        mret (MapNext (mk_mapping p (u64 (p + length)) p length))
      else map_end p length
  end.

(** The head of the loop, and the first touch of the page up to
    [allocator_lock]; or the end of the function. *)
Definition at_map_next (m : mapping) : M (machine K) thread :=
  if m_next m <? m_stop m then
    t ← at_touch (m_next m);
    mret (Populate (mk_mapping (u64 (m_next m + PAGE_SIZE)) (m_stop m) (m_addr m) (m_length m)) t)
  else map_end (m_addr m) (m_length m).

(** A segment of [handle_first_fault] in the loop. *)
Definition at_populate (m : mapping) (t : thread) : M (machine K) thread :=
  match t with
  | Claim page_boundry newpage => t ← at_claim page_boundry newpage; mret (Populate m t)
  | GiveBack newpage page => t ← at_give_back newpage page; mret (Populate m t)
  | Await page => pg ← page_get page; busy_wait (migrating pg);; mret (MapNext m)
  | Fill page page_boundry => fill_page page page_boundry;; mret (MapNext m)
  | _ => fail Spinning
  end.

(** [extmem_munmap], to its loop. *)
Definition at_unmap_begin (addr length : Z) : M (machine K) thread :=
  set_flag internal_call true;;
  mret (UnmapNext (mk_unmapping addr (u64 (addr + length)) addr length)).

(** The head of the loop and the first critical section, or the end of the function. *)
Definition at_unmap_next (u : unmapping) : M (machine K) thread :=
  if u_next u <? u_stop u then
    page ← find_page (u_next u);
    match page with
    | Some page =>
        pg ← page_get page;
        if migrating pg then mret (UnmapWait u page)
        else page_set page (set_migrating true);; mret (UnmapPage u page)
    | None => mret (UnmapNext (mk_unmapping (u64 (u_next u + BASEPAGE_SIZE)) (u_stop u) (u_addr u) (u_length u)))
    end
  else
    ret ← kern (libc_munmap (u_addr u) (u_length u));
    c_assert (ret =? 0);;
    set_flag internal_call false;;
    mret Finished.

(** [while (page->migrating);] in the loop. *)
Definition at_unmap_wait (u : unmapping) (page : ptr) : M (machine K) thread :=
  pg ← page_get page;
  busy_wait (migrating pg);;
  mret (UnmapTake u page).

(** The critical section after it. *)
Definition at_unmap_take (u : unmapping) (page : ptr) : M (machine K) thread :=
  page_set page (set_migrating true);; mret (UnmapPage u page).

(** The rest of the body. *)
Definition at_unmap_page (u : unmapping) (page : ptr) : M (machine K) thread :=
  remove_page page;;
  mmgr_remove page;;
  pg ← page_get page;
  pagesize ← pagesize_of pg;
  add_var mem_allocated (- pagesize);;
  add_var mem_mmaped (- pagesize);;
  add_var pages_freed 1;;
  mret (UnmapNext (mk_unmapping (u64 (u_next u + pagesize)) (u_stop u) (u_addr u) (u_length u))).

(** The next segment of a thread, and where it leaves the thread. *)
Definition segment (t : thread) : M (machine K) thread :=
  match t with
  | Dispatch code addr => at_dispatch code addr
  | Touch page_boundry => at_touch page_boundry
  | Claim page_boundry newpage => at_claim page_boundry newpage
  | GiveBack newpage page => at_give_back newpage page
  | Fill page page_boundry => at_fill page page_boundry
  | Await page => at_await page
  | Inspect page => at_inspect page
  | Fetch page pg => at_fetch page pg
  | Served page => at_served page
  | Release page page_boundry must_prefetch => at_release page page_boundry must_prefetch
  | Follow page page_boundry must_prefetch => at_follow page page_boundry must_prefetch
  | Prefetch w => at_prefetch w
  | PrefetchClaim w page old_va => at_prefetch_claim w page old_va
  | PrefetchDetach w page => at_prefetch_detach w page
  | PrefetchRead jobs => at_prefetch_read jobs
  | PrefetchMap buffer jobs => at_prefetch_map buffer jobs
  | PrefetchRelease page buffer jobs => at_prefetch_release page buffer jobs
  | Mmap addr length prot flags fd offset => at_mmap addr length prot flags fd offset
  | MapNext m => at_map_next m
  | Populate m t => at_populate m t
  | Munmap addr length => at_unmap_begin addr length
  | UnmapNext u => at_unmap_next u
  | UnmapWait u page => at_unmap_wait u page
  | UnmapTake u page => at_unmap_take u page
  | UnmapPage u page => at_unmap_page u page
  | Finished => fail Spinning
  end.

(** A thread alone, for at most [n] segments. *)
Fixpoint alone (n : nat) (t : thread) : M (machine K) unit :=
  match t with
  | Finished => mret tt
  | _ =>
      match n with
      | O => fail OutOfFuel
      | S n => t' ← segment t; alone n t'
      end
  end.

(** ** Thread-local variables *)

(** The [__thread] variables of [core.c]. *)
Record locals : Type := mk_locals {
  l_buffer_space : Z;
  l_prefetch_buffer : Z;
  l_prev_fault_1 : Z;
  l_prev_fault_2 : Z;
  l_internal_call : bool;
  l_buffer_allocated : bool;
  l_prefetch_buffer_allocated : bool;
}.

Definition new_locals : locals := mk_locals 0 0 0 0 false false false.

Definition load_locals (l : locals) : M (machine K) unit :=
  set_var buffer_space (l_buffer_space l);;
  set_var prefetch_buffer (l_prefetch_buffer l);;
  set_var prev_fault_1 (l_prev_fault_1 l);;
  set_var prev_fault_2 (l_prev_fault_2 l);;
  set_flag internal_call (l_internal_call l);;
  set_flag buffer_allocated (l_buffer_allocated l);;
  set_flag prefetch_buffer_allocated (l_prefetch_buffer_allocated l).

Definition locals_of (s : machine K) : locals :=
  mk_locals (vars s buffer_space) (vars s prefetch_buffer) (vars s prev_fault_1) (vars s prev_fault_2)
    (flags s internal_call) (flags s buffer_allocated) (flags s prefetch_buffer_allocated).

(** [m] as a thread with the variables [l] runs it, and its variables after. *)
Definition as_thread {A} (l : locals) (m : M (machine K) A) : M (machine K) (A * locals) :=
  load_locals l;;
  a ← m;
  s ← get;
  mret (a, locals_of s).

(** ** Interleavings *)

(** The shared state; the program's threads, each with its variables and
    where it is; and the variables of the policy's threads. *)
Record config : Type := mk_config {
  c_machine : machine K;
  c_threads : list (locals * thread);
  c_workers : list locals;
}.

(** One round of each of the policy's threads. *)
Variable rounds : list (M (machine K) unit).

(** Nobody is inside an [munmap]. *)
Definition allocator_free (ts : list (locals * thread)) : Prop := Forall (fun t => holds_allocator t.2 = false) ts.

#[export] Instance allocator_free_dec ts : Decision (allocator_free ts).
Proof. apply _. Defined.

(** A thread inside the pager runs a segment; a thread outside of it faults
    or calls [mmap] or [munmap]; the program starts a thread; a thread of the policy
    runs a round.  A thread that waits has no step. *)
Inductive step : config -> config -> Prop :=
  | step_segment s ts ws i l t l' t' s' :
      ts !! i = Some (l, t) ->
      (takes_allocator t = true -> allocator_free ts) ->
      as_thread l (segment t) s = Done (t', l', s') ->
      step (mk_config s ts ws) (mk_config s' (<[i := (l', t')]> ts) ws)
  | step_fault s ts ws i l code addr :
      ts !! i = Some (l, Finished) ->
      step (mk_config s ts ws) (mk_config s (<[i := (l, Dispatch code addr)]> ts) ws)
  | step_map s ts ws i l addr length prot flags fd offset :
      ts !! i = Some (l, Finished) ->
      step (mk_config s ts ws) (mk_config s (<[i := (l, Mmap addr length prot flags fd offset)]> ts) ws)
  | step_unmap s ts ws i l addr length :
      ts !! i = Some (l, Finished) ->
      step (mk_config s ts ws) (mk_config s (<[i := (l, Munmap addr length)]> ts) ws)
  | step_start s ts ws : step (mk_config s ts ws) (mk_config s (ts ++ [(new_locals, Finished)]) ws)
  | step_round s ts ws i m l l' s' :
      rounds !! i = Some m -> ws !! i = Some l ->
      as_thread l m s = Done (tt, l', s') ->
      step (mk_config s ts ws) (mk_config s' ts (<[i := l']> ws)).

(** A process whose threads are all outside the pager, none started yet. *)
Definition quiescent (s : machine K) : config := mk_config s [] (replicate (length rounds) new_locals).

(** A schedule, and the configuration it leads to. *)
Inductive choice : Type :=
  | Start
  | Run (thread : nat)
  | Fault_of (thread : nat) (code addr : Z)
  | Mmap_of (thread : nat) (addr length prot flags fd offset : Z)
  | Munmap_of (thread : nat) (addr length : Z)
  | Policy_round (i : nat).

Definition choose (x : choice) (c : config) : option config :=
  let s := c_machine c in
  let ts := c_threads c in
  let ws := c_workers c in
  match x with
  | Start => Some (mk_config s (ts ++ [(new_locals, Finished)]) ws)
  | Run i =>
      t ← ts !! i;
      if takes_allocator t.2 && negb (bool_decide (allocator_free ts)) then None
      else match as_thread t.1 (segment t.2) s with
           | Done (t', l', s') => Some (mk_config s' (<[i := (l', t')]> ts) ws)
           | Fault _ => None
           end
  | Fault_of i code addr =>
      match ts !! i with
      | Some (l, Finished) => Some (mk_config s (<[i := (l, Dispatch code addr)]> ts) ws)
      | _ => None
      end
  | Mmap_of i addr length prot flags fd offset =>
      match ts !! i with
      | Some (l, Finished) => Some (mk_config s (<[i := (l, Mmap addr length prot flags fd offset)]> ts) ws)
      | _ => None
      end
  | Munmap_of i addr length =>
      match ts !! i with
      | Some (l, Finished) => Some (mk_config s (<[i := (l, Munmap addr length)]> ts) ws)
      | _ => None
      end
  | Policy_round i =>
      m ← rounds !! i;
      l ← ws !! i;
      match as_thread l m s with
      | Done (_, l', s') => Some (mk_config s' ts (<[i := l']> ws))
      | Fault _ => None
      end
  end.

Fixpoint run_schedule (xs : list choice) (c : config) : option config :=
  match xs with
  | [] => Some c
  | x :: xs => c ← choose x c; run_schedule xs c
  end.
End threads.

Arguments config : clear implicits.
