(* ===== verification/PageRank.v ===== *)
(** The policy for graph programs: [src/src/policies/pageRank.c] and
    [pageRank.h].

    It is the LRU policy of disklinux.c, line for line, but for these parts,
    which are in the Module below under the names of the code: the address
    of the last page swapped in, [safe_to_free], protects a window of
    addresses around it from reclaim; the active list is not scanned; a
    thread prefetches the block that follows the window; a page on
    [eviction_list] is waited for when it is unmapped.  What the two files
    have in common (the lists, the moves of a page, the search of a free
    frame, start-up) is taken from DiskLinux.v.

    [lrudisk_allocate_page_critical] of this file calls a
    [direct_allocate_page] that the file does not define, and is called by
    nothing: it is left out. *)

From S2P Require Import Prelude UserPage AddressTranslation Fifo RdmaAlloc RdmaSim StorageRdma.
From S2P Require Import Machine Policy PointerPrefetch Migrate DiskLinux Core.

Local Open Scope Z_scope.

Module PageRank.

Definition LOW_WATER_THREASHOLD : Z := 80.
Definition PR_WINDOW_SIZE : Z := 128 * 1024 * 1024.
Definition PR_BLOCK_SIZE : Z := 32 * 1024 * 1024.

(** The addresses reclaim spares while [safe] is the last address swapped
    in: up to 512 MB before it and up to the window and 2 MB after it, not
    itself. *)
Definition in_window (safe va : Z) : bool :=
  ((va <? safe) && (u64 (safe - va) <? 32 * 4096 * 4096)) ||
  ((safe <? va) && (u64 (va - safe) <? PR_WINDOW_SIZE + 512 * 4096)).

Section policy.
Context {K : Type} `{Kernel K}.
(** What the other processes do during a [usleep]. *)
Variable usleep : M rdma_sys unit.

(** ** The functions both files have, word for word *)

Definition lrudisk_migrate_down : ptr -> Z -> bool -> bool -> M (machine K) unit := lrudisk_migrate_down usleep.
Definition lrudisk_migrate_up : ptr -> Z -> M (machine K) unit := lrudisk_migrate_up usleep.
Definition lrudisk_swapin : ptr -> ptr -> M (machine K) unit := lrudisk_swapin usleep.
Definition lrudisk_ack_swapin : ptr -> ptr -> M (machine K) unit := lrudisk_ack_swapin.
Definition shrink_active_list : Z -> M (machine K) Z := shrink_active_list.
Definition lrudisk_track_page : ptr -> M (machine K) unit := lrudisk_track_page.
Definition lrudisk_put_page_free : ptr -> M (machine K) unit := lrudisk_put_page_free.
Definition lrudisk_detach_page : ptr -> M (machine K) unit := lrudisk_detach_page.

(** It also starts the prefetch worker, which takes part as rounds. *)
Definition lrudisk_init : M (machine K) unit := lrudisk_init.

(** ** Reclaim *)

(** The second loop of [shrink_inactive_list]; [tries] as in the first. *)
Fixpoint shrink_window_loop (nr_pages ret : Z) (tries : nat) : M (machine K) Z :=
  match tries with
  | O => mret ret
  | S tries =>
      e ← entries inactive_list;
      if (ret <? nr_pages) && (0 <? e) then
        page ← dequeue inactive_list;
        match page with
        | None => fail Spinning
        | Some page =>
            pg ← page_get page;
            safe ← get_var safe_to_free;
            if negb (in_window safe (va pg)) then
              enqueue eviction_list page;;
              shrink_window_loop nr_pages (ret + 1) tries
            else
              enqueue inactive_list page;;
              shrink_window_loop nr_pages ret tries
        end
      else mret ret
  end.

Definition shrink_inactive_list (nr_pages : Z) : M (machine K) Z :=
  e ← entries inactive_list;
  let nr_pages := if (nr_pages =? 0) || (e <? nr_pages) then e else nr_pages in
  set_flag shrinkage_running true;;
  safe ← get_var safe_to_free;
  let tries := Z.to_nat (u64 (nr_pages * 100)) in
  ret ← (if safe =? 0 then shrink_inactive_loop nr_pages 0 tries else shrink_window_loop nr_pages 0 tries);
  set_flag shrinkage_running false;;
  mret ret.

(** The loop of [direct_allocate_page_asynch]; the scan of the active list is
    compiled out. *)
Fixpoint reclaim_loop (nr_pages reclaimed : Z) (n : nat) : M (machine K) Z :=
  match n with
  | O => mret reclaimed
  | S n =>
      if reclaimed <? nr_pages then
        r ← shrink_inactive_list SWAP_CLUSTER_COUNT;
        reclaim_loop nr_pages (s32 (reclaimed + r)) n
      else mret reclaimed
  end.

Definition direct_allocate_page_asynch (nr_pages priority : Z) : M (machine K) Z :=
  i ← entries inactive_list;
  let to_scan_inactive := s32 (Z.shiftr i priority) in
  reclaim_loop nr_pages 0 (Z.to_nat ((to_scan_inactive + SWAP_CLUSTER_COUNT - 1) / SWAP_CLUSTER_COUNT)).

Definition fetch_free_asynch : M (machine K) ptr := fetch_free usleep direct_allocate_page_asynch.

(** ** The interface to the core *)

Definition lrudisk_pagefault : M (machine K) ptr :=
  page ← fetch_free_asynch;
  page_set page (set_migrating true);;
  mret page.

(** The synchronous swap-in; the core of this build does not call it. *)
Definition lrudisk_swapin_external (page : ptr) : M (machine K) unit :=
  pg ← page_get page;
  let file_offset := virtual_offset pg in
  set_var safe_to_free (va pg);;
  freepage ← fetch_free_asynch;
  swapin_into usleep page freepage file_offset.

Definition lrudisk_swapin_external_async (page : ptr) : M (machine K) unit :=
  pg ← page_get page;
  let file_offset := virtual_offset pg in
  detach_from disk_active_list page;;
  pg ← page_get page;
  set_var safe_to_free (va pg);;
  core_migrate_up_async_start page;;
  freepage ← fetch_free_asynch;
  swapin_async_into page freepage file_offset.

Definition lrudisk_ack_vma (vma_boundry vma_size priority : Z) : M (machine K) unit :=
  set_var main_vma_va vma_boundry;;
  set_var main_vma_size vma_size;;
  set_var main_vma_priority priority.

(** Removal of a page the program unmaps.  The code tries for ever while an
    eviction worker has yet to take the page, or the page is in no list. *)
Definition lrudisk_remove_page (page : ptr) : M (machine K) unit :=
  pg ← page_get page;
  c_assert (negb (va pg =? 0));;
  busy_wait (bool_decide (in_list pg = Some eviction_list));;
  ret ← tryremove (in_list pg) page;
  busy_wait (negb (ret =? 0));;
  release_removed page.

(** ** The threads *)

Definition lrudisk_synchkswapd_round : M (machine K) unit :=
  kswapd_round LOW_WATER_THREASHOLD direct_allocate_page_asynch.

(** One round of [lrudisk_evictionworker]: false when there is nothing to
    evict and the worker sleeps. *)
Definition lrudisk_evictionworker_round : M (machine K) bool :=
  victim ← dequeue eviction_list;
  match victim with
  | None => mret false
  | Some victim =>
      pg ← page_get victim;
      c_assert (negb (va pg =? 0));;
      evict_victim usleep victim;;
      mret true
  end.

(** The first pass of [lrudisk_evictionworker_vector]. *)
Fixpoint vector_begin (victims : list ptr) : M (machine K) (list (ptr * Z * bool)) :=
  match victims with
  | [] => mret []
  | victim :: rest =>
      pg ← page_get victim;
      c_assert (negb (va pg =? 0));;
      page_set victim (set_migrating true);;
      pg ← page_get victim;
      let old_offset := virtual_offset pg in
      extmem_wp_page victim true;;
      flags ← pt_get_bits victim;
      let dirty := negb (Z.land flags PT_DIRTY_FLAG =? 0) in
      pg ← page_get victim;
      more ← vector_begin rest;
      mret ((victim, old_offset, dirty || negb (has_reserve pg)) :: more)
  end.

(** One round of [lrudisk_evictionworker_vector]: the number of pages
    evicted.  This build does not start the thread: [VECTOR_EVICTION] is
    commented out in [pageRank.h]. *)
Definition lrudisk_evictionworker_vector_round : M (machine K) Z :=
  victims ← fifo (dequeue_fifo_vector eviction_list EVICT_VECTOR_SIZE);
  match victims with
  | [] => mret 0
  | _ =>
      vs ← vector_begin victims;
      jobs ← vector_disk_pages vs;
      extmem_migrate_downdisk_vector usleep (map fst jobs);;
      vector_finish jobs;;
      mret (Z.of_nat (length victims))
  end.
End policy.

(** ** The policy of the PageRank build *)

Definition pagerank {K : Type} `{Kernel K} (usleep : M rdma_sys unit) : Policy K := {|
  paging_init := lrudisk_init;
  pagefault := lrudisk_pagefault usleep;
  policy_add_page := lrudisk_track_page;
  policy_put_freepage := lrudisk_put_page_free;
  policy_detach_page := lrudisk_detach_page;
  page_swapin_external_async := lrudisk_swapin_external_async usleep;
  policy_ack_swapped_in := lrudisk_ack_swapin;
  policy_ack_vma := lrudisk_ack_vma;
  mmgr_remove := lrudisk_remove_page;
|}.

(** ** The prefetch worker *)

Section prefetchworker.
Context {K : Type} `{Kernel K}.
Variable usleep : M rdma_sys unit.

(** The window is followed only in an area this large. *)
Definition PREFETCH_MIN_AREA : Z := 5 * 1024 * 1024 * 1024.

(** The inner loop, to the end of the block at [block]; when nothing can be
    prefetched the worker leaves it (and sleeps). *)
Fixpoint prefetch_block (block prefetch_head : Z) (fuel : nat) : M (machine K) unit :=
  if prefetch_head <=? u64 (block + PR_BLOCK_SIZE) then
    match fuel with
    | O => fail OutOfFuel
    | S fuel =>
        c_assert (prefetch_head mod PAGE_SIZE =? 0);;
        nr_prefetched ← core_try_prefetch (Pol := pagerank usleep) usleep prefetch_head;
        if nr_prefetched =? 0 then mret tt
        else prefetch_block block (u64 (prefetch_head + nr_prefetched * PAGE_SIZE)) fuel
    end
  else mret tt.

(** A page a round, at worst. *)
Definition block_rounds : nat := S (Z.to_nat (PR_BLOCK_SIZE / PAGE_SIZE)).

(** One round of the loop of [lrudisk_prefetchworker].  [block_head] is a
    local variable the code never initialises, so its first value is any. *)
Definition lrudisk_prefetchworker_round : M (machine K) unit :=
  vma ← get_var main_vma_va;
  safe ← get_var safe_to_free;
  size ← get_var main_vma_size;
  if (vma =? 0) || (safe =? 0) || (size <? PREFETCH_MIN_AREA) then mret tt
  else
    head ← get_var block_head;
    let new_head := u64 (safe + PR_BLOCK_SIZE) in
    if head =? new_head then mret tt
    else
      set_var block_head new_head;;
      prefetch_block new_head new_head block_rounds.

(** The threads of the build: kswapd, the eviction workers, the prefetch
    worker. *)
Definition pagerank_rounds : list (M (machine K) unit) :=
  [lrudisk_synchkswapd_round; lrudisk_evictionworker_round usleep;; mret tt; lrudisk_prefetchworker_round].
End prefetchworker.
End PageRank.
