(* ===== verification/Accounting.v ===== *)
(** Accounting of DRAM frames and disk slots in the LRU policy.

    The place of a descriptor is its side (memory or disk) and its offset.
    [pinv s L H]: the descriptors of [s] occupy exactly the places [L], no
    two the same; a descriptor on a memory list has a frame and one on a disk
    list a slot; and [H] lists the descriptors an operation holds.  For each
    of these [H] gives the list it is in, if any, the place its fields name,
    and the place it counts for: the two differ between the steps of an
    exchange.  The rules below are proved once; every operation of the
    policy then follows by running it. *)

From S2P Require Import Prelude UserPage AddressTranslation Fifo RdmaAlloc RdmaSim StorageRdma.
From S2P Require Import Machine Migrate DiskLinux.

Local Open Scope Z_scope.

(** ** Places *)

Abbreviation place := (bool * Z)%type.

Definition loc (d : user_page) : place := (in_dram d, virtual_offset d).

(** The side the pages of a list are on. *)
Definition side (l : lid) : bool :=
  bool_decide (l = active_list \/ l = inactive_list \/ l = eviction_list \/ l = dram_free_list).

Record held : Type := mk_held {
  h_list : option lid;
  h_actual : place;
  h_place : place;
}.

Definition place_of (H : gmap ptr held) (p : ptr) (d : user_page) : place :=
  match H !! p with Some h => h_place h | None => loc d end.

Record accounts (D : gmap ptr user_page) (Q : gmap lid (list ptr)) (L : gset place) (H : gmap ptr held) : Prop :=
  mk_accounts {
  ac_lists : forall l, l ∈ all_lists -> is_Some (Q !! l);
  ac_side : forall l ids p d, Q !! l = Some ids -> p ∈ ids -> D !! p = Some d -> H !! p = None -> in_dram d = side l;
  ac_held : forall p h, H !! p = Some h -> exists d, D !! p = Some d /\ loc d = h_actual h /\
    match h_list h with None => unlisted Q p | Some l => exists ids, Q !! l = Some ids /\ p ∈ ids end;
  ac_inj : forall p q dp dq, D !! p = Some dp -> D !! q = Some dq -> place_of H p dp = place_of H q dq -> p = q;
  ac_places : forall c, c ∈ L <-> exists p d, D !! p = Some d /\ place_of H p d = c;
}.

Definition pinv (s : fifo_state) (L : gset place) (H : gmap ptr held) : Prop :=
  exists D Q, rep s D Q /\ accounts D Q L H.

(** All held descriptors are off the lists. *)
Definition in_hand (H : gmap ptr held) : Prop := forall p h, H !! p = Some h -> h_list h = None.

(** A descriptor held at its own place. *)
Definition hold (c : place) : held := mk_held None c c.

Lemma in_hand_empty : in_hand ∅.
Proof. by intros p h. Qed.

Lemma in_hand_hold H p c : in_hand H -> in_hand (<[p := hold c]> H).
Proof. intros Hh q h [[<- <-]|[_ ?]]%lookup_insert_Some; [done|by eapply Hh]. Qed.

Lemma in_hand_delete H p : in_hand H -> in_hand (delete p H).
Proof. intros Hh q h [_ ?]%lookup_delete_Some. by eapply Hh. Qed.

#[export] Hint Resolve in_hand_empty in_hand_hold in_hand_delete : core.

(** ** Pure steps *)

(** Two held descriptors exchange what they count for. *)
Lemma accounts_exchange D Q L H p q hp hq :
  accounts D Q L H -> H !! p = Some hp -> H !! q = Some hq -> p <> q ->
  accounts D Q L (<[p := mk_held (h_list hp) (h_actual hp) (h_place hq)]>
                  (<[q := mk_held (h_list hq) (h_actual hq) (h_place hp)]> H)).
Proof.
  intros [Hl Hs Hh Hi Hp] Hhp Hhq Hne. set (H' := <[p := _]> _).
  destruct (Hh _ _ Hhp) as (dp & Hdp & _). destruct (Hh _ _ Hhq) as (dq & Hdq & _).
  set (sw := fun x => if decide (x = p) then q else if decide (x = q) then p else x).
  assert (Hsw : forall x dx, D !! x = Some dx -> exists dy, D !! sw x = Some dy /\ place_of H' x dx = place_of H (sw x) dy).
  { intros x dx Hx. unfold sw, place_of, H'. destruct (decide (x = p)) as [->|Hxp]; [|destruct (decide (x = q)) as [->|Hxq]].
    - exists dq. split; [done|]. by rewrite lookup_insert_eq, Hhq.
    - exists dp. split; [done|]. by rewrite lookup_insert_ne, lookup_insert_eq, Hhp.
    - exists dx. split; [done|]. by rewrite !lookup_insert_ne. }
  assert (Hinv : forall x, sw (sw x) = x) by (intros x; unfold sw; repeat case_decide; congruence).
  constructor; [done| | | |].
  - intros l ids x d ? ? ? Hx. eapply Hs; eauto. unfold H' in Hx. rewrite lookup_insert_None in Hx.
    destruct Hx as [Hx _]. by apply lookup_insert_None in Hx as [? _].
  - intros x h Hx. unfold H' in Hx. rewrite !lookup_insert_Some in Hx.
    destruct Hx as [[<- <-]|[_ [[<- <-]|[_ Hx]]]]; simpl; [by apply (Hh p hp)|by apply (Hh q hq)|by apply Hh].
  - intros x y dx dy Hx Hy E. destruct (Hsw _ _ Hx) as (ex & Hex & Ex). destruct (Hsw _ _ Hy) as (ey & Hey & Ey).
    rewrite <- (Hinv x), <- (Hinv y). f_equal. eapply Hi; eauto. congruence.
  - intros c. rewrite Hp. split.
    + intros (x & dx & Hx & <-). destruct (Hsw (sw x)) with (dx := default dp (D !! sw x)) as (y & Hy & Ey).
      * unfold sw. repeat case_decide; subst; by rewrite ?Hdp, ?Hdq, ?Hx.
      * rewrite Hinv in Hy, Ey. eexists _, _. split; [|rewrite Ey; congruence]. unfold sw.
        repeat case_decide; subst; by rewrite ?Hdp, ?Hdq, ?Hx.
    + intros (x & dx & Hx & <-). destruct (Hsw _ _ Hx) as (y & Hy & Ey). eauto.
Qed.

(** A listed descriptor at its own place, on the right side, is not held. *)
Lemma accounts_close D Q L H p l c :
  accounts D Q L H -> H !! p = Some (mk_held (Some l) c c) -> c.1 = side l ->
  (forall l' ids, Q !! l' = Some ids -> p ∈ ids -> l' = l) -> accounts D Q L (delete p H).
Proof.
  intros [Hl Hs Hh Hi Hp] Hhp Hc Hun. destruct (Hh _ _ Hhp) as (d & Hd & Hloc & ids & Hids & Hin). simpl in *.
  assert (Hpl : forall x dx, D !! x = Some dx -> place_of (delete p H) x dx = place_of H x dx).
  { intros x dx Hx. unfold place_of. destruct (decide (x = p)) as [->|Hne]; [|by rewrite lookup_delete_ne].
    rewrite lookup_delete_eq, Hhp. simpl. congruence. }
  constructor; [done| | | |].
  - intros l' ids' x dx Hl' Hx Hdx Hn. apply lookup_delete_None in Hn as [<-|Hn]; [|by eapply Hs].
    rewrite (Hun _ _ Hl' Hx), <- Hc, <- Hloc. by simplify_eq.
  - intros x h [_ Hx]%lookup_delete_Some. by apply Hh.
  - intros x y dx dy Hx Hy. rewrite !Hpl by done. by apply Hi.
  - intros c'. rewrite Hp. split; intros (x & dx & Hx & <-); exists x, dx; (split; [done|]); [by rewrite Hpl|by rewrite Hpl].
Qed.

(** Taking an unheld descriptor out of a list. *)
Lemma accounts_take D Q L H p l l1 l2 :
  accounts D Q L H -> in_hand H -> Q !! l = Some (l1 ++ p :: l2) -> is_Some (D !! p) ->
  (forall l' ids, Q !! l' = Some ids -> p ∈ ids -> l' = l) -> p ∉ l1 ++ l2 ->
  exists o, H !! p = None /\ accounts D (<[l := l1 ++ l2]> Q) L (<[p := hold (side l, o)]> H).
Proof.
  intros [Hl Hs Hh Hi Hp] Hand HQ [d Hd] Hun Hnot.
  assert (Hpin : p ∈ l1 ++ p :: l2) by (apply elem_of_app; right; by left).
  assert (Hsub : forall x, x ∈ l1 ++ l2 -> x ∈ l1 ++ p :: l2).
  { intros x. rewrite !elem_of_app, elem_of_cons. tauto. }
  assert (Hnone : H !! p = None).
  { destruct (H !! p) as [h|] eqn:E; [|done]. destruct (Hh _ _ E) as (? & _ & _ & Hu). rewrite (Hand _ _ E) in Hu.
    exfalso. by apply (Hu _ _ HQ). }
  pose proof (Hs _ _ _ _ HQ Hpin Hd Hnone) as Hside. exists (virtual_offset d). split; [done|].
  assert (Hpl : forall x dx, D !! x = Some dx -> place_of (<[p := hold (side l, virtual_offset d)]> H) x dx = place_of H x dx).
  { intros x dx Hx. unfold place_of. destruct (decide (x = p)) as [->|Hne]; [|by rewrite lookup_insert_ne].
    rewrite lookup_insert_eq, Hnone. simpl. unfold loc. simplify_eq. by rewrite <- Hside. }
  constructor.
  - intros l' Hl'. destruct (decide (l' = l)) as [->|]; [rewrite lookup_insert_eq|rewrite lookup_insert_ne by done]; eauto.
  - intros l' ids x dx Hl' Hx Hdx Hn. apply lookup_insert_None in Hn as [Hn Hne].
    apply lookup_insert_Some in Hl' as [[<- <-]|[? Hl']]; [|by eapply Hs].
    exact (Hs _ _ _ _ HQ (Hsub _ Hx) Hdx Hn).
  - intros x h [[<- <-]|[Hne Hx]]%lookup_insert_Some.
    + exists d. split; [done|]. split; [simpl; unfold loc; by rewrite <- Hside|]. simpl.
      intros l' ids [[<- <-]|[Hne Hl']]%lookup_insert_Some; [done|].
      intros Hin'. apply Hne. symmetry. by apply (Hun _ ids).
    + destruct (Hh _ _ Hx) as (dx & ? & ? & Hu). exists dx. pose proof (Hand _ _ Hx) as E. rewrite E in Hu |- *. split_and!; [done|done|].
      intros l' ids [[<- <-]|[? Hl']]%lookup_insert_Some; [|exact (Hu _ _ Hl')].
      intros Hin. exact (Hu _ _ HQ (Hsub _ Hin)).
  - intros x y dx dy Hx Hy. rewrite !Hpl by done. by apply Hi.
  - intros c'. rewrite Hp. split; intros (x & dx & Hx & <-); exists x, dx; (split; [done|]); [by rewrite Hpl|by rewrite Hpl].
Qed.

(** Putting a descriptor from the hand into a list. *)
Lemma accounts_put D Q L H p l ids a c :
  accounts D Q L H -> H !! p = Some (mk_held None a c) -> Q !! l = Some ids ->
  accounts D (<[l := p :: ids]> Q) L (<[p := mk_held (Some l) a c]> H).
Proof.
  intros [Hl Hs Hh Hi Hp] Hhp HQ.
  assert (Hpl : forall x dx, place_of (<[p := mk_held (Some l) a c]> H) x dx = place_of H x dx).
  { intros x dx. unfold place_of. destruct (decide (x = p)) as [->|Hne]; [|by rewrite lookup_insert_ne].
    by rewrite lookup_insert_eq, Hhp. }
  constructor.
  - intros l' Hl'. destruct (decide (l' = l)) as [->|]; [rewrite lookup_insert_eq|rewrite lookup_insert_ne by done]; eauto.
  - intros l' ids' x dx Hl' Hx Hdx Hn. apply lookup_insert_None in Hn as [Hn Hne].
    apply lookup_insert_Some in Hl' as [[<- <-]|[? Hl']]; [|by eapply Hs].
    apply elem_of_cons in Hx as [->|Hx]; [done|by eapply Hs].
  - intros x h [[<- <-]|[Hne Hx]]%lookup_insert_Some.
    + destruct (Hh _ _ Hhp) as (d & ? & ? & _). exists d. split_and!; [done|done|]. simpl. exists (p :: ids).
      rewrite lookup_insert_eq. split; [done|set_solver].
    + destruct (Hh _ _ Hx) as (dx & ? & ? & Hu). exists dx. split_and!; [done|done|]. destruct (h_list h) as [l'|].
      * destruct Hu as (ids' & Hids' & Hin). destruct (decide (l' = l)) as [->|Hl'].
        -- exists (p :: ids). rewrite lookup_insert_eq. split; [done|]. simplify_eq. set_solver.
        -- exists ids'. by rewrite lookup_insert_ne.
      * intros l' ids' [[<- <-]|[? Hl']]%lookup_insert_Some; [|exact (Hu _ _ Hl')]. specialize (Hu _ _ HQ). set_solver.
  - intros x y dx dy Hx Hy. rewrite !Hpl. by apply Hi.
  - intros c'. rewrite Hp. split; intros (x & dx & Hx & <-); exists x, dx; (split; [done|]); by rewrite Hpl.
Qed.

(** Assigning to the fields of a held descriptor. *)
Lemma accounts_move D Q L H p d h f :
  accounts D Q L H -> D !! p = Some d -> H !! p = Some h ->
  accounts (<[p := f d]> D) Q L (<[p := mk_held (h_list h) (loc (f d)) (h_place h)]> H).
Proof.
  intros [Hl Hs Hh Hi Hp] Hd Hhp. set (H' := <[p := _]> H).
  assert (Hpl : forall x dx dx', D !! x = Some dx -> <[p := f d]> D !! x = Some dx' -> place_of H' x dx' = place_of H x dx).
  { intros x dx dx' Hx Hx'. unfold place_of, H'. destruct (decide (x = p)) as [->|Hne].
    - by rewrite lookup_insert_eq, Hhp.
    - rewrite lookup_insert_ne in Hx' by done; rewrite lookup_insert_ne by done. by simplify_eq. }
  assert (Hdom : forall x dx', <[p := f d]> D !! x = Some dx' -> exists dx, D !! x = Some dx).
  { intros x dx' [[<- <-]|[_ ?]]%lookup_insert_Some; eauto. }
  constructor; [done| | | |].
  - intros l ids x dx Hl' Hx Hdx Hn. apply lookup_insert_None in Hn as [Hn Hne].
    rewrite lookup_insert_ne in Hdx by done. by eapply Hs.
  - intros x h' [[<- <-]|[Hne Hx]]%lookup_insert_Some.
    + destruct (Hh _ _ Hhp) as (? & ? & ? & Hu). exists (f d). rewrite lookup_insert_eq. by split_and!.
    + rewrite lookup_insert_ne by done. by apply Hh.
  - intros x y dx dy Hx Hy. destruct (Hdom _ _ Hx) as [ex Hex]. destruct (Hdom _ _ Hy) as [ey Hey].
    rewrite (Hpl _ _ _ Hex Hx), (Hpl _ _ _ Hey Hy). by apply Hi.
  - intros c. rewrite Hp. split.
    + intros (x & dx & Hx & <-). destruct (decide (x = p)) as [->|Hne].
      * exists p, (f d). split; [apply lookup_insert_eq|]. by eapply Hpl, lookup_insert_eq.
      * exists x, dx. split; [by rewrite lookup_insert_ne|]. eapply Hpl; [done|by rewrite lookup_insert_ne].
    + intros (x & dx & Hx & <-). destruct (Hdom _ _ Hx) as [ex Hex]. exists x, ex. split; [done|]. by rewrite (Hpl _ _ _ Hex Hx).
Qed.

(** Assigning to fields that do not name the place. *)
Lemma accounts_touch D Q L H p d f :
  accounts D Q L H -> D !! p = Some d -> loc (f d) = loc d -> accounts (<[p := f d]> D) Q L H.
Proof.
  intros [Hl Hs Hh Hi Hp] Hd Hf.
  assert (Hpl : forall x dx', <[p := f d]> D !! x = Some dx' -> exists dx, D !! x = Some dx /\ loc dx' = loc dx).
  { intros x dx' [[<- <-]|[_ ?]]%lookup_insert_Some; eauto. }
  assert (Hback : forall x dx, D !! x = Some dx -> exists dx', <[p := f d]> D !! x = Some dx' /\ loc dx' = loc dx).
  { intros x dx Hx. destruct (decide (x = p)) as [->|Hne]; [exists (f d); rewrite lookup_insert_eq; split; congruence|].
    rewrite lookup_insert_ne by done. eauto. }
  assert (Hsame : forall x d1 d2, loc d1 = loc d2 -> place_of H x d1 = place_of H x d2).
  { intros x d1 d2 E. unfold place_of. by destruct (H !! x). }
  constructor; [done| | | |].
  - intros l ids x dx Hl' Hx Hdx Hn. destruct (Hpl _ _ Hdx) as (ex & Hex & E).
    injection E as -> _. by eapply Hs.
  - intros x h Hx. destruct (Hh _ _ Hx) as (dx & Hdx & E & Hu). destruct (Hback _ _ Hdx) as (ex & Hex & E').
    exists ex. split_and!; [done|congruence|done].
  - intros x y dx dy Hx Hy E. destruct (Hpl _ _ Hx) as (ex & Hex & Ex). destruct (Hpl _ _ Hy) as (ey & Hey & Ey).
    eapply Hi; eauto. rewrite <- (Hsame _ _ _ Ex), <- (Hsame _ _ _ Ey). done.
  - intros c. rewrite Hp. split; intros (x & dx & Hx & <-).
    + destruct (Hback _ _ Hx) as (ex & Hex & E). exists x, ex. split; [done|]. by apply Hsame.
    + destruct (Hpl _ _ Hx) as (ex & Hex & E). exists x, ex. split; [done|]. by apply Hsame.
Qed.

(** A new descriptor, already in its list, at a place no other has. *)
Lemma accounts_add D Q L H p l ids d :
  accounts D Q L H -> D !! p = None -> unlisted Q p -> Q !! l = Some ids -> in_dram d = side l -> loc d ∉ L ->
  accounts (<[p := d]> D) (<[l := p :: ids]> Q) ({[loc d]} ∪ L) H.
Proof.
  intros [Hl Hs Hh Hi Hp] Hd Hu HQ Hside Hloc.
  assert (HpH : H !! p = None).
  { destruct (H !! p) eqn:E; [|done]. destruct (Hh _ _ E) as (dp & Hdp & _). congruence. }
  assert (Hpl : forall x dx, D !! x = Some dx -> place_of H x dx ∈ L) by (intros; apply Hp; eauto).
  assert (Hpp : place_of H p d = loc d) by (unfold place_of; by rewrite HpH).
  constructor.
  - intros l' Hl'. destruct (decide (l = l')) as [<-|]; [rewrite lookup_insert_eq|rewrite lookup_insert_ne by done]; eauto.
  - intros l' ids' x dx Hl' Hx Hdx Hn. apply lookup_insert_Some in Hdx as [[<- <-]|[Hne Hdx]].
    + apply lookup_insert_Some in Hl' as [[<- <-]|[? Hl']]; [done|]. exfalso. exact (Hu _ _ Hl' Hx).
    + apply lookup_insert_Some in Hl' as [[<- <-]|[? Hl']]; [|by eapply Hs].
      apply elem_of_cons in Hx as [->|Hx]; [done|]. by eapply Hs.
  - intros x h Hx. destruct (Hh _ _ Hx) as (dx & Hdx & ? & Hxl). assert (x <> p) by congruence.
    exists dx. rewrite lookup_insert_ne by done. split_and!; [done|done|]. destruct (h_list h) as [l'|].
    + destruct Hxl as (ids' & Hids' & Hin). destruct (decide (l = l')) as [<-|Hne].
      * exists (p :: ids). rewrite lookup_insert_eq. split; [done|]. right. congruence.
      * exists ids'. by rewrite lookup_insert_ne.
    + intros l' ids' [[<- <-]|[? Hl']]%lookup_insert_Some; [|exact (Hxl _ _ Hl')].
      apply not_elem_of_cons. split; [done|]. exact (Hxl _ _ HQ).
  - intros x y dx dy [[<- <-]|[? Hx]]%lookup_insert_Some [[<- <-]|[? Hy]]%lookup_insert_Some; [done| | |by apply Hi].
    + rewrite Hpp. intros E. destruct Hloc. rewrite E. by apply Hpl.
    + rewrite Hpp. intros E. destruct Hloc. rewrite <- E. by apply Hpl.
  - intros c. rewrite elem_of_union, elem_of_singleton, Hp. split.
    + intros [->|(x & dx & Hx & <-)]; [exists p, d; by rewrite lookup_insert_eq|].
      exists x, dx. rewrite lookup_insert_ne by congruence. done.
    + intros (x & dx & [[<- <-]|[? Hx]]%lookup_insert_Some & <-); [by left|]. right. eauto.
Qed.

(** A new descriptor outside the lists, which counts for a place of its own. *)
Lemma accounts_hold_new D Q L H p d c :
  accounts D Q L H -> D !! p = None -> unlisted Q p -> c ∉ L ->
  accounts (<[p := d]> D) Q ({[c]} ∪ L) (<[p := mk_held None (loc d) c]> H).
Proof.
  intros [Hl Hs Hh Hi Hp] Hd Hu Hc. set (H' := <[p := _]> H).
  assert (Hpl : forall x dx, x <> p -> place_of H' x dx = place_of H x dx).
  { intros x dx Hx. unfold place_of, H'. by rewrite lookup_insert_ne. }
  assert (Hpp : place_of H' p d = c) by (unfold place_of, H'; by rewrite lookup_insert_eq).
  constructor; [done| | | |].
  - intros l ids x dx Hids Hx Hdx Hn. assert (Hne : p <> x) by (intros <-; exact (Hu _ _ Hids Hx)).
    unfold H' in Hn. rewrite lookup_insert_ne in Hn by done. rewrite lookup_insert_ne in Hdx by done. by eapply Hs.
  - intros x h [[<- <-]|[Hne Hx]]%lookup_insert_Some; [exists d; by rewrite lookup_insert_eq|].
    rewrite lookup_insert_ne by done. by apply Hh.
  - intros x y dx dy [[<- <-]|[? Hx]]%lookup_insert_Some [[<- <-]|[? Hy]]%lookup_insert_Some; [done| | |].
    + rewrite Hpp, Hpl by done. intros E. destruct Hc. rewrite E. apply Hp. eauto.
    + rewrite Hpp, Hpl by done. intros E. destruct Hc. rewrite <- E. apply Hp. eauto.
    + rewrite !Hpl by done. by apply Hi.
  - intros y. rewrite elem_of_union, elem_of_singleton, Hp. split.
    + intros [->|(x & dx & Hx & <-)]; [exists p, d; by rewrite lookup_insert_eq|].
      assert (p <> x) by congruence. exists x, dx. rewrite lookup_insert_ne by done. by rewrite Hpl.
    + intros (x & dx & [[<- <-]|[? Hx]]%lookup_insert_Some & <-); [by left|]. right. exists x, dx. by rewrite Hpl.
Qed.

Lemma accounts_start Q : (forall l, l ∈ all_lists -> is_Some (Q !! l)) -> accounts ∅ Q ∅ ∅.
Proof.
  intros Hl. constructor; [done|done|done|done|]. intros c. split; [by intros ?%not_elem_of_empty|].
  intros (p & d & Hp & _). by rewrite lookup_empty in Hp.
Qed.

Lemma rep_calloc s D Q p :
  rep s D Q -> pages s !! p = None -> Z.of_nat (size D) + 1 < 2 ^ 64 ->
  rep (mk_fifo_state (<[p := page0]> (pages s)) (lists s)) (<[p := page0]> D) Q /\ D !! p = None /\ unlisted Q p.
Proof.
  intros Hr Hp Hsz. assert (HD : D !! p = None) by (by rewrite <- (rep_data _ _ _ Hr), lookup_fmap, Hp).
  assert (Hu : unlisted Q p).
  { intros l ids Hl Hin. destruct (rep_member _ _ _ _ _ _ Hr Hl Hin) as [? ?]. congruence. }
  split; [|done]. split; simpl.
  - by rewrite fmap_insert, (rep_data _ _ _ Hr).
  - apply Hr.
  - intros l ids Hl. destruct (rep_dseg _ _ _ Hr _ _ Hl) as [Hs Hn]. split; [|done].
    apply dseg_insert; [exact (Hu _ _ Hl)|done].
  - intros x xg [[<- <-]|[? Hx]]%lookup_insert_Some Hxu; [done|by eapply (rep_free _ _ _ Hr)].
  - rewrite map_size_insert_None by done. lia.
Qed.

(** ** Steps of the machine *)

Section rules.
Context {K : Type} {HK : Kernel K}.
Implicit Types s : machine K.
Implicit Types L : gset place.
Implicit Types H : gmap ptr held.

Definition minv s L H : Prop := pinv (m_fifo s) L H.

(** An operation that leaves the descriptors and lists alone. *)
Definition quiet {A} (m : M (machine K) A) : Prop := forall f, keeps (fun s => m_fifo s = f) m.

Lemma wlp_quiet {A} (m : M (machine K) A) (Q : A -> machine K -> Prop) s L H :
  quiet m -> minv s L H -> (forall a s', minv s' L H -> Q a s') -> wlp m Q s.
Proof.
  intros Hm Hs HQ. eapply (keeps_wlp _ _ _ _ (Hm _) eq_refl). intros a s' E. apply HQ. unfold minv. by rewrite E.
Qed.

Lemma loc_erase pg : loc (erase pg) = loc pg.
Proof. done. Qed.

Lemma wlp_get_held p (Q : user_page -> machine K -> Prop) s L H :
  minv s L H ->
  (forall pg, pages (m_fifo s) !! p = Some pg -> (forall h, H !! p = Some h -> loc pg = h_actual h) -> Q pg s) ->
  wlp (page_get p) Q s.
Proof.
  intros (D & Q' & Hr & Ha) HQ. unfold page_get, fifo, page_at. rewrite wlp_zoom. wlp_norm. intros pg Hp.
  simpl. rewrite set_fifo_same. apply HQ; [done|]. intros h Hh. destruct (ac_held _ _ _ _ Ha _ _ Hh) as (d & Hd & E & _).
  rewrite <- E. erewrite rep_page_data in Hd by done. injection Hd as <-. by rewrite loc_erase.
Qed.

(** Assignments that leave the links alone. *)
Definition keeps_links (f : user_page -> user_page) : Prop :=
  (forall pg, next (f pg) = next pg /\ prev (f pg) = prev pg /\ in_list (f pg) = in_list pg) /\
  (forall pg, erase (f pg) = f (erase pg)).

Lemma wlp_page_set p f (Q : unit -> machine K -> Prop) s D Q' :
  keeps_links f -> rep (m_fifo s) D Q' ->
  (forall d s', D !! p = Some d -> rep (m_fifo s') (<[p := f d]> D) Q' -> Q tt s') ->
  wlp (page_set p f) Q s.
Proof.
  intros [Hl He] Hr HQ. unfold page_set, fifo. rewrite wlp_zoom. destruct (D !! p) as [d|] eqn:Hd.
  - apply wp_wlp. eapply wp_mono; [by apply upd_data_spec|]. intros [] x Hx. by apply (HQ d).
  - unfold upd_page, page_at. wlp_norm. intros pg Hp. simpl in Hp. by erewrite rep_page_data in Hd.
Qed.

Lemma wlp_touch p f (Q : unit -> machine K -> Prop) s L H :
  keeps_links f -> (forall pg, loc (f pg) = loc pg) -> minv s L H ->
  (forall s', minv s' L H -> Q tt s') -> wlp (page_set p f) Q s.
Proof.
  intros Hf Hloc (D & Q' & Hr & Ha) HQ. eapply wlp_page_set; [done|done|]. intros d s' Hd Hr'. apply HQ.
  exists (<[p := f d]> D), Q'. split; [done|]. by apply accounts_touch.
Qed.

Lemma wlp_move p f (Q : unit -> machine K -> Prop) s L H h :
  minv s L H -> keeps_links f -> H !! p = Some h ->
  (forall d s', loc d = h_actual h -> minv s' L (<[p := mk_held (h_list h) (loc (f d)) (h_place h)]> H) -> Q tt s') ->
  wlp (page_set p f) Q s.
Proof.
  intros (D & Q' & Hr & Ha) Hf Hh HQ. eapply wlp_page_set; [done|done|]. intros d s' Hd Hr'.
  destruct (ac_held _ _ _ _ Ha _ _ Hh) as (d' & Hd' & E & _). apply (HQ d); [congruence|].
  exists (<[p := f d]> D), Q'. split; [done|]. by apply accounts_move.
Qed.

Lemma wlp_set_offset p x (Q : unit -> machine K -> Prop) s L H l a c :
  minv s L H -> H !! p = Some (mk_held l a c) ->
  (forall s', minv s' L (<[p := mk_held l (a.1, x) c]> H) -> Q tt s') -> wlp (page_set p (set_virtual_offset x)) Q s.
Proof.
  intros Hs Hh HQ. eapply wlp_move; [done|by split|done|]. intros d s' E Hs'. apply HQ. simpl in *.
  by replace (a.1, x) with (loc (set_virtual_offset x d)) by (by rewrite <- E).
Qed.

Lemma wlp_set_side p b (Q : unit -> machine K -> Prop) s L H l a c :
  minv s L H -> H !! p = Some (mk_held l a c) ->
  (forall s', minv s' L (<[p := mk_held l (b, a.2) c]> H) -> Q tt s') -> wlp (page_set p (set_in_dram b)) Q s.
Proof.
  intros Hs Hh HQ. eapply wlp_move; [done|by split|done|]. intros d s' E Hs'. apply HQ. simpl in *.
  by replace (b, a.2) with (loc (set_in_dram b d)) by (by rewrite <- E).
Qed.

Lemma minv_exchange s L H p q hp hq :
  minv s L H -> H !! p = Some hp -> H !! q = Some hq -> p <> q ->
  minv s L (<[p := mk_held (h_list hp) (h_actual hp) (h_place hq)]>
           (<[q := mk_held (h_list hq) (h_actual hq) (h_place hp)]> H)).
Proof. intros (D & Q & Hr & Ha) Hp Hq Hne. exists D, Q. split; [done|]. by apply accounts_exchange. Qed.

Lemma wlp_dequeue l (Q : option ptr -> machine K -> Prop) s L H :
  l ∈ all_lists -> in_hand H -> minv s L H ->
  (forall s', minv s' L H -> Q None s') ->
  (forall p o s', H !! p = None -> minv s' L (<[p := hold (side l, o)]> H) -> Q (Some p) s') ->
  wlp (dequeue l) Q s.
Proof.
  intros Hl Hh (D & Q' & Hr & Ha) HN HS. destruct (ac_lists _ _ _ _ Ha l Hl) as [ids Hids].
  unfold dequeue, fifo. rewrite wlp_zoom. apply wp_wlp. eapply wp_mono; [by eapply dequeue_spec|].
  intros o x (-> & Hr' & He). destruct ids as [|p l1 _] using rev_ind.
  - specialize (He eq_refl). subst x. apply HN. exists D, Q'. by rewrite insert_id in Hr'.
  - rewrite last_snoc. rewrite length_app, Nat.add_1_r in Hr'; simpl in Hr'. rewrite take_app_length in Hr'.
    destruct (accounts_take D Q' L H p l l1 []) as (o & Hn & Ha'); [done|done|done| | | |].
    + eapply rep_member; [exact Hr|exact Hids|]. apply elem_of_app. right. by left.
    + intros l' ids Hl' Hin. eapply rep_disjoint; [exact Hr|exact Hl'|exact Hids|done|]. apply elem_of_app. right. by left.
    + rewrite app_nil_r. destruct (rep_dseg _ _ _ Hr _ _ Hids) as [_ Hnd]. apply NoDup_app in Hnd as (_ & Hnd & _).
      intros Hin. apply (Hnd p Hin). by left.
    + rewrite app_nil_r in Ha'. apply (HS p o); [done|]. by exists D, (<[l := l1]> Q').
Qed.

Lemma wlp_enqueue_loose l p a c (Q : unit -> machine K -> Prop) s L H :
  minv s L H -> l ∈ all_lists -> H !! p = Some (mk_held None a c) ->
  (forall s', minv s' L (<[p := mk_held (Some l) a c]> H) -> Q tt s') -> wlp (enqueue l p) Q s.
Proof.
  intros (D & Q' & Hr & Ha) Hl Hp HQ. destruct (ac_lists _ _ _ _ Ha l Hl) as [ids Hids].
  destruct (ac_held _ _ _ _ Ha _ _ Hp) as (d & Hd & _ & Hu).
  unfold enqueue, fifo. rewrite wlp_zoom. apply wp_wlp. eapply wp_mono; [by eapply enqueue_spec|].
  intros [] x Hr'. apply HQ. exists D, (<[l := p :: ids]> Q'). split; [done|]. by eapply accounts_put.
Qed.

(** A descriptor at its own place goes onto a list of its side. *)
Lemma minv_close s L H p l c :
  minv s L H -> H !! p = Some (mk_held (Some l) c c) -> c.1 = side l -> minv s L (delete p H).
Proof.
  intros (D & Q & Hr & Ha) Hp Hc. exists D, Q. split; [done|]. eapply accounts_close; [done|done|done|].
  destruct (ac_held _ _ _ _ Ha _ _ Hp) as (d & Hd & _ & ids & Hids & Hin). simpl in *.
  intros l' ids' Hl' Hin'. exact (rep_disjoint _ _ _ _ _ _ _ _ Hr Hl' Hids Hin' Hin).
Qed.

Lemma wlp_enqueue l p c (Q : unit -> machine K -> Prop) s L H :
  minv s L H -> l ∈ all_lists -> H !! p = Some (hold c) -> c.1 = side l ->
  (forall s', minv s' L (delete p H) -> Q tt s') -> wlp (enqueue l p) Q s.
Proof.
  intros Hs Hl Hp Hc HQ. eapply wlp_enqueue_loose; [done|done|exact Hp|]. intros s' Hs'. apply HQ.
  eapply minv_close in Hs'; [|by rewrite lookup_insert_eq|done]. by rewrite delete_insert_eq in Hs'.
Qed.

(** Removing a descriptor from the list it names. *)
Lemma wlp_tryremove l p pg (Q : Z -> machine K -> Prop) s L H :
  in_hand H -> minv s L H -> pages (m_fifo s) !! p = Some pg ->
  (forall r, r <> 0 -> Q r s) ->
  (forall l' s', l = Some l' -> in_list pg = Some l' -> H !! p = None -> loc pg = (side l', virtual_offset pg) ->
     minv s' L (<[p := hold (loc pg)]> H) -> Q 0 s') ->
  wlp (tryremove l p) Q s.
Proof.
  intros Hh (D & Q' & Hr & Ha) Hp HN HS. unfold tryremove, fifo. rewrite wlp_zoom. apply wp_wlp. simpl.
  destruct l as [l|]; [|unfold page_list_tryremove_page; wp_norm; rewrite set_fifo_same; by apply HN].
  destruct (decide (in_list pg = Some l)) as [Hil|Hno].
  - destruct (proj1 (rep_in_list _ _ _ _ _ l Hr Hp) Hil) as (ids & Hids & Hin). destruct (list_elem_of_split _ _ Hin) as (l1 & l2 & ->). eapply wp_mono; [by eapply tryremove_spec|].
    intros r x [-> Hr']. simpl. pose proof (rep_page_data _ _ _ _ _ Hr Hp) as Hd.
    destruct (accounts_take D Q' L H p l l1 l2) as (o & Hn & Ha'); [done|done|done|by rewrite Hd| | |].
    + intros l' ids Hl' Hin'. exact (rep_disjoint _ _ _ _ _ _ _ _ Hr Hl' Hids Hin' Hin).
    + destruct (rep_dseg _ _ _ Hr _ _ Hids) as [_ Hnd]. apply NoDup_app in Hnd as (_ & Hn1 & [Hn2 _]%NoDup_cons).
      rewrite elem_of_app. intros [Hi|Hi]; [|done]. apply (Hn1 _ Hi). by left.
    + destruct (ac_held _ _ _ _ Ha' p (hold (side l, o))) as (d & Hd' & E & _); [apply lookup_insert_eq|].
      simplify_eq. simpl in E. rewrite loc_erase in E.
      apply (HS l); [done|done|done|unfold loc in E |- *; congruence|rewrite E; by exists D, (<[l := l1 ++ l2]> Q')].
  - unfold wp. rewrite (tryremove_other _ D Q' l p pg Hr Hp); [|intros ids Hi Hin; apply Hno, (rep_in_list _ _ _ _ _ _ Hr Hp); eauto].
    rewrite set_fifo_same. by apply HN.
Qed.

Lemma wlp_detach l p (Q : unit -> machine K -> Prop) s L H :
  in_hand H -> minv s L H ->
  (forall pg s', pages (m_fifo s) !! p = Some pg -> H !! p = None -> loc pg = (side l, virtual_offset pg) ->
     minv s' L (<[p := hold (loc pg)]> H) -> Q tt s') ->
  wlp (detach_from l p) Q s.
Proof.
  intros Hh Hs HQ. unfold detach_from. rewrite wlp_bind. eapply wlp_get_held; [done|]. intros pg Hp _. wlp_norm. intros _.
  eapply wlp_tryremove; [done|done|done|intros r Hr; wlp_norm; lia|].
  intros l' s' [= <-] _ Hn Hl Hs'. wlp_norm. intros _. by apply (HQ pg).
Qed.
End rules.
