(* ===== verification/PolicySpec.v ===== *)
(** The LRU policy and the fault handlers keep the accounts: no operation
    loses a DRAM frame or a disk slot or hands one out twice. *)

From S2P Require Import Prelude UserPage AddressTranslation Fifo RdmaAlloc RdmaSim StorageRdma.
From S2P Require Import Machine PointerPrefetch PrefetchSpec Migrate DiskLinux Accounting.

Local Open Scope Z_scope.

(** ** Operations that leave descriptors and lists alone *)

Section quiet_ops.
Context {K : Type} {HK : Kernel K}.
Variable usleep : M rdma_sys unit.
Notation still f := (fun s : machine K => m_fifo s = f).

Lemma still_modify f g : (forall s : machine K, m_fifo (g s) = m_fifo s) -> keeps (still f) (modify g).
Proof. intros Hg. apply keeps_modify. intros s Hs. by rewrite Hg. Qed.

Lemma still_store f {A} (m : M storage_state A) : keeps (still f) (store m).
Proof. by apply keeps_zoom_frame. Qed.

Lemma still_kern f {A} (m : M (K * mem) A) : keeps (still f) (kern m).
Proof. by apply keeps_zoom_frame. Qed.

Lemma still_page_get f p : keeps (still f) (page_get p).
Proof.
  apply (keeps_zoom _ fifo_lens (fun x => x = f)); [|done|done].
  intros x ->. unfold page_at. by wlp_norm.
Qed.

Lemma still_list_at f l : keeps (still f) (fifo (list_at l)).
Proof.
  apply (keeps_zoom _ fifo_lens (fun x => x = f)); [|done|done].
  intros x ->. unfold list_at. by wlp_norm.
Qed.

Lemma still_set_var f x z : keeps (still f) (set_var x z).
Proof. by apply still_modify. Qed.
Lemma still_add_var f x z : keeps (still f) (add_var x z).
Proof. by apply still_modify. Qed.
Lemma still_set_flag f x b : keeps (still f) (set_flag x b).
Proof. by apply still_modify. Qed.
Lemma still_get_var f x : keeps (still f) (get_var x).
Proof. apply keeps_gets. Qed.
Lemma still_get_flag f x : keeps (still f) (get_flag x).
Proof. apply keeps_gets. Qed.
End quiet_ops.

#[export] Hint Resolve still_store still_kern still_page_get still_list_at still_set_var still_add_var still_set_flag
  still_get_var still_get_flag : keeps.

Section quiet_calls.
Context {K : Type} {HK : Kernel K}.
Variable usleep : M rdma_sys unit.
Notation still f := (fun s : machine K => m_fifo s = f).

Lemma still_pagesize_of f pg : keeps (still f) (pagesize_of pg).
Proof. unfold pagesize_of. keeps_tac. Qed.
Lemma still_ensure_buffer f : keeps (still f) ensure_buffer.
Proof. unfold ensure_buffer, map_private. keeps_tac. Qed.
Lemma still_copy_in f d s n : keeps (still f) (copy_in d s n).
Proof. unfold copy_in. keeps_tac. Qed.
Lemma still_disk_write f fd s d n : keeps (still f) (extmem_disk_write usleep fd s d n).
Proof. unfold extmem_disk_write. keeps_tac. Qed.
Lemma still_disk_read f fd s d n : keeps (still f) (extmem_disk_read usleep fd s d n).
Proof. unfold extmem_disk_read. keeps_tac. Qed.
Lemma still_wp_page f p b : keeps (still f) (extmem_wp_page p b).
Proof. unfold extmem_wp_page, pagesize_of. keeps_tac. Qed.
Lemma still_pt_get_bits f p : keeps (still f) (pt_get_bits p).
Proof. unfold pt_get_bits. keeps_tac. Qed.
Lemma still_pt_clear_accessed f p : keeps (still f) (pt_clear_accessed_flag p).
Proof. unfold pt_clear_accessed_flag, pt_clear. keeps_tac. Qed.
Lemma still_entries f l : keeps (still f) (entries l).
Proof. unfold entries. keeps_tac. Qed.
Lemma still_above_high f : keeps (still f) above_high_water.
Proof. unfold above_high_water, entries. keeps_tac. Qed.
Lemma still_signal f : keeps (still f) signal_kswapd.
Proof. unfold signal_kswapd. keeps_tac. Qed.
End quiet_calls.

#[export] Hint Resolve still_pagesize_of still_ensure_buffer still_copy_in still_disk_write still_disk_read still_wp_page
  still_pt_get_bits still_pt_clear_accessed still_entries still_above_high still_signal : keeps.

(** Run an operation under the accounts: quiet calls, field reads and
    assignments that do not name a place. *)
Ltac quiet_step := eapply wlp_quiet; [solve [intros ?; keeps_tac] | eassumption | intros ? ? ?];
  repeat match goal with u : unit |- _ => destruct u end.
Ltac acc_step :=
  match goal with
  | |- wlp (_ ≫= _) _ _ => rewrite wlp_bind
  | |- wlp (mret _) _ _ => rewrite wlp_ret
  | |- wlp (fail _) _ _ => rewrite wlp_fail; exact I
  | |- wlp get _ _ => rewrite wlp_get_held
  | |- wlp (gets _) _ _ => rewrite wlp_gets
  | |- wlp (c_assert _) _ _ => rewrite wlp_assert; intros ?
  | |- wlp (page_get _) _ _ => eapply wlp_get_held; [eassumption | intros ? ? ?]
  | |- wlp (page_set _ _) _ _ =>
      eapply wlp_touch; [split; [by intros|by intros []] | by intros [] | eassumption | intros ? ?]
  | |- wlp (let _ := _ in _) _ _ => cbv zeta
  | |- _ => quiet_step
  end; cbv beta.
Ltac acc_run := repeat acc_step.

(** Equal lists of held descriptors. *)
Ltac held_eq :=
  apply map_eq; intros ?; repeat first [rewrite lookup_insert | rewrite lookup_delete];
  repeat case_decide; subst; first [done | congruence].

(** A lookup in the list of held descriptors. *)
Ltac look :=
  repeat first [rewrite lookup_insert | rewrite lookup_delete]; repeat case_decide; subst;
  first [exfalso; congruence | done | congruence].

(** What the hand says of the fields of [p] that were read. *)
Ltac know p :=
  repeat match goal with
  | Hk : forall h, ?X !! p = Some h -> loc ?pg = h_actual h |- _ =>
      let E := fresh "E" in
      epose proof (Hk _ ltac:(look)) as E; clear Hk; unfold loc in E; simpl in E; injection E as ?Hside ?Hoff
  end.

(** ** Moving pages *)

Section policy_spec.
Context {K : Type} {HK : Kernel K}.
Variable usleep : M rdma_sys unit.
Implicit Types s : machine K.
Implicit Types H : gmap ptr held.

Lemma minv_eq s L H H' : minv s L H -> H = H' -> minv s L H'.
Proof. by intros ? <-. Qed.

Lemma wlp_migrate_down p o b w (Q : unit -> machine K -> Prop) s L H l a c :
  minv s L H -> H !! p = Some (mk_held l a c) ->
  (forall s', minv s' L (<[p := mk_held l (false, o) c]> H) -> Q tt s') ->
  wlp (lrudisk_migrate_down usleep p o b w) Q s.
Proof.
  intros Hs Hp HQ. unfold lrudisk_migrate_down, extmem_migrate_downdisk. acc_run.
  eapply wlp_set_offset; [eassumption|exact Hp|]. intros s1 Hs1. acc_step.
  eapply wlp_set_side; [eassumption|apply lookup_insert_eq|]. intros s2 Hs2. rewrite insert_insert_eq in Hs2.
  acc_run. by apply HQ.
Qed.

(** The frame of [v] and the slot of [d] change hands. *)
Lemma wlp_evict v d o1 o2 w b (Q : unit -> machine K -> Prop) s L H :
  minv s L H -> H !! v = Some (hold (true, o1)) -> H !! d = Some (hold (false, o2)) ->
  (forall s', minv s' L (<[v := hold (false, o2)]> (<[d := mk_held None (false, o2) (true, o1)]> H)) -> Q tt s') ->
  wlp (lrudisk_migrate_down usleep v o2 b w) Q s.
Proof.
  intros Hs Hv Hd HQ. assert (v <> d) by (intros ->; by rewrite Hd in Hv). eapply wlp_migrate_down; [done|exact Hv|]. intros s' Hs'. apply HQ.
  eapply (minv_exchange _ _ _ v d) in Hs'; [|by rewrite lookup_insert_eq|by rewrite lookup_insert_ne|done].
  eapply minv_eq; [exact Hs'|]. simpl. held_eq.
Qed.

Lemma wlp_become_frame d x (Q : unit -> machine K -> Prop) s L H l a c :
  minv s L H -> H !! d = Some (mk_held l a c) ->
  (forall s', minv s' L (<[d := mk_held l (true, x) c]> H) -> Q tt s') -> wlp (become_frame d x) Q s.
Proof.
  intros Hs Hd HQ. unfold become_frame. acc_step. eapply wlp_set_offset; [done|exact Hd|]. intros s1 Hs1. acc_step.
  eapply wlp_set_side; [eassumption|apply lookup_insert_eq|]. intros s2 Hs2. rewrite insert_insert_eq in Hs2. acc_run.
  by apply HQ.
Qed.

Lemma wlp_become_disk d x (Q : unit -> machine K -> Prop) s L H l a c :
  minv s L H -> H !! d = Some (mk_held l a c) ->
  (forall s', minv s' L (<[d := mk_held l (false, x) c]> H) -> Q tt s') -> wlp (become_disk d x) Q s.
Proof.
  intros Hs Hd HQ. unfold become_disk. acc_step. eapply wlp_set_offset; [done|exact Hd|]. intros s1 Hs1. acc_step.
  eapply wlp_set_side; [eassumption|apply lookup_insert_eq|]. intros s2 Hs2. rewrite insert_insert_eq in Hs2. acc_run.
  by apply HQ.
Qed.

Lemma wlp_take_reserve v (Q : ptr -> machine K -> Prop) s L H :
  in_hand H -> minv s L H ->
  (forall d o s', H !! d = None -> minv s' L (<[d := hold (false, o)]> H) -> Q d s') ->
  wlp (take_reserve v) Q s.
Proof.
  intros Hh Hs HQ. unfold take_reserve. acc_run. destruct (reserve pg) as [d|]; [|acc_run]. acc_run.
  eapply wlp_detach; [done|eassumption|]. intros dg s' _ Hn E Hs'. acc_run. rewrite E in Hs'. by eapply HQ.
Qed.

Lemma wlp_take_disk_page (Q : ptr -> machine K -> Prop) s L H :
  in_hand H -> minv s L H ->
  (forall d o s', H !! d = None -> minv s' L (<[d := hold (false, o)]> H) -> Q d s') ->
  wlp take_disk_page Q s.
Proof.
  intros Hh Hs HQ. unfold take_disk_page. acc_step. eapply wlp_dequeue; [|done|done|intros s'|intros d o s' Hn]; [|intros Hs'..].
  - by apply (bool_decide_unpack (disk_free_list ∈ all_lists)).
  - acc_run.
  - acc_run. by eapply HQ.
Qed.

(** An operation that ends with the descriptors it started with. *)
Definition steady {A} (m : M (machine K) A) : Prop :=
  forall L H, in_hand H -> keeps (fun s => minv s L H) m.

Lemma wlp_steady {A} (m : M (machine K) A) (Q : A -> machine K -> Prop) s L H :
  steady m -> in_hand H -> minv s L H -> (forall a s', minv s' L H -> Q a s') -> wlp m Q s.
Proof. intros Hm Hh Hs HQ. by eapply (keeps_wlp _ _ _ _ (Hm L H Hh) Hs). Qed.

Lemma wlp_dequeue_from l (Q : option ptr -> machine K -> Prop) s L H :
  bool_decide (l ∈ all_lists) = true -> in_hand H -> minv s L H ->
  (forall s', minv s' L H -> Q None s') ->
  (forall p o s', H !! p = None -> minv s' L (<[p := hold (side l, o)]> H) -> Q (Some p) s') ->
  wlp (dequeue l) Q s.
Proof. intros Hl. apply wlp_dequeue. by apply bool_decide_eq_true in Hl. Qed.

Lemma wlp_enqueue_to l p c (Q : unit -> machine K -> Prop) s L H :
  minv s L H -> bool_decide (l ∈ all_lists) = true -> H !! p = Some (hold c) -> c.1 = side l ->
  (forall s', minv s' L (delete p H) -> Q tt s') -> wlp (enqueue l p) Q s.
Proof. intros Hs Hl%bool_decide_eq_true. by apply wlp_enqueue. Qed.

(** Back onto a list: the hand is as before. *)
Lemma wlp_put_back l p o (Q : unit -> machine K -> Prop) s L H :
  bool_decide (l ∈ all_lists) = true -> H !! p = None -> minv s L (<[p := hold (side l, o)]> H) ->
  (forall s', minv s' L H -> Q tt s') -> wlp (enqueue l p) Q s.
Proof.
  intros Hl Hn Hs HQ. eapply (wlp_enqueue_to l p (side l, o)); [exact Hs|done|apply lookup_insert_eq|done|]. intros s' Hs'. apply HQ.
  eapply minv_eq; [exact Hs'|held_eq].
Qed.

(** *** Shrinking the lists *)

Lemma steady_shrink_active n : steady (shrink_active_loop n).
Proof.
  intros L H Hh. induction n as [|n IH]; intros s Hs; simpl; [by acc_run|]. acc_run. destruct (0 <? a); [|by acc_run].
  acc_step. eapply wlp_dequeue_from; [done..|intros s1 Hs1; acc_run|]. intros p o s1 Hn Hs1. do 2 acc_step.
  acc_step. eapply (wlp_put_back inactive_list); [done|done|eassumption|]. intros s3 Hs3. acc_step.
  eapply wlp_mono; [by apply IH|]. intros r s4 Hs4. by acc_run.
Qed.

Lemma steady_shrink_active_list n : steady (shrink_active_list n).
Proof.
  intros L H Hh s Hs. unfold shrink_active_list. destruct (n =? 0); [by acc_run|]. do 4 acc_step. acc_step.
  eapply wlp_steady; [apply steady_shrink_active|done|eassumption|]. intros r s1 Hs1. by acc_run.
Qed.

Lemma steady_shrink_inactive n r t : steady (shrink_inactive_loop n r t).
Proof.
  intros L H Hh. revert r. induction t as [|t IH]; intros r s Hs; simpl; [by acc_run|]. acc_run.
  destruct (_ && _); [|by acc_run]. acc_step. eapply wlp_dequeue_from; [done..|intros s1 Hs1; acc_run|].
  intros p o s1 Hn Hs1. do 2 acc_step. destruct (_ =? PT_ACCESSED_FLAG).
  - do 6 acc_step. acc_step. destruct (1 <? _).
    + do 2 acc_step. eapply (wlp_put_back active_list); [done|done|eassumption|]. intros s3 Hs3. by apply IH.
    + eapply (wlp_put_back inactive_list); [done|done|eassumption|]. intros s3 Hs3. by apply IH.
  - do 3 acc_step. eapply (wlp_put_back eviction_list); [done|done|eassumption|]. intros s3 Hs3. by apply IH.
Qed.

Lemma steady_shrink_inactive_list n : steady (shrink_inactive_list n).
Proof.
  intros L H Hh s Hs. unfold shrink_inactive_list. acc_run.
  eapply wlp_steady; [apply steady_shrink_inactive|done|eassumption|]. intros r s1 Hs1. by acc_run.
Qed.

Lemma steady_reclaim np ta na r n : steady (reclaim_loop np ta na r n).
Proof.
  intros L H Hh. revert na r. induction n as [|n IH]; intros na r s Hs; simpl; [by acc_run|].
  destruct (r <? np); [|by acc_run]. acc_step.
  eapply wlp_steady; [apply steady_shrink_inactive_list|done|eassumption|]. intros x s1 Hs1. acc_step.
  destruct (na <? ta); [|acc_step; by apply IH]. acc_step.
  eapply wlp_steady; [apply steady_shrink_active_list|done|eassumption|]. intros y s2 Hs2. acc_step. by apply IH.
Qed.

Lemma steady_direct_asynch n p : steady (direct_allocate_page_asynch n p).
Proof.
  intros L H Hh s Hs. unfold direct_allocate_page_asynch. acc_run. by apply steady_reclaim.
Qed.

(** A reclaim function for kswapd and for the search of a free frame. *)
Definition steady_direct (direct : Z -> Z -> M (machine K) Z) : Prop := forall n p, steady (direct n p).

Lemma steady_kswapd_round rate direct : steady_direct direct -> steady (kswapd_round rate direct).
Proof.
  intros Hd L H Hh s Hs. unfold kswapd_round. acc_run.
  match goal with |- wlp (when ?b _) _ _ => destruct b end; unfold when; [|by acc_run]. acc_run.
  eapply wlp_steady; [apply Hd|done|eassumption|]. intros x s5 Hs5. by acc_run.
Qed.

Lemma steady_kswapd : steady lrudisk_synchkswapd_round.
Proof. apply steady_kswapd_round. intros n p. apply steady_direct_asynch. Qed.

(** *** Eviction *)

(** A second descriptor in the hand differs from the first. *)
Lemma fresh_hand H v h d : <[v := h]> H !! d = None -> d <> v /\ H !! d = None.
Proof. rewrite lookup_insert_None. naive_solver. Qed.

Lemma evict_victim_spec v o1 L H s (Q : unit -> machine K -> Prop) :
  in_hand H -> H !! v = None -> minv s L (<[v := hold (true, o1)]> H) ->
  (forall s', minv s' L H -> Q tt s') -> wlp (evict_victim usleep v) Q s.
Proof.
  intros Hh Hv Hs HQ. unfold evict_victim, begin_eviction, finish_eviction, drop_reserve. acc_run. destruct (has_reserve _); acc_run;
    [eapply wlp_take_reserve|eapply wlp_take_disk_page]; [by apply in_hand_hold|eassumption| |by apply in_hand_hold|eassumption|];
    intros d o2 s2 [Hne Hd]%fresh_hand Hs2; acc_run; know v; know d; subst;
    (eapply (wlp_evict v d); [eassumption|look|look|]; intros s3 Hs3; acc_run).
  - eapply (wlp_become_frame d); [eassumption|look|]. intros s4 Hs4. acc_run.
    eapply (wlp_enqueue_to dram_free_list d); [eassumption|done|look|done|]. intros s5 Hs5. acc_run.
    eapply (wlp_enqueue_to disk_active_list v); [eassumption|done|look|done|]. intros s6 Hs6. acc_run.
    apply HQ. eapply minv_eq; [eassumption|]. held_eq.
  - eapply (wlp_enqueue_to disk_active_list v); [eassumption|done|look|done|]. intros s4 Hs4. acc_run.
    eapply (wlp_become_frame d); [eassumption|look|]. intros s5 Hs5. acc_run.
    eapply (wlp_enqueue_to dram_free_list d); [eassumption|done|look|done|]. intros s6 Hs6. acc_run.
    apply HQ. eapply minv_eq; [eassumption|]. held_eq.
Qed.

Lemma steady_eviction : steady (lrudisk_evictionworker_round usleep).
Proof.
  intros L H Hh s Hs. unfold lrudisk_evictionworker_round. acc_step.
  eapply wlp_dequeue_from; [done..|intros s1 Hs1; by acc_run|]. intros v o1 s1 Hv Hs1. acc_step.
  eapply evict_victim_spec; [done|done|eassumption|]. intros s2 Hs2. by acc_run.
Qed.

(** A frame in the hand, besides what was there. *)
Definition takes_frame (m : M (machine K) ptr) : Prop :=
  forall L H s, in_hand H -> minv s L H ->
    wlp m (fun p s' => H !! p = None /\ exists o, minv s' L (<[p := hold (true, o)]> H)) s.

Lemma wlp_take_frame m (Q : ptr -> machine K -> Prop) s L H :
  takes_frame m -> in_hand H -> minv s L H ->
  (forall p o s', H !! p = None -> minv s' L (<[p := hold (true, o)]> H) -> Q p s') -> wlp m Q s.
Proof.
  intros Hm Hh Hs HQ. eapply wlp_mono; [by apply (Hm L H)|]. intros p s' (Hn & o & Hs'). by apply (HQ p o).
Qed.

Lemma evict_for_frame_spec v o1 L H s (Q : ptr -> machine K -> Prop) :
  in_hand H -> H !! v = None -> minv s L (<[v := hold (true, o1)]> H) ->
  (forall p o s', H !! p = None -> minv s' L (<[p := hold (true, o)]> H) -> Q p s') ->
  wlp (evict_for_frame usleep v) Q s.
Proof.
  intros Hh Hv Hs HQ. unfold evict_for_frame, begin_eviction, finish_eviction, drop_reserve. acc_run.
  destruct (has_reserve _); acc_run;
    [eapply wlp_take_reserve|eapply wlp_take_disk_page]; [by apply in_hand_hold|eassumption| |by apply in_hand_hold|eassumption|];
    intros d o2 s2 [Hne Hd]%fresh_hand Hs2; acc_run; know v; know d; subst;
    (eapply (wlp_evict v d); [eassumption|look|look|]; intros s3 Hs3; acc_run).
  - eapply (wlp_become_frame d); [eassumption|look|]. intros s4 Hs4. acc_run.
    eapply (wlp_enqueue_to disk_active_list v); [eassumption|done|look|done|]. intros s5 Hs5. acc_run.
    eapply HQ; [done|]. eapply minv_eq; [eassumption|]. held_eq.
  - eapply (wlp_enqueue_to disk_active_list v); [eassumption|done|look|done|]. intros s4 Hs4. acc_run.
    eapply (wlp_become_frame d); [eassumption|look|]. intros s5 Hs5. acc_run.
    eapply HQ; [done|]. eapply minv_eq; [eassumption|]. held_eq.
Qed.

Lemma takes_fetch_loop direct n : steady_direct direct -> takes_frame (fetch_loop usleep direct n).
Proof.
  intros Hdirect. induction n as [|n IH]; intros L H s Hh Hs; simpl; [by acc_run|]. acc_step.
  eapply wlp_dequeue_from; [done..|intros s1 Hs1|intros p o s1 Hn Hs1; acc_run; by eauto]. acc_run.
  match goal with |- wlp (when ?b _) _ _ => set (reclaim := b) end.
  apply (wlp_mono _ (fun _ s' => minv s' L H)).
  { destruct reclaim; unfold when; [|by acc_run]. acc_step.
    eapply wlp_steady; [apply Hdirect|done|eassumption|]. intros x s2 Hs2. by acc_run. }
  intros [] s2 Hs2. acc_step. eapply wlp_dequeue_from; [done..|intros s3 Hs3|intros p o s3 Hn Hs3].
  - destruct reclaim; [by apply IH|by acc_run].
  - eapply (evict_for_frame_spec p); [done|done|eassumption|]. intros q o' s4 Hq Hs4. eauto.
Qed.

Lemma takes_fetch_free direct : steady_direct direct -> takes_frame (fetch_free usleep direct).
Proof. intros Hd L H s Hh Hs. unfold fetch_free. acc_run. by apply takes_fetch_loop. Qed.

Lemma takes_fetch_asynch : takes_frame (fetch_free_asynch usleep).
Proof. apply takes_fetch_free. intros n p. apply steady_direct_asynch. Qed.

Lemma takes_pagefault : takes_frame (lrudisk_pagefault usleep).
Proof.
  intros L H s Hh Hs. unfold lrudisk_pagefault. acc_step.
  eapply wlp_take_frame; [apply takes_fetch_asynch|done|done|]. intros p o s1 Hn Hs1. acc_run. eauto.
Qed.

(** *** The interface to the core *)

Lemma wlp_track_page p o (Q : unit -> machine K -> Prop) s L H :
  H !! p = None -> minv s L (<[p := hold (true, o)]> H) ->
  (forall s', minv s' L H -> Q tt s') -> wlp (lrudisk_track_page p) Q s.
Proof. intros Hn Hs HQ. unfold lrudisk_track_page. acc_run. by eapply (wlp_put_back inactive_list). Qed.

Lemma wlp_put_page_free p o (Q : unit -> machine K -> Prop) s L H :
  H !! p = None -> minv s L (<[p := hold (true, o)]> H) ->
  (forall s', minv s' L H -> Q tt s') -> wlp (lrudisk_put_page_free p) Q s.
Proof. intros Hn Hs HQ. unfold lrudisk_put_page_free. acc_run. by eapply (wlp_put_back dram_free_list). Qed.

Lemma still_async_start f p : keeps (fun s : machine K => m_fifo s = f) (core_migrate_up_async_start p).
Proof. unfold core_migrate_up_async_start. keeps_tac. Qed.
Hint Resolve still_async_start : keeps.

(** A swap-in gives the page the frame of the free descriptor [d], which
    becomes the spare descriptor of the page's slot. *)
Lemma swap_places s L H v d o1 o2 :
  minv s L (<[v := mk_held None (true, o2) (false, o1)]> (<[d := hold (true, o2)]> H)) -> v <> d ->
  minv s L (<[v := hold (true, o2)]> (<[d := mk_held None (true, o2) (false, o1)]> H)).
Proof.
  intros Hs Hne. eapply (minv_exchange _ _ _ v d) in Hs; [|look|look|done]. eapply minv_eq; [exact Hs|]. simpl. held_eq.
Qed.

Lemma keep_reserve_spec v d o1 o2 (Q : unit -> machine K -> Prop) s L H :
  H !! v = None -> H !! d = None -> v <> d ->
  minv s L (<[v := hold (true, o2)]> (<[d := mk_held None (true, o2) (false, o1)]> H)) ->
  (forall s', minv s' L H -> Q tt s') ->
  wlp (become_disk d o1) (fun _ s' => wlp (keep_reserve v d) Q s') s.
Proof.
  intros Hv Hd Hne Hs HQ. eapply (wlp_become_disk d); [eassumption|look|]. intros s1 Hs1.
  unfold keep_reserve. acc_run. eapply (wlp_enqueue_to disk_reserve_list d); [eassumption|done|look|done|]. intros s2 Hs2.
  acc_run. eapply (wlp_enqueue_to inactive_list v); [eassumption|done|look|done|]. intros s3 Hs3.
  apply HQ. eapply minv_eq; [eassumption|]. held_eq.
Qed.

Lemma wlp_migrate_up p o (Q : unit -> machine K -> Prop) s L H l a c :
  minv s L H -> H !! p = Some (mk_held l a c) ->
  (forall s', minv s' L (<[p := mk_held l (true, o) c]> H) -> Q tt s') ->
  wlp (lrudisk_migrate_up usleep p o) Q s.
Proof.
  intros Hs Hp HQ. unfold lrudisk_migrate_up, extmem_migrate_updisk. acc_run.
  eapply wlp_set_offset; [eassumption|exact Hp|]. intros s1 Hs1. acc_step.
  eapply wlp_set_side; [eassumption|apply lookup_insert_eq|]. intros s2 Hs2. rewrite insert_insert_eq in Hs2.
  acc_run. by apply HQ.
Qed.

Lemma wlp_async_finish p o (Q : unit -> machine K -> Prop) s L H l a c :
  minv s L H -> H !! p = Some (mk_held l a c) ->
  (forall s', minv s' L (<[p := mk_held l (true, o) c]> H) -> Q tt s') ->
  wlp (core_migrate_up_async_finish p o) Q s.
Proof.
  intros Hs Hp HQ. unfold core_migrate_up_async_finish. acc_run.
  eapply wlp_set_offset; [eassumption|exact Hp|]. intros s1 Hs1. acc_step.
  eapply wlp_set_side; [eassumption|apply lookup_insert_eq|]. intros s2 Hs2. rewrite insert_insert_eq in Hs2.
  acc_run. by apply HQ.
Qed.

(** The page and the free frame in the hand, the page's slot at [o1]. *)
Lemma swapin_async_into_spec p d o1 o2 (Q : unit -> machine K -> Prop) s L H :
  H !! p = None -> H !! d = None -> p <> d ->
  minv s L (<[d := hold (true, o2)]> (<[p := hold (false, o1)]> H)) ->
  (forall s', minv s' L H -> Q tt s') -> wlp (swapin_async_into p d o1) Q s.
Proof.
  intros Hp Hd Hne Hs HQ. unfold swapin_async_into. acc_run. know d. subst.
  eapply (wlp_async_finish p); [eassumption|look|]. intros s1 Hs1. acc_step.
  eapply (keep_reserve_spec p d); [done|done|done| |exact HQ].
  apply swap_places; [|done]. eapply minv_eq; [eassumption|held_eq].
Qed.

Lemma steady_swapin_async p : steady (lrudisk_swapin_external_async usleep p).
Proof.
  intros L H Hh s Hs. unfold lrudisk_swapin_external_async. acc_run.
  eapply (wlp_detach disk_active_list); [done|eassumption|]. intros pg' s1 Hpg' Hn E Hs1. cbv beta.
  assert (pg' = pg) as -> by congruence. rewrite E in Hs1. acc_run. know p.
  rewrite Hside. change (side disk_active_list) with false in *. unfold when. acc_run.
  eapply wlp_take_frame; [apply takes_fetch_asynch|by apply in_hand_hold|eassumption|]. intros d o2 s2 [Hne Hd]%fresh_hand Hs2.
  by eapply swapin_async_into_spec.
Qed.

(** The mark that follows [lrudisk_ack_swapin] in the core completes the
    exchange: until then the page is listed as resident while its descriptor
    says it is on disk. *)
Lemma ack_swapin_spec v d o1 o2 (Q : unit -> machine K -> Prop) s L H :
  H !! v = None -> H !! d = None -> v <> d ->
  minv s L (<[v := hold (false, o1)]> (<[d := hold (true, o2)]> H)) ->
  (forall s', minv s' L H -> Q tt s') ->
  wlp (lrudisk_ack_swapin v d) (fun _ s' => wlp (page_set v (set_in_dram true)) Q s') s.
Proof.
  intros Hv Hd Hne Hs HQ. unfold lrudisk_ack_swapin. acc_run. know v. know d. subst.
  eapply (wlp_become_disk d); [eassumption|look|]. intros s1 Hs1. acc_step.
  eapply (wlp_set_offset v); [eassumption|look|]. intros s2 Hs2. simpl in Hs2.
  eapply (minv_exchange _ _ _ v d) in Hs2; [|look|look|done].
  unfold keep_reserve. acc_run. eapply (wlp_enqueue_to disk_reserve_list d); [eassumption|done|look|done|]. intros s3 Hs3.
  acc_run. eapply (wlp_enqueue_loose inactive_list v); [eassumption| |look|].
  { by apply (bool_decide_unpack (inactive_list ∈ all_lists)). }
  intros s4 Hs4. eapply (wlp_set_side v); [eassumption|apply lookup_insert_eq|]. intros s5 Hs5. simpl in Hs5.
  eapply (minv_close _ _ _ v) in Hs5; [|apply lookup_insert_eq|done]. apply HQ. eapply minv_eq; [exact Hs5|]. held_eq.
Qed.

(** A page in the hand goes back to the spare descriptors of its side. *)
Lemma release_removed_spec p b o (Q : unit -> machine K -> Prop) s L H :
  in_hand H -> H !! p = None -> minv s L (<[p := hold (b, o)]> H) ->
  (forall s', minv s' L H -> Q tt s') -> wlp (release_removed p) Q s.
Proof.
  intros Hh Hn Hs HQ. unfold release_removed. acc_run. know p.
  destruct (in_dram pg).
  - acc_step. apply (wlp_mono _ (fun _ s' => minv s' L (<[p := hold (b, o)]> H))).
    + destruct (has_reserve pg); [|by acc_run]. destruct (reserve pg) as [r|]; [|by acc_run]. acc_run.
      eapply wlp_tryremove; [by apply in_hand_hold|eassumption|eassumption|intros x Hx|].
      { acc_step. replace (negb (x =? 0)) with true by lia. exact I. }
      intros lr s2 Elr Elr' [Hne Hr]%fresh_hand Er Hs2. change (negb (0 =? 0)) with false. unfold busy_wait.
      rewrite Er in Hs2. assert (lr = disk_reserve_list) as ->.
      { match goal with Hb : bool_decide (in_list _ = Some disk_reserve_list) = true |- _ => apply bool_decide_eq_true in Hb end.
        congruence. }
      acc_run.
      eapply (wlp_enqueue_to disk_free_list r); [eassumption|done|look|done|]. intros s3 Hs3. acc_run.
      eapply minv_eq; [eassumption|held_eq].
    + intros [] s2 Hs2. cbv beta. eapply (wlp_put_back dram_free_list p); [done|done|by subst b|exact HQ].
  - destruct (swapped_out pg); [|by acc_run]. acc_run.
    eapply (wlp_put_back disk_free_list p); [done|done|subst b; eassumption|exact HQ].
Qed.

Lemma steady_remove p : steady (lrudisk_remove_page p).
Proof.
  intros L H Hh s Hs. unfold lrudisk_remove_page. acc_run.
  eapply wlp_tryremove; [done|eassumption|eassumption|intros r Hr|].
  { acc_step. replace (negb (r =? 0)) with true by lia. exact I. }
  intros l s1 El _ Hn E Hs1. change (negb (0 =? 0)) with false. unfold busy_wait. rewrite E in Hs1. acc_run.
  eapply release_removed_spec; [done|done|eassumption|]. intros s2 Hs2. by acc_run.
Qed.

(** *** The vector eviction *)

Lemma wlp_get_data p (Q : user_page -> machine K -> Prop) s D Q' :
  rep (m_fifo s) D Q' -> (forall pg, D !! p = Some (erase pg) -> Q pg s) -> wlp (page_get p) Q s.
Proof.
  intros Hr HQ. unfold page_get, fifo, page_at. rewrite wlp_zoom. wlp_norm. intros pg Hp.
  simpl. rewrite set_fifo_same. apply HQ. by eapply rep_page_data.
Qed.

Lemma wlp_quiet_rep {A} (m : M (machine K) A) (Q : A -> machine K -> Prop) s D Q' :
  quiet m -> rep (m_fifo s) D Q' -> (forall a s', rep (m_fifo s') D Q' -> Q a s') -> wlp m Q s.
Proof. intros Hm Hr HQ. eapply (keeps_wlp _ _ _ _ (Hm _) eq_refl). intros a s' E. apply HQ. by rewrite E. Qed.

Lemma wlp_fifo {A} (m : M fifo_state A) (Q : A -> machine K -> Prop) s P :
  wp m P (m_fifo s) -> (forall a x, P a x -> Q a (set_fifo x s)) -> wlp (fifo m) Q s.
Proof. intros Hm HQ. unfold fifo. rewrite wlp_zoom. apply wp_wlp. eapply wp_mono; [exact Hm|]. intros a x. apply HQ. Qed.

Lemma wlp_enqueue_data l ids p d (Q : unit -> machine K -> Prop) s D Q' :
  rep (m_fifo s) D Q' -> Q' !! l = Some ids -> D !! p = Some d -> unlisted Q' p ->
  (forall x, rep x D (<[l := p :: ids]> Q') -> Q tt (set_fifo x s)) -> wlp (enqueue l p) Q s.
Proof.
  intros Hr Hl Hd Hu HQ. eapply wlp_fifo; [by eapply enqueue_spec|]. intros [] x Hx. by apply HQ.
Qed.

(** A descriptor of one list is in no other. *)
Lemma unlisted_once (s : fifo_state) D Q l l1 l2 p :
  rep s D Q -> Q !! l = Some (l1 ++ p :: l2) -> unlisted (<[l := l1 ++ l2]> Q) p.
Proof.
  intros Hr Hl. destruct (rep_dseg _ _ _ Hr _ _ Hl) as [_ Hnd].
  apply NoDup_app in Hnd as (_ & Hn1 & [Hn2 _]%NoDup_cons). intros l' ids [[<- <-]|[Hne Hl']]%lookup_insert_Some Hin.
  - apply elem_of_app in Hin as [Hi|Hi]; [|done]. apply (Hn1 _ Hi). by left.
  - apply Hne. eapply rep_disjoint; [exact Hr|exact Hl|exact Hl'| |done]. apply elem_of_app. right. by left.
Qed.

Lemma unlisted_less Q l ids ids' p :
  Q !! l = Some ids -> (forall x, x ∈ ids' -> x ∈ ids) -> unlisted Q p -> unlisted (<[l := ids']> Q) p.
Proof.
  intros Hl Hsub Hu l' k [[<- <-]|[_ Hl']]%lookup_insert_Some Hin; [|exact (Hu _ _ Hl' Hin)].
  exact (Hu _ _ Hl (Hsub _ Hin)).
Qed.

Lemma unlisted_other Q l ids p q : Q !! l = Some ids -> p <> q -> unlisted Q p -> unlisted (<[l := q :: ids]> Q) p.
Proof.
  intros Hl Hne Hu l' k [[<- <-]|[_ Hl']]%lookup_insert_Some; [|exact (Hu _ _ Hl')].
  apply not_elem_of_cons. split; [done|exact (Hu _ _ Hl)].
Qed.

(** Run an operation on the descriptors' data and the lists. *)
Ltac data_step :=
  match goal with
  | |- wlp (_ ≫= _) _ _ => rewrite wlp_bind
  | |- wlp (mret _) _ _ => rewrite wlp_ret
  | |- wlp (fail _) _ _ => rewrite wlp_fail; exact I
  | |- wlp (c_assert _) _ _ => rewrite wlp_assert; intros ?
  | |- wlp (page_get _) _ _ => eapply wlp_get_data; [eassumption | intros ? ?]
  | |- wlp (page_set _ _) _ _ =>
      eapply wlp_page_set; [split; [by intros|by intros []] | eassumption | intros ? ? ? ?]
  | |- _ => eapply wlp_quiet_rep; [solve [intros ?; keeps_tac] | eassumption | intros ? ? ?]
  end; cbv beta.
Ltac data_run := repeat data_step.

(** A field of a descriptor that was read. *)
Ltac field f pg :=
  match goal with E : _ = erase pg |- _ => let F := fresh "F" in pose proof (f_equal f E) as F; simpl in F end.

(** C40: a round of [lrudisk_evictionworker_vector] with one victim [v] and
    no reserve ends with [v] on [disk_active_list] still naming its DRAM
    frame, and the spare descriptor [d], on [dram_free_list], naming the
    same frame; the slot the page was written to is named by neither. *)
Theorem vector_eviction_aliases v d dv dd rest da df s D Q :
  rep (m_fifo s) D Q -> Q !! eviction_list = Some [v] -> Q !! disk_free_list = Some (rest ++ [d]) ->
  Q !! disk_active_list = Some da -> Q !! dram_free_list = Some df ->
  D !! v = Some dv -> has_reserve dv = false -> D !! d = Some dd ->
  wlp (lrudisk_evictionworker_vector_round usleep)
    (fun r s' => r = 1 /\ loc dv = (true, virtual_offset dv) /\ exists D' Q' dv' dd', rep (m_fifo s') D' Q' /\
       Q' !! disk_active_list = Some (v :: da) /\ D' !! v = Some dv' /\ loc dv' = loc dv /\
       Q' !! dram_free_list = Some (d :: df) /\ D' !! d = Some dd' /\ loc dd' = loc dv) s.
Proof.
  intros Hr Hev Hdf Hda Hfr Hv Hres Hd. unfold lrudisk_evictionworker_vector_round. data_step.
  eapply wlp_fifo; [by eapply dequeue_loop_spec|]. intros vs x [-> Hr1]. simpl in Hr1 |- *.
  assert (Hne : v <> d).
  { intros ->. assert (d ∈ rest ++ [d]) by (apply elem_of_app; right; by left).
    assert (eviction_list = disk_free_list); [|done]. eapply rep_disjoint; [exact Hr|exact Hev|exact Hdf|by left|done]. }
  change (reverse [v]) with [v]. simpl. data_run. simplify_map_eq.
  field virtual_offset pg. data_run. simplify_map_eq. field has_reserve pg1. replace (has_reserve pg1) with false by congruence.
  unfold take_disk_page. data_run.
  eapply wlp_fifo; [eapply dequeue_spec; [eassumption|by rewrite lookup_insert_ne]|]. intros o x2 (-> & Hr2 & _).
  rewrite last_snoc. rewrite length_app, Nat.add_1_r in Hr2. simpl in Hr2. rewrite take_app_length in Hr2. data_run.
  unfold extmem_migrate_downdisk_vector. simpl. data_run. simplify_map_eq.
  field has_reserve pg7. replace (has_reserve pg7) with false by congruence. data_run.
  assert (Hu1 : unlisted (<[eviction_list := []]> Q) v) by (by eapply (unlisted_once _ D Q eviction_list [] [])).
  assert (Hd1 : (<[eviction_list := []]> Q) !! disk_free_list = Some (rest ++ [d])) by (by rewrite lookup_insert_ne).
  assert (Hu2 : unlisted (<[disk_free_list := rest]> (<[eviction_list := []]> Q)) v).
  { eapply unlisted_less; [exact Hd1| |done]. intros y Hy. apply elem_of_app. by left. }
  assert (Hu3 : unlisted (<[disk_free_list := rest]> (<[eviction_list := []]> Q)) d).
  { pose proof (unlisted_once _ _ _ disk_free_list rest [] d Hr1 Hd1) as Hu. by rewrite app_nil_r in Hu. }
  eapply (wlp_enqueue_data disk_active_list da v); [eassumption|by rewrite !lookup_insert_ne|apply lookup_insert_eq|exact Hu2|].
  intros x3 Hx3. unfold become_frame, finish_eviction. data_run.
  eapply (wlp_enqueue_data dram_free_list df d); [eassumption|by rewrite !lookup_insert_ne|apply lookup_insert_eq| |].
  { apply unlisted_other; [by rewrite !lookup_insert_ne|done|done]. }
  intros x4 Hx4. data_run.
  field in_dram pg3. assert (Hin : in_dram dv = true) by congruence. assert (Hne' : d <> v) by done.
  assert (Hloc : loc dv = (true, virtual_offset dv)) by (unfold loc; congruence).
  repeat match goal with E : _ !! _ = Some _ |- _ =>
    first [rewrite lookup_insert_eq in E|rewrite lookup_insert_ne in E by done]; simplify_eq end.
  split; [done|]. split; [done|]. eexists _, _, _, _. split; [eassumption|].
  split; [by rewrite lookup_insert_ne, lookup_insert_eq|]. split; [by rewrite lookup_insert_eq|].
  split; [field loc pg9; symmetry; exact F3|]. split; [by rewrite lookup_insert_eq|].
  split; [rewrite !(lookup_insert_ne _ v d) by done; by rewrite lookup_insert_eq|].
  rewrite Hloc. unfold loc. simpl. congruence.
Qed.

(** *** Initialisation *)

(** The places of [n] frames or slots from number [i] on. *)
Fixpoint places (b : bool) (i : Z) (n : nat) : gset place :=
  match n with
  | O => ∅
  | S n => {[(b, i * PAGE_SIZE)]} ∪ places b (i + 1) n
  end.

Lemma elem_of_places b i n c :
  c ∈ places b i n <-> exists j, i <= j < i + Z.of_nat n /\ c = (b, j * PAGE_SIZE).
Proof.
  revert i. induction n as [|n IH]; intros i; simpl.
  - rewrite elem_of_empty. split; [done|]. intros (j & ? & _). lia.
  - rewrite elem_of_union, elem_of_singleton, IH. split.
    + intros [->|(j & ? & ->)]; [exists i|exists j]; split; [lia|done|lia|done].
    + intros (j & ? & ->). destruct (decide (j = i)) as [->|]; [by left|right; exists j; split; [lia|done]].
Qed.

(** [calloc] returns a new address. *)
Definition next_free s : Prop := forall p, is_Some (pages (m_fifo s) !! p) -> (p < m_next s)%positive.

(** Another descriptor keeps the counts of the lists below [2 ^ 64]. *)
Definition room s : Prop := Z.of_nat (size (pages (m_fifo s))) + 1 < 2 ^ 64.

Lemma rep_size x D Q : rep x D Q -> size (pages x) = size D.
Proof. intros Hr. by rewrite <- (rep_data _ _ _ Hr), map_size_fmap. Qed.

Lemma wp_set_data p f d (Q : unit -> machine K -> Prop) s D Q' :
  keeps_links f -> rep (m_fifo s) D Q' -> D !! p = Some d ->
  (forall x, rep x (<[p := f d]> D) Q' -> Q tt (set_fifo x s)) -> wp (page_set p f) Q s.
Proof.
  intros [Hl He] Hr Hd HQ. unfold page_set. apply (wp_zoom fifo_lens). eapply wp_mono; [by apply upd_data_spec|].
  intros [] x Hx. by apply HQ.
Qed.

(** What the loop relies on and leaves, besides the accounts. *)
Record booting s (D : gmap ptr user_page) (Q : gmap lid (list ptr)) L H : Prop := mk_booting {
  bt_rep : rep (m_fifo s) D Q;
  bt_accounts : accounts D Q L H;
  bt_next : next_free s;
}.

Lemma next_free_data s D Q p : rep (m_fifo s) D Q -> next_free s -> is_Some (D !! p) -> (p < m_next s)%positive.
Proof. intros Hr Hf [d Hd]. destruct (rep_page _ _ _ _ _ Hr Hd) as (pg & Hp & _). apply Hf. eauto. Qed.

Lemma init_pages_spec b l i n s D Q L H :
  booting s D Q L H -> l ∈ all_lists -> side l = b -> Z.of_nat (size D) + Z.of_nat n < 2 ^ 64 ->
  (forall j, i <= j < i + Z.of_nat n -> (b, j * PAGE_SIZE) ∉ L) ->
  wp (init_pages b l i n)
     (fun _ s' => vars s' = vars s /\ exists D' Q', booting s' D' Q' (places b i n ∪ L) H /\
        size D' = (size D + n)%nat /\ (forall l', l' <> l -> Q' !! l' = Q !! l') /\
        exists ids', Q' !! l = Some ids' /\ length ids' = (length (default [] (Q !! l)) + n)%nat) s.
Proof.
  intros Hb Hl Hside. revert i s D Q L Hb. induction n as [|n IH]; intros i s D Q L [Hr Ha Hf] Hsz Hnew; simpl.
  { wp_norm. split; [done|]. exists D, Q. rewrite union_empty_l_L, !Nat.add_0_r. split_and!; [done..|].
    destruct (ac_lists _ _ _ _ Ha l Hl) as [ids Hids]. rewrite Hids. by exists ids. }
  assert (Hp : pages (m_fifo s) !! m_next s = None).
  { destruct (pages (m_fifo s) !! m_next s) eqn:E; [|done].
    assert (m_next s < m_next s)%positive by (apply Hf; eauto). lia. }
  destruct (rep_calloc _ _ _ _ Hr Hp) as (Hr1 & HD & Hu); [lia|]. unfold calloc_page. wp_norm.
  set (p := m_next s) in *. set (s1 := set_next_ptr _ _).
  assert (Hset : forall f d t D1 (Q1 : unit -> machine K -> Prop), keeps_links f -> rep (m_fifo t) D1 Q -> D1 !! p = Some d ->
    (forall x, rep x (<[p := f d]> D1) Q -> Q1 tt (set_fifo x t)) -> wp (page_set p f) Q1 t).
  { intros. by eapply wp_set_data. }
  destruct (ac_lists _ _ _ _ Ha l Hl) as [ids Hids].
  do 7 (wp_norm; eapply Hset; [split; [by intros|by intros []]|simpl; eassumption|apply lookup_insert_eq|];
        let Hx := fresh "Hx" in intros ? Hx; rewrite insert_insert_eq in Hx).
  clear Hset. wp_norm. unfold enqueue. apply (wp_zoom fifo_lens).
  match goal with Hx : rep ?x (<[p := ?d]> D) Q |- wp _ _ (view _ (set_fifo ?x _)) => pose proof Hx as Hrx; set (dp := d) in * end.
  eapply wp_mono; [eapply (enqueue_spec _ _ _ _ _ p dp Hrx Hids); [apply lookup_insert_eq|exact Hu]|].
  intros [] y Hy. simpl.
  assert (Ha' := accounts_add _ _ _ _ p l ids dp Ha HD Hu Hids).
  eapply wp_mono; [eapply (IH (i + 1) _ (<[p := dp]> D) (<[l := p :: ids]> Q) ({[(b, i * PAGE_SIZE)]} ∪ L))|].
  - split; [exact Hy|apply Ha'; [done|apply Hnew; lia]|].
    intros q [qg Hq]. simpl in Hq |- *. apply (rep_page_data _ _ _ _ _ Hy) in Hq.
    apply lookup_insert_Some in Hq as [[<- _]|[_ Hq]]; [lia|].
    assert (q < m_next s)%positive by (eapply next_free_data; eauto). unfold p. lia.
  - rewrite map_size_insert_None by done. lia.
  - intros j Hj. rewrite not_elem_of_union, not_elem_of_singleton. split; [intros [= ?]; unfold PAGE_SIZE, BASEPAGE_SIZE in *; lia|].
    apply Hnew. lia.
  - intros [] s2 (Hv & D' & Q' & Hb & Hsize & Hrest & ids' & Hids' & Hlen). split; [done|]. exists D', Q'. rewrite map_size_insert_None in Hsize by done.
    split_and!; [|lia| |].
    + rewrite assoc_L in Hb by apply _. by rewrite (comm_L (∪) (places _ _ _)) in Hb.
    + intros l' Hne. rewrite Hrest by done. by apply lookup_insert_ne.
    + exists ids'. rewrite lookup_insert_eq in Hlen. rewrite Hids. simpl in *. split; [done|lia].
Qed.

(** The frames and slots the sizes stand for. *)
Definition all_places (dram disk : Z) : gset place :=
  places false 0 (Z.to_nat (disk / PAGE_SIZE)) ∪ places true 0 (Z.to_nat (dram / PAGE_SIZE)).

(** The static variables of the policy before [lrudisk_init]. *)
Definition no_pages : fifo_state := mk_fifo_state ∅ (gset_to_gmap (mk_fifo None None 0) (list_to_set all_lists)).

Lemma no_pages_rep : rep no_pages ∅ (gset_to_gmap [] (list_to_set all_lists)).
Proof. by apply rep_init. Qed.

Lemma no_pages_booting s : m_fifo s = no_pages -> booting s ∅ (gset_to_gmap [] (list_to_set all_lists)) ∅ ∅.
Proof.
  intros E. split; [rewrite E; apply no_pages_rep| |].
  - apply accounts_start. intros l Hl. exists []. apply lookup_gset_to_gmap_Some. split; [by apply elem_of_list_to_set|done].
  - intros p [pg Hp]. rewrite E in Hp. simpl in Hp. by rewrite lookup_empty in Hp.
Qed.

Lemma init_spec s :
  m_fifo s = no_pages -> in_u64 (vars s dramsize) -> in_u64 (vars s disksize) ->
  wp lrudisk_init
     (fun _ s' => minv s' (all_places (vars s dramsize) (vars s disksize)) ∅ /\
        (forall l, l ∈ all_lists -> exists q, lists (m_fifo s') !! l = Some q /\
          numentries q = if decide (l = dram_free_list) then vars s dramsize / PAGE_SIZE
                         else if decide (l = disk_free_list) then vars s disksize / PAGE_SIZE else 0) /\
        next_free s' /\ room s') s.
Proof.
  intros E Hram Hdisk. apply no_pages_booting in E. set (Q0 := gset_to_gmap _ _) in E.
  assert (Hb : forall x, in_u64 x -> 0 <= x / PAGE_SIZE < 2 ^ 63).
  { intros x Hx. change PAGE_SIZE with 4096. unfold in_u64 in Hx.
    split; [apply Z.div_pos; lia|apply Z.div_lt_upper_bound; lia]. }
  pose proof (Hb _ Hram). pose proof (Hb _ Hdisk). clear Hb.
  assert (Hin : forall l, bool_decide (l ∈ all_lists) = true -> l ∈ all_lists) by (intros l; apply bool_decide_eq_true).
  unfold lrudisk_init, get_var. wp_norm.
  eapply wp_mono; [eapply (init_pages_spec true dram_free_list 0); [exact E|by apply Hin|done|rewrite map_size_empty; lia|]|].
  { intros j _ Hj. by apply not_elem_of_empty in Hj. }
  intros [] s1 (Hv & D1 & Q1 & Hb1 & Hs1 & Hr1 & ids1 & Hi1 & Hl1). wp_norm. rewrite Hv.
  eapply wp_mono; [eapply (init_pages_spec false disk_free_list 0); [exact Hb1|by apply Hin|done|rewrite Hs1, map_size_empty; lia|]|].
  { intros j _. rewrite not_elem_of_union, elem_of_places. split; [|by apply not_elem_of_empty]. by intros (? & _ & ?). }
  intros [] s2 (_ & D2 & Q2 & [Hr2' Ha2 Hf2] & Hs2 & Hr2 & ids2 & Hi2 & Hl2). split; [|split; [|split; [done|]]].
  - exists D2, Q2. split; [done|]. unfold all_places. by rewrite (right_id_L ∅ (∪)) in Ha2.
  - assert (HQ0 : forall l, l ∈ all_lists -> Q0 !! l = Some []).
    { intros l Hl. apply lookup_gset_to_gmap_Some. split; [by apply elem_of_list_to_set|done]. }
    intros l Hl. destruct (ac_lists _ _ _ _ Ha2 l Hl) as [ids Hids]. exists (fifo_of ids). split; [by eapply rep_list|]. simpl.
    rewrite HQ0 in Hl1 by by apply Hin. rewrite Hr1 in Hl2 by done. rewrite HQ0 in Hl2 by by apply Hin. simpl in Hl1, Hl2.
    destruct (decide (l = dram_free_list)) as [->|Hn1]; [rewrite Hr2 in Hids by done; simplify_eq; lia|].
    destruct (decide (l = disk_free_list)) as [->|Hn2]; [simplify_eq; lia|].
    rewrite Hr2, Hr1, HQ0 in Hids by done. by simplify_eq.
  - unfold room. rewrite (rep_size _ _ _ Hr2'), Hs2, Hs1, map_size_empty. lia.
Qed.

(** [lrudisk_init] returns, for any sizes, with one spare descriptor for
    every page frame of the DRAM and every slot of the disk, each at its own
    place, the frames on [dram_free_list], the slots on [disk_free_list] and
    every other list empty. *)
Theorem policy_starts s :
  m_fifo s = no_pages -> in_u64 (vars s dramsize) -> in_u64 (vars s disksize) ->
  exists s', lrudisk_init s = Done (tt, s') /\
    minv s' (all_places (vars s dramsize) (vars s disksize)) ∅ /\
    forall l, l ∈ all_lists -> exists q, lists (m_fifo s') !! l = Some q /\
      numentries q = if decide (l = dram_free_list) then vars s dramsize / PAGE_SIZE
                     else if decide (l = disk_free_list) then vars s disksize / PAGE_SIZE else 0.
Proof.
  intros Hs Hr Hd. pose proof (init_spec s Hs Hr Hd) as H. apply wp_elim in H as ([] & s' & Hrun & Hm & Hl & _). eauto.
Qed.
End policy_spec.

(** ** Instances *)

(** A process with two frames, four slots and no pages yet. *)
Definition boot_machine : machine sim_kernel :=
  let s := demo_machine (fun _ => Byte.x00) [65536] page0 [] in
  mk_machine (m_store s) no_pages ∅ 1%positive
    (mk_sim_kernel [(4096, 65536)] ∅ (fun _ => 0) [196608; 262144; 327680; 393216; 458752; 524288; 589824; 655360]) (m_pf s) (vars s) (flags s).

Lemma policy_starts_witness :
  exists s', lrudisk_init boot_machine = Done (tt, s') /\
    exists q, lists (m_fifo s') !! dram_free_list = Some q /\ numentries q = 2.
Proof.
  destruct (policy_starts boot_machine) as (s' & Hrun & _ & Hl); [done|vm_compute; split; congruence..|].
  destruct (Hl dram_free_list) as (q & Hq & Hn); [by apply (bool_decide_unpack (dram_free_list ∈ all_lists))|].
  exists s'. split; [done|]. exists q. split; [done|]. by rewrite Hn.
Defined.

(** A resident page on [eviction_list] and one free slot. *)
Definition victim_page : user_page := set_pt BASEP (set_in_dram true (set_va 8192 page0)).
Definition slot_page : user_page := set_pt BASEP (set_swapped_out true (set_virtual_offset 4096 page0)).
Definition two_pages : gmap ptr user_page := {[1%positive := victim_page; 2%positive := slot_page]}.
Definition empty_lists : gmap lid (list ptr) := gset_to_gmap [] (list_to_set all_lists).

Definition evict_fifo : fifo_state :=
  match (enqueue_fifo eviction_list 1;; enqueue_fifo disk_free_list 2)
          (mk_fifo_state two_pages (gset_to_gmap (mk_fifo None None 0) (list_to_set all_lists))) with
  | Done (_, x) => x
  | Fault _ => no_pages
  end.

Lemma evict_rep :
  rep evict_fifo two_pages (<[disk_free_list := [2%positive]]> (<[eviction_list := [1%positive]]> empty_lists)).
Proof.
  assert (Hr : rep (mk_fifo_state two_pages (gset_to_gmap (mk_fifo None None 0) (list_to_set all_lists))) two_pages empty_lists).
  { apply rep_init; [|done]. by apply (bool_decide_unpack (map_Forall (fun _ d => free_links d) two_pages)); vm_compute. }
  assert (Hu : forall p, unlisted empty_lists p).
  { intros p q ids [_ <-]%lookup_gset_to_gmap_Some. by apply not_elem_of_nil. }
  assert (Hw : wp (enqueue_fifo eviction_list 1;; enqueue_fifo disk_free_list 2) (fun _ x =>
    rep x two_pages (<[disk_free_list := [2%positive]]> (<[eviction_list := [1%positive]]> empty_lists)))
    (mk_fifo_state two_pages (gset_to_gmap (mk_fifo None None 0) (list_to_set all_lists)))).
  { wp_norm. eapply wp_mono; [by eapply (enqueue_spec _ _ _ eviction_list [] 1%positive victim_page Hr)|]. intros [] x Hx.
    eapply (enqueue_spec _ _ _ disk_free_list [] 2%positive slot_page Hx); [done|done|].
    by apply unlisted_other. }
  apply wp_elim in Hw as ([] & x & Hrun & Hx). unfold evict_fifo. by rewrite Hrun.
Qed.

Lemma vector_eviction_aliases_witness :
  exists s' D' Q' dv dd,
    lrudisk_evictionworker_vector_round (mret tt) (set_fifo evict_fifo boot_machine) = Done (1, s') /\
    rep (m_fifo s') D' Q' /\ D' !! 1%positive = Some dv /\ D' !! 2%positive = Some dd /\
    loc dv = (true, 0) /\ loc dd = (true, 0).
Proof.
  pose proof (vector_eviction_aliases (mret tt) 1%positive 2%positive victim_page slot_page [] [] []
    (set_fifo evict_fifo boot_machine) _ _ evict_rep eq_refl eq_refl eq_refl eq_refl eq_refl eq_refl eq_refl) as H.
  assert (Hr : match lrudisk_evictionworker_vector_round (mret tt) (set_fifo evict_fifo boot_machine) with
    Done _ => True | Fault _ => False end) by (by vm_compute).
  unfold wlp in H. destruct (lrudisk_evictionworker_vector_round _ _) as [[r s']|]; [|done].
  destruct H as (-> & _ & D' & Q' & dv & dd & Hrep & _ & Hv & Ev & _ & Hd & Ed). exists s', D', Q', dv, dd. done.
Defined.
