(* ===== verification/PageHash.v ===== *)
(** The page hash of [core.c]: the map that Machine.v works with is what the
    hash table of UtHash.v implements. *)

From S2P Require Import Prelude UserPage AddressTranslation Fifo RdmaAlloc RdmaSim StorageRdma Machine.
From S2P Require Import UtHash UtHashSpec PrefetchSpec PolicySpec.

Local Open Scope Z_scope.

(** ** The operations *)

(** The three operations of the hash, and the assignment of a page's address
    that has to come before it is added. *)
Inductive hash_op : Type :=
  | Assign (p : ptr) (v : Z)
  | Add (p : ptr)
  | Find (v : Z)
  | Remove (p : ptr).

Section page_hash.
Context {K : Type}.
Variables nb lb mb : Z.

Definition on_machine (op : hash_op) : M (machine K) (option ptr) :=
  match op with
  | Assign p v => page_set p (set_va v);; mret None
  | Add p => Machine.add_page p;; mret None
  | Find v => Machine.find_page v
  | Remove p => Machine.remove_page p;; mret None
  end.

Definition on_table (op : hash_op) : M hash_state (option ptr) :=
  match op with
  | Assign p v => assign_va p v;; mret None
  | Add p => UtHash.add_page nb lb mb p;; mret None
  | Find v => UtHash.find_page v
  | Remove p => UtHash.remove_page p;; mret None
  end.

Fixpoint run_machine (ops : list hash_op) : M (machine K) (list (option ptr)) :=
  match ops with
  | [] => mret []
  | op :: ops => r ← on_machine op; rs ← run_machine ops; mret (r :: rs)
  end.

Fixpoint run_table (ops : list hash_op) : M hash_state (list (option ptr)) :=
  match ops with
  | [] => mret []
  | op :: ops => r ← on_table op; rs ← run_table ops; mret (r :: rs)
  end.

(** *** What the callers respect *)

Definition page_va (s : machine K) (p : ptr) : option Z := va <$> Fifo.pages (m_fifo s) !! p.
Definition unhashed (s : machine K) (p : ptr) : Prop := forall v, m_hash s !! v <> Some p.

(** The address of a page changes only while it is not in the hash; a page
    is added once and removed when it is there. *)
Definition legal (op : hash_op) (s : machine K) : Prop :=
  match op with
  | Assign p v => in_u64 v /\ unhashed s p /\ is_Some (page_va s p)
  | Add p => unhashed s p /\ is_Some (page_va s p)
  | Find v => in_u64 v
  | Remove p => exists v, page_va s p = Some v /\ m_hash s !! v = Some p
  end.

Fixpoint legal_run (ops : list hash_op) (s : machine K) : Prop :=
  match ops with
  | [] => True
  | op :: ops => legal op s /\ match on_machine op s with Done (_, s') => legal_run ops s' | Fault _ => True end
  end.

(** The table implements the machine's map. *)
Record implements (h : hash_state) (s : machine K) : Prop := mk_implements {
  im_rep : rep h (m_hash s);
  im_va : forall p, va_of h !! p = page_va s p;
  im_range : forall p v, page_va s p = Some v -> in_u64 v;
  im_dom : forall p, is_Some (handles h !! p) <-> is_Some (page_va s p);
  im_small : small h;
}.

(** ** Each operation *)

Lemma rep_key h m v p : rep h m -> m !! v = Some p -> va_of h !! p = Some v.
Proof. intros [_ _ ->|id t k l C Hf] Hm; [done|]. by apply (fu_map _ _ _ _ _ _ _ Hf) in Hm as [_ ?]. Qed.

Lemma rep_assign h m p v : rep h m -> (forall w, m !! w <> Some p) -> rep (set_va_of (<[p := v]> (va_of h)) h) m.
Proof.
  intros [Hp Ht Hm|id t k l C [Hpg Hsome Ht Htl Hit Hnb Hlog Hr Hord Hnd Hel Hch Hmem Hmap]] Hu; [by apply rep_empty|].
  assert (Hne : forall q, q ∈ l -> p <> q).
  { intros q Hq ->. destruct (Hel q Hq) as (w & _ & Hw & _). by apply (Hu w), Hmap. }
  set (h' := set_va_of _ _).
  assert (Hva : forall q, q ∈ l -> va_of h' !! q = va_of h !! q) by (intros q Hq; simpl; by rewrite lookup_insert_ne by auto).
  assert (Hsl : forall q j, q ∈ l -> slot h' k q j <-> slot h k q j) by (intros q j Hq; unfold slot; by rewrite Hva).
  apply (rep_full _ _ id t k l C). split; try done.
  - intros q Hq. destruct (Hel q Hq) as (w & Hd & Hw & Hwu). exists w. split; [done|]. split; [by rewrite Hva|done].
  - intros j q Hj. rewrite Hmem by done. split; (intros [Hq Hs]; split; [done|]; by apply Hsl).
  - intros w q. rewrite Hmap. split; (intros [Hq Hw]; split; [done|]); [by rewrite Hva|by rewrite <- Hva].
Qed.

Lemma remove_is_delete (h : hash_state) m v p : rep h m -> m !! v = Some p -> base.filter (fun x : Z * ptr => x.2 <> p) m = delete v m.
Proof.
  intros Hr Hv. apply map_eq. intros w. destruct (decide (v = w)) as [<-|Hne].
  - rewrite lookup_delete_eq. apply map_lookup_filter_None. right. intros q Hq. simpl. rewrite Hv in Hq. injection Hq as ->. naive_solver.
  - rewrite lookup_delete_ne by done. destruct (m !! w) as [q|] eqn:Hw.
    + apply map_lookup_filter_Some. split; [done|]. simpl. intros ->. apply Hne.
      pose proof (rep_key _ _ _ _ Hr Hv). pose proof (rep_key _ _ _ _ Hr Hw). congruence.
    + apply map_lookup_filter_None. by left.
Qed.

Definition follows {A} (m : M hash_state A) (h : hash_state) (o : outcome (A * machine K)) : Prop :=
  match o with
  | Done (r, s') => wpx m (fun r' h' => r' = r /\ implements h' s') h
  | Fault f => match m h with Done _ => False | Fault f' => f' = f \/ f' = Exited end
  end.

Hypothesis initial : nb = 2 ^ lb.
Hypothesis initial_range : 0 <= lb <= 31.
Hypothesis block : mb <= 2 ^ 36.

Lemma implements_same h h' (s s' : machine K) :
  implements h s -> same_pages h h' -> rep h' (m_hash s') -> Fifo.pages (m_fifo s') = Fifo.pages (m_fifo s) -> implements h' s'.
Proof.
  intros [_ Hva Hr Hd Hs] Hsame Hrep Hp. pose proof Hsame as [Ev Ed].
  assert (Hpv : forall p, page_va s' p = page_va s p) by (intros p; unfold page_va; by rewrite Hp). split.
  - done.
  - intros p. by rewrite Ev, Hpv.
  - intros p v. rewrite Hpv. apply Hr.
  - intros p. rewrite Hpv, <- Hd, <- !elem_of_dom. by rewrite Ed.
  - by eapply same_small.
Qed.

Lemma same_pages_refl h : same_pages h h.
Proof. done. Qed.

Lemma page_va_page (s : machine K) p v : page_va s p = Some v -> exists pg, Fifo.pages (m_fifo s) !! p = Some pg /\ va pg = v.
Proof. unfold page_va. intros (pg & -> & Hv)%fmap_Some. eauto. Qed.

Lemma page_get_done p pg (s : machine K) : Fifo.pages (m_fifo s) !! p = Some pg -> page_get p s = Done (pg, s).
Proof. intros Hp. by destruct (wp_elim _ _ _ (wp_page_get p pg (fun x s' => x = pg /\ s' = s) s Hp (conj eq_refl eq_refl))) as (x & s' & E & -> & ->). Qed.

Lemma find_follows v h s : implements h s -> in_u64 v -> follows (on_table (Find v)) h (on_machine (Find v) s).
Proof.
  intros Hi Hv. unfold follows. simpl. eapply wpx_mono; [apply find_spec; [by apply Hi|done]|]. intros r h' [-> ->]. done.
Qed.

Lemma add_follows p h s : implements h s -> unhashed s p -> is_Some (page_va s p) -> follows (on_table (Add p)) h (on_machine (Add p) s).
Proof.
  intros Hi Hu [v Hv]. destruct (page_va_page _ _ _ Hv) as (pg & Hp & Hpv). pose proof Hi as [Hrep Hva Hr Hd Hs].
  assert (Hvh : va_of h !! p = Some v) by by rewrite Hva.
  assert (Hfind := find_spec h (m_hash s) v Hrep (Hr _ _ Hv)).
  assert (Hm : on_machine (Add p) s = if bool_decide (m_hash s !! v = None) then Done (None, set_hash (<[v := p]> (m_hash s)) s) else Fault AssertFail).
  { simpl. unfold Machine.add_page, mbind, M_bind. rewrite (page_get_done _ _ _ Hp), Hpv. simpl. by destruct (bool_decide _). }
  rewrite Hm. unfold follows. cbn [on_table]. unfold UtHash.add_page. destruct (bool_decide (m_hash s !! v = None)) eqn:Hb.
  - apply bool_decide_eq_true in Hb. wpx_norm. apply (wpx_the_key p v); [done|]. wpx_norm.
    eapply wpx_mono; [exact Hfind|]. intros r h' [-> ->]. wpx_norm. apply wpx_assert; [by apply bool_decide_eq_true|]. wpx_norm.
    eapply wpx_mono; [apply (add_spec nb lb mb initial initial_range block h (m_hash s) v p); try done; [by apply Hr in Hv|by apply Hd]|].
    intros _ h' [Hsame Hrep']. wpx_norm. split; [done|]. by eapply implements_same.
  - apply bool_decide_eq_false in Hb. unfold mbind, M_bind, mret, M_ret. unfold wpx in Hfind.
    assert (Hk : the_key (Some p) h = Done (va_bytes v, h)).
    { unfold the_key, the_va, deref, mbind, M_bind, gets, mret, M_ret. by rewrite Hvh. }
    rewrite Hk. destruct (HASH_FIND (va_bytes v) h) as [[r h']|f]; [|by right]. destruct Hfind as [-> ->].
    rewrite bool_decide_eq_false_2 by done. by left.
Qed.

Lemma remove_follows p h s v : implements h s -> page_va s p = Some v -> m_hash s !! v = Some p ->
  follows (on_table (Remove p)) h (on_machine (Remove p) s).
Proof.
  intros Hi Hv Hm. unfold follows. simpl. wpx_norm. eapply wpx_mono; [eapply (del_spec h (m_hash s) v p); [by apply Hi|by apply Hi|done]|].
  intros _ h' [Hsame Hrep]. wpx_norm. split; [done|]. eapply implements_same; [done|done| |done]. simpl.
  by rewrite (remove_is_delete h _ v) by (done || apply Hi).
Qed.

Lemma assign_follows p v h s : implements h s -> in_u64 v -> unhashed s p -> is_Some (page_va s p) ->
  follows (on_table (Assign p v)) h (on_machine (Assign p v) s).
Proof.
  intros Hi Hvu Hu [w Hw]. destruct (page_va_page _ _ _ Hw) as (pg & Hp & _). pose proof Hi as [Hrep Hva Hr Hd Hs].
  set (s' := set_fifo (mk_fifo_state (<[p := set_va v pg]> (Fifo.pages (m_fifo s))) (lists (m_fifo s))) s).
  assert (Hm : on_machine (Assign p v) s = Done (None, s')).
  { simpl. unfold page_set, fifo, zoom, upd_page, page_at, modify, gets, deref, mbind, M_bind. simpl. by rewrite Hp. }
  assert (Hpv : forall q, page_va s' q = if decide (p = q) then Some v else page_va s q).
  { intros q. unfold page_va, s'. simpl. destruct (decide (p = q)) as [<-|Hne]; [by rewrite lookup_insert_eq|by rewrite lookup_insert_ne]. }
  rewrite Hm. unfold follows. simpl. wpx_norm. split; [done|]. split.
  - simpl. by apply rep_assign.
  - intros q. rewrite Hpv. simpl. destruct (decide (p = q)) as [<-|Hne]; [by rewrite lookup_insert_eq|by rewrite lookup_insert_ne].
  - intros q u. rewrite Hpv. destruct (decide (p = q)); [by intros [= <-]|apply Hr].
  - intros q. rewrite Hpv. simpl. rewrite Hd. destruct (decide (p = q)) as [<-|Hne]; [|done]. split; [by eexists|by exists w].
  - done.
Qed.

Lemma op_follows op h s : implements h s -> legal op s -> follows (on_table op) h (on_machine op s).
Proof.
  intros Hi Hl. destruct op as [p v|p|v|p]; simpl in Hl.
  - destruct Hl as (? & ? & ?). by apply assign_follows.
  - destruct Hl as [? ?]. by apply add_follows.
  - by apply find_follows.
  - destruct Hl as (v & ? & ?). by apply (remove_follows p h s v).
Qed.

(** ** Any sequence of operations *)

(** C11: The hash table of [uthash.h] is the finite map that the rest of the
    development works with.  Start from a table that represents the map of
    the machine, and run any sequence of operations in which a page's address
    is assigned only while the page is not hashed, a page is added only while
    it is not hashed, and a page is removed only while it is hashed.  Then
    every lookup answers what the map answers, however the pages share
    buckets and however often [HASH_EXPAND_BUCKETS] rebuilds the table, and
    the table at the end represents the map at the end; where the map's run
    stops at [add_page]'s assertion, the table's stops there too.  The one
    other thing that can happen is that [malloc] fails and the process
    exits. *)
Theorem page_hash_refines (ops : list hash_op) (h : hash_state) (s : machine K) :
  implements h s ->
  legal_run ops s ->
  match run_machine ops s with
  | Done (rs, s') => wpx (run_table ops) (fun rs' h' => rs' = rs /\ implements h' s') h
  | Fault f => match run_table ops h with Done _ => False | Fault f' => f' = f \/ f' = Exited end
  end.
Proof.
  change (implements h s -> legal_run ops s -> follows (run_table ops) h (run_machine ops s)).
  revert h s. induction ops as [|op ops IH]; intros h s Hi Hl; [done|].
  destruct Hl as [Hop Hl]. pose proof (op_follows op h s Hi Hop) as Hf.
  cbn [run_machine run_table]. unfold mbind, M_bind, mret, M_ret.
  destruct (on_machine op s) as [[r s1]|f]; unfold follows, wpx in Hf |- *.
  - destruct (on_table op h) as [[r' h1]|f']; [|destruct (run_machine ops s1) as [[? ?]|?]; [done|by right]].
    destruct Hf as [-> Hi1]. specialize (IH h1 s1 Hi1 Hl). unfold follows, wpx in IH.
    destruct (run_machine ops s1) as [[rs s2]|f], (run_table ops h1) as [[rs' h2]|f']; try done.
    by destruct IH as [-> ?].
  - by destruct (on_table op h) as [[r' h1]|f'].
Qed.
End page_hash.

(** ** A start *)

(** Before the first page is added: no table, and handles nobody has set. *)
Definition start_hash {K} (ml : list Z) (s : machine K) : hash_state :=
  mk_hash None ((fun _ => mk_handle 0 None None None None None 0 0) <$> Fifo.pages (m_fifo s)) ∅
    (va <$> Fifo.pages (m_fifo s)) ml.

Lemma start_implements {K} ml (s : machine K) :
  m_hash s = ∅ -> map_Forall (fun _ d => in_u64 (va d)) (Fifo.pages (m_fifo s)) ->
  Z.of_nat (size (Fifo.pages (m_fifo s))) < 2 ^ 32 -> implements (start_hash ml s) s.
Proof.
  intros Hm Hr Hs. split.
  - by apply rep_empty.
  - intros p. unfold start_hash, page_va. simpl. by rewrite lookup_fmap.
  - intros p v (pg & Hp & <-)%page_va_page. by eapply Hr.
  - intros p. unfold start_hash, page_va. simpl. by rewrite lookup_fmap, !fmap_is_Some.
  - unfold small, start_hash. simpl. by rewrite map_size_fmap.
Qed.

(** [legal], decided. *)
Definition unhashed_b {K} (s : machine K) (p : ptr) : bool := bool_decide (map_Forall (fun _ q => q <> p) (m_hash s)).
Definition legal_b {K} (op : hash_op) (s : machine K) : bool :=
  match op with
  | Assign p v => bool_decide (in_u64 v) && unhashed_b s p && bool_decide (is_Some (page_va s p))
  | Add p => unhashed_b s p && bool_decide (is_Some (page_va s p))
  | Find v => bool_decide (in_u64 v)
  | Remove p => match page_va s p with Some v => bool_decide (m_hash s !! v = Some p) | None => false end
  end.
Fixpoint legal_run_b {K} (ops : list hash_op) (s : machine K) : bool :=
  match ops with
  | [] => true
  | op :: ops => legal_b op s && match on_machine op s with Done (_, s') => legal_run_b ops s' | Fault _ => true end
  end.

Lemma legal_b_ok {K} op (s : machine K) : legal_b op s = true -> legal op s.
Proof.
  assert (Hu : forall p, unhashed_b s p = true -> unhashed s p).
  { intros p H%bool_decide_eq_true v Hv. by eapply H. }
  destruct op as [p v|p|v|p]; simpl; rewrite ?andb_true_iff, ?bool_decide_eq_true; [naive_solver..|].
  destruct (page_va s p) as [v|]; [|done]. rewrite bool_decide_eq_true. eauto.
Qed.
Lemma legal_run_b_ok {K} ops (s : machine K) : legal_run_b ops s = true -> legal_run ops s.
Proof.
  revert s. induction ops as [|op ops IH]; intros s; simpl; [done|]. rewrite andb_true_iff. intros [H1%legal_b_ok H2].
  split; [done|]. destruct (on_machine op s) as [[_ s']|]; auto.
Qed.

(** Thirty pages in a table that begins with two buckets. *)
Definition hash_pages : gmap ptr user_page :=
  list_to_map ((fun i => (Pos.of_nat (S i), page0)) <$> seq 0 30).
Definition hash_machine : machine sim_kernel := set_fifo (mk_fifo_state hash_pages ∅) boot_machine.
Definition hash_ops : list hash_op :=
  ((fun i => let p := Pos.of_nat (S i) in [Assign p (4096 * Z.of_nat i); Add p]) <$> seq 0 30) ≫= id.
Definition hash_ops_after : list hash_op :=
  [Find 0; Find 69632; Remove 18%positive; Find 69632; Find 73728; Find 4096000].
Definition hash_start : hash_state := start_hash [65536; 131072; 196608; 262144; 327680; 393216] hash_machine.

Lemma page_hash_refines_witness :
  match run_table 2 1 (2 ^ 36) (hash_ops ++ hash_ops_after) hash_start, run_machine (hash_ops ++ hash_ops_after) hash_machine with
  | Done (rs, h'), Done (rs', s') =>
      rs = rs' /\ implements h' s' /\
      drop 60 rs = [Some 1%positive; Some 18%positive; None; None; Some 19%positive; None] /\
      num_buckets <$> (tables h' !! 65536) = Some 8
  | _, _ => False
  end.
Proof.
  assert (Hv : match run_table 2 1 (2 ^ 36) (hash_ops ++ hash_ops_after) hash_start, run_machine (hash_ops ++ hash_ops_after) hash_machine with
    | Done (rs, h'), Done _ => drop 60 rs = [Some 1%positive; Some 18%positive; None; None; Some 19%positive; None] /\
        num_buckets <$> (tables h' !! 65536) = Some 8
    | _, _ => False end) by (vm_compute; split; reflexivity).
  assert (Hst : implements hash_start hash_machine).
  { apply start_implements; [done| |by vm_compute].
    by apply (bool_decide_unpack (map_Forall (fun _ d => in_u64 (va d)) (Fifo.pages (m_fifo hash_machine)))); vm_compute. }
  assert (Hl : legal_run (hash_ops ++ hash_ops_after) hash_machine) by (apply legal_run_b_ok; by vm_compute).
  assert (Hlb : 0 <= 1 <= 31) by lia.
  assert (Hmb : 2 ^ 36 <= 2 ^ 36) by lia.
  pose proof (page_hash_refines 2 1 (2 ^ 36) eq_refl Hlb Hmb _ hash_start hash_machine Hst Hl) as H.
  unfold wpx in H. destruct (run_table 2 1 _ _ hash_start) as [[rs h']|]; [|exact Hv].
  destruct (run_machine _ hash_machine) as [[rs' s']|]; [|exact Hv].
  destruct H as [-> Hi], Hv. split; [reflexivity|]. split; [exact Hi|]. split; assumption.
Defined.
