(* ===== verification/PolicyLaws.v ===== *)
(** What the core relies on in a policy, and that the LRU policy provides it:
    the accounts of Accounting.v are kept, and so is the situation of a
    client process, which has no remote memory of its own. *)

From S2P Require Import Prelude UserPage AddressTranslation Fifo RdmaAlloc RdmaSim StorageRdma StorageSpec.
From S2P Require Import Machine Policy PointerPrefetch PrefetchSpec Migrate DiskLinux Accounting PolicySpec.

Local Open Scope Z_scope.

(** ** A client has no simulated remote memory of its own *)

Definition heapless (x : rdma_sys) : Prop := sim_remote_memory_blocks (client x) = [].

Section heapless.
Variable usleep : M rdma_sys unit.
Hypothesis Husleep : keeps heapless usleep.

Lemma heapless_upd_proc f :
  (forall p, sim_remote_memory_blocks (f p) = sim_remote_memory_blocks p) -> keeps heapless (upd_proc Client f).
Proof. intros Hf. apply keeps_modify. intros x Hx. unfold heapless. simpl. by rewrite Hf. Qed.

Lemma heapless_segs f : keeps heapless (modify (fun x => set_segs (f x) x)).
Proof. by apply keeps_modify. Qed.

Lemma heapless_upd_shm f : keeps heapless (upd_shm Client f).
Proof. unfold upd_shm. keeps_tac. Qed.

Hint Resolve heapless_segs heapless_upd_shm Husleep : keeps.
Hint Extern 1 (keeps heapless (upd_proc _ _)) => (apply heapless_upd_proc; by intros []) : keeps.

Lemma heapless_malloc : keeps heapless (malloc Client).
Proof. unfold malloc. keeps_tac. Qed.
Lemma heapless_os_ok : keeps heapless (os_ok Client).
Proof. unfold os_ok. keeps_tac. Qed.
Hint Resolve heapless_malloc heapless_os_ok : keeps.

Lemma heapless_the_shm : keeps heapless (the_shm Client).
Proof. unfold the_shm. keeps_tac. Qed.
Hint Resolve heapless_the_shm : keeps.
Lemma heapless_connected : keeps heapless (connected Client).
Proof. unfold connected. keeps_tac. Qed.
Lemma heapless_the_req i : keeps heapless (the_req Client i).
Proof. unfold the_req. keeps_tac. Qed.
Hint Resolve heapless_connected heapless_the_req : keeps.
Lemma heapless_upd_req i f : keeps heapless (upd_req Client i f).
Proof. unfold upd_req. keeps_tac. Qed.
Lemma heapless_timestamp : keeps heapless rdma_get_timestamp.
Proof. unfold rdma_get_timestamp. keeps_tac. Qed.
Lemma heapless_proc_read a n : keeps heapless (proc_read Client a n).
Proof. unfold proc_read. keeps_tac. Qed.
Lemma heapless_proc_write a bs : keeps heapless (proc_write Client a bs).
Proof. unfold proc_write. keeps_tac. Qed.
Lemma heapless_buffer_write a bs : keeps heapless (page_buffer_write Client a bs).
Proof. unfold page_buffer_write. keeps_tac. Qed.
Lemma heapless_buffer_read a n : keeps heapless (page_buffer_read Client a n).
Proof. unfold page_buffer_read. keeps_tac. Qed.
Hint Resolve heapless_upd_req heapless_timestamp heapless_proc_read heapless_proc_write heapless_buffer_write
  heapless_buffer_read : keeps.

Lemma heapless_submit op la ra sz d : keeps heapless (rdma_submit_request Client op la ra sz d).
Proof. unfold rdma_submit_request. keeps_tac. Qed.
Lemma heapless_finish r : keeps heapless (finish_request Client r).
Proof. unfold finish_request. keeps_tac. Qed.
Hint Resolve heapless_submit heapless_finish : keeps.
Lemma heapless_wait_loop id k n : keeps heapless (wait_loop usleep Client id k n).
Proof. revert k. induction n as [|n IH]; intros k; simpl; keeps_tac. all: apply IH. Qed.
Hint Resolve heapless_wait_loop : keeps.
Lemma heapless_wait id : keeps heapless (rdma_wait_request usleep Client id).
Proof. unfold rdma_wait_request. keeps_tac. Qed.
Hint Resolve heapless_wait : keeps.


Lemma heapless_shmget_find : keeps heapless (shmget_find Client).
Proof. unfold shmget_find. keeps_tac. Qed.
Lemma heapless_init_wait n : keeps heapless (init_wait usleep Client n).
Proof. induction n as [|n IH]; simpl; keeps_tac. Qed.
Hint Resolve heapless_shmget_find heapless_init_wait : keeps.
Lemma heapless_init : keeps heapless (rdma_sim_init usleep Client false).
Proof. unfold rdma_sim_init. keeps_tac. Qed.
Hint Resolve heapless_init : keeps.
Lemma heapless_get_shm : keeps heapless (get_rdma_shm usleep Client).
Proof. unfold get_rdma_shm. keeps_tac. Qed.
Hint Resolve heapless_get_shm : keeps.

(** There is no block to free or to split. *)
Lemma heapless_free a : keeps heapless (rdma_sim_free Client a).
Proof.
  intros x Hx. unfold rdma_sim_free. rewrite wlp_bind. eapply keeps_wlp; [apply heapless_connected|done|].
  intros c x1 Hx1. destruct (negb c); [by wlp_norm|]. wlp_norm. unfold heapless in Hx1. simpl. rewrite Hx1. simpl. by wlp_norm.
Qed.

Lemma heapless_allocate n b x :
  heapless x -> wlp (rdma_sim_allocate Client n b) (fun r x' => heapless x' /\ r.2 = None) x.
Proof.
  intros Hx. unfold rdma_sim_allocate. destruct (_ || _); [by wlp_norm|]. rewrite wlp_bind.
  eapply keeps_wlp; [apply heapless_connected|done|]. intros c x1 Hx1. destruct (negb c); [by wlp_norm|]. cbv zeta.
  wlp_norm. unfold heapless in Hx1. simpl. rewrite Hx1. simpl. by wlp_norm.
Qed.
Hint Resolve heapless_free : keeps.

(** *** The storage *)

Definition dry_store (st : storage_state) : Prop := heapless (st_sys st).

Lemma dry_rdma {A} (m : M rdma_sys A) : keeps heapless m -> keeps dry_store (rdma m).
Proof. intros Hm. by apply (keeps_zoom _ sys_lens heapless). Qed.
Lemma dry_translator {A} (m : M address_translator_t A) : keeps dry_store (translator m).
Proof. by apply keeps_zoom_frame. Qed.
Lemma dry_modify f : (forall st, st_sys (f st) = st_sys st) -> keeps dry_store (modify f).
Proof. intros Hf. apply keeps_modify. intros st Hs. unfold dry_store. by rewrite Hf. Qed.
Hint Resolve dry_rdma dry_translator : keeps.
Hint Extern 1 (keeps dry_store (modify _)) => (apply dry_modify; by intros []) : keeps.
Hint Extern 1 (keeps dry_store (rdma _)) => (apply dry_rdma; solve [keeps_tac]) : keeps.

Lemma dry_upd_counters f : keeps dry_store (upd_counters f).
Proof. unfold upd_counters. keeps_tac. Qed.
Lemma dry_region_at i : keeps dry_store (region_at i).
Proof. unfold region_at. keeps_tac. Qed.
Lemma dry_time_now : keeps dry_store time_now.
Proof. unfold time_now. keeps_tac. Qed.
Hint Resolve dry_upd_counters dry_region_at dry_time_now : keeps.
Lemma dry_upd_region i f : keeps dry_store (upd_region i f).
Proof. unfold upd_region. keeps_tac. Qed.
Lemma dry_find_region v : keeps dry_store (find_remote_region v).
Proof. unfold find_remote_region. keeps_tac. Qed.
Lemma dry_read_word a : keeps dry_store (read_word a).
Proof. unfold read_word. keeps_tac. Qed.
Lemma dry_write_word a w : keeps dry_store (write_word a w).
Proof. unfold write_word. keeps_tac. Qed.
Hint Resolve dry_upd_region dry_find_region dry_read_word dry_write_word : keeps.
Lemma dry_convert_for a v : keeps dry_store (convert_pointers_for_remote_storage a v).
Proof. unfold convert_pointers_for_remote_storage. keeps_tac. Qed.
Lemma dry_convert_from a v : keeps dry_store (convert_pointers_from_remote_storage a v).
Proof. unfold convert_pointers_from_remote_storage. keeps_tac. Qed.
Lemma dry_register lb sz rb : keeps dry_store (register_region lb sz rb).
Proof. unfold register_region. keeps_tac. Qed.
Lemma dry_copy a n : keeps dry_store (copy_from_page_buffer a n).
Proof. unfold copy_from_page_buffer. keeps_tac. Qed.
Lemma dry_choose_slot : keeps dry_store choose_slot.
Proof. unfold choose_slot. keeps_tac. Qed.
Hint Resolve dry_convert_for dry_convert_from dry_register dry_copy dry_choose_slot : keeps.
Lemma dry_allocate_region v n : keeps dry_store (allocate_remote_region usleep v n).
Proof. unfold allocate_remote_region. keeps_tac. Qed.
Hint Resolve dry_allocate_region : keeps.
Lemma dry_fit_region v n i : keeps dry_store (fit_region usleep v n i).
Proof. unfold fit_region. keeps_tac. Qed.
Hint Resolve dry_fit_region : keeps.
Lemma dry_write_region v n : keeps dry_store (write_region usleep v n).
Proof. unfold write_region. keeps_tac. Qed.
Hint Resolve dry_write_region : keeps.
Lemma dry_write_page fd v a n : keeps dry_store (write_page usleep fd v a n).
Proof. unfold write_page, rdma_write_page. keeps_tac. Qed.
Lemma dry_rdma_read_page fd v a n : keeps dry_store (rdma_read_page usleep fd v a n).
Proof. unfold rdma_read_page. keeps_tac. Qed.
Hint Resolve dry_rdma_read_page : keeps.
Lemma dry_read_page fd v a n : keeps dry_store (read_page usleep fd v a n).
Proof. unfold read_page. keeps_tac. Qed.
End heapless.

(** *** The pager *)

Section dry.
Context {K : Type} {HK : Kernel K}.
Variable usleep : M rdma_sys unit.
Hypothesis Husleep : keeps heapless usleep.
Implicit Types s : machine K.

(** No simulated memory in this process, and no record a fault could use:
    the situation [prefetch_inert] shows a client to stay in. *)
Definition dry s : Prop := dry_store (m_store s) /\ no_usable s.

Lemma dry_fifo {A} (m : M fifo_state A) : keeps dry (fifo m).
Proof. by apply keeps_zoom_frame. Qed.
Lemma dry_kern {A} (m : M (K * mem) A) : keeps dry (kern m).
Proof. by apply keeps_zoom_frame. Qed.
Lemma dry_in_store {A} (m : M storage_state A) : keeps dry_store m -> keeps dry (store m).
Proof. intros Hm. apply (keeps_zoom _ store_lens dry_store); [done|by intros s [? ?]|by intros s t [? ?] ?]. Qed.
Lemma dry_change f : (forall s, m_store (f s) = m_store s /\ m_pf (f s) = m_pf s) -> keeps dry (modify f).
Proof.
  intros Hf. apply keeps_modify. intros s [Hs Hu]. destruct (Hf s) as [E1 E2].
  split; [by rewrite E1|]. unfold no_usable, pf_records. by rewrite E2.
Qed.
Lemma dry_upd_stats f : keeps dry (upd_stats f).
Proof. apply keeps_modify. by intros s [? ?]. Qed.
Hint Resolve dry_fifo dry_kern dry_upd_stats : keeps.
Hint Extern 1 (keeps dry (modify _)) => (apply dry_change; by intros []) : keeps.

Lemma dry_page_get p : keeps dry (page_get p).
Proof. apply dry_fifo. Qed.
Lemma dry_page_set p f : keeps dry (page_set p f).
Proof. apply dry_fifo. Qed.
Lemma dry_set_var x z : keeps dry (set_var x z).
Proof. unfold set_var. keeps_tac. Qed.
Lemma dry_add_var x z : keeps dry (add_var x z).
Proof. unfold add_var. keeps_tac. Qed.
Lemma dry_set_flag x b : keeps dry (set_flag x b).
Proof. unfold set_flag. keeps_tac. Qed.
Lemma dry_get_var x : keeps dry (get_var x).
Proof. apply keeps_gets. Qed.
Lemma dry_get_flag x : keeps dry (get_flag x).
Proof. apply keeps_gets. Qed.
Lemma dry_find_page v : keeps dry (find_page v).
Proof. apply keeps_gets. Qed.
Hint Resolve dry_page_get dry_page_set dry_set_var dry_add_var dry_set_flag dry_get_var dry_get_flag dry_find_page : keeps.

Lemma dry_disk_write fd a b n : keeps dry (extmem_disk_write usleep fd a b n).
Proof. unfold extmem_disk_write. keeps_tac. by apply dry_in_store, dry_write_page. Qed.
Lemma dry_disk_read fd a b n : keeps dry (extmem_disk_read usleep fd a b n).
Proof. unfold extmem_disk_read. keeps_tac. by apply dry_in_store, dry_read_page. Qed.
Hint Resolve dry_disk_write dry_disk_read : keeps.

(** *** The prefetcher in a client *)

Lemma dry_read_pointer p : keeps dry (read_page_end_pointer p).
Proof.
  unfold read_page_end_pointer, m_translator. keeps_tac.
  all: apply dry_in_store; first [apply dry_read_word | by apply dry_translator].
Qed.
Lemma dry_validate a v : keeps dry (validate_pointer a v).
Proof. unfold validate_pointer. keeps_tac. Qed.
Hint Resolve dry_read_pointer dry_validate : keeps.

Lemma dry_find_record v : keeps dry (find_prefetch_record v).
Proof. apply keeps_gets. Qed.
Lemma dry_record_at i : keeps dry (record_at i).
Proof. unfold record_at. keeps_tac. Qed.
Lemma dry_user_page v : keeps dry (get_user_page v).
Proof. apply keeps_gets. Qed.
Hint Resolve dry_find_record dry_record_at dry_user_page : keeps.

(** The allocation fails, so the records stay as they are. *)
Lemma dry_async tv sv : keeps dry (async_prefetch_page usleep tv sv).
Proof.
  unfold async_prefetch_page.
  repeat lazymatch goal with |- keeps _ (m_rdma (rdma_sim_allocate _ _ _) ≫= _) => fail | _ => keeps_step end.
  apply (keeps_bind_res _ _ _ (fun r => r.2 = None)).
  - intros s [Hs Hu]. apply (wlp_zoom store_lens), (wlp_zoom sys_lens). eapply wlp_mono; [by apply heapless_allocate|].
    intros r x [Hx Hr]. done.
  - intros [e o] Ho. simpl in Ho. subst o. keeps_tac.
Qed.
Hint Resolve dry_async : keeps.

(** No record serves the fault. *)
Lemma dry_fault p s :
  dry s -> wlp (handle_page_fault_with_prefetch usleep p) (fun r s' => r = -1 /\ s' = s) s.
Proof.
  intros [_ Hu]. unfold handle_page_fault_with_prefetch, get_var. wlp_norm. destruct p as [p|]; [|by wlp_norm].
  destruct (negb _); [by wlp_norm|]. wlp_norm. intros _. unfold page_get at 1, page_at, fifo. rewrite wlp_zoom.
  wlp_norm. intros pg _. simpl. rewrite set_fifo_same. wlp_norm. apply find_record_wlp. cbv beta.
  destruct (record_index _ _) as [i|]; [|by wlp_norm]. rewrite wlp_bind. apply wlp_record_at. intros r Hr.
  rewrite (Forall_lookup_1 _ _ _ _ Hu Hr). by wlp_norm.
Qed.

(** *** The parts of a policy *)

Lemma dry_pagesize_of pg : keeps dry (pagesize_of pg).
Proof. unfold pagesize_of. keeps_tac. Qed.
Lemma dry_ensure_buffer : keeps dry ensure_buffer.
Proof. unfold ensure_buffer, map_private. keeps_tac. Qed.
Lemma dry_copy_in d a n : keeps dry (copy_in d a n).
Proof. unfold copy_in. keeps_tac. Qed.
Lemma dry_enqueue l p : keeps dry (enqueue l p).
Proof. apply dry_fifo. Qed.
Lemma dry_dequeue l : keeps dry (dequeue l).
Proof. apply dry_fifo. Qed.
Lemma dry_tryremove l p : keeps dry (tryremove l p).
Proof. apply dry_fifo. Qed.
Lemma dry_entries l : keeps dry (entries l).
Proof. unfold entries. keeps_tac. Qed.
Hint Resolve dry_pagesize_of dry_ensure_buffer dry_copy_in dry_enqueue dry_dequeue dry_tryremove dry_entries : keeps.

Lemma dry_wp_page p b : keeps dry (extmem_wp_page p b).
Proof. unfold extmem_wp_page. keeps_tac. Qed.
Lemma dry_get_bits p : keeps dry (pt_get_bits p).
Proof. unfold pt_get_bits. keeps_tac. Qed.
Lemma dry_clear_accessed p : keeps dry (pt_clear_accessed_flag p).
Proof. unfold pt_clear_accessed_flag, pt_clear. keeps_tac. Qed.
Lemma dry_detach l p : keeps dry (detach_from l p).
Proof. unfold detach_from. keeps_tac. Qed.
Lemma dry_down p o b w : keeps dry (lrudisk_migrate_down usleep p o b w).
Proof. unfold lrudisk_migrate_down, extmem_wp_page, extmem_migrate_downdisk. keeps_tac. Qed.
Hint Resolve dry_wp_page dry_get_bits dry_clear_accessed dry_detach dry_down : keeps.

Lemma dry_take_reserve v : keeps dry (take_reserve v).
Proof. unfold take_reserve. keeps_tac. Qed.
Lemma dry_take_disk : keeps dry take_disk_page.
Proof. unfold take_disk_page. keeps_tac. Qed.
Hint Resolve dry_take_reserve dry_take_disk : keeps.
Lemma dry_add_page p : keeps dry (add_page p).
Proof. unfold add_page. keeps_tac. Qed.
Lemma dry_remove_hash p : keeps dry (remove_page p).
Proof. unfold remove_page. keeps_tac. Qed.
End dry.

#[export] Hint Resolve dry_fifo dry_kern dry_upd_stats dry_page_get dry_page_set dry_set_var dry_add_var dry_set_flag
  dry_get_var dry_get_flag dry_find_page dry_disk_write dry_disk_read dry_read_pointer dry_validate dry_find_record
  dry_record_at dry_user_page dry_async dry_pagesize_of dry_ensure_buffer dry_copy_in dry_enqueue dry_dequeue
  dry_tryremove dry_entries dry_wp_page dry_get_bits dry_clear_accessed dry_detach dry_down dry_take_reserve
  dry_take_disk dry_add_page dry_remove_hash : keeps.
#[export] Hint Extern 1 (keeps dry (modify _)) => (apply dry_change; by intros []) : keeps.

(** ** The contract *)

(** What the core relies on.  Starting the policy gives every frame and slot
    a descriptor at its own place.  A frame the policy gives out is a descriptor in
    nobody's hand whose place is a frame; what is given back or tracked ends
    in a list; swapping a page in and removing one leave the hand as it was;
    and no operation gives a client process memory of its own. *)
Class PolicyLaws {K : Type} `{Kernel K} (Pol : Policy K) : Prop := {
  init_law s : m_fifo s = no_pages -> in_u64 (vars s dramsize) -> in_u64 (vars s disksize) ->
    wlp paging_init (fun _ s' => minv s' (all_places (vars s dramsize) (vars s disksize)) ∅ /\ next_free s' /\ room s') s;
  pagefault_frame : takes_frame pagefault;
  add_page_rule p o (Q : unit -> machine K -> Prop) s L (H : gmap ptr held) :
    H !! p = None -> minv s L (<[p := hold (true, o)]> H) ->
    (forall s', minv s' L H -> Q tt s') -> wlp (policy_add_page p) Q s;
  put_freepage_rule p o (Q : unit -> machine K -> Prop) s L (H : gmap ptr held) :
    H !! p = None -> minv s L (<[p := hold (true, o)]> H) ->
    (forall s', minv s' L H -> Q tt s') -> wlp (policy_put_freepage p) Q s;
  detach_page_rule p (Q : unit -> machine K -> Prop) s L (H : gmap ptr held) :
    in_hand H -> minv s L H ->
    (forall o s', H !! p = None -> minv s' L (<[p := hold (false, o)]> H) -> Q tt s') ->
    wlp (policy_detach_page p) Q s;
  ack_rule v d o1 o2 (Q : unit -> machine K -> Prop) s L (H : gmap ptr held) :
    H !! v = None -> H !! d = None -> v <> d ->
    minv s L (<[v := hold (false, o1)]> (<[d := hold (true, o2)]> H)) ->
    (forall s', minv s' L H -> Q tt s') ->
    wlp (policy_ack_swapped_in v d) (fun _ s' => wlp (page_set v (set_in_dram true)) Q s') s;
  swapin_steady p : steady (page_swapin_external_async p);
  remove_steady p : steady (mmgr_remove p);
  ack_vma_quiet a l n : quiet (policy_ack_vma a l n);
  init_dry : keeps dry paging_init;
  pagefault_dry : keeps dry pagefault;
  add_page_dry p : keeps dry (policy_add_page p);
  put_freepage_dry p : keeps dry (policy_put_freepage p);
  detach_page_dry p : keeps dry (policy_detach_page p);
  ack_dry v d : keeps dry (policy_ack_swapped_in v d);
  swapin_dry p : keeps dry (page_swapin_external_async p);
  remove_dry p : keeps dry (mmgr_remove p);
  ack_vma_dry a l n : keeps dry (policy_ack_vma a l n);
}.

#[export] Hint Resolve init_dry pagefault_dry add_page_dry put_freepage_dry detach_page_dry ack_dry swapin_dry remove_dry ack_vma_dry : keeps.

Lemma still_ack_vma {K : Type} `{PolicyLaws K} f a l n : keeps (fun s => m_fifo s = f) (policy_ack_vma a l n).
Proof. apply ack_vma_quiet. Qed.
#[export] Hint Resolve still_ack_vma : keeps.

(** ** The LRU policy meets it *)

Section disklinux.
Context {K : Type} {HK : Kernel K}.
Variable usleep : M rdma_sys unit.
Hypothesis Husleep : keeps heapless usleep.
Notation dry := (@dry K).

Lemma dry_shrink_active n : keeps dry (shrink_active_loop n).
Proof. induction n as [|n IH]; simpl; keeps_tac. Qed.
Hint Resolve dry_shrink_active : keeps.
Lemma dry_shrink_inactive n r t : keeps dry (shrink_inactive_loop n r t).
Proof. revert r. induction t as [|t IH]; intros r; simpl; keeps_tac. Qed.
Hint Resolve dry_shrink_inactive : keeps.
Lemma dry_reclaim np ta na r n : keeps dry (reclaim_loop np ta na r n).
Proof.
  revert na r. induction n as [|n IH]; intros na r; simpl; unfold shrink_inactive_list, shrink_active_list; keeps_tac.
Qed.
Hint Resolve dry_reclaim : keeps.
Lemma dry_direct_asynch n p : keeps dry (direct_allocate_page_asynch n p).
Proof. unfold direct_allocate_page_asynch. keeps_tac. Qed.
Hint Resolve dry_direct_asynch : keeps.
(** What the policies share. *)
Lemma dry_kswapd_round rate direct : (forall n p, keeps dry (direct n p)) -> keeps dry (kswapd_round rate direct).
Proof. intros Hd. unfold kswapd_round. keeps_tac. all: apply Hd. Qed.
Lemma dry_evict_victim p : keeps dry (evict_victim usleep p).
Proof. unfold evict_victim, begin_eviction, become_frame, drop_reserve, finish_eviction. keeps_tac. Qed.
Lemma dry_evict_for_frame p : keeps dry (evict_for_frame usleep p).
Proof. unfold evict_for_frame, begin_eviction, become_frame, drop_reserve, finish_eviction. keeps_tac. Qed.
Hint Resolve dry_evict_victim dry_evict_for_frame : keeps.
Lemma dry_fetch_free direct : (forall n p, keeps dry (direct n p)) -> keeps dry (fetch_free usleep direct).
Proof.
  intros Hd. assert (Hl : forall n, keeps dry (fetch_loop usleep direct n)).
  { induction n as [|n IH]; simpl; keeps_tac. all: apply Hd. }
  unfold fetch_free, above_high_water, signal_kswapd. keeps_tac. all: apply Hl.
Qed.
Lemma dry_swapin_async_into p d o : keeps dry (swapin_async_into p d o).
Proof. unfold swapin_async_into, core_migrate_up_async_finish, become_disk, keep_reserve. keeps_tac. Qed.
Lemma dry_release_removed p : keeps dry (release_removed p).
Proof. unfold release_removed. keeps_tac. Qed.
Lemma dry_async_start p : keeps dry (core_migrate_up_async_start p).
Proof. unfold core_migrate_up_async_start. keeps_tac. Qed.
Hint Resolve dry_swapin_async_into dry_release_removed dry_async_start : keeps.

Lemma dry_init_pages b l i n : keeps dry (init_pages b l i n).
Proof. revert i. induction n as [|n IH]; intros i; simpl; unfold calloc_page; keeps_tac. Qed.
Lemma dry_init : keeps dry lrudisk_init.
Proof. pose proof dry_init_pages. unfold lrudisk_init. keeps_tac. Qed.
Lemma init_accounts (s : machine K) :
  m_fifo s = no_pages -> in_u64 (vars s dramsize) -> in_u64 (vars s disksize) ->
  wlp lrudisk_init (fun _ s' => minv s' (all_places (vars s dramsize) (vars s disksize)) ∅ /\ next_free s' /\ room s') s.
Proof. intros. apply wp_wlp. eapply wp_mono; [by apply init_spec|]. by intros [] s' (? & _ & ? & ?). Qed.

Lemma dry_kswapd : keeps dry lrudisk_synchkswapd_round.
Proof. apply dry_kswapd_round, dry_direct_asynch. Qed.
Lemma dry_eviction : keeps dry (lrudisk_evictionworker_round usleep).
Proof. unfold lrudisk_evictionworker_round. keeps_tac. Qed.
Lemma dry_fetch : keeps dry (fetch_free_asynch usleep).
Proof. apply dry_fetch_free, dry_direct_asynch. Qed.
Hint Resolve dry_fetch : keeps.
Lemma dry_pagefault : keeps dry (lrudisk_pagefault usleep).
Proof. unfold lrudisk_pagefault. keeps_tac. Qed.
Lemma dry_track p : keeps dry (lrudisk_track_page p).
Proof. unfold lrudisk_track_page. keeps_tac. Qed.
Lemma dry_put_free p : keeps dry (lrudisk_put_page_free p).
Proof. unfold lrudisk_put_page_free. keeps_tac. Qed.
Lemma dry_swapin_async p : keeps dry (lrudisk_swapin_external_async usleep p).
Proof. unfold lrudisk_swapin_external_async. keeps_tac. Qed.
Lemma dry_ack p d : keeps dry (lrudisk_ack_swapin p d).
Proof. unfold lrudisk_ack_swapin, become_disk, keep_reserve. keeps_tac. Qed.
Lemma dry_remove p : keeps dry (lrudisk_remove_page p).
Proof. unfold lrudisk_remove_page. keeps_tac. Qed.

Lemma wlp_detach_disk p (Q : unit -> machine K -> Prop) s L (H : gmap ptr held) :
  in_hand H -> minv s L H ->
  (forall o s', H !! p = None -> minv s' L (<[p := hold (false, o)]> H) -> Q tt s') ->
  wlp (lrudisk_detach_page p) Q s.
Proof.
  intros Hh Hs HQ. apply (wlp_detach disk_active_list p Q s L H Hh Hs).
  intros pg s' _ Hn E Hs'. rewrite E in Hs'. by eapply HQ.
Qed.

#[export] Instance disklinux_laws : PolicyLaws (disklinux usleep).
Proof.
  split; simpl.
  - apply init_accounts.
  - apply takes_pagefault.
  - intros *. apply wlp_track_page.
  - intros *. apply wlp_put_page_free.
  - intros *. apply wlp_detach_disk.
  - intros *. apply ack_swapin_spec.
  - apply steady_swapin_async.
  - apply steady_remove.
  - intros a l n f. apply keeps_ret.
  - apply dry_init.
  - apply dry_pagefault.
  - apply dry_track.
  - apply dry_put_free.
  - intros p. apply dry_detach.
  - apply dry_ack.
  - apply dry_swapin_async.
  - apply dry_remove.
  - intros a l n. apply keeps_ret.
Qed.
End disklinux.
