(* ===== verification/CoreSpec.v ===== *)
(** The pager as a whole: with any policy that keeps the contract of
    PolicyLaws.v, frames and slots are conserved by every sequence of faults,
    mappings, unmappings and rounds of the policy's threads. *)

From S2P Require Import Prelude UserPage AddressTranslation Fifo RdmaAlloc RdmaSim StorageRdma StorageSpec.
From S2P Require Import Machine Policy PointerPrefetch PrefetchSpec Migrate DiskLinux Core Accounting PolicySpec PolicyLaws.

Local Open Scope Z_scope.

Section core_spec.
Context {K : Type} {HK : Kernel K} {Pol : Policy K} {PL : PolicyLaws Pol}.
Variable usleep : M rdma_sys unit.
Hypothesis Husleep : keeps heapless usleep.
Implicit Types s : machine K.
Notation dry := (@dry K).

(** ** A client process stays one *)

Lemma dry_release p : keeps dry (release_page p).
Proof. unfold release_page. keeps_tac. Qed.
Hint Resolve dry_release : keeps.
Lemma dry_collect b n : keeps dry (prefetch_collect b n).
Proof. revert b. induction n as [|n IH]; intros b; simpl; keeps_tac. Qed.
Lemma dry_reads b js : keeps dry (prefetch_read usleep b js).
Proof. revert b. induction js as [|[p d] js IH]; intros b; simpl; keeps_tac. Qed.
Lemma dry_maps b js : keeps dry (prefetch_map b js).
Proof. revert b. induction js as [|[p d] js IH]; intros b; simpl; keeps_tac. Qed.
Hint Resolve dry_collect dry_reads dry_maps : keeps.
Lemma dry_try_prefetch b : keeps dry (core_try_prefetch usleep b).
Proof. unfold core_try_prefetch, ensure_prefetch_buffer, map_private. keeps_tac. Qed.
Lemma dry_follow p b : keeps dry (follow_pointer usleep p b).
Proof. unfold follow_pointer. keeps_tac. Qed.
Lemma dry_handle_fault p : keeps dry (handle_page_fault_with_prefetch usleep p).
Proof. intros s Hs. eapply wlp_mono; [by apply dry_fault|]. by intros r s' [_ ->]. Qed.
Hint Resolve dry_try_prefetch dry_follow dry_handle_fault : keeps.
Lemma dry_missing p : keeps dry (handle_missing_fault usleep p).
Proof. unfold handle_missing_fault. keeps_tac. Qed.
Lemma dry_first b : keeps dry (handle_first_fault b).
Proof. unfold handle_first_fault, adopt_page. keeps_tac. Qed.
Hint Resolve dry_missing dry_first : keeps.
Lemma dry_handler c a : keeps dry (uswap_sig_handler usleep c a).
Proof. unfold uswap_sig_handler, handle_wp_fault. keeps_tac. Qed.
Lemma dry_populate b e n : keeps dry (populate_loop b e n).
Proof. revert b. induction n as [|n IH]; intros b; simpl; keeps_tac. Qed.
Hint Resolve dry_populate : keeps.
Lemma dry_mmap a l p f fd o : keeps dry (extmem_mmap a l p f fd o).
Proof. unfold extmem_mmap, extmem_mmap_populate. keeps_tac. Qed.
Lemma dry_munmap_loop b e n : keeps dry (munmap_loop b e n).
Proof. revert b. induction n as [|n IH]; intros b; simpl; keeps_tac. Qed.
Hint Resolve dry_munmap_loop : keeps.
Lemma dry_munmap a l : keeps dry (extmem_munmap a l).
Proof. unfold extmem_munmap. keeps_tac. Qed.
Hint Resolve dry_handler dry_mmap dry_munmap : keeps.

(** *** Frames and slots under the handlers *)

Implicit Types L : gset place.
Implicit Types H : gmap ptr held.
Notation still f := (fun s : machine K => m_fifo s = f).

Lemma still_upd_stats g f : keeps (still f) (upd_stats g).
Proof. by apply still_modify. Qed.
Lemma still_upd_pf g f : keeps (still f) (upd_pf g).
Proof. by apply still_modify. Qed.
Hint Resolve still_upd_stats still_upd_pf : keeps.
Lemma still_record_at i f : keeps (still f) (record_at i).
Proof. unfold record_at. keeps_tac. Qed.
Hint Resolve still_record_at : keeps.
Lemma still_upd_record i g f : keeps (still f) (upd_record i g).
Proof. unfold upd_record. keeps_tac. Qed.
Lemma still_find_record v f : keeps (still f) (find_prefetch_record v).
Proof. apply keeps_gets. Qed.
Lemma still_find_page v f : keeps (still f) (find_page v).
Proof. apply keeps_gets. Qed.
Lemma still_m_rdma {A} (m : M rdma_sys A) f : keeps (still f) (m_rdma m).
Proof. apply still_store. Qed.
Lemma still_m_translator {A} (m : M address_translator_t A) f : keeps (still f) (m_translator m).
Proof. apply still_store. Qed.
Lemma still_add_page p f : keeps (still f) (add_page p).
Proof. unfold add_page. keeps_tac. Qed.
Lemma still_remove_page p f : keeps (still f) (remove_page p).
Proof. by apply still_modify. Qed.
Hint Resolve still_upd_record still_find_record still_find_page still_m_rdma still_m_translator still_add_page still_remove_page
  : keeps.
Lemma still_follow p b f : keeps (still f) (follow_pointer usleep p b).
Proof.
  unfold follow_pointer, read_page_end_pointer, validate_pointer, async_prefetch_page, start_prefetch, transfer_to_prefetch_buffer,
    add_prefetch_record, get_user_page. keeps_tac.
Qed.
Hint Resolve still_follow : keeps.

(** What [prefetch_collect] leaves in the hand. *)
Definition job_ptrs (js : list (ptr * ptr)) : list ptr := js ≫= fun j => [j.1; j.2].

Record jobs_held (js : list (ptr * ptr)) H H' : Prop := mk_jobs_held {
  jh_hand : in_hand H';
  jh_nodup : NoDup (job_ptrs js);
  jh_new : forall p, p ∈ job_ptrs js -> H !! p = None;
  jh_jobs : forall j, j ∈ js -> exists a b, H' !! j.1 = Some (hold (false, a)) /\ H' !! j.2 = Some (hold (true, b));
  jh_rest : forall p, p ∉ job_ptrs js -> H' !! p = H !! p;
}.

Lemma jobs_held_nil H : in_hand H -> jobs_held [] H H.
Proof. intros Hh. split; [done|apply NoDup_nil_2|by intros p ?%elem_of_nil|by intros p ?%elem_of_nil|done]. Qed.

Lemma jobs_held_cons p d a b js H H' :
  H !! p = None -> H !! d = None -> d <> p ->
  jobs_held js (<[d := hold (true, b)]> (<[p := hold (false, a)]> H)) H' -> jobs_held ((p, d) :: js) H H'.
Proof.
  intros Hp Hd Hne [Hh Hnd Hnew Hj Hr].
  assert (Hpj : p ∉ job_ptrs js) by (intros Hin; apply Hnew in Hin; rewrite lookup_insert_ne, lookup_insert_eq in Hin by done; done).
  assert (Hdj : d ∉ job_ptrs js) by (intros Hin; apply Hnew in Hin; by rewrite lookup_insert_eq in Hin).
  split; [done| | | |].
  - change (job_ptrs ((p, d) :: js)) with (p :: d :: job_ptrs js). constructor; [|by constructor].
    apply not_elem_of_cons. done.
  - intros x Hx. change (job_ptrs ((p, d) :: js)) with (p :: d :: job_ptrs js) in Hx.
    apply elem_of_cons in Hx as [->|[->|Hx]%elem_of_cons]; [done|done|]. apply Hnew in Hx.
    rewrite !lookup_insert_None in Hx. naive_solver.
  - intros j [->|Hin]%elem_of_cons; [|by apply Hj]. simpl. exists a, b. rewrite !Hr by done. split; look.
  - intros x Hx. change (job_ptrs ((p, d) :: js)) with (p :: d :: job_ptrs js) in Hx.
    apply not_elem_of_cons in Hx as [? [? Hx]%not_elem_of_cons]. rewrite Hr by done. look.
Qed.

Lemma collect_spec b n s L H :
  in_hand H -> minv s L H ->
  wlp (prefetch_collect b n) (fun js s' => exists H', jobs_held js H H' /\ minv s' L H') s.
Proof.
  revert b s H. induction n as [|n IH]; intros b s H Hh Hs; simpl; [acc_run; eauto using jobs_held_nil|].
  acc_run. destruct a as [p|]; [|acc_run; eauto using jobs_held_nil]. acc_run.
  destruct (migrating pg); [acc_run; eauto using jobs_held_nil|].
  destruct (negb (swapped_out pg)); [acc_run; eauto using jobs_held_nil|]. acc_run.
  eapply detach_page_rule; [done|eassumption|]. intros o1 s1 Hn Hs1. acc_run.
  eapply wlp_take_frame; [apply pagefault_frame|by apply in_hand_hold|eassumption|].
  intros d o s2 [Hne Hd]%fresh_hand Hs2. acc_step. eapply wlp_mono; [apply IH; [|eassumption]; auto|].
  intros js s3 (H' & Hj & Hs3). acc_run. exists H'. split; [|done]. by eapply jobs_held_cons.
Qed.

Lemma map_spec b js s L H H' :
  jobs_held js H H' -> minv s L H' -> wlp (prefetch_map b js) (fun _ s' => minv s' L H) s.
Proof.
  revert b s H'. induction js as [|[p d] js IH]; intros b s H' Hj Hs; simpl.
  { acc_run. eapply minv_eq; [done|]. apply map_eq. intros x. apply (jh_rest _ _ _ Hj). by apply not_elem_of_nil. }
  destruct Hj as [Hh Hnd Hnew Hj Hr]. destruct (Hj (p, d)) as (a & o & Hp & Hd); [by left|]. simpl in Hp, Hd.
  change (job_ptrs ((p, d) :: js)) with (p :: d :: job_ptrs js) in *.
  apply NoDup_cons in Hnd as [[Hne Hpj]%not_elem_of_cons [Hdj Hnd]%NoDup_cons].
  set (H1 := delete p (delete d H')).
  acc_run. assert (Hs1 : minv s' L (<[p := hold (false, a)]> (<[d := hold (true, o)]> H1))).
  { eapply minv_eq; [eassumption|]. unfold H1. held_eq. }
  assert (Hp1 : H1 !! p = None) by (unfold H1; look). assert (Hd1 : H1 !! d = None) by (unfold H1; look).
  eapply wlp_mono; [exact (ack_rule p d a o (fun _ s => minv s L H1) _ L H1 Hp1 Hd1 Hne Hs1 (fun _ h => h))|].
  intros [] s1 Hs2. rewrite wlp_bind. eapply wlp_mono; [exact Hs2|]. clear Hs1 Hs2. intros [] s2 Hs2. unfold release_page. acc_run. apply (IH _ _ H1); [|done]. split; [by unfold H1; auto|done| | |].
  - intros x Hx. apply Hnew. right. by right.
  - intros [x y] Hin. destruct (Hj (x, y)) as (a' & b' & Ha' & Hb'); [by right|]. exists a', b'. simpl in *.
    assert (Hx : x ∈ job_ptrs js /\ y ∈ job_ptrs js).
    { unfold job_ptrs. rewrite !list_elem_of_bind. split; exists (x, y); (split; [|done]); simpl; [by left|right; by left]. }
    unfold H1. rewrite !lookup_delete_ne by (intros <-; naive_solver). done.
  - intros x Hx. unfold H1. destruct (decide (x = p)) as [->|Hxp]; [rewrite lookup_delete_eq; symmetry; apply Hnew; by left|].
    rewrite lookup_delete_ne by done. destruct (decide (x = d)) as [->|Hxd].
    { rewrite lookup_delete_eq. symmetry. apply Hnew. right. by left. }
    rewrite lookup_delete_ne by done. apply Hr. by rewrite !not_elem_of_cons.
Qed.

Lemma still_try_prefetch_buffer f : keeps (still f) ensure_prefetch_buffer.
Proof. unfold ensure_prefetch_buffer, map_private. keeps_tac. Qed.
Lemma still_prefetch_read b js f : keeps (still f) (prefetch_read usleep b js).
Proof. revert b. induction js as [|[p d] js IH]; intros b; simpl; keeps_tac. Qed.
Hint Resolve still_try_prefetch_buffer still_prefetch_read : keeps.

Lemma steady_try_prefetch b : steady (core_try_prefetch usleep b).
Proof.
  intros L H Hh s Hs. unfold core_try_prefetch. acc_run. eapply wlp_mono; [by apply collect_spec|].
  intros js s1 (H' & Hj & Hs1). acc_run. eapply wlp_mono; [by eapply map_spec|]. intros [] s2 Hs2. by acc_run.
Qed.

Lemma steady_first b : steady (handle_first_fault b).
Proof.
  intros L H Hh s Hs. unfold handle_first_fault. acc_run.
  eapply wlp_take_frame; [apply pagefault_frame|done|eassumption|]. intros p o s1 Hn Hs1. acc_run.
  destruct a as [q|]; acc_run.
  - eapply put_freepage_rule; [done|eassumption|]. intros s2 Hs2. by acc_run.
  - unfold adopt_page. acc_run. eapply add_page_rule; [done|eassumption|]. intros s2 Hs2. by acc_run.
Qed.

Lemma wlp_both {A} (m : M (machine K) A) (Q : A -> machine K -> Prop) s L H :
  keeps (fun s => minv s L H) m -> keeps dry m -> minv s L H -> dry s ->
  (forall a s', minv s' L H -> dry s' -> Q a s') -> wlp m Q s.
Proof.
  intros Hm Hd Hs Hy HQ. eapply wlp_mono; [apply wlp_and; [by apply Hm|by apply Hd]|]. intros a s' [? ?]. by apply HQ.
Qed.

Lemma keeps_quiet {A} (m : M (machine K) A) L H : quiet m -> keeps (fun s => minv s L H) m.
Proof. intros Hm s Hs. by eapply wlp_quiet. Qed.

Lemma keeps_touch p f L H :
  keeps_links f -> (forall pg, loc (f pg) = loc pg) -> keeps (fun s => minv s L H) (page_set p f).
Proof. intros Hf Hl s Hs. by eapply wlp_touch. Qed.

(** While the process has no usable record, a missing fault reads the page
    from its slot. *)
Lemma missing_spec p s L H :
  in_hand H -> minv s L H -> dry s -> wlp (handle_missing_fault usleep p) (fun _ s' => minv s' L H) s.
Proof.
  intros Hh Hs Hy. unfold handle_missing_fault.
  do 2 (rewrite wlp_bind; eapply wlp_both; [apply keeps_quiet; intros ?; keeps_tac|keeps_tac|exact Hs|exact Hy|];
    clear s Hs Hy; intros ? s Hs Hy). cbv zeta.
  destruct (migrating _); [by acc_run|]. destruct (negb _); [by acc_run|].
  rewrite wlp_bind. eapply wlp_both; [apply keeps_touch; [split; [by intros|by intros []]|by intros []]|keeps_tac|exact Hs|exact Hy|].
  clear s Hs Hy. intros _ s Hs Hy.
  do 5 (rewrite wlp_bind; eapply wlp_both; [apply keeps_quiet; intros ?; keeps_tac|keeps_tac|exact Hs|exact Hy|];
    clear s Hs Hy; intros ? s Hs Hy).
  rewrite wlp_bind. eapply wlp_mono; [by apply dry_fault|]. intros hit s1 [-> ->]. clear Hy. change (-1 =? 0) with false. cbv iota.
  acc_run. eapply wlp_steady; [apply swapin_steady|done|eassumption|]. intros [] s1 Hs1. unfold release_page. acc_run.
  destruct (sequential _ _ _); unfold when; [|by acc_run]. acc_run.
  eapply wlp_steady; [apply steady_try_prefetch|done|eassumption|]. intros x s2 Hs2. by acc_run.
Qed.

Lemma handler_spec c a s L H :
  in_hand H -> minv s L H -> dry s -> wlp (uswap_sig_handler usleep c a) (fun _ s' => minv s' L H) s.
Proof.
  intros Hh Hs Hy. unfold uswap_sig_handler.
  do 3 (rewrite wlp_bind; eapply wlp_both; [apply keeps_quiet; intros ?; keeps_tac|keeps_tac|exact Hs|exact Hy|];
    clear s Hs Hy; intros ? s Hs Hy).
  rewrite wlp_bind. apply (wlp_mono _ (fun _ s' => minv s' L H)); [|intros [] s1 Hs1; by acc_run].
  match goal with |- wlp (match ?o with Some _ => _ | None => _ end) _ _ => destruct o as [p|] end; [|by apply steady_first].
  rewrite wlp_bind. eapply wlp_both; [apply keeps_quiet; intros ?; keeps_tac|keeps_tac|exact Hs|exact Hy|].
  clear s Hs Hy. intros pg s Hs Hy. destruct (swapped_out pg); [by apply missing_spec|]. unfold handle_wp_fault. by acc_run.
Qed.

Lemma steady_populate b e n : steady (populate_loop b e n).
Proof.
  intros L H Hh. revert b. induction n as [|n IH]; intros b s Hs; simpl; destruct (_ <? _); [by acc_run..| |by acc_run].
  acc_step. eapply wlp_steady; [apply steady_first|done|eassumption|]. intros x s1 Hs1. by apply IH.
Qed.

Lemma steady_mmap a l p f fd o : steady (extmem_mmap a l p f fd o).
Proof.
  intros L H Hh s Hs. unfold extmem_mmap, extmem_mmap_populate. acc_run. destruct (mmap_flags f) as [fl pop]. cbv zeta.
  acc_run. destruct a1 as [q|]; [|by acc_run]. acc_run. destruct pop; unfold when; [|by acc_run]. acc_run.
  eapply wlp_steady; [apply steady_populate|done|eassumption|]. intros x s2 Hs2. by acc_run.
Qed.

Lemma steady_munmap_loop b e n : steady (K := K) (munmap_loop b e n).
Proof.
  intros L H Hh. revert b. induction n as [|n IH]; intros b s Hs; simpl; destruct (_ <? _); [by acc_run..| |by acc_run].
  acc_run. destruct a as [p|]; [|by apply IH]. acc_run.
  eapply wlp_steady; [apply remove_steady|done|eassumption|]. intros x s1 Hs1. acc_run. by apply IH.
Qed.

Lemma steady_munmap a l : steady (K := K) (extmem_munmap a l).
Proof.
  intros L H Hh s Hs. unfold extmem_munmap. acc_run.
  eapply wlp_steady; [apply steady_munmap_loop|done|eassumption|]. intros x s1 Hs1. by acc_run.
Qed.

(** *** Sequences of events *)

(** One round of each of the policy's threads. *)
Variable rounds : list (M (machine K) unit).

Definition thread_ok (m : M (machine K) unit) : Prop := steady m /\ keeps dry m.

(** What reaches the pager: a fault signal, the two intercepted calls, and
    the rounds of the threads. *)
Inductive event : Type :=
  | Fault_at (code addr : Z)
  | Map (addr length prot flags fd offset : Z)
  | Unmap (addr length : Z)
  | Round (thread : nat).

Definition run_event (e : event) : M (machine K) unit :=
  match e with
  | Fault_at c a => uswap_sig_handler usleep c a
  | Map a l p f fd o => extmem_mmap a l p f fd o;; mret tt
  | Unmap a l => extmem_munmap a l;; mret tt
  | Round i => default (mret tt) (rounds !! i)
  end.

Fixpoint run_events (es : list event) : M (machine K) unit :=
  match es with
  | [] => mret tt
  | e :: es => run_event e;; run_events es
  end.

Hypothesis rounds_ok : Forall thread_ok rounds.

Lemma round_ok i : thread_ok (default (mret tt) (rounds !! i)).
Proof.
  destruct (rounds !! i) as [m|] eqn:E; simpl; [by eapply Forall_lookup_1|].
  split; [intros ? ? ?|]; apply keeps_ret.
Qed.

Lemma event_spec e L H : in_hand H -> keeps (fun s => minv s L H /\ dry s) (run_event e).
Proof.
  intros Hh s [Hs Hy]. apply wlp_and.
  - destruct e as [c a|a l p f fd o|a l|i]; simpl.
    + by apply handler_spec.
    + acc_step. eapply wlp_steady; [apply steady_mmap|done|done|]. intros; by acc_run.
    + acc_step. eapply wlp_steady; [apply steady_munmap|done|done|]. intros; by acc_run.
    + by apply (proj1 (round_ok i)).
  - revert s Hs Hy. assert (Hk : keeps dry (run_event e)); [|intros; by apply Hk].
    destruct e; simpl; [keeps_tac..|apply round_ok].
Qed.

Lemma run_events_spec es s L H :
  in_hand H -> minv s L H -> dry s -> wlp (run_events es) (fun _ s' => minv s' L H /\ dry s') s.
Proof.
  intros Hh Hs Hy. apply (keeps_wlp (fun s => minv s L H /\ dry s)); [|done|done].
  induction es as [|e es IH]; simpl; [apply keeps_ret|]. apply keeps_bind; [by apply event_spec|by intros []].
Qed.

(** No frame and no slot is lost or handed out twice.  In a client
    process whose descriptors occupy the places [L], no two the same, with
    every listed one on the side its list stands for, the same holds after
    any sequence of faults, mappings, unmappings and rounds of the policy's
    threads that returns, for any policy that keeps the contract and any
    threads that keep the accounts; [H] may name descriptors outside the
    policy, such as the dummy page of [extmem_init]. *)
Theorem frames_conserved es s L H :
  in_hand H -> minv s L H -> dry s ->
  wlp (run_events es) (fun _ s' => minv s' L H /\ dry s') s.
Proof. apply run_events_spec. Qed.
End core_spec.

(** ** Instances *)

(** The process of [boot_machine] after [lrudisk_init]. *)
Definition booted : machine sim_kernel :=
  match lrudisk_init boot_machine with Done (_, s) => s | Fault _ => boot_machine end.

Lemma booted_minv : minv booted (all_places 8192 16384) ∅.
Proof.
  destruct (wp_elim _ _ _ (init_spec boot_machine eq_refl ltac:(vm_compute; split; congruence)
    ltac:(vm_compute; split; congruence))) as (u & s' & Hrun & Hm & _).
  unfold booted. by rewrite Hrun.
Qed.

(** Three pages on two frames. *)
Definition demo_events : list event :=
  [Fault_at 0 8192; Fault_at 0 12288; Round 0; Round 1; Fault_at 0 16384].

(** The two threads of the default build that move pages one by one. *)
Definition disklinux_rounds {K} `{Kernel K} (usleep : M rdma_sys unit) : list (M (machine K) unit) :=
  [lrudisk_synchkswapd_round; lrudisk_evictionworker_round usleep;; mret tt].

Lemma disklinux_rounds_ok {K} `{Kernel K} usleep :
  keeps heapless usleep -> Forall (thread_ok (K := K)) (disklinux_rounds usleep).
Proof.
  intros Hu. repeat constructor.
  - apply steady_kswapd.
  - apply dry_kswapd.
  - intros L H0 Hh. apply keeps_bind; [by apply steady_eviction|]. intros ?. apply keeps_ret.
  - apply keeps_bind; [by apply dry_eviction|]. intros ?. apply keeps_ret.
Qed.

(** Three pages on two frames: the third fault evicts. *)
Lemma frames_conserved_witness :
  exists s', run_events (Pol := disklinux (mret tt)) (mret tt) (disklinux_rounds (mret tt)) demo_events booted = Done (tt, s') /\
    minv s' (all_places 8192 16384) ∅.
Proof.
  pose proof (frames_conserved (Pol := disklinux (mret tt)) (PL := disklinux_laws (mret tt) (keeps_ret _ _)) (mret tt) (keeps_ret _ _)
    (disklinux_rounds (mret tt)) (disklinux_rounds_ok _ (keeps_ret _ _)) demo_events booted
    (all_places 8192 16384) ∅ in_hand_empty booted_minv ltac:(split; [by vm_compute|by vm_compute])) as H.
  assert (Hr : match run_events (Pol := disklinux (mret tt)) (mret tt) (disklinux_rounds (mret tt)) demo_events booted with
    Done _ => True | Fault _ => False end) by (by vm_compute).
  unfold wlp in H. destruct (run_events _ _ _ booted) as [[[] s']|]; [|done]. exists s'. split; [done|apply H].
Defined.
