(* ===== verification/SwapSpec.v ===== *)
(** What the pager does to the bytes of a page: eviction and swap-in through
    the storage, the asynchronous swap-in of the RDMA build, and the first
    touch.  The storage is the map of [StorageSpec], the kernel any kernel
    with the laws of [Machine]. *)

From S2P Require Import Prelude UserPage AddressTranslation Fifo RdmaAlloc RdmaSim StorageRdma StorageSpec.
From S2P Require Import Machine Policy PointerPrefetch PrefetchSpec Migrate DiskLinux Core Accounting PolicySpec.

Local Open Scope Z_scope.

Section swap.
Context {K : Type} {HK : Kernel K} {HL : KernelLaws K}.
Implicit Types s : machine K.

(** ** Steps *)

(** The storage of [s] holds [st], for [k] more operations. *)
Definition holds (k : Z) s (st : gmap Z (list byte)) : Prop := storage_rep k (m_store s) st.

Lemma storage_rep_set_mem k (s : storage_state) st x :
  storage_rep k s st ->
  storage_rep k (set_sys (mk_sys (segs (st_sys s)) (shm_key (st_sys s)) (next_shmid (st_sys s)) (server (st_sys s))
    (set_p_mem x (client (st_sys s))) (clock (st_sys s))) s) st.
Proof.
  intros (id & G & key & nid & clk & pid & tr & tw & shm & srv & cli & m & t & rs & n & c & -> & Hq & Htr & Hk & Hctr & Htab).
  exists id, G, key, nid, clk, pid, tr, tw, shm, srv, (set_p_mem x cli), m, t, rs, n, c.
  split; [done|]. split; [by apply quiet_set_mem|done].
Qed.

(** A call of the kernel, by its law. *)
Lemma wp_kern {A} (m : M (K * mem) A) (P : A -> K * mem -> Prop) (Q : A -> machine K -> Prop) s :
  wp m P (m_kern s, the_mem s) -> (forall a x, P a x -> Q a (set_the_mem x.2 (set_kern x.1 s))) -> wp (kern m) Q s.
Proof. intros Hm HQ. apply (wp_zoom kern_lens). eapply wp_mono; [exact Hm|]. intros a x Hx. by apply HQ. Qed.

Lemma holds_set_mem k s st x y : holds k s st -> holds k (set_the_mem x (set_kern y s)) st.
Proof. apply storage_rep_set_mem. Qed.

Lemma wp_write k st fd vo src (Q : unit -> machine K -> Prop) s :
  holds (k + 1) s st -> 0 <= k -> in_disk vo -> (size st < Z.to_nat MAX_REMOTE_REGIONS)%nat ->
  next_malloc (m_store s) <> 0 -> is_Some (st !! vo) \/ ~ no_fit PAGE_SIZE (remote_blocks (m_store s)) ->
  (forall x, storage_rep k x (<[vo := to_storage (mem_read (the_mem s) src page_bytes)]> st) ->
     (forall a, outside (next_malloc (m_store s)) PAGE_SIZE a -> client_mem x a = the_mem s a) -> Q tt (set_store x s)) ->
  wp (extmem_disk_write server_turn fd src vo PAGE_SIZE) Q s.
Proof.
  intros Hr Hk Hd Hroom Hmal Hfit HQ. unfold extmem_disk_write. wp_norm. apply (wp_zoom store_lens).
  eapply wp_mono; [apply (rep_write k); [exact Hr|done|done|by right]|].
  intros ret x (st' & Hx & Hout & Hres). wp_norm. apply HQ; [|exact Hout].
  destruct Hres as [[_ ->]|[_ [[? _]|(Hnone & Hno & _)]]]; [done|done|]. by destruct Hfit as [[? ?]|?]; [congruence|].
Qed.

Lemma wp_read k st fd vo dest bs (Q : unit -> machine K -> Prop) s :
  holds (k + 1) s st -> 0 <= k -> dest <> 0 -> st !! vo = Some bs ->
  (forall x, storage_rep k x st -> mem_read (client_mem x) dest page_bytes = from_storage bs ->
     (forall a, outside dest PAGE_SIZE a -> client_mem x a = the_mem s a) -> Q tt (set_store x s)) ->
  wp (extmem_disk_read server_turn fd vo dest PAGE_SIZE) Q s.
Proof.
  intros Hr Hk Hd Hst HQ. unfold extmem_disk_read. wp_norm. apply (wp_zoom store_lens).
  eapply wp_mono; [by apply (rep_read k _ st)|]. intros ret x [Hx Hres]. rewrite Hst in Hres. wp_norm. apply HQ; [done|apply Hres..].
Qed.

(** An assignment to a descriptor. *)
Lemma wp_page_assign p f pg (Q : unit -> machine K -> Prop) s :
  pages (m_fifo s) !! p = Some pg ->
  Q tt (set_fifo (mk_fifo_state (<[p := f pg]> (pages (m_fifo s))) (lists (m_fifo s))) s) -> wp (page_set p f) Q s.
Proof. intros Hp HQ. unfold page_set. apply (wp_zoom fifo_lens). by eapply wp_upd_page. Qed.

Lemma wp_pagesize_of pg (Q : Z -> machine K -> Prop) s : pt pg = BASEP -> Q PAGE_SIZE s -> wp (pagesize_of pg) Q s.
Proof. intros Hp HQ. unfold pagesize_of. by rewrite Hp. Qed.

Lemma wp_ensure_buffer (Q : unit -> machine K -> Prop) s :
  flags s buffer_allocated = true -> Q tt s -> wp ensure_buffer Q s.
Proof. intros Hb HQ. unfold ensure_buffer, get_flag. wp_norm. by rewrite Hb. Qed.

(** ** Eviction *)

(** The page at [p] may be written to the slot [o]. *)
Record evictable s (p : ptr) (pg : user_page) (o : Z) : Prop := mk_evictable {
  ev_page : pages (m_fifo s) !! p = Some pg;
  ev_resident : in_dram pg = true /\ swapped_out pg = false /\ pt pg = BASEP;
  ev_frame : 0 <= virtual_offset pg /\ virtual_offset pg + PAGE_SIZE <= vars s dramsize /\ vars s dramsize < 2 ^ 64;
  ev_slot : in_disk o /\ o + PAGE_SIZE <= vars s disksize;
  ev_va : va pg <> 0 /\ va pg mod PAGE_SIZE = 0 /\ registered (m_kern s) (va pg);
}.

(** The descriptor of an evicted page. *)
Definition evicted_page (o : Z) (pg : user_page) : user_page :=
  set_swapped_out true (set_in_dram false (set_virtual_offset o (set_migrating true pg))).

Lemma migrate_down_spec p pg o s k st :
  evictable s p pg o -> holds (k + 1) s st -> 0 <= k -> (size st < Z.to_nat MAX_REMOTE_REGIONS)%nat ->
  next_malloc (m_store s) <> 0 -> is_Some (st !! o) \/ ~ no_fit PAGE_SIZE (remote_blocks (m_store s)) ->
  wp (lrudisk_migrate_down server_turn p o false true)
     (fun _ s' => holds k s' (<[o := to_storage (mem_read (the_mem s) (va pg) page_bytes)]> st) /\
        pages (m_fifo s') !! p = Some (evicted_page o pg) /\ missing (m_kern s') (va pg) /\
        flags s' = flags s /\ (forall x, x <> migrations_down -> x <> bytes_migrated -> vars s' x = vars s x) /\
        (forall a, outside (va pg) PAGE_SIZE a -> outside (next_malloc (m_store s)) PAGE_SIZE a -> the_mem s' a = the_mem s a)) s.
Proof.
  intros [Hp (Hd & Hso & Hpt) (Hf1 & Hf2 & Hf3) [Ho1 Ho2] (Hv1 & Hv2 & Hreg)] Hr Hk Hroom Hmal Hfit.
  assert (HP : PAGE_SIZE = 4096) by done.
  unfold lrudisk_migrate_down, extmem_migrate_downdisk. wp_norm. eapply wp_page_assign; [exact Hp|].
  unfold when. wp_norm. cbv iota. wp_norm. eapply wp_page_assign; [apply lookup_insert_eq|]. simpl pages. simpl lists. rewrite insert_insert_eq.
  wp_norm. eapply wp_page_get; [apply lookup_insert_eq|]. wp_norm. apply wp_assert; [done|]. wp_norm.
  apply wp_pagesize_of; [exact Hpt|]. wp_norm. unfold in_disk in Ho1. simpl virtual_offset. simpl vars.
  do 4 (apply wp_assert; [rewrite ?u64_small by (unfold in_u64; lia); lia|]; wp_norm).
  eapply (wp_write k st); [exact Hr|done|done|done|done|done|]. intros x Hx Hsame. wp_norm.
  eapply wp_kern; [apply madvise_law|]. intros ok [kk m] (Hok & Hrest & Hmiss & _ & _). simpl in Hok, Hrest, Hmiss.
  specialize (Hok Hreg). subst ok. specialize (Hmiss eq_refl Hreg). wp_norm. apply wp_assert; [done|]. unfold add_var. wp_norm.
  eapply wp_page_assign; [apply lookup_insert_eq|]. simpl pages. simpl lists. rewrite insert_insert_eq. wp_norm.
  eapply wp_page_assign; [apply lookup_insert_eq|]. simpl pages. simpl lists. rewrite insert_insert_eq. wp_norm.
  eapply wp_page_get; [apply lookup_insert_eq|]. wp_norm. apply wp_assert; [simpl; by rewrite Hso|]. wp_norm.
  eapply wp_page_assign; [apply lookup_insert_eq|]. simpl pages. simpl lists. rewrite insert_insert_eq. wp_norm.
  eapply wp_page_get; [apply lookup_insert_eq|]. wp_norm. apply wp_assert; [done|].
  split; [by apply (holds_set_mem k (set_store x s) _ m kk)|]. split; [apply lookup_insert_eq|]. split; [exact Hmiss|].
  split; [done|]. split; [intros y Hy1 Hy2; simpl; by rewrite !update_ne|].
  intros y Hy1 Hy2. change (m y = the_mem s y). rewrite Hrest by done. exact (Hsame y Hy2).
Qed.

(** ** Swap-in *)

(** The page at [p] is in the slot its descriptor names, and its fault is
    being served. *)
Record loadable s (p : ptr) (pg : user_page) (o : Z) : Prop := mk_loadable {
  ld_page : pages (m_fifo s) !! p = Some pg;
  ld_out : in_dram pg = false /\ pt pg = BASEP;
  ld_slot : 0 <= virtual_offset pg /\ virtual_offset pg + PAGE_SIZE <= vars s disksize /\ vars s disksize < 2 ^ 64;
  ld_frame : 0 <= o /\ o + PAGE_SIZE <= vars s dramsize /\ vars s dramsize < 2 ^ 64;
  ld_va : va pg mod PAGE_SIZE = 0 /\ missing (m_kern s) (va pg);
  ld_buffer : flags s buffer_allocated = true /\ vars s buffer_space <> 0;
}.

Definition loaded_page (o : Z) (pg : user_page) : user_page := set_in_dram true (set_virtual_offset o pg).

(** The end of both swap-ins: the page at [va pg] is the transfer page. *)
Lemma wp_copy_in dst src (Q : unit -> machine K -> Prop) s :
  missing (m_kern s) dst ->
  (forall y, (forall v, missing y v <-> missing (m_kern s) v /\ v <> dst) ->
     Q tt (set_the_mem (mem_write (the_mem s) dst (mem_read (the_mem s) src page_bytes)) (set_kern y s))) ->
  wp (copy_in dst src PAGE_SIZE) Q s.
Proof.
  intros Hm HQ. unfold copy_in. wp_norm. eapply wp_kern; [apply copy_law|]. intros ok [y m] Hok. simpl in Hok.
  destruct ok; [|by destruct Hok]. destruct Hok as (_ & -> & Hmiss & _). apply wp_assert; [done|]. by apply HQ.
Qed.

Lemma mem_read_copy m dst bs : length bs = page_bytes -> mem_read (mem_write m dst bs) dst page_bytes = bs.
Proof. intros <-. apply mem_read_write_same. Qed.

Lemma migrate_up_spec p pg o s k st bs :
  loadable s p pg o -> holds (k + 1) s st -> 0 <= k -> st !! virtual_offset pg = Some bs ->
  wp (lrudisk_migrate_up server_turn p o)
     (fun _ s' => holds k s' st /\ pages (m_fifo s') !! p = Some (loaded_page o pg) /\
        mem_read (the_mem s') (va pg) page_bytes = from_storage bs /\ ~ missing (m_kern s') (va pg) /\
        (forall a, outside (va pg) PAGE_SIZE a -> outside (vars s buffer_space) PAGE_SIZE a -> the_mem s' a = the_mem s a)) s.
Proof.
  intros [Hp (Hd & Hpt) (Ho1 & Ho2 & Ho3) (Hf1 & Hf2 & Hf3) (Hv & Hmiss) (Hb & Hbuf)] Hr Hk Hst.
  assert (HP : PAGE_SIZE = 4096) by done.
  unfold lrudisk_migrate_up, extmem_migrate_updisk. wp_norm.
  eapply wp_page_get; [exact Hp|]. wp_norm. apply wp_assert; [by rewrite Hd|]. wp_norm.
  apply wp_ensure_buffer; [done|]. wp_norm. apply wp_pagesize_of; [done|]. wp_norm.
  do 2 (apply wp_assert; [lia|]; wp_norm).
  eapply (wp_read k st); [exact Hr|done|done|exact Hst|]. intros x Hx Hbs Hsame. wp_norm.
  apply wp_copy_in; [exact Hmiss|]. intros y Hy. wp_norm. apply wp_assert; [lia|]. unfold add_var. wp_norm.
  eapply wp_page_assign; [exact Hp|]. simpl pages. simpl lists. wp_norm.
  eapply wp_page_assign; [apply lookup_insert_eq|]. simpl pages. simpl lists. rewrite insert_insert_eq. wp_norm.
  change (the_mem (set_store x s)) with (client_mem x). simpl vars. rewrite Hbs.
  split; [by apply (holds_set_mem k (set_store x s) _ _ y)|]. split; [apply lookup_insert_eq|].
  assert (Hlen : length (from_storage bs) = page_bytes) by (rewrite <- Hbs; apply length_mem_read).
  split; [by apply mem_read_copy|]. split; [rewrite Hy; tauto|].
  intros z Hz1 Hz2. change (mem_write (client_mem x) (va pg) (from_storage bs) z = the_mem s z).
  rewrite (mem_write_outside _ _ _ _ PAGE_SIZE); [by apply Hsame| |done]. by rewrite Hlen.
Qed.

Lemma swap_round_spec p pg o roff s k st :
  evictable s p pg o -> holds (k + 2) s st -> 0 <= k -> (size st < Z.to_nat MAX_REMOTE_REGIONS)%nat ->
  next_malloc (m_store s) <> 0 -> is_Some (st !! o) \/ ~ no_fit PAGE_SIZE (remote_blocks (m_store s)) ->
  flags s buffer_allocated = true -> vars s buffer_space <> 0 ->
  0 <= roff /\ roff + PAGE_SIZE <= vars s dramsize -> vars s disksize < 2 ^ 64 ->
  let bytes := mem_read (the_mem s) (va pg) page_bytes in
  wp (lrudisk_migrate_down server_turn p o false true;; lrudisk_migrate_up server_turn p roff)
     (fun _ s' => mem_read (the_mem s') (va pg) page_bytes = clear_if (fun w => local_range w || remote_range w) bytes /\
        pages (m_fifo s') !! p = Some (loaded_page roff (evicted_page o pg)) /\
        ~ missing (m_kern s') (va pg) /\ holds k s' (<[o := to_storage bytes]> st) /\
        (forall a, outside (va pg) PAGE_SIZE a -> outside (next_malloc (m_store s)) PAGE_SIZE a ->
           outside (vars s buffer_space) PAGE_SIZE a -> the_mem s' a = the_mem s a)) s.
Proof.
  intros Hev Hr Hk Hroom Hmal Hfit Hb Hbuf Hroff Hdisk bytes. wp_norm.
  eapply wp_mono; [apply (migrate_down_spec p pg o s (k + 1) st); [done|by replace (k + 1 + 1) with (k + 2) by lia|lia|done..]|].
  intros [] s1 (Hr1 & Hp1 & Hm1 & Hf1 & Hv1 & Hs1). destruct Hev as [_ (_ & _ & Hpt) (_ & _ & Hram) [[Ho0 _] Ho] (_ & Hva & _)].
  set (st1 := <[o := _]> st) in Hr1.
  eapply wp_mono; [apply (migrate_up_spec p (evicted_page o pg) roff s1 k st1 (to_storage bytes)); [|done|done|apply lookup_insert_eq]|].
  - split; [done|done| | |done|]; rewrite ?Hf1, ?Hv1 by done; simpl; lia || done.
  - intros [] s2 (Hr2 & Hp2 & Hbs & Hm2 & Hs2). rewrite Hv1 in Hs2 by done. split_and!; [|done|done|done|].
    + change (va (evicted_page o pg)) with (va pg) in Hbs. rewrite Hbs. apply to_then_from, length_mem_read.
    + intros a Ha1 Ha2 Ha3. rewrite Hs2 by done. by apply Hs1.
Qed.

(** C5: a page survives eviction and synchronous swap-in.  An evictable
    page written to a slot of a working storage and read back, into whatever
    frame, has the bytes it had, up to a last word that lies in the local or
    the remote heap's range, which comes back as null; it is mapped again,
    its descriptor names the new frame, and the slot still holds its copy. *)
Theorem swap_page_roundtrip p pg o roff s k st :
  evictable s p pg o -> holds (k + 2) s st -> 0 <= k -> (size st < Z.to_nat MAX_REMOTE_REGIONS)%nat ->
  next_malloc (m_store s) <> 0 -> is_Some (st !! o) \/ ~ no_fit PAGE_SIZE (remote_blocks (m_store s)) ->
  flags s buffer_allocated = true -> vars s buffer_space <> 0 ->
  0 <= roff /\ roff + PAGE_SIZE <= vars s dramsize -> vars s disksize < 2 ^ 64 ->
  let bytes := mem_read (the_mem s) (va pg) page_bytes in
  wp (lrudisk_migrate_down server_turn p o false true;; lrudisk_migrate_up server_turn p roff)
     (fun _ s' => mem_read (the_mem s') (va pg) page_bytes = clear_if (fun w => local_range w || remote_range w) bytes /\
        pages (m_fifo s') !! p = Some (loaded_page roff (evicted_page o pg)) /\
        ~ missing (m_kern s') (va pg) /\ holds k s' (<[o := to_storage bytes]> st)) s.
Proof.
  intros. eapply wp_mono; [by apply (swap_round_spec p pg o roff s k st)|]. by intros [] s' (? & ? & ? & ? & _).
Qed.

(** The asynchronous swap-in of this build reads nothing from the
    storage: what it maps at the page's address is the thread's transfer
    page as it was, whatever the storage holds for the page's slot. *)
Theorem async_swapin_maps_buffer p pg o s k st :
  loadable s p pg o -> holds k s st ->
  wp (core_migrate_up_async_start p;; core_migrate_up_async_finish p o)
     (fun _ s' => mem_read (the_mem s') (va pg) page_bytes = mem_read (the_mem s) (vars s buffer_space) page_bytes /\
        pages (m_fifo s') !! p = Some (loaded_page o pg) /\ ~ missing (m_kern s') (va pg) /\ holds k s' st) s.
Proof.
  intros [Hp (Hd & Hpt) (Ho1 & Ho2 & Ho3) (Hf1 & Hf2 & Hf3) (Hv & Hmiss) (Hb & Hbuf)] Hr.
  assert (HP : PAGE_SIZE = 4096) by done.
  unfold core_migrate_up_async_start, core_migrate_up_async_finish, get_flag. wp_norm.
  eapply wp_page_get; [exact Hp|]. wp_norm. apply wp_assert; [by rewrite Hd|]. wp_norm.
  apply wp_ensure_buffer; [done|]. wp_norm. apply wp_pagesize_of; [done|]. wp_norm.
  do 2 (apply wp_assert; [rewrite ?u64_small by (unfold in_u64; lia); lia|]; wp_norm).
  eapply wp_page_get; [exact Hp|]. wp_norm. apply wp_assert; [by rewrite Hd|]. wp_norm. apply wp_assert; [done|]. wp_norm.
  apply wp_pagesize_of; [done|]. wp_norm.
  do 4 (apply wp_assert; [rewrite ?u64_small by (unfold in_u64; lia); lia|]; wp_norm).
  apply wp_copy_in; [exact Hmiss|]. intros y Hy. wp_norm. apply wp_assert; [lia|]. unfold add_var. wp_norm.
  eapply wp_page_assign; [exact Hp|]. simpl pages. simpl lists. wp_norm.
  eapply wp_page_assign; [apply lookup_insert_eq|]. simpl pages. simpl lists. rewrite insert_insert_eq. wp_norm.
  split; [apply mem_read_copy, length_mem_read|]. split; [apply lookup_insert_eq|].
  split; [rewrite Hy; tauto|by apply (holds_set_mem k s _ _ y)].
Qed.

(** ** The first touch *)

Lemma wp_get_data p d (Q : user_page -> machine K -> Prop) s D Q' :
  rep (m_fifo s) D Q' -> D !! p = Some d -> (forall pg, erase pg = d -> pages (m_fifo s) !! p = Some pg -> Q pg s) ->
  wp (page_get p) Q s.
Proof.
  intros Hr Hd HQ. destruct (rep_page _ _ _ _ _ Hr Hd) as (pg & Hp & He). eapply wp_page_get; [exact Hp|]. by apply HQ.
Qed.

Lemma wp_entries l ids (Q : Z -> machine K -> Prop) s D Q' :
  rep (m_fifo s) D Q' -> Q' !! l = Some ids -> Q (Z.of_nat (length ids)) s -> wp (entries l) Q s.
Proof.
  intros Hr Hl HQ. unfold entries. wp_norm. apply (wp_zoom fifo_lens). eapply wp_list_at; [by eapply rep_list|]. wp_norm.
  simpl. by rewrite set_fifo_same.
Qed.

Lemma wp_dequeue_data l ids x (Q : option ptr -> machine K -> Prop) s D Q' :
  rep (m_fifo s) D Q' -> Q' !! l = Some (ids ++ [x]) ->
  (forall y, rep y D (<[l := ids]> Q') -> Q (Some x) (set_fifo y s)) -> wp (dequeue l) Q s.
Proof.
  intros Hr Hl HQ. unfold dequeue, fifo. apply (wp_zoom fifo_lens). eapply wp_mono; [by eapply dequeue_spec|].
  intros o y (-> & Hy & _). rewrite last_snoc. apply HQ.
  rewrite length_app, Nat.add_1_r in Hy. simpl in Hy. by rewrite take_app_length in Hy.
Qed.

Lemma wp_enqueue_data l ids p d (Q : unit -> machine K -> Prop) s D Q' :
  rep (m_fifo s) D Q' -> Q' !! l = Some ids -> D !! p = Some d -> unlisted Q' p ->
  (forall y, rep y D (<[l := p :: ids]> Q') -> Q tt (set_fifo y s)) -> wp (enqueue l p) Q s.
Proof.
  intros Hr Hl Hd Hu HQ. unfold enqueue. apply (wp_zoom fifo_lens). eapply wp_mono; [by eapply enqueue_spec|].
  intros [] y Hy. by apply HQ.
Qed.

Lemma wp_above_high_water (Q : bool -> machine K -> Prop) s D Q' :
  rep (m_fifo s) D Q' -> is_Some (Q' !! active_list) -> is_Some (Q' !! inactive_list) -> (forall b, Q b s) ->
  wp above_high_water Q s.
Proof.
  intros Hr [a Ha] [i Hi] HQ. unfold above_high_water, get_flag, get_var. wp_norm.
  eapply wp_entries; [exact Hr|exact Ha|]. wp_norm. eapply wp_entries; [exact Hr|exact Hi|]. by wp_norm.
Qed.

(** The frame at the end of [dram_free_list] is handed out. *)
Lemma fetch_spec usleep f rest s D Q :
  rep (m_fifo s) D Q -> is_Some (Q !! active_list) -> is_Some (Q !! inactive_list) ->
  Q !! dram_free_list = Some (rest ++ [f]) ->
  wp (DiskLinux.fetch_free_asynch usleep)
     (fun p s' => p = f /\ exists y, s' = set_fifo y s /\ rep y D (<[dram_free_list := rest]> Q)) s.
Proof.
  intros Hr Ha Hi Hl. unfold fetch_free_asynch, fetch_free. wp_norm.
  eapply wp_above_high_water; [done|done|done|]. intros b. wp_norm. apply (wp_mono _ (fun _ s' => s' = s)).
  { unfold signal_kswapd. destruct b; by apply wp_ret. }
  intros [] ? ->. unfold fetch_loop. wp_norm. eapply wp_dequeue_data; [done|done|]. intros y Hy. wp_norm. eauto.
Qed.

Lemma pagefault_spec usleep f df rest s D Q :
  rep (m_fifo s) D Q -> is_Some (Q !! active_list) -> is_Some (Q !! inactive_list) ->
  Q !! dram_free_list = Some (rest ++ [f]) -> D !! f = Some df ->
  wp (lrudisk_pagefault usleep)
     (fun p s' => p = f /\ exists y, s' = set_fifo y s /\
        rep y (<[f := set_migrating true df]> D) (<[dram_free_list := rest]> Q)) s.
Proof.
  intros Hr Ha Hi Hl Hf. unfold lrudisk_pagefault. wp_norm. eapply wp_mono; [by eapply fetch_spec|].
  intros p s1 (-> & y & -> & Hy). wp_norm. eapply (wp_set_data f _ df); [by split|exact Hy|done|]. intros x Hx. wp_norm.
  split; [done|]. exists x. split; [by destruct s|done].
Qed.

(** The descriptor of a page touched for the first time. *)
Definition first_page (b : Z) (d : user_page) : user_page :=
  set_swapped_out false (set_migrating false (set_va b d)).

(** An assignment to the descriptor [f], one after the other. *)
Lemma wp_assign_data f g d D Q (Q1 : unit -> machine K -> Prop) s :
  keeps_links g -> rep (m_fifo s) (<[f := d]> D) Q ->
  (forall x, rep x (<[f := g d]> D) Q -> Q1 tt (set_fifo x s)) -> wp (page_set f g) Q1 s.
Proof.
  intros Hg Hr HQ. eapply wp_set_data; [exact Hg|exact Hr|apply lookup_insert_eq|].
  intros x Hx. rewrite insert_insert_eq in Hx. by apply HQ.
Qed.

Lemma adopt_spec f b d s D Q :
  rep (m_fifo s) (<[f := d]> D) Q -> va d = 0 -> b <> 0 -> b mod PAGE_SIZE = 0 -> m_hash s !! b = None ->
  wp (adopt_page f b)
     (fun _ s' => exists x, s' = set_hash (<[b := f]> (m_hash s)) (set_fifo x s) /\
        rep x (<[f := set_va b (set_swapped_out false (set_migrating true d))]> D) Q) s.
Proof.
  intros Hr Hv Hb0 Hbal Hb. unfold adopt_page. wp_norm.
  eapply wp_assign_data; [split; [by intros|by intros []]|exact Hr|]. intros y1 Hr1. wp_norm.
  eapply wp_assign_data; [split; [by intros|by intros []]|exact Hr1|]. intros y2 Hr2. wp_norm.
  eapply wp_get_data; [exact Hr2|apply lookup_insert_eq|]. intros pg1 E1 _. wp_norm.
  apply wp_assert; [change (va pg1) with (va (erase pg1)); rewrite E1; simpl; lia|]. wp_norm.
  eapply wp_assign_data; [split; [by intros|by intros []]|exact Hr2|]. intros y3 Hr3. wp_norm.
  do 2 (apply wp_assert; [lia|]; wp_norm). unfold add_page. wp_norm.
  eapply wp_get_data; [exact Hr3|apply lookup_insert_eq|]. intros pg2 E2 _. wp_norm.
  assert (Ev : va pg2 = b) by (change (va pg2) with (va (erase pg2)); by rewrite E2). rewrite Ev.
  apply wp_assert; [by apply bool_decide_eq_true|]. wp_norm. exists y3. split; [by destruct s|done].
Qed.

(** The end of the first-touch handler. *)
Lemma settle_spec f d n il s D Q :
  rep (m_fifo s) (<[f := d]> D) Q -> Q !! inactive_list = Some il -> unlisted Q f ->
  wp (page_set f (set_migrating false);; page_set f (set_swapped_out false);; lrudisk_track_page f;;
      add_var mem_allocated n;; add_var first_faults_handled 1;; add_var pages_allocated 1;; set_flag internal_call false)
     (fun _ s' => m_store s' = m_store s /\ m_kern s' = m_kern s /\ m_hash s' = m_hash s /\
        vars s' first_faults_handled = u64 (vars s first_faults_handled + 1) /\
        rep (m_fifo s') (<[f := set_swapped_out false (set_migrating false d)]> D) (<[inactive_list := f :: il]> Q)) s.
Proof.
  intros Hr Hi Hu. wp_norm. eapply wp_assign_data; [split; [by intros|by intros []]|exact Hr|]. intros y1 Hr1. wp_norm.
  eapply wp_assign_data; [split; [by intros|by intros []]|exact Hr1|]. intros y2 Hr2. unfold lrudisk_track_page. wp_norm.
  eapply wp_get_data; [exact Hr2|apply lookup_insert_eq|]. intros pg _ Hp. wp_norm.
  apply wp_assert; [apply bool_decide_eq_true, (rep_free _ _ _ Hr2 _ _ Hp Hu)|]. wp_norm.
  eapply (wp_enqueue_data inactive_list il f); [exact Hr2|done|apply lookup_insert_eq|exact Hu|].
  intros y3 Hr3. unfold add_var, set_flag. wp_norm. simpl. by split_and!.
Qed.

(** C9: the first touch of a page with a free frame.  The fault returns; the
    page's bytes are those of the zero page; the frame's descriptor, the one
    at the end of [dram_free_list], is the page's, is in the hash under its
    address and at the front of [inactive_list]; and no other page, list or
    hash entry changes. *)
Theorem first_touch b f df rest il s D Q :
  rep (m_fifo s) D Q -> is_Some (Q !! active_list) -> Q !! inactive_list = Some il ->
  Q !! dram_free_list = Some (rest ++ [f]) -> D !! f = Some df ->
  in_dram df = true -> va df = 0 -> pt df = BASEP ->
  m_hash s !! b = None -> b <> 0 -> b mod PAGE_SIZE = 0 -> missing (m_kern s) b ->
  wp (handle_first_fault (Pol := disklinux server_turn) b)
     (fun _ s' => mem_read (the_mem s') b page_bytes = mem_read (the_mem s) (vars s page_cache) page_bytes /\
        ~ missing (m_kern s') b /\ m_hash s' = <[b := f]> (m_hash s) /\
        rep (m_fifo s') (<[f := first_page b df]> D) (<[inactive_list := f :: il]> (<[dram_free_list := rest]> Q)) /\
        vars s' first_faults_handled = u64 (vars s first_faults_handled + 1)) s.
Proof.
  intros Hr Ha Hi Hl Hf Hram Hva Hpt Hb Hb0 Hbal Hmiss. unfold handle_first_fault, set_flag, find_page.
  cbn [pagefault policy_add_page policy_put_freepage disklinux]. wp_norm.
  apply wp_assert; [lia|]. wp_norm. eapply wp_mono; [by eapply (pagefault_spec _ f df)|].
  intros p s1 (-> & y & -> & Hr1). wp_norm. simpl m_hash. rewrite Hb. wp_norm.
  eapply wp_mono; [eapply (adopt_spec f b (set_migrating true df)); [exact Hr1|exact Hva|done|done|exact Hb]|].
  intros [] s2 (y1 & -> & Hr2). unfold get_var, set_var. wp_norm.
  eapply wp_get_data; [exact Hr2|apply lookup_insert_eq|]. intros pg3 E3 _. wp_norm.
  apply wp_pagesize_of; [change (pt pg3) with (pt (erase pg3)); by rewrite E3|]. wp_norm.
  apply wp_assert; [change (in_dram pg3) with (in_dram (erase pg3)); by rewrite E3|]. wp_norm.
  replace (va pg3) with b by (change (va pg3) with (va (erase pg3)); by rewrite E3).
  apply wp_copy_in; [exact Hmiss|]. intros kk Hkk.
  assert (Hu : unlisted (<[dram_free_list := rest]> Q) f).
  { pose proof (unlisted_once (m_fifo s) _ _ dram_free_list rest [] f Hr Hl) as Hu. by rewrite app_nil_r in Hu. }
  eapply wp_mono; [eapply settle_spec; [exact Hr2|by rewrite lookup_insert_ne|exact Hu]|].
  intros [] s3 (Hst & Hke & Hha & Hva3 & Hr3).
  split; [unfold the_mem; rewrite Hst; apply mem_read_copy, length_mem_read|]. split; [rewrite Hke; simpl; rewrite Hkk; tauto|].
  split; [by rewrite Hha|]. split; [|rewrite Hva3; simpl; by rewrite !update_ne].
  by replace (first_page b df) with (set_swapped_out false (set_migrating false
    (set_va b (set_swapped_out false (set_migrating true (set_migrating true df)))))) by by destruct df.
Qed.
End swap.

(** ** Instances *)

(** A process with the page [pg] under userfaultfd, mapped or not, and its
    transfer page at 65536. *)
Definition swap_machine (m : mem) (mapped : gset Z) (fs : fifo_state) : machine sim_kernel :=
  mk_machine (demo_store m [131072]) fs ∅ 2%positive
    (mk_sim_kernel [(4096, 16384)] mapped (fun _ => 0) [])
    (mk_prefetch [] zero_stats true MAX_PREFETCH_DISTANCE PREFETCH_VALIDATION_THRESHOLD)
    demo_vars (fun f => bool_decide (f = buffer_allocated)).

Definition one_page (pg : user_page) : fifo_state := mk_fifo_state {[1%positive := pg]} ∅.

(** A byte in the page at 4096, another in the transfer page. *)
Definition marked_mem : mem := fun a => if a =? 4100 then Byte.x2a else if a =? 65540 then Byte.x17 else Byte.x00.

Definition resident_page : user_page := set_pt BASEP (set_in_dram true (set_va 4096 page0)).
Definition stored_page : user_page := set_pt BASEP (set_swapped_out true (set_virtual_offset 4096 (set_va 4096 page0))).

Lemma swap_page_roundtrip_witness :
  wp (lrudisk_migrate_down server_turn 1%positive 8192 false true;; lrudisk_migrate_up server_turn 1%positive 4096)
    (fun _ s' => nth 4 (mem_read (the_mem s') 4096 page_bytes) Byte.x00 = Byte.x2a)
    (swap_machine marked_mem {[4096]} (one_page resident_page)).
Proof.
  eapply wp_mono.
  - apply (swap_page_roundtrip 1%positive resident_page 8192 4096 _ 0 ∅).
    + split; [done|done|vm_compute; split_and!; congruence|vm_compute; split_and!; congruence|split_and!; done].
    + apply demo_store_rep. lia.
    + lia.
    + rewrite map_size_empty. unfold MAX_REMOTE_REGIONS. lia.
    + done.
    + right. apply demo_room.
    + done.
    + done.
    + vm_compute. split; congruence.
    + done.
  - intros [] s' (E & _). change (va resident_page) with 4096 in E. rewrite E. by vm_compute.
Defined.

Lemma async_swapin_maps_buffer_witness :
  wp (core_migrate_up_async_start 1%positive;; core_migrate_up_async_finish 1%positive 4096)
    (fun _ s' => nth 4 (mem_read (the_mem s') 4096 page_bytes) Byte.x00 = Byte.x17)
    (swap_machine marked_mem ∅ (one_page stored_page)).
Proof.
  eapply wp_mono.
  - apply (async_swapin_maps_buffer 1%positive stored_page 4096 _ 0 ∅).
    + split; [done|done|vm_compute; split_and!; congruence|vm_compute; split_and!; congruence|split; done|split; done].
    + apply demo_store_rep. lia.
  - intros [] s' (E & _). change (va stored_page) with 4096 in E. rewrite E. by vm_compute.
Defined.

(** One free frame. *)
Definition frame_page : user_page := set_pt BASEP (set_in_dram true page0).
Definition one_frame : fifo_state :=
  match enqueue_fifo dram_free_list 1
          (mk_fifo_state {[1%positive := frame_page]} (gset_to_gmap (mk_fifo None None 0) (list_to_set all_lists))) with
  | Done (_, x) => x
  | Fault _ => no_pages
  end.

Lemma one_frame_rep : rep one_frame {[1%positive := frame_page]} (<[dram_free_list := [1%positive]]> empty_lists).
Proof.
  assert (Hr : rep (mk_fifo_state {[1%positive := frame_page]} (gset_to_gmap (mk_fifo None None 0) (list_to_set all_lists)))
    {[1%positive := frame_page]} empty_lists).
  { apply rep_init; [|done]. by intros p d [_ <-]%lookup_singleton_Some. }
  destruct (wp_elim _ _ _ (enqueue_spec _ _ _ dram_free_list [] 1%positive frame_page Hr eq_refl eq_refl
    ltac:(intros q ids [_ <-]%lookup_gset_to_gmap_Some; by apply not_elem_of_nil))) as ([] & x & Hrun & Hx).
  unfold one_frame. by rewrite Hrun.
Qed.

Lemma first_touch_witness :
  wp (handle_first_fault (Pol := disklinux server_turn) 4096)
    (fun _ s' => mem_read (the_mem s') 4096 page_bytes = replicate page_bytes Byte.x00 /\ m_hash s' = {[4096 := 1%positive]})
    (swap_machine marked_mem ∅ one_frame).
Proof.
  eapply wp_mono.
  - apply (first_touch 4096 1%positive frame_page [] [] _ {[1%positive := frame_page]} (<[dram_free_list := [1%positive]]> empty_lists));
      try done. apply one_frame_rep.
  - intros [] s' (-> & _ & -> & _). split; [by vm_compute|done].
Defined.
