(* ===== verification/ChainSpec.v ===== *)
(** The test's chain of pages under the pager: what a traversal finds after a
    page of the chain has been evicted and swapped in. *)

From S2P Require Import Prelude UserPage AddressTranslation Fifo RdmaAlloc RdmaSim StorageRdma StorageSpec.
From S2P Require Import Machine Policy PointerPrefetch PrefetchSpec Migrate DiskLinux Core Accounting PolicySpec SwapSpec TestChain.

Local Open Scope Z_scope.

(** A path that is cut: the last page of [l] has no successor. *)
Lemma path_app m l a l' : path m (l ++ a :: l') -> path m (a :: l').
Proof. induction l as [|b l IH]; [done|]. intros (_ & _ & Hp). by apply IH. Qed.

Lemma path_cut m m' l a l' :
  path m (l ++ a :: l') ->
  (forall b, b ∈ l -> le_combine (mem_read m' (b + sizeof_data) 8) = le_combine (mem_read m (b + sizeof_data) 8)) ->
  le_combine (mem_read m' (a + sizeof_data) 8) = 0 -> path m' (l ++ [a]).
Proof.
  intros Hp Hsame H0. induction l as [|b l IH]; simpl in *.
  - by destruct Hp as (Ha & _ & _).
  - destruct Hp as (Hb & Hw & Hp). split; [done|]. split.
    + rewrite Hsame by (by left). rewrite Hw. by destruct l.
    + apply IH; [done|]. intros c Hc. apply Hsame. by right.
Qed.

(** The pointer at the end of a page is among the bytes that are cleared. *)
Lemma cleared_link m m' a w :
  le_combine (mem_read m (a + sizeof_data) 8) = w -> local_range w = true ->
  mem_read m' a page_bytes = clear_if (fun w => local_range w || remote_range w) (mem_read m a page_bytes) ->
  le_combine (mem_read m' (a + sizeof_data) 8) = 0.
Proof.
  intros Hw Hl Hm. assert (Hlast : (last_word + 8 <= page_bytes)%nat) by (vm_compute; lia).
  assert (Ha : forall x, a + sizeof_data = x + Z.of_nat last_word <-> x = a).
  { intros x. change (Z.of_nat last_word) with sizeof_data. lia. }
  rewrite (proj2 (Ha a) eq_refl) in Hw |- *.
  rewrite <- (load_u64_mem m' a page_bytes) by done. rewrite Hm. unfold clear_if.
  rewrite (load_u64_mem m a page_bytes), Hw, Hl by done. simpl.
  apply load_store_u64; [by rewrite length_mem_read|done].
Qed.

Section chain.
Context {K : Type} {HK : Kernel K} {HL : KernelLaws K}.
Variable owned : Z -> bool.
Implicit Types s : machine K.

(** The page at [a] and the page-sized block at [b] do not meet. *)
Definition apart_pages (a b : Z) : Prop := a + PAGE_SIZE <= b \/ b + PAGE_SIZE <= a.

(** C8: Eviction cuts a chain of pages.  Take any chain of at most NUM_PAGES
    pages as the test builds it, in the memory of a process under the pager,
    with a successor [b] of the page [a] that lies in the local heap's range.
    Before, a traversal visits the whole chain.  After the page [a] has been
    evicted and swapped in again, whatever frame it gets, the same traversal
    stops at [a] and calls that the end of the chain: the link at the end of
    the page has come back as null. *)
Theorem swapped_chain_is_cut (p : ptr) (pg : user_page) (o roff : Z) (k : Z) (st : gmap Z (list byte)) (l1 l2 : list Z) (a b : Z) s :
  evictable s p pg o -> holds (k + 2) s st -> 0 <= k -> (size st < Z.to_nat MAX_REMOTE_REGIONS)%nat ->
  next_malloc (m_store s) <> 0 -> is_Some (st !! o) \/ ~ no_fit PAGE_SIZE (remote_blocks (m_store s)) ->
  flags s buffer_allocated = true -> vars s buffer_space <> 0 ->
  0 <= roff /\ roff + PAGE_SIZE <= vars s dramsize -> vars s disksize < 2 ^ 64 ->
  va pg = a -> path (the_mem s) (l1 ++ a :: b :: l2) -> local_range b = true ->
  Forall (owns_page owned) (l1 ++ a :: b :: l2) -> Z.of_nat (length (l1 ++ a :: b :: l2)) <= NUM_PAGES ->
  Forall (fun c => apart_pages c a /\ apart_pages c (next_malloc (m_store s)) /\ apart_pages c (vars s buffer_space)) l1 ->
  let first := default a (hd_error l1) in
  wp (traverse_pointer_chain owned first)
     (fun r _ => r = (l1 ++ a :: b :: l2, Z.of_nat (length l1) + 1 + Z.of_nat (length l2))) (the_mem s) /\
  wp (lrudisk_migrate_down server_turn p o false true;; lrudisk_migrate_up server_turn p roff)
     (fun _ s' => wp (traverse_pointer_chain owned first) (fun r _ => r = (l1 ++ [a], Z.of_nat (length l1))) (the_mem s')) s.
Proof.
  intros Hev Hr Hk Hroom Hmal Hfit Hb Hbuf Hroff Hdisk Hva Hpath Hloc Hown Hlen Hap first.
  assert (HP : PAGE_SIZE = 4096) by done.
  assert (Hhead : forall l', hd_error (l1 ++ a :: l') = Some first) by (intros l'; unfold first; by destruct l1).
  rewrite length_app in Hlen. simpl in Hlen. split.
  - eapply wp_mono; [apply (traverse_path owned (l1 ++ a :: b :: l2)); [done|done| |apply Hhead]|].
    + rewrite length_app. simpl. lia.
    + intros r m' [_ ->]. rewrite length_app. simpl. f_equal. lia.
  - eapply wp_mono; [by apply (swap_round_spec p pg o roff s k st)|]. intros [] s' (Hbytes & _ & _ & _ & Hsame).
    rewrite Hva in Hbytes, Hsame.
    assert (Hp' : path (the_mem s') (l1 ++ [a])).
    { eapply (path_cut (the_mem s)); [exact Hpath| |].
      - intros c Hc. rewrite Forall_forall in Hap. destruct (Hap c Hc) as (H1 & H2 & H3). f_equal. apply word_same.
        intros x Hx. unfold apart_pages, sizeof_data, outside in *. apply Hsame; unfold outside; lia.
      - destruct (path_app _ _ _ _ Hpath) as (_ & Hw & _). by eapply cleared_link. }
    eapply wp_mono; [apply (traverse_path owned (l1 ++ [a])); [exact Hp'| | |apply Hhead]|].
    + apply Forall_app in Hown as [H1 H2]. apply Forall_app. split; [done|]. by apply Forall_cons in H2 as [? _]; apply Forall_singleton.
    + rewrite length_app. simpl. lia.
    + intros r m' [_ ->]. rewrite length_app. simpl. f_equal. lia.
Qed.
End chain.

(** ** Instance *)

(** Three pages; the second is the one that is evicted. *)
Definition first_link : Z := 0x7f0000002000.
Definition last_link : Z := 0x7f0000001000.
Definition linked_mem : mem :=
  mem_write (mem_write (fun _ => Byte.x00) (first_link + sizeof_data) (le_split 8 4096)) (4096 + sizeof_data) (le_split 8 last_link).

Lemma swapped_chain_is_cut_witness :
  wp (traverse_pointer_chain (fun _ => true) first_link)
     (fun r _ => r = ([first_link; 4096; last_link], 2)) linked_mem /\
  wp (lrudisk_migrate_down server_turn 1%positive 8192 false true;; lrudisk_migrate_up server_turn 1%positive 4096)
    (fun _ s' => wp (traverse_pointer_chain (fun _ => true) first_link) (fun r _ => r = ([first_link; 4096], 1)) (the_mem s'))
    (swap_machine linked_mem {[4096]} (one_page resident_page)).
Proof.
  apply (swapped_chain_is_cut (fun _ => true) 1%positive resident_page 8192 4096 0 ∅ [first_link] [] 4096 last_link
    (swap_machine linked_mem {[4096]} (one_page resident_page))).
  - split; [done|done|vm_compute; split_and!; congruence|vm_compute; split_and!; congruence|split_and!; done].
  - apply demo_store_rep. lia.
  - lia.
  - rewrite map_size_empty. unfold MAX_REMOTE_REGIONS. lia.
  - done.
  - right. apply demo_room.
  - done.
  - done.
  - vm_compute. split; congruence.
  - done.
  - done.
  - split_and!; (done || reflexivity).
  - done.
  - apply Forall_forall. by intros x _ y _.
  - vm_compute. congruence.
  - apply Forall_singleton. split_and!; right; by vm_compute.
Defined.
