(* ===== verification/LruSpec.v ===== *)
(** The page replacement of the LRU policy against reference algorithms on
    queues, oldest page first: [shrink_active_list] is the move of a batch,
    [shrink_inactive_list] is a second-chance clock over the accessed bits. *)

From S2P Require Import Prelude UserPage AddressTranslation Fifo RdmaAlloc RdmaSim StorageRdma StorageSpec.
From S2P Require Import Machine PointerPrefetch PrefetchSpec Migrate DiskLinux Core Accounting PolicySpec SwapSpec.

Local Open Scope Z_scope.

(** ** The accessed bits *)

(** What the flag ioctls of the kernel promise about the accessed bit of a
    registered page: a query reports it and changes nothing, and clearing it
    clears the bit of that page alone. *)
Class AccessedLaws (K : Type) `{KernelLaws K} : Type := {
  accessed : K -> Z -> bool;
  get_accessed_law k m v :
    registered k v ->
    wp (uffdio_get_flag v PT_ACCESSED_FLAG PT_DIRTY_FLAG)
       (fun r x => x = (k, m) /\ exists r1 r2, r = Some (r1, r2) /\
          (Z.land (Z.lor r1 r2) PT_ACCESSED_FLAG =? PT_ACCESSED_FLAG) = accessed k v) (k, m);
  clear_accessed_law k m v :
    registered k v ->
    wp (uffdio_clear_flag v PT_ACCESSED_FLAG 0)
       (fun ok x => ok = true /\ (forall u, accessed x.1 u = accessed k u && negb (u =? v)) /\
          (forall u, registered x.1 u <-> registered k u)) (k, m);
}.

#[export] Instance sim_kernel_accessed : AccessedLaws sim_kernel.
Proof.
  refine {| accessed := fun k v => Z.land (sk_flags k v) PT_ACCESSED_FLAG =? PT_ACCESSED_FLAG |};
    intros k m v Hreg; unfold wp; simpl in *.
  - rewrite Hreg. split; [done|]. do 2 eexists. split; [done|]. f_equal.
    by rewrite Z.land_lor_distr_l, <- !Z.land_assoc, Z.land_0_r, Z.lor_0_r.
  - split; [done|]. split; [|done]. intros u. unfold update. destruct (decide (u = v)) as [->|Hne].
    + rewrite Z.eqb_refl, andb_false_r. simpl. by rewrite Z.land_ldiff.
    + destruct (Z.eqb_spec u v); [done|]. by rewrite andb_true_r.
Defined.

(** ** The reference *)

(** The three lists, oldest page first, the descriptors, and the accessed
    bits by address. *)
Record clock : Type := mk_clock {
  c_inactive : list ptr;
  c_active : list ptr;
  c_evict : list ptr;
  c_pages : gmap ptr user_page;
  c_used : Z -> bool;
}.

(** The oldest inactive page: one that was used loses its accessed bit and
    gets a second chance, or the place among the active pages if this is its
    second use in a row; one that was not used is to be evicted (the result
    is then true). *)
Definition clock_step (c : clock) : option (bool * clock) :=
  match c_inactive c with
  | [] => None
  | p :: q =>
      d ← c_pages c !! p;
      if c_used c (va d) then
        let n := u64 (naccesses d + 1) in
        let used := fun u => c_used c u && negb (u =? va d) in
        Some (false,
          if 1 <? n
          then mk_clock q (c_active c ++ [p]) (c_evict c) (<[p := set_naccesses 0 d]> (c_pages c)) used
          else mk_clock (q ++ [p]) (c_active c) (c_evict c) (<[p := set_naccesses n d]> (c_pages c)) used)
      else Some (true, mk_clock q (c_active c) (c_evict c ++ [p]) (<[p := set_naccesses 0 d]> (c_pages c)) (c_used c))
  end.

Fixpoint clock_loop (want ret : Z) (tries : nat) (c : clock) : Z * clock :=
  match tries with
  | O => (ret, c)
  | S tries =>
      if ret <? want then
        match clock_step c with
        | None => (ret, c)
        | Some (b, c) => clock_loop want (if (b : bool) then ret + 1 else ret) tries c
        end
      else (ret, c)
  end.

(** At most [nr_pages] victims (all the list for 0 or too large a request),
    and at most 100 looks per wanted victim. *)
Definition clock_run (nr_pages : Z) (c : clock) : Z * clock :=
  let e := Z.of_nat (length (c_inactive c)) in
  let want := if (nr_pages =? 0) || (e <? nr_pages) then e else nr_pages in
  clock_loop want 0 (Z.to_nat (u64 (want * 100))) c.

(** ** The code runs the reference *)

Section lru.
Context {K : Type} {HK : Kernel K} {HL : KernelLaws K} {HA : AccessedLaws K}.
Implicit Types s : machine K.

(** The three lists hold [i], [a] and [e], oldest first, and the other lists
    are those of [Q0]; [P] is known of the lists. *)
Definition lists_at (P : gmap lid (list ptr) -> Prop) (x : fifo_state) (Q0 : gmap lid (list ptr))
    (D : gmap ptr user_page) (i a e : list ptr) : Prop :=
  exists Q, rep x D Q /\ P Q /\ Q !! inactive_list = Some (reverse i) /\ Q !! active_list = Some (reverse a) /\
    Q !! eviction_list = Some (reverse e) /\
    (forall l, l <> inactive_list -> l <> active_list -> l <> eviction_list -> Q !! l = Q0 !! l).

Notation lists_in := (lists_at (fun _ => True)).
Notation lists_but p := (lists_at (fun Q => unlisted Q p)).

(** [s] stands for the clock [c]. *)
Record stands s (Q0 : gmap lid (list ptr)) (c : clock) : Prop := mk_stands {
  st_lists : lists_in (m_fifo s) Q0 (c_pages c) (c_inactive c) (c_active c) (c_evict c);
  st_used : forall v, accessed (m_kern s) v = c_used c v;
  st_registered : forall p d, p ∈ c_inactive c -> c_pages c !! p = Some d ->
    va d mod PAGE_SIZE = 0 /\ registered (m_kern s) (va d);
}.

Lemma unlisted_last (x : fifo_state) D Q l ids p :
  rep x D Q -> Q !! l = Some (ids ++ [p]) -> unlisted (<[l := ids]> Q) p.
Proof. intros Hr Hl. pose proof (unlisted_once _ _ _ l ids [] p Hr Hl) as Hu. by rewrite app_nil_r in Hu. Qed.

(** The oldest page of one of the lists leaves it. *)
Lemma wp_oldest l p i a e i' a' e' D Q0 (Q : option ptr -> machine K -> Prop) s :
  lists_in (m_fifo s) Q0 D i a e ->
  (l, i, a, e) = (inactive_list, p :: i', a', e') \/ (l, i, a, e) = (active_list, i', p :: a', e') ->
  (forall y, lists_but p y Q0 D i' a' e' -> Q (Some p) (set_fifo y s)) -> wp (dequeue l) Q s.
Proof.
  intros (R & Hr & _ & Hi & Ha & He & Ho) Hl HQ.
  destruct Hl as [[= -> -> -> ->]|[= -> -> -> ->]]; [rewrite reverse_cons in Hi|rewrite reverse_cons in Ha];
    (eapply wp_dequeue_data; [exact Hr|eassumption|]; intros y Hy; apply HQ; eexists; split; [exact Hy|];
     split; [by eapply unlisted_last|]; split_and!;
     [first [apply lookup_insert_eq | by rewrite lookup_insert_ne] ..|];
     intros l' H1 H2 H3; rewrite lookup_insert_ne by done; by apply Ho).
Qed.

(** A page in no list joins one of the three at its young end. *)
Lemma wp_youngest l p i a e i' a' e' D Q0 (Q : unit -> machine K -> Prop) s :
  lists_but p (m_fifo s) Q0 D i a e -> is_Some (D !! p) ->
  (l, i', a', e') = (inactive_list, i ++ [p], a, e) \/ (l, i', a', e') = (active_list, i, a ++ [p], e) \/
    (l, i', a', e') = (eviction_list, i, a, e ++ [p]) ->
  (forall y, lists_in y Q0 D i' a' e' -> Q tt (set_fifo y s)) -> wp (enqueue l p) Q s.
Proof.
  intros (R & Hr & Hu & Hi & Ha & He & Ho) [d Hd] Hl HQ.
  destruct Hl as [[= -> -> -> ->]|[[= -> -> -> ->]|[= -> -> -> ->]]];
    (eapply wp_enqueue_data; [exact Hr|eassumption|exact Hd|exact Hu|]; intros y Hy; apply HQ; eexists;
     split; [exact Hy|]; split; [done|]; rewrite ?reverse_snoc; split_and!;
     [first [apply lookup_insert_eq | by rewrite lookup_insert_ne] ..|];
     intros l' H1 H2 H3; rewrite lookup_insert_ne by done; by apply Ho).
Qed.

(** An assignment to a descriptor. *)
Lemma wp_assign_lists P p f d i a e D Q0 (Q : unit -> machine K -> Prop) s :
  keeps_links f -> lists_at P (m_fifo s) Q0 D i a e -> D !! p = Some d ->
  (forall y, lists_at P y Q0 (<[p := f d]> D) i a e -> Q tt (set_fifo y s)) -> wp (page_set p f) Q s.
Proof.
  intros Hf (R & Hr & HR) Hd HQ. eapply wp_set_data; [exact Hf|exact Hr|exact Hd|]. intros y Hy. apply HQ. by exists R.
Qed.

Lemma wp_get_bits p d (Q : Z -> machine K -> Prop) s D Q' :
  rep (m_fifo s) D Q' -> D !! p = Some d -> va d mod PAGE_SIZE = 0 -> registered (m_kern s) (va d) ->
  (forall b, (Z.land b PT_ACCESSED_FLAG =? PT_ACCESSED_FLAG) = accessed (m_kern s) (va d) -> Q b s) ->
  wp (pt_get_bits p) Q s.
Proof.
  intros Hr Hd Hal Hreg HQ. unfold pt_get_bits. wp_norm. eapply wp_get_data; [exact Hr|exact Hd|]. intros pg E _. wp_norm.
  replace (va pg) with (va d) by (by rewrite <- E). apply wp_assert; [lia|]. wp_norm.
  eapply wp_kern; [by apply get_accessed_law|]. intros r [k m] ([= -> ->] & r1 & r2 & -> & Hb). wp_norm.
  replace (set_the_mem _ _) with s by (by destruct s as [[[? ? ? ? [] ?]] ? ? ? ? ? ? ?]). by apply HQ.
Qed.

Lemma wp_clear_accessed p d (Q : unit -> machine K -> Prop) s D Q' :
  rep (m_fifo s) D Q' -> D !! p = Some d -> va d mod PAGE_SIZE = 0 -> registered (m_kern s) (va d) ->
  (forall s', m_fifo s' = m_fifo s -> (forall u, accessed (m_kern s') u = accessed (m_kern s) u && negb (u =? va d)) ->
    (forall u, registered (m_kern s') u <-> registered (m_kern s) u) -> Q tt s') ->
  wp (pt_clear_accessed_flag p) Q s.
Proof.
  intros Hr Hd Hal Hreg HQ. unfold pt_clear_accessed_flag, pt_clear. wp_norm.
  eapply wp_get_data; [exact Hr|exact Hd|]. intros pg E _. wp_norm.
  replace (va pg) with (va d) by (by rewrite <- E). apply wp_assert; [lia|]. wp_norm.
  eapply wp_kern; [by apply clear_accessed_law|]. intros ok [k m] (-> & Ha & Hg). wp_norm. apply wp_assert; [done|]. by apply HQ.
Qed.

(** The loop looks at pages as the clock does. *)
Lemma shrink_inactive_spec want ret n c s Q0 :
  stands s Q0 c ->
  wp (shrink_inactive_loop want ret n)
     (fun r s' => r = (clock_loop want ret n c).1 /\ stands s' Q0 (clock_loop want ret n c).2) s.
Proof.
  revert ret c s. induction n as [|n IH]; intros ret c s Hst; simpl; [by wp_norm|].
  destruct Hst as [Hlists Hused Hreg]. pose proof Hlists as (R & Hr & _ & Hi & _). wp_norm.
  eapply wp_entries; [exact Hr|exact Hi|]. rewrite length_reverse. destruct (ret <? want) eqn:Hret; simpl; [|by wp_norm].
  destruct c as [i a e D us]. unfold clock_step. simpl in *. destruct i as [|p q]; simpl; [by wp_norm|]. wp_norm.
  destruct (rep_member _ _ _ _ _ p Hr Hi) as [d Hd]; [apply elem_of_reverse; by left|]. rewrite Hd. simpl.
  destruct (Hreg p d ltac:(by left) Hd) as [Hal Hrg].
  eapply wp_oldest; [exact Hlists|by left|]. intros y1 Hy1. wp_norm. pose proof Hy1 as (R1 & Hr1 & _).
  eapply wp_get_bits; [exact Hr1|exact Hd|exact Hal|exact Hrg|]. intros b Hb. simpl in Hb. rewrite Hb, Hused.
  destruct (us (va d)) eqn:Hua.
  - wp_norm. eapply wp_assign_lists; [split; [by intros|by intros []]|exact Hy1|exact Hd|]. intros y2 Hy2. wp_norm.
    set (n1 := u64 (naccesses d + 1)) in *. pose proof Hy2 as (R2 & Hr2 & _).
    eapply wp_clear_accessed; [exact Hr2|apply lookup_insert_eq|done|done|]. intros s3 Ef3 Hu3 Hr3. wp_norm.
    change (m_fifo s3 = y2) in Ef3. subst y2.
    eapply wp_get_data; [exact Hr2|apply lookup_insert_eq|]. intros pg E _. wp_norm.
    replace (naccesses pg) with n1 by (change (naccesses pg) with (naccesses (erase pg)); by rewrite E).
    apply (wp_mono _ (fun _ s' => stands s' Q0 (if 1 <? n1
      then mk_clock q (a ++ [p]) e (<[p := set_naccesses 0 d]> D) (fun u => us u && negb (u =? va d))
      else mk_clock (q ++ [p]) a e (<[p := set_naccesses n1 d]> D) (fun u => us u && negb (u =? va d))))).
    2: { intros [] s' Hs'. by apply IH. }
    assert (Hfin : forall k p' d', p' ∈ p :: q -> <[p := set_naccesses k d]> D !! p' = Some d' ->
      va d' mod PAGE_SIZE = 0 /\ registered (m_kern s3) (va d')).
    { intros k p' d' Hp' [[<- <-]|[_ Hd']]%lookup_insert_Some; rewrite Hr3; [done|]. by eapply Hreg. }
    assert (Hu : forall v, accessed (m_kern s3) v = us v && negb (v =? va d)) by (intros v; by rewrite Hu3; simpl; rewrite Hused).
    destruct (1 <? n1).
    + wp_norm. eapply wp_assign_lists; [split; [by intros|by intros []]|exact Hy2|apply lookup_insert_eq|].
      intros y4 Hy4. rewrite insert_insert_eq in Hy4. wp_norm.
      eapply wp_youngest; [exact Hy4|rewrite lookup_insert_eq; eauto|by right; left|]. intros y5 Hy5.
      split; [exact Hy5|exact Hu|]. intros p' d' Hp'. apply Hfin. by right.
    + eapply wp_youngest; [exact Hy2|rewrite lookup_insert_eq; eauto|by left|]. intros y5 Hy5.
      split; [exact Hy5|exact Hu|]. intros p' d' Hp'. apply Hfin. simpl in Hp'. set_solver.
  - wp_norm. eapply wp_assign_lists; [split; [by intros|by intros []]|exact Hy1|exact Hd|]. intros y2 Hy2. wp_norm.
    eapply wp_youngest; [exact Hy2|rewrite lookup_insert_eq; eauto|by right; right|]. intros y3 Hy3.
    apply IH. split; [exact Hy3|exact Hused|]. simpl. intros p' d' Hp' [[<- <-]|[_ Hd']]%lookup_insert_Some; [done|].
    eapply Hreg; [by right|done].
Qed.

(** C19: [shrink_inactive_list] is the second-chance clock.  From lists, bits
    and descriptors that stand for [c], with every inactive page aligned and
    under userfaultfd, the function returns, with the number of victims the
    clock gives, in a state that stands for the clock's result: the same
    lists in the same order, the same access counts, the same accessed bits. *)
Theorem shrink_inactive_is_clock n c s Q0 :
  stands s Q0 c -> wp (shrink_inactive_list n) (fun r s' => r = (clock_run n c).1 /\ stands s' Q0 (clock_run n c).2) s.
Proof.
  intros Hst. pose proof Hst as [(R & Hr & _ & Hi & _) _ _]. unfold shrink_inactive_list, set_flag. wp_norm.
  eapply wp_entries; [exact Hr|exact Hi|]. rewrite length_reverse. wp_norm.
  eapply wp_mono; [apply shrink_inactive_spec; by destruct Hst|]. intros r s' [-> Hst']. wp_norm.
  split; [done|]. by destruct Hst'.
Qed.

(** *** What the clock spares *)

(** [p], used twice in a row, in the clock: still inactive with its bit set,
    or already among the active pages. *)
Definition spared (p : ptr) (d : user_page) (c : clock) : Prop :=
  p ∉ c_evict c /\ NoDup (c_inactive c) /\
  ((p ∈ c_inactive c /\ c_pages c !! p = Some d /\ c_used c (va d) = true /\
    forall p' d', p' ∈ c_inactive c -> p' <> p -> c_pages c !! p' = Some d' -> va d' <> va d) \/
   (p ∉ c_inactive c /\ p ∈ c_active c)).

Lemma spared_step p d c b c' :
  1 <= naccesses d < 2 ^ 64 - 1 -> spared p d c -> clock_step c = Some (b, c') -> spared p d c'.
Proof.
  intros Hn (Hev & Hnd & Hp) Hstep. destruct c as [i a e D us]. unfold clock_step in Hstep. simpl in *.
  destruct i as [|x q]; [done|]. apply NoDup_cons in Hnd as [Hx Hnd].
  destruct (D !! x) as [dx|] eqn:Hdx; simpl in Hstep; [|done]. destruct (decide (x = p)) as [->|Hne].
  - destruct Hp as [(_ & Hd & Hu & _)|[Hp _]]; [|set_solver]. simplify_eq. rewrite Hu in Hstep.
    rewrite u64_small in Hstep by (unfold in_u64; lia).
    destruct (Z.ltb_spec 1 (naccesses d + 1)); [|lia]. simplify_eq. split; [done|]. split; [done|]. right. set_solver.
  - assert (Hq : forall n, NoDup q -> (p ∈ x :: q /\ D !! p = Some d /\ us (va d) = true /\
        forall p' d', p' ∈ x :: q -> p' <> p -> D !! p' = Some d' -> va d' <> va d) ->
      va dx <> va d /\ p ∈ q /\ <[x := set_naccesses n dx]> D !! p = Some d /\ us (va d) = true /\
      forall p' d', p' ∈ x :: q -> p' <> p -> <[x := set_naccesses n dx]> D !! p' = Some d' -> va d' <> va d).
    { intros n _ (Hin & Hd & Hu & Hother). split; [by eapply (Hother x); [left|done|]|]. split; [set_solver|].
      split; [by rewrite lookup_insert_ne|]. split; [done|].
      intros p' d' Hp' Hne' [[<- <-]|[_ Hd']]%lookup_insert_Some; [|by eapply Hother].
      change (va dx <> va d). by eapply (Hother x); [left|done|]. }
    destruct (us (va dx)) eqn:Hux; [destruct (1 <? u64 (naccesses dx + 1))|]; simplify_eq; unfold spared; simpl;
      (split; [set_solver|]); (split; [first [done|apply NoDup_app; split_and!; [done|set_solver|apply NoDup_singleton]]|]);
      (destruct Hp as [Hp|Hp]; [left|right; set_solver]);
      [destruct (Hq 0 Hnd Hp) as (Hv & Hin & Hd & Hu & Ho)|
       destruct (Hq (u64 (naccesses dx + 1)) Hnd Hp) as (Hv & Hin & Hd & Hu & Ho)|
       destruct (Hq 0 Hnd Hp) as (Hv & Hin & Hd & Hu & Ho)];
      (split; [set_solver|]); (split; [done|]);
      (split; [rewrite ?Hu; first [done|destruct (Z.eqb_spec (va d) (va dx)); [congruence|done]]|]);
      intros p' d' Hp'; apply Ho; set_solver.
Qed.

Lemma spared_loop p d want ret n c :
  1 <= naccesses d < 2 ^ 64 - 1 -> spared p d c -> spared p d (clock_loop want ret n c).2.
Proof.
  intros Hn. revert ret c. induction n as [|n IH]; intros ret c Hs; simpl; [done|].
  destruct (ret <? want); [|done]. destruct (clock_step c) as [[b c']|] eqn:E; [|done].
  apply IH. by eapply spared_step.
Qed.

(** C20: A page in use is not reclaimed: an inactive page whose accessed bit
    is set and that was already found used once is not put on
    [eviction_list] by [shrink_inactive_list], whatever the request; it ends
    among the active pages, or stays inactive when the scan does not reach
    it. *)
Theorem used_page_survives n p d c s Q0 :
  stands s Q0 c -> p ∈ c_inactive c -> c_pages c !! p = Some d -> c_used c (va d) = true ->
  1 <= naccesses d < 2 ^ 64 - 1 ->
  (forall p' d', p' ∈ c_inactive c -> p' <> p -> c_pages c !! p' = Some d' -> va d' <> va d) ->
  wp (shrink_inactive_list n)
     (fun _ s' => exists D Q il al el, rep (m_fifo s') D Q /\ Q !! inactive_list = Some il /\ Q !! active_list = Some al /\
        Q !! eviction_list = Some el /\ p ∉ el /\ (p ∈ il \/ p ∈ al)) s.
Proof.
  intros Hst Hp Hd Hu Hn Hother. pose proof Hst as [(R & Hr & _ & Hi & Ha & He & _) _ _].
  assert (Hs : spared p d (clock_run n c).2).
  { apply spared_loop; [done|]. split; [|split].
    - intros Hpe. enough (inactive_list = eviction_list) by done.
      eapply (rep_disjoint _ _ _ _ _ _ _ p Hr Hi He); by apply elem_of_reverse.
    - rewrite <- (reverse_Permutation (c_inactive c)). apply (rep_dseg _ _ _ Hr _ _ Hi).
    - left. split_and!; done. }
  unfold shrink_inactive_list, set_flag. wp_norm.
  eapply wp_entries; [exact Hr|exact Hi|]. rewrite length_reverse. wp_norm.
  eapply wp_mono; [apply shrink_inactive_spec; by destruct Hst|]. intros r s' [_ [(R' & Hr' & _ & Hi' & Ha' & He' & _) _ _]]. wp_norm.
  destruct Hs as (Hev & _ & Hin). unfold clock_run in Hev, Hin. do 5 eexists.
  split; [exact Hr'|]. split; [exact Hi'|]. split; [exact Ha'|]. split; [exact He'|]. rewrite !elem_of_reverse.
  split; [exact Hev|]. destruct Hin as [(? & _)|[_ ?]]; auto.
Qed.

(** ** The active list *)

Definition forget (D : gmap ptr user_page) (ps : list ptr) : gmap ptr user_page :=
  foldl (fun D p => alter (set_naccesses 0) p D) D ps.

Lemma insert_as_alter (D : gmap ptr user_page) p d f : D !! p = Some d -> <[p := f d]> D = alter f p D.
Proof.
  intros Hd. apply map_eq. intros x. destruct (decide (x = p)) as [->|Hne].
  - by rewrite lookup_insert_eq, lookup_alter_eq, Hd.
  - by rewrite lookup_insert_ne, lookup_alter_ne.
Qed.

Lemma shrink_active_spec n i a e D s Q0 :
  lists_in (m_fifo s) Q0 D i a e ->
  wp (shrink_active_loop n)
     (fun r s' => r = Z.of_nat (Nat.min n (length a)) /\ m_kern s' = m_kern s /\ m_hash s' = m_hash s /\
        lists_in (m_fifo s') Q0 (forget D (take n a)) (i ++ take n a) (drop n a) e) s.
Proof.
  revert i a D s. induction n as [|n IH]; intros i a D s Hl; simpl; [rewrite app_nil_r; by wp_norm|].
  pose proof Hl as (R & Hr & _ & _ & Ha & _). wp_norm. eapply wp_entries; [exact Hr|exact Ha|]. rewrite length_reverse.
  destruct a as [|p a]; simpl; [rewrite app_nil_r; by wp_norm|]. wp_norm.
  destruct (rep_member _ _ _ _ _ p Hr Ha) as [d Hd]; [apply elem_of_reverse; by left|].
  eapply wp_oldest; [exact Hl|by right|]. intros y1 Hy1. wp_norm.
  eapply wp_assign_lists; [split; [by intros|by intros []]|exact Hy1|exact Hd|]. intros y2 Hy2. wp_norm.
  eapply wp_youngest; [exact Hy2|rewrite lookup_insert_eq; eauto|by left|]. intros y3 Hy3. wp_norm.
  eapply wp_mono; [by apply IH|]. intros r s' (-> & Hk & Hh & Hl'). wp_norm. split; [lia|]. split; [done|]. split; [done|].
  by rewrite (insert_as_alter D p d), <- app_assoc in Hl'.
Qed.

(** C10: [shrink_active_list] ages a batch of the active list: it returns,
    with the number [k] of pages moved, which is the request or the length of
    the list if that is smaller; the [k] oldest active pages are the youngest
    inactive ones, in the same order and with their access counts at 0; the
    other active pages, every other list and everything else in the
    descriptors but their links stay, and neither the hash nor the kernel is
    touched. *)
Theorem shrink_active_moves n i a e D s Q0 :
  0 <= n -> lists_in (m_fifo s) Q0 D i a e ->
  let k := Nat.min (Z.to_nat n) (length a) in
  wp (shrink_active_list n)
     (fun r s' => r = Z.of_nat k /\ m_kern s' = m_kern s /\ m_hash s' = m_hash s /\
        lists_in (m_fifo s') Q0 (forget D (take k a)) (i ++ take k a) (drop k a) e) s.
Proof.
  intros Hn Hl k. unfold shrink_active_list. destruct (Z.eqb_spec n 0) as [->|Hne].
  - subst k. simpl. rewrite app_nil_r. by wp_norm.
  - pose proof Hl as (R & Hr & _ & _ & Ha & _). unfold set_flag. wp_norm.
    eapply wp_entries; [exact Hr|exact Ha|]. rewrite length_reverse. wp_norm.
    replace (Z.to_nat (if Z.of_nat (length a) <? n then Z.of_nat (length a) else n)) with k
      by (subst k; destruct (Z.ltb_spec (Z.of_nat (length a)) n); lia).
    eapply wp_mono; [by apply shrink_active_spec|]. intros r s' (-> & ? & ? & ?). wp_norm.
    split_and!; [subst k; lia|done..].
Qed.
End lru.

(** ** An instance *)

(** Descriptors put on lists one after the other. *)
Fixpoint put_all (js : list (lid * ptr)) : M fifo_state unit :=
  match js with
  | [] => mret tt
  | (l, p) :: js => enqueue_fifo l p;; put_all js
  end.

Definition listed (Q : gmap lid (list ptr)) (js : list (lid * ptr)) : gmap lid (list ptr) :=
  foldl (fun Q (j : lid * ptr) => alter (cons j.2) j.1 Q) Q js.

Lemma put_all_spec js x D Q :
  rep x D Q -> NoDup js.*2 -> (forall l p, (l, p) ∈ js -> unlisted Q p /\ is_Some (D !! p) /\ is_Some (Q !! l)) ->
  wp (put_all js) (fun _ x' => rep x' D (listed Q js)) x.
Proof.
  revert x Q. induction js as [|[l p] js IH]; intros x Q Hr Hnd Hjs; simpl; [by wp_norm|].
  apply NoDup_cons in Hnd as [Hp Hnd]. destruct (Hjs l p) as (Hu & [d Hd] & [ids Hl]); [by left|]. wp_norm.
  eapply wp_mono; [by eapply enqueue_spec|]. intros [] y Hy.
  assert (E : alter (cons p) l Q = <[l := p :: ids]> Q).
  { apply map_eq. intros k. destruct (decide (k = l)) as [->|Hne].
    - by rewrite lookup_insert_eq, lookup_alter_eq, Hl.
    - by rewrite lookup_insert_ne, lookup_alter_ne. }
  simpl. rewrite E. apply IH; [done|done|]. intros l' p' Hin. destruct (Hjs l' p') as (Hu' & Hd' & Hl'); [by right|].
  split; [|split; [done|]].
  - intros k kids [[<- <-]|[_ Hk]]%lookup_insert_Some; [|exact (Hu' _ _ Hk)]. apply not_elem_of_cons. split.
    + intros ->. apply Hp, list_elem_of_fmap. by exists (l', p).
    + exact (Hu' _ _ Hl).
  - destruct (decide (l' = l)) as [->|Hne]; [rewrite lookup_insert_eq; eauto|by rewrite lookup_insert_ne].
Qed.

(** The lists of a start: the descriptors [D], those of [js] listed. *)
Definition fifo_with (D : gmap ptr user_page) (js : list (lid * ptr)) : fifo_state :=
  match put_all js (mk_fifo_state D (gset_to_gmap (mk_fifo None None 0) (list_to_set all_lists))) with
  | Done (_, x) => x
  | Fault _ => no_pages
  end.

Lemma fifo_with_rep D js :
  map_Forall (fun _ d => free_links d) D -> Z.of_nat (size D) < 2 ^ 64 -> NoDup js.*2 ->
  Forall (fun j => is_Some (D !! j.2) /\ is_Some (empty_lists !! j.1)) js ->
  rep (fifo_with D js) D (listed empty_lists js).
Proof.
  intros Hf He Hnd Hin.
  assert (Hr : rep (mk_fifo_state D (gset_to_gmap (mk_fifo None None 0) (list_to_set all_lists))) D empty_lists).
  { apply rep_init; [intros p d; apply Hf|done]. }
  destruct (wp_elim _ _ _ (put_all_spec js _ _ _ Hr Hnd
    ltac:(intros l p Hj; split; [by intros q ids [_ <-]%lookup_gset_to_gmap_Some ?%elem_of_nil|];
      rewrite Forall_forall in Hin; apply (Hin (l, p) Hj)))) as ([] & x & Hrun & Hx).
  unfold fifo_with. by rewrite Hrun.
Qed.

(** Three inactive pages, the first and the second used, the first for the
    second time; two active ones. *)
Definition lru_page (v n : Z) : user_page := set_naccesses n (set_pt BASEP (set_in_dram true (set_va v page0))).
Definition lru_pages : gmap ptr user_page :=
  {[1%positive := lru_page 4096 1; 2%positive := lru_page 8192 0; 3%positive := lru_page 12288 0;
    4%positive := lru_page 16384 7; 5%positive := lru_page 20480 3]}.
Definition lru_listed : list (lid * ptr) :=
  [(inactive_list, 1%positive); (inactive_list, 2%positive); (inactive_list, 3%positive);
   (active_list, 4%positive); (active_list, 5%positive)].
Definition lru_fifo : fifo_state := fifo_with lru_pages lru_listed.
Definition lru_clock : clock :=
  mk_clock [1%positive; 2%positive; 3%positive] [4%positive; 5%positive] [] lru_pages (fun v => (v =? 4096) || (v =? 8192)).
Definition lru_machine : machine sim_kernel :=
  mk_machine (demo_store (fun _ => Byte.x00) []) lru_fifo ∅ 6%positive
    (mk_sim_kernel [(4096, 65536)] ∅ (fun v => if (v =? 4096) || (v =? 8192) then 0x60 else 0x40) [])
    (mk_prefetch [] zero_stats true MAX_PREFETCH_DISTANCE PREFETCH_VALIDATION_THRESHOLD) demo_vars (fun _ => false).

Lemma lru_rep : rep lru_fifo lru_pages (listed empty_lists lru_listed).
Proof.
  apply fifo_with_rep; [|by vm_compute|apply (bool_decide_eq_true_1 (NoDup _)); by vm_compute|by repeat constructor].
  apply (bool_decide_eq_true_1 (map_Forall (fun _ d => free_links d) lru_pages)). by vm_compute.
Qed.

Lemma lru_lists : lists_at (fun _ => True) lru_fifo empty_lists lru_pages [1%positive; 2%positive; 3%positive] [4%positive; 5%positive] [].
Proof.
  exists (listed empty_lists lru_listed). split; [apply lru_rep|]. split; [done|]. split; [by vm_compute|]. split; [by vm_compute|].
  split; [by vm_compute|]. intros l H1 H2 H3. unfold listed. simpl. by rewrite !lookup_alter_ne by done.
Qed.

Lemma lru_stands : stands lru_machine empty_lists lru_clock.
Proof.
  split; [exact lru_lists| |].
  - intros v. change ((Z.land (if (v =? 4096) || (v =? 8192) then 0x60 else 0x40) PT_ACCESSED_FLAG =? PT_ACCESSED_FLAG) =
      (v =? 4096) || (v =? 8192)).
    by destruct ((v =? 4096) || (v =? 8192)).
  - intros p d Hp Hd. simpl in Hp. rewrite !elem_of_cons, elem_of_nil in Hp.
    destruct_or! Hp; subst; vm_compute in Hd; simplify_eq; by vm_compute.
Qed.

(** Two victims wanted: page 1 is promoted, page 3 is evicted at once, and
    page 2 after its second chance. *)
Lemma shrink_inactive_is_clock_witness :
  wp (shrink_inactive_list 2)
    (fun r s' => r = 2 /\ exists D Q, rep (m_fifo s') D Q /\ Q !! inactive_list = Some [] /\
       Q !! active_list = Some [1%positive; 5%positive; 4%positive] /\ Q !! eviction_list = Some [2%positive; 3%positive])
    lru_machine.
Proof.
  eapply wp_mono; [apply (shrink_inactive_is_clock 2 lru_clock lru_machine empty_lists), lru_stands|].
  intros r s' [Hr [(Q & Hrep & _ & Hi & Ha & He & _) _ _]]. split; [by rewrite Hr; vm_compute|].
  eexists _, Q. split; [exact Hrep|]. rewrite Hi, Ha, He. by vm_compute.
Defined.

Lemma used_page_survives_witness :
  wp (shrink_inactive_list 0) (fun _ s' => exists D Q el, rep (m_fifo s') D Q /\ Q !! eviction_list = Some el /\ 1%positive ∉ el)
    lru_machine.
Proof.
  eapply wp_mono.
  - apply (used_page_survives 0 1%positive (lru_page 4096 1) lru_clock lru_machine empty_lists lru_stands).
    + by left.
    + by vm_compute.
    + done.
    + by vm_compute.
    + intros p d Hp Hne Hd. simpl in Hp. rewrite !elem_of_cons, elem_of_nil in Hp.
      destruct_or! Hp; subst; [done|..]; vm_compute in Hd; by simplify_eq.
  - intros _ s' (D & Q & il & al & el & Hr & _ & _ & He & Hp & _). by exists D, Q, el.
Defined.

Lemma shrink_active_moves_witness :
  wp (shrink_active_list 1)
    (fun r s' => r = 1 /\ exists D Q, rep (m_fifo s') D Q /\ Q !! active_list = Some [5%positive] /\
       Q !! inactive_list = Some [4%positive; 3%positive; 2%positive; 1%positive])
    lru_machine.
Proof.
  eapply wp_mono; [apply (shrink_active_moves 1 _ _ _ _ lru_machine empty_lists ltac:(lia) lru_lists)|].
  intros r s' (Hr & _ & _ & Q & Hrep & _ & Hi & Ha & _). split; [done|]. eexists _, Q. by split_and!.
Defined.
