(* ===== verification/WindowSpec.v ===== *)
(** The sequential prefetch of [core.c]: what [core_try_prefetch] brings into
    memory.  Its data path is synchronous in this build, unlike that of the
    fault it accompanies. *)

From S2P Require Import Prelude UserPage AddressTranslation Fifo RdmaAlloc RdmaSim StorageRdma StorageSpec.
From S2P Require Import Machine Policy PointerPrefetch PrefetchSpec Migrate DiskLinux Core Accounting PolicySpec SwapSpec LruSpec.

Local Open Scope Z_scope.

(** ** The window *)

(** A page that is to be brought in, the bytes of its slot, and the frame it
    gets, with the two descriptors as they are at the start. *)
Record wjob : Type := mk_wjob {
  w_page : ptr;
  w_data : user_page;
  w_bytes : list byte;
  w_frame : ptr;
  w_fdata : user_page;
}.

(** The pages that follow [b]: swapped out, claimed by nobody, until the first
    address that is not in the hash or the end of the [n] pages looked at. *)
Fixpoint window (n : nat) (h : gmap Z ptr) (D : gmap ptr user_page) (b : Z) (ws : list wjob) : Prop :=
  match n, ws with
  | O, [] => True
  | O, _ => False
  | S n, [] => h !! (b + PAGE_SIZE) = None
  | S n, w :: ws =>
      h !! (b + PAGE_SIZE) = Some (w_page w) /\ D !! w_page w = Some (w_data w) /\
      va (w_data w) = b + PAGE_SIZE /\ migrating (w_data w) = false /\ swapped_out (w_data w) = true /\
      window n h D (b + PAGE_SIZE) ws
  end.

Lemma window_ext n h D D' b ws :
  (forall w, w ∈ ws -> D' !! w_page w = D !! w_page w) -> window n h D b ws -> window n h D' b ws.
Proof.
  revert b ws. induction n as [|n IH]; intros b [|w ws] HD; simpl; [done..|].
  intros (? & ? & ? & ? & ? & ?). split_and!; [done|rewrite HD by (by left); done|done..|].
  apply IH; [|done]. intros x Hx. apply HD. by right.
Qed.

Lemma window_va n h D b ws w :
  window n h D b ws -> w ∈ ws ->
  D !! w_page w = Some (w_data w) /\ b + PAGE_SIZE <= va (w_data w) /\ va (w_data w) <= b + Z.of_nat n * PAGE_SIZE /\
  swapped_out (w_data w) = true.
Proof.
  assert (HP : PAGE_SIZE = 4096) by done. revert b ws.
  induction n as [|n IH]; intros b [|v ws]; simpl; [by intros _ ?%elem_of_nil|done|by intros _ ?%elem_of_nil|].
  intros (_ & HD & Hva & _ & Hso & Hw) [->|Hin]%elem_of_cons; [split_and!; [done|lia|lia|done]|].
  destruct (IH _ _ Hw Hin) as (? & ? & ? & ?). split_and!; [done|lia|lia|done].
Qed.

Lemma window_length n h D b ws : window n h D b ws -> (length ws <= n)%nat.
Proof.
  revert b ws. induction n as [|n IH]; intros b [|w ws]; simpl; [done..|lia|].
  intros (_ & _ & _ & _ & _ & Hw). apply IH in Hw. lia.
Qed.

(** The pages of a window are different pages. *)
Lemma window_nodup n h D b ws : window n h D b ws -> NoDup (w_page <$> ws).
Proof.
  revert b ws. induction n as [|n IH]; intros b [|w ws]; simpl; [by intros _; constructor|done|by intros _; constructor|].
  intros (_ & HD & Hva & _ & _ & Hw). apply NoDup_cons. split; [|by eapply IH].
  intros (v & E & Hin)%list_elem_of_fmap. destruct (window_va _ _ _ _ _ _ Hw Hin) as (HDv & Hb & _).
  rewrite <- E, HD in HDv. injection HDv as E'. unfold PAGE_SIZE, BASEPAGE_SIZE in *. rewrite <- E' in Hb. lia.
Qed.

(** The descriptors a window takes. *)
Definition taken (ws : list wjob) : list ptr := (w_page <$> ws) ++ (w_frame <$> ws).

Lemma taken_cons w ws :
  NoDup (taken (w :: ws)) -> w_page w <> w_frame w /\ w_page w ∉ taken ws /\ w_frame w ∉ taken ws /\ NoDup (taken ws).
Proof.
  unfold taken. rewrite !fmap_cons. simpl. rewrite <- Permutation_middle. rewrite !NoDup_cons, not_elem_of_cons. tauto.
Qed.

(** From [D] to [D'] the pages of [ws] have become [f] and their frames [g]. *)
Definition rewritten (f g : wjob -> user_page) (ws : list wjob) (D D' : gmap ptr user_page) : Prop :=
  (forall w, w ∈ ws -> D' !! w_page w = Some (f w) /\ D' !! w_frame w = Some (g w)) /\
  (forall x, x ∉ taken ws -> D' !! x = D !! x).

Lemma rewritten_nil f g D : rewritten f g [] D D.
Proof. split; [by intros w ?%elem_of_nil|done]. Qed.

Lemma rewritten_cons f g w ws D D' :
  NoDup (taken (w :: ws)) -> rewritten f g ws (<[w_page w := f w]> (<[w_frame w := g w]> D)) D' -> rewritten f g (w :: ws) D D'.
Proof.
  intros (Hne & Hp & Hf & _)%taken_cons [Hin Hout]. split.
  - intros v [->|Hv]%elem_of_cons; [|by apply Hin]. rewrite !Hout, lookup_insert_eq, lookup_insert_ne, lookup_insert_eq; done.
  - intros x Hx. unfold taken in *. rewrite !fmap_cons, elem_of_app, !elem_of_cons in Hx.
    rewrite Hout, !lookup_insert_ne; [done|intros <-; tauto..|rewrite elem_of_app; tauto].
Qed.

Lemma in_taken w ws : w ∈ ws -> w_page w ∈ taken ws /\ w_frame w ∈ taken ws.
Proof. intros Hw. unfold taken. rewrite !elem_of_app. split; [left|right]; by apply list_elem_of_fmap_2. Qed.

(** ** Lists *)

Lemma other_than (x y : ptr) (l : list ptr) : x ∉ l -> y ∈ l -> x <> y.
Proof. by intros Hx Hy ->. Qed.

Lemma filter_same {A} (P1 P2 : A -> Prop) `{!forall x, Decision (P1 x), !forall x, Decision (P2 x)} (l : list A) :
  (forall x, x ∈ l -> P1 x <-> P2 x) -> filter P1 l = filter P2 l.
Proof.
  induction l as [|x l IH]; intros HP; [done|]. rewrite !filter_cons, IH by (intros y Hy; apply HP; by right).
  assert (Hx := HP x ltac:(by left)). repeat case_decide; tauto.
Qed.

(** The pages [ps] leave the list [l]. *)
Definition without (ps l : list ptr) : list ptr := filter (fun x => x ∉ ps) l.

Lemma without_cons p ps l1 l2 : NoDup (l1 ++ p :: l2) -> without (p :: ps) (l1 ++ p :: l2) = without ps (l1 ++ l2).
Proof.
  intros Hnd. rewrite <- Permutation_middle in Hnd. apply NoDup_cons in Hnd as [Hp _].
  unfold without. rewrite !filter_app, filter_cons_False by set_solver.
  f_equal; apply filter_same; intros x Hx; set_solver.
Qed.

Lemma without_nil l : without [] l = l.
Proof. unfold without. induction l as [|x l IH]; [done|]. rewrite filter_cons_True by apply not_elem_of_nil. by rewrite IH. Qed.

Lemma unlisted_taken (s : fifo_state) D Q l ids ids' x :
  rep s D Q -> Q !! l = Some ids -> x ∈ ids -> x ∉ ids' -> unlisted (<[l := ids']> Q) x.
Proof.
  intros Hr Hl Hx Hx' l' k [[<- <-]|[Hne Hl']]%lookup_insert_Some Hin; [done|].
  apply Hne. eapply rep_disjoint; [exact Hr|exact Hl|exact Hl'|exact Hx|exact Hin].
Qed.

(** ** Two descriptors in hand *)

Section two.
Context {K : Type} {HK : Kernel K}.
Implicit Types s : machine K.

Lemma wp_assign_first p f g dp df D Q (Q1 : unit -> machine K -> Prop) s :
  keeps_links g -> rep (m_fifo s) (<[p := dp]> (<[f := df]> D)) Q ->
  (forall x, rep x (<[p := g dp]> (<[f := df]> D)) Q -> Q1 tt (set_fifo x s)) -> wp (page_set p g) Q1 s.
Proof. apply wp_assign_data. Qed.

Lemma wp_assign_second p f g dp df D Q (Q1 : unit -> machine K -> Prop) s :
  p <> f -> keeps_links g -> rep (m_fifo s) (<[p := dp]> (<[f := df]> D)) Q ->
  (forall x, rep x (<[p := dp]> (<[f := g df]> D)) Q -> Q1 tt (set_fifo x s)) -> wp (page_set f g) Q1 s.
Proof.
  intros Hne Hg Hr HQ. eapply wp_set_data; [exact Hg|exact Hr|by rewrite lookup_insert_ne, lookup_insert_eq|].
  intros x Hx. rewrite insert_insert_ne, insert_insert_eq in Hx by done. by apply HQ.
Qed.
End two.

(** Assignments to the one and to the other, on the way through a program. *)
Ltac assign_first := eapply wp_assign_first; [split; [by intros|by intros []]|eassumption|intros ? ?]; wp_norm.
Ltac assign_second := eapply wp_assign_second; [done|split; [by intros|by intros []]|eassumption|intros ? ?]; wp_norm.

(** ** The three loops *)

(** Both descriptors of a job while it is prefetched, and after. *)
Definition claimed (w : wjob) : user_page := set_migrating true (w_data w).
Definition claimed_frame (w : wjob) : user_page := set_migrating true (w_fdata w).
Definition brought_in (w : wjob) : user_page :=
  set_migrating false (set_swapped_out false (set_in_dram true (set_has_reserve true (set_reserve (Some (w_frame w))
    (set_virtual_offset (virtual_offset (w_fdata w)) (claimed w)))))).
Definition slot_reserve (w : wjob) : user_page :=
  set_has_reserve true (set_reserve (Some (w_page w)) (set_migrating false (set_swapped_out true (set_in_dram false
    (set_virtual_offset (virtual_offset (w_data w)) (claimed_frame w)))))).

Definition jobs_of (ws : list wjob) : list (ptr * ptr) := (fun w => (w_page w, w_frame w)) <$> ws.

Section window_spec.
Context {K : Type} {HK : Kernel K} {HL : KernelLaws K}.
Implicit Types s : machine K.

(** Taking a page off the list it is in. *)
Lemma wp_detach_data l l1 p l2 d (Q : unit -> machine K -> Prop) s D Q' :
  rep (m_fifo s) D Q' -> Q' !! l = Some (l1 ++ p :: l2) -> D !! p = Some d ->
  (forall y, rep y D (<[l := l1 ++ l2]> Q') -> Q tt (set_fifo y s)) -> wp (detach_from l p) Q s.
Proof.
  intros Hr Hl Hd HQ. unfold detach_from. wp_norm. eapply wp_get_data; [exact Hr|exact Hd|]. intros pg _ Hp. wp_norm.
  apply wp_assert.
  { apply bool_decide_eq_true, (rep_in_list _ _ _ _ _ _ Hr Hp). exists (l1 ++ p :: l2). split; [done|]. apply elem_of_app. right. by left. }
  wp_norm. unfold tryremove. apply (wp_zoom fifo_lens). eapply wp_mono; [by eapply tryremove_spec|].
  intros r y [-> Hy]. apply wp_assert; [done|]. by apply HQ.
Qed.

Lemma collect_window_spec n b ws s D Q da rest :
  rep (m_fifo s) D Q -> is_Some (Q !! active_list) -> is_Some (Q !! inactive_list) ->
  Q !! disk_active_list = Some da -> Q !! dram_free_list = Some (rest ++ reverse (w_frame <$> ws)) ->
  window n (m_hash s) D b ws -> NoDup (taken ws) ->
  (forall w, w ∈ ws -> w_page w ∈ da /\ D !! w_frame w = Some (w_fdata w)) ->
  0 < b -> b + Z.of_nat n * PAGE_SIZE < 2 ^ 64 ->
  wp (prefetch_collect (Pol := disklinux server_turn) b n)
     (fun jobs s' => jobs = jobs_of ws /\ exists y D', s' = set_fifo y s /\ rewritten claimed claimed_frame ws D D' /\
        rep y D' (<[disk_active_list := without (w_page <$> ws) da]> (<[dram_free_list := rest]> Q))) s.
Proof.
  assert (HP : PAGE_SIZE = 4096) by done.
  revert b ws s D Q da. induction n as [|n IH]; intros b [|w ws] s D Q da Hr Ha Hi Hda Hdf Hw Hnd Hin Hb Hbn; [| done| |].
  - simpl. wp_norm. split; [done|]. exists (m_fifo s), D. split; [by destruct s|]. split; [apply rewritten_nil|].
    simpl in Hdf. rewrite app_nil_r in Hdf. rewrite without_nil, (insert_id Q) by done. by rewrite insert_id.
  - simpl in Hw |- *. unfold find_page. wp_norm. rewrite u64_small by (unfold in_u64; lia). rewrite Hw. wp_norm.
    split; [done|]. exists (m_fifo s), D. split; [by destruct s|]. split; [apply rewritten_nil|].
    simpl in Hdf. rewrite app_nil_r in Hdf. simpl. rewrite without_nil, (insert_id Q) by done. by rewrite insert_id.
  - destruct Hw as (Hh & HD & Hva & Hmig & Hso & Hw). destruct (taken_cons _ _ Hnd) as (Hne & Hp & Hf & Hnd').
    destruct (Hin w ltac:(by left)) as [Hwda Hwf]. simpl prefetch_collect. unfold find_page. wp_norm.
    rewrite u64_small by (unfold in_u64; lia). rewrite Hh. wp_norm.
    eapply wp_get_data; [exact Hr|exact HD|]. intros pg E _. wp_norm.
    assert (Ef : va pg = va (w_data w) /\ migrating pg = migrating (w_data w) /\ swapped_out pg = swapped_out (w_data w)) by by rewrite <- E.
    destruct Ef as (-> & -> & ->). apply wp_assert; [lia|]. rewrite Hmig, Hso. simpl. wp_norm.
    eapply wp_set_data; [by split|exact Hr|exact HD|]. intros y1 Hr1. wp_norm. apply wp_assert; [lia|]. wp_norm.
    unfold lrudisk_detach_page. apply list_elem_of_split in Hwda as (l1 & l2 & ->).
    eapply wp_detach_data; [exact Hr1|exact Hda|apply lookup_insert_eq|]. intros y2 Hr2. wp_norm.
    rewrite fmap_cons, reverse_cons, app_assoc in Hdf.
    eapply wp_mono; [eapply (pagefault_spec server_turn (w_frame w) (w_fdata w)); [exact Hr2| | | |]|].
    + by rewrite lookup_insert_ne.
    + by rewrite lookup_insert_ne.
    + by rewrite lookup_insert_ne.
    + by rewrite lookup_insert_ne.
    + intros f s1 (-> & y3 & -> & Hr3). wp_norm.
      eapply wp_mono; [eapply (IH (b + PAGE_SIZE) ws (set_fifo y3 _)); [exact Hr3| | | | | |done| |lia|lia]|].
      * by rewrite !lookup_insert_ne.
      * by rewrite !lookup_insert_ne.
      * by rewrite lookup_insert_ne, lookup_insert_eq.
      * apply lookup_insert_eq.
      * eapply window_ext; [|exact Hw]. intros v [Hv _]%in_taken. by rewrite !lookup_insert_ne by (by eapply other_than).
      * intros v Hv. destruct (Hin v ltac:(by right)) as [Hv1 Hv2]. destruct (in_taken _ _ Hv) as [Hv3 Hv4]. split.
        -- rewrite elem_of_app in *. destruct Hv1 as [?|[Ev|?]%elem_of_cons]; [by left| |by right].
           symmetry in Ev. by apply (other_than _ _ _ Hp Hv3) in Ev.
        -- by rewrite !lookup_insert_ne by (by eapply other_than).
      * intros jobs s2 (-> & y & D' & -> & HD' & Hy). wp_norm. split; [done|]. exists y, D'. split; [by destruct s|]. split.
        -- apply rewritten_cons; [done|]. by rewrite insert_insert_ne.
        -- rewrite without_cons.
           ++ by rewrite insert_insert_eq, (insert_insert_ne Q dram_free_list), insert_insert_eq in Hy by done.
           ++ by apply (rep_dseg _ _ _ Hr _ _ Hda).
Qed.

(** The bytes [ws] are to get are in the buffer at [buf]. *)
Definition buffered (m : mem) (buf : Z) (ws : list wjob) : Prop :=
  forall i w, ws !! i = Some w -> mem_read m (buf + Z.of_nat i * PAGE_SIZE) page_bytes = from_storage (w_bytes w).

Lemma mem_read_same (m m' : mem) a n : (forall x, a <= x < a + Z.of_nat n -> m' x = m x) -> mem_read m' a n = mem_read m a n.
Proof. intros Hs. unfold mem_read. apply list_fmap_ext. intros i x [-> Hi]%lookup_seq. simpl. apply Hs. lia. Qed.

Lemma buffered_cons m m' buf w ws :
  mem_read m buf page_bytes = from_storage (w_bytes w) -> (forall x, buf <= x < buf + PAGE_SIZE -> m' x = m x) ->
  buffered m' (buf + PAGE_SIZE) ws -> buffered m' buf (w :: ws).
Proof.
  assert (HP : Z.of_nat page_bytes = PAGE_SIZE) by done.
  intros Hw Hs Hb [|i] v; simpl; [|].
  - intros [= <-]. rewrite Z.add_0_r, <- Hw. apply mem_read_same. by rewrite HP.
  - intros Hi. rewrite <- (Hb i v Hi). f_equal. lia.
Qed.

Lemma prefetch_read_spec k st ws buf s D Q :
  rep (m_fifo s) D Q -> (forall w, w ∈ ws -> exists d, D !! w_page w = Some d /\ virtual_offset d = virtual_offset (w_data w)) ->
  holds (k + Z.of_nat (length ws)) s st -> 0 <= k -> 0 < buf ->
  (forall w, w ∈ ws -> st !! virtual_offset (w_data w) = Some (w_bytes w)) ->
  wp (prefetch_read server_turn buf (jobs_of ws))
     (fun _ s' => exists x, s' = set_store x s /\ storage_rep k x st /\ buffered (client_mem x) buf ws /\
        (forall a, outside buf (Z.of_nat (length ws) * PAGE_SIZE) a -> client_mem x a = the_mem s a)) s.
Proof.
  assert (HP : PAGE_SIZE = 4096) by done.
  revert buf s. induction ws as [|w ws IH]; intros buf s Hr Hd Hst Hk Hb Hin; simpl.
  - wp_norm. exists (m_store s). split; [by destruct s|]. rewrite Z.add_0_r in Hst. split; [exact Hst|]. by split.
  - wp_norm. destruct (Hd w ltac:(by left)) as (d & HD & Hvo). eapply wp_get_data; [exact Hr|exact HD|]. intros pg E _. unfold get_var. wp_norm.
    replace (virtual_offset pg) with (virtual_offset (w_data w)) by (rewrite <- Hvo, <- E; done).
    simpl in Hst. eapply (wp_read (k + Z.of_nat (length ws)) st); [by replace (k + Z.of_nat (length ws) + 1) with (k + Z.of_nat (S (length ws))) by lia|lia|lia|by apply Hin; left|].
    intros x Hx Hbs Hsame. wp_norm. eapply wp_mono; [apply (IH (buf + PAGE_SIZE) (set_store x s)); [exact Hr| |exact Hx|done|lia|]|].
    + intros v Hv. apply Hd. by right.
    + intros v Hv. apply Hin. by right.
    + intros [] s' (x' & -> & Hx' & Hbuf & Hsame'). exists x'. split; [by destruct s|]. split; [done|]. change (the_mem (set_store x s)) with (client_mem x) in Hsame'. split.
      * apply (buffered_cons (client_mem x)); [done| |done]. intros a Ha. apply Hsame'. unfold outside. lia.
      * intros a Ha. unfold outside in *. rewrite Hsame' by lia. apply Hsame. unfold outside. lia.
Qed.

Lemma take_in_spec w s D Q il rl :
  rep (m_fifo s) D Q -> D !! w_page w = Some (claimed w) -> D !! w_frame w = Some (claimed_frame w) ->
  w_page w <> w_frame w -> unlisted Q (w_page w) -> unlisted Q (w_frame w) ->
  Q !! inactive_list = Some il -> Q !! disk_reserve_list = Some rl ->
  in_dram (w_fdata w) = true -> swapped_out (w_data w) = true ->
  wp (lrudisk_ack_swapin (w_page w) (w_frame w);; page_set (w_page w) (set_in_dram true);; release_page (w_page w))
     (fun _ s' => exists y, s' = set_fifo y s /\
        rep y (<[w_page w := brought_in w]> (<[w_frame w := slot_reserve w]> D))
          (<[inactive_list := w_page w :: il]> (<[disk_reserve_list := w_frame w :: rl]> Q))) s.
Proof.
  intros Hr Hp Hf Hne Hup Huf Hil Hrl Hram Hso. unfold lrudisk_ack_swapin, become_disk, keep_reserve, release_page. wp_norm.
  eapply wp_get_data; [exact Hr|exact Hf|]. intros fpg Ef Hfp. wp_norm.
  eapply wp_get_data; [exact Hr|exact Hp|]. intros pg Ep Hpp. wp_norm.
  assert (Hfields : in_dram fpg = true /\ virtual_offset fpg = virtual_offset (w_fdata w) /\ swapped_out pg = true /\
    migrating pg = true /\ virtual_offset pg = virtual_offset (w_data w)).
  { split_and!; [change (in_dram (erase fpg) = true)|change (virtual_offset (erase fpg) = virtual_offset (w_fdata w))|
      change (swapped_out (erase pg) = true)|change (migrating (erase pg) = true)|change (virtual_offset (erase pg) = virtual_offset (w_data w))];
    rewrite ?Ef, ?Ep; done. }
  destruct Hfields as (E1 & E2 & E3 & E4 & E5).
  apply wp_assert; [done|]. wp_norm. apply wp_assert; [apply bool_decide_eq_true, (rep_free _ _ _ Hr _ _ Hfp Huf)|]. wp_norm.
  apply wp_assert; [done|]. wp_norm. apply wp_assert; [done|]. wp_norm.
  apply wp_assert; [apply bool_decide_eq_true, (rep_free _ _ _ Hr _ _ Hpp Hup)|]. wp_norm. rewrite E2, E5.
  rewrite <- (insert_id _ _ _ Hp), <- (insert_id _ _ _ Hf) in Hr. 
  do 4 assign_second. assign_first. assign_second. do 2 assign_first. assign_second.
  eapply (wp_enqueue_data disk_reserve_list rl); [eassumption|exact Hrl|by rewrite lookup_insert_ne, lookup_insert_eq|done|].
  intros y1 Hy1. wp_norm. eapply (wp_enqueue_data inactive_list il); [eassumption|by rewrite lookup_insert_ne|apply lookup_insert_eq| |].
  { by apply unlisted_other. }
  intros y2 Hy2. wp_norm. do 3 assign_first. eexists. split; [reflexivity|]. eassumption.
Qed.

(** The pages of [ws] lie one after the other behind [b]. *)
Definition in_row (b : Z) (ws : list wjob) : Prop :=
  forall i w, ws !! i = Some w -> va (w_data w) = b + (Z.of_nat i + 1) * PAGE_SIZE.

Lemma in_row_cons b w ws : in_row b (w :: ws) -> va (w_data w) = b + PAGE_SIZE /\ in_row (b + PAGE_SIZE) ws.
Proof.
  intros Hrow. split; [rewrite (Hrow 0%nat w eq_refl); lia|]. intros i v Hv. rewrite (Hrow (S i) v Hv). lia.
Qed.

Lemma in_row_elem b w ws : in_row b ws -> w ∈ ws -> b + PAGE_SIZE <= va (w_data w) /\ va (w_data w) <= b + Z.of_nat (length ws) * PAGE_SIZE.
Proof.
  assert (HP : PAGE_SIZE = 4096) by done.
  intros Hrow (i & Hi)%list_elem_of_lookup. rewrite (Hrow i w Hi). apply lookup_lt_Some in Hi. lia.
Qed.

Lemma window_in_row n h D b ws : window n h D b ws -> in_row b ws.
Proof.
  revert b ws. induction n as [|n IH]; intros b [|w ws]; simpl; [done..|].
  intros (_ & _ & Hva & _ & _ & Hw) [|i] v; simpl; [intros [= <-]; lia|]. intros Hi. rewrite (IH _ _ Hw i v Hi). lia.
Qed.

(** The bytes of the pages of [ws] are those of their slots. *)
Definition filled (m : mem) (ws : list wjob) : Prop :=
  forall w, w ∈ ws -> mem_read m (va (w_data w)) page_bytes = from_storage (w_bytes w).

(** What the second half of the prefetch starts from. *)
Record mappable s (b buf : Z) (ws : list wjob) : Prop := mk_mappable {
  mp_row : in_row b ws;
  mp_missing : forall w, w ∈ ws -> missing (m_kern s) (va (w_data w));
  mp_buffer : buffered (the_mem s) buf ws;
  mp_apart : buf + Z.of_nat (length ws) * PAGE_SIZE <= b + PAGE_SIZE \/ b + (Z.of_nat (length ws) + 1) * PAGE_SIZE <= buf;
  mp_length : forall w, w ∈ ws -> length (from_storage (w_bytes w)) = page_bytes;
}.

(** The page of one job is mapped. *)
Definition copied (w : wjob) (m : mem) : mem := mem_write m (va (w_data w)) (from_storage (w_bytes w)).

Lemma mappable_step s y kk b buf w ws :
  mappable s b buf (w :: ws) ->
  (forall v, missing kk v <-> missing (m_kern s) v /\ v <> va (w_data w)) ->
  mappable (set_fifo y (set_the_mem (copied w (the_mem s)) (set_kern kk s))) (b + PAGE_SIZE) (buf + PAGE_SIZE) ws.
Proof.
  assert (HP : PAGE_SIZE = 4096) by done. assert (HPb : Z.of_nat page_bytes = 4096) by done.
  intros [[Hva Hrow]%in_row_cons Hmiss Hbuf Hap Hlen] Hkk. simpl length in Hap. split; [done| | | |].
  - intros v Hv. apply Hkk. split; [apply Hmiss; by right|]. destruct (in_row_elem _ _ _ Hrow Hv). lia.
  - intros i v Hi. change (the_mem _) with (copied w (the_mem s)). pose proof (lookup_lt_Some _ _ _ Hi). unfold copied.
    rewrite mem_read_write_disjoint; [|rewrite Hlen by (by left); rewrite HPb; lia].
    rewrite <- (Hbuf (S i) v Hi). f_equal. lia.
  - lia.
  - intros v Hv. apply Hlen. by right.
Qed.

(** [take_in_spec] with what follows. *)
Lemma wp_take_in w s D Q il rl (m : M (machine K) unit) (Q1 : unit -> machine K -> Prop) :
  rep (m_fifo s) D Q -> D !! w_page w = Some (claimed w) -> D !! w_frame w = Some (claimed_frame w) ->
  w_page w <> w_frame w -> unlisted Q (w_page w) -> unlisted Q (w_frame w) ->
  Q !! inactive_list = Some il -> Q !! disk_reserve_list = Some rl ->
  in_dram (w_fdata w) = true -> swapped_out (w_data w) = true ->
  (forall y, rep y (<[w_page w := brought_in w]> (<[w_frame w := slot_reserve w]> D))
      (<[inactive_list := w_page w :: il]> (<[disk_reserve_list := w_frame w :: rl]> Q)) -> wp m Q1 (set_fifo y s)) ->
  wp (lrudisk_ack_swapin (w_page w) (w_frame w);; page_set (w_page w) (set_in_dram true);; release_page (w_page w);; m) Q1 s.
Proof.
  intros Hr Hp Hf Hne Hup Huf Hil Hrl Hram Hso HQ.
  pose proof (take_in_spec w s D Q il rl Hr Hp Hf Hne Hup Huf Hil Hrl Hram Hso) as Ht. rewrite wp_bind in Ht |- *.
  eapply wp_mono; [exact Ht|]. intros [] s1 Ht1. rewrite wp_bind in Ht1 |- *.
  eapply wp_mono; [exact Ht1|]. intros [] s2 Ht2. rewrite wp_bind. eapply wp_mono; [exact Ht2|]. intros [] s3 (y & -> & Hy). by apply HQ.
Qed.

Lemma prefetch_map_spec ws b buf s D Q il rl k st :
  rep (m_fifo s) D Q -> holds k s st -> NoDup (taken ws) ->
  (forall w, w ∈ ws -> D !! w_page w = Some (claimed w) /\ D !! w_frame w = Some (claimed_frame w) /\
     in_dram (w_fdata w) = true /\ swapped_out (w_data w) = true) ->
  (forall x, x ∈ taken ws -> unlisted Q x) ->
  Q !! inactive_list = Some il -> Q !! disk_reserve_list = Some rl -> mappable s b buf ws ->
  wp (prefetch_map (Pol := disklinux server_turn) buf (jobs_of ws))
     (fun _ s' => filled (the_mem s') ws /\ (forall w, w ∈ ws -> ~ missing (m_kern s') (va (w_data w))) /\ holds k s' st /\
        (forall a, outside (b + PAGE_SIZE) (Z.of_nat (length ws) * PAGE_SIZE) a -> the_mem s' a = the_mem s a) /\
        (forall v, missing (m_kern s') v -> missing (m_kern s) v) /\
        exists D', rewritten brought_in slot_reserve ws D D' /\
          rep (m_fifo s') D' (<[inactive_list := reverse (w_page <$> ws) ++ il]> (<[disk_reserve_list := reverse (w_frame <$> ws) ++ rl]> Q))) s.
Proof.
  assert (HP : PAGE_SIZE = 4096) by done. assert (HPb : Z.of_nat page_bytes = 4096) by done.
  revert b buf s D Q il rl. induction ws as [|w ws IH]; intros b buf s D Q il rl Hr Hst Hnd Hin Hun Hil Hrl Hmap.
  { simpl. wp_norm. split; [by intros w ?%elem_of_nil|]. split; [by intros w ?%elem_of_nil|]. do 3 (split; [done|]).
    exists D. split; [apply rewritten_nil|]. simpl. rewrite (insert_id Q) by done. by rewrite insert_id. }
  destruct (taken_cons _ _ Hnd) as (Hne & Hp & Hf & Hnd'). destruct (Hin w ltac:(by left)) as (HDp & HDf & Hram & Hso).
  destruct (in_taken w (w :: ws) ltac:(by left)) as [Hwp Hwf].
  change (jobs_of (w :: ws)) with ((w_page w, w_frame w) :: jobs_of ws). cbn [prefetch_map policy_ack_swapped_in disklinux].
  wp_norm. eapply wp_get_data; [exact Hr|exact HDp|]. intros pg E _. wp_norm.
  replace (va pg) with (va (w_data w)) by (change (va pg) with (va (erase pg)); by rewrite E).
  eapply wp_kern; [apply copy_law|]. intros ok [kk m] Hok. simpl in Hok.
  destruct ok; [|destruct Hok as [Hok _]; exfalso; apply Hok, (mp_missing _ _ _ _ Hmap); by left].
  destruct Hok as (_ & -> & Hkk & _). simpl snd. simpl fst.
  assert (Hb0 := mp_buffer _ _ _ _ Hmap 0%nat w eq_refl). rewrite Z.add_0_r in Hb0. rewrite Hb0.
  eapply wp_take_in; [exact Hr|done|done|done|by apply Hun|by apply Hun|exact Hil|exact Hrl|done|done|]. intros y Hy.
  assert (Hmap' := mappable_step s y kk b buf w ws Hmap Hkk). fold (copied w (the_mem s)).
  eapply wp_mono; [eapply (IH (b + PAGE_SIZE)); [exact Hy|apply (holds_set_mem k s st); exact Hst|done| | |apply lookup_insert_eq| |exact Hmap']|].
  - intros v Hv. destruct (in_taken _ _ Hv) as [Hv1 Hv2]. rewrite !lookup_insert_ne by (by eapply other_than). apply Hin. by right.
  - intros x Hx. assert (Hx' : unlisted Q x).
    { apply Hun. unfold taken in *. rewrite !fmap_cons, elem_of_app, !elem_of_cons in *. tauto. }
    apply unlisted_other; [by rewrite lookup_insert_ne|by apply not_eq_sym, (other_than _ _ _ Hp)|].
    by apply unlisted_other; [|apply not_eq_sym, (other_than _ _ _ Hf)|].
  - rewrite lookup_insert_ne by done. apply lookup_insert_eq.
  - intros [] s' (Hfill & Hmiss & Hst' & Hsame & Hless & D' & HD' & Hr'). destruct (in_row_cons _ _ _ (mp_row _ _ _ _ Hmap)) as [Hva _].
    change (the_mem (set_fifo y _)) with (copied w (the_mem s)) in Hsame. change (m_kern (set_fifo y _)) with kk in Hless.
    assert (Hlen := mp_length _ _ _ _ Hmap w ltac:(by left)). split_and!.
    + intros v [->|Hv]%elem_of_cons; [|by apply Hfill]. transitivity (mem_read (copied w (the_mem s)) (va (w_data w)) page_bytes).
      * apply mem_read_same. intros x Hx. apply Hsame. unfold outside. lia.
      * by apply mem_read_copy.
    + intros v [->|Hv]%elem_of_cons; [|by apply Hmiss]. intros H%Hless. by apply Hkk in H as [_ ?].
    + done.
    + intros a Ha. unfold outside in *. simpl length in Ha. rewrite Hsame by (unfold outside; lia).
      unfold copied. rewrite (mem_write_outside _ _ _ _ PAGE_SIZE); [done|by rewrite Hlen|unfold outside; lia].
    + intros v H%Hless. by apply Hkk in H as [? _].
    + exists D'. split; [by apply rewritten_cons|]. rewrite !fmap_cons, !reverse_cons, <- !app_assoc. simpl.
      by rewrite (insert_insert_ne _ disk_reserve_list inactive_list), !insert_insert_eq in Hr' by done.
Qed.

(** ** The prefetch *)

Lemma taken_nodup s n h b ws D Q da rest :
  rep (m_fifo s) D Q -> Q !! disk_active_list = Some da -> Q !! dram_free_list = Some (rest ++ reverse (w_frame <$> ws)) ->
  window n h D b ws -> (forall w, w ∈ ws -> w_page w ∈ da) -> NoDup (taken ws).
Proof.
  intros Hr Hda Hdf Hw Hin. destruct (rep_dseg _ _ _ Hr _ _ Hdf) as [_ Hnd]. apply NoDup_app in Hnd as (_ & _ & Hnd).
  rewrite reverse_Permutation in Hnd. apply NoDup_app. split; [by eapply window_nodup|]. split; [|done].
  intros x (w & -> & Hx)%list_elem_of_fmap Hf.
  assert (disk_active_list = dram_free_list); [|done]. eapply rep_disjoint; [exact Hr|exact Hda|exact Hdf|by apply Hin|].
  apply elem_of_app. right. by apply elem_of_reverse.
Qed.

(** Nothing that is taken stays on a list. *)
Lemma taken_unlisted s ws D Q da rest :
  rep (m_fifo s) D Q -> Q !! disk_active_list = Some da -> Q !! dram_free_list = Some (rest ++ reverse (w_frame <$> ws)) ->
  (forall w, w ∈ ws -> w_page w ∈ da) -> forall x, x ∈ taken ws ->
  unlisted (<[disk_active_list := without (w_page <$> ws) da]> (<[dram_free_list := rest]> Q)) x.
Proof.
  intros Hr Hda Hdf Hin x [Hx|Hx]%elem_of_app.
  - rewrite insert_insert_ne by done. eapply (unlisted_less _ _ (rest ++ reverse (w_frame <$> ws))); [by rewrite lookup_insert_ne| |].
    { intros y Hy. apply elem_of_app. by left. }
    eapply unlisted_taken; [exact Hr|exact Hda| |].
    + apply list_elem_of_fmap in Hx as (w & -> & Hw). by apply Hin.
    + unfold without. rewrite list_elem_of_filter. tauto.
  - eapply unlisted_less; [by rewrite lookup_insert_ne| |].
    { intros y [_ Hy]%list_elem_of_filter. exact Hy. }
    eapply unlisted_taken; [exact Hr|exact Hdf|apply elem_of_app; right; by apply elem_of_reverse|].
    destruct (rep_dseg _ _ _ Hr _ _ Hdf) as [_ Hnd]. apply NoDup_app in Hnd as (_ & Hd & _).
    intros Hx'. apply (Hd x Hx'). by apply elem_of_reverse.
Qed.

(** What [core_try_prefetch] needs to bring in the pages [ws]. *)
Record prefetchable s (b : Z) (ws : list wjob) (st : gmap Z (list byte)) (D : gmap ptr user_page) (da : list ptr) : Prop := mk_prefetchable {
  pf_window : window (Z.to_nat CORE_PREFETCH_RATE) (m_hash s) D b ws;
  pf_jobs : forall w, w ∈ ws -> w_page w ∈ da /\ D !! w_frame w = Some (w_fdata w) /\ in_dram (w_fdata w) = true /\
    missing (m_kern s) (va (w_data w)) /\ st !! virtual_offset (w_data w) = Some (w_bytes w);
  pf_range : 0 < b /\ b + CORE_PREFETCH_RATE * PAGE_SIZE < 2 ^ 64;
  pf_buffer : flags s prefetch_buffer_allocated = true /\ 0 < vars s prefetch_buffer /\
    (vars s prefetch_buffer + CORE_PREFETCH_RATE * PAGE_SIZE <= b + PAGE_SIZE \/
     b + (CORE_PREFETCH_RATE + 1) * PAGE_SIZE <= vars s prefetch_buffer);
}.

Lemma buffered_mappable s b buf ws :
  in_row b ws -> (forall w, w ∈ ws -> missing (m_kern s) (va (w_data w))) -> buffered (the_mem s) buf ws ->
  (length ws <= Z.to_nat CORE_PREFETCH_RATE)%nat ->
  buf + CORE_PREFETCH_RATE * PAGE_SIZE <= b + PAGE_SIZE \/ b + (CORE_PREFETCH_RATE + 1) * PAGE_SIZE <= buf ->
  mappable s b buf ws.
Proof.
  assert (HP : PAGE_SIZE = 4096) by done. assert (HC : CORE_PREFETCH_RATE = 32) by done.
  intros Hrow Hmiss Hbuf Hlen Hap. split; [done|done|done|lia|].
  intros w (i & Hi)%list_elem_of_lookup. rewrite <- (Hbuf i w Hi). apply length_mem_read.
Qed.

(** C7: The sequential prefetch reads what was written.  Let the pages [ws]
    follow the page at [b], all of them swapped out and claimed by nobody, up
    to the first address without a page or the end of the window of
    CORE_PREFETCH_RATE pages; let there be a free frame for each, and the
    thread's prefetch buffer.  The prefetch returns their number; each of them
    is mapped and holds the bytes its slot stands for; its descriptor names
    the frame it got and is on [inactive_list], the frame's old descriptor
    keeps the slot as the page's reserve; no other descriptor, list or slot
    changes, and no byte outside of these pages and the buffer. *)
Theorem prefetch_brings_pages b ws s D Q da rest il rl k st :
  rep (m_fifo s) D Q -> is_Some (Q !! active_list) -> Q !! inactive_list = Some il -> Q !! disk_active_list = Some da ->
  Q !! disk_reserve_list = Some rl -> Q !! dram_free_list = Some (rest ++ reverse (w_frame <$> ws)) ->
  prefetchable s b ws st D da -> holds (k + Z.of_nat (length ws)) s st -> 0 <= k ->
  wp (core_try_prefetch (Pol := disklinux server_turn) server_turn b)
     (fun r s' => r = Z.of_nat (length ws) /\ filled (the_mem s') ws /\
        (forall w, w ∈ ws -> ~ missing (m_kern s') (va (w_data w))) /\ holds k s' st /\
        (forall a, outside (b + PAGE_SIZE) (Z.of_nat (length ws) * PAGE_SIZE) a ->
           outside (vars s prefetch_buffer) (Z.of_nat (length ws) * PAGE_SIZE) a -> the_mem s' a = the_mem s a) /\
        exists D', rewritten brought_in slot_reserve ws D D' /\
          rep (m_fifo s') D' (<[inactive_list := reverse (w_page <$> ws) ++ il]> (<[disk_reserve_list := reverse (w_frame <$> ws) ++ rl]>
            (<[disk_active_list := without (w_page <$> ws) da]> (<[dram_free_list := rest]> Q))))) s.
Proof.
  intros Hr Ha Hil Hda Hrl Hdf [Hw Hin [Hb Hbn] (Hba & Hb0 & Hap)] Hst Hk.
  assert (HC : Z.of_nat (Z.to_nat CORE_PREFETCH_RATE) = CORE_PREFETCH_RATE) by done.
  assert (Hpda : forall w, w ∈ ws -> w_page w ∈ da) by (intros w Hw'; by apply Hin).
  assert (Hnd := taken_nodup _ _ _ _ _ _ _ _ _ Hr Hda Hdf Hw Hpda). assert (Hun := taken_unlisted _ _ _ _ _ _ Hr Hda Hdf Hpda).
  unfold core_try_prefetch, ensure_prefetch_buffer, get_flag, get_var. wp_norm. apply wp_assert; [lia|]. wp_norm.
  eapply wp_mono; [eapply (collect_window_spec _ b ws); [exact Hr|done|by eexists|exact Hda|exact Hdf|exact Hw|done| |done|by rewrite HC]|].
  { intros w Hw'. destruct (Hin w Hw') as (? & ? & _). done. }
  intros jobs s1 (-> & y & D1 & -> & [HD1 HD1o] & Hr1). wp_norm. simpl flags. rewrite Hba. unfold when. simpl negb. cbv iota. wp_norm. simpl vars.
  eapply wp_mono; [eapply (prefetch_read_spec k st ws); [exact Hr1| |exact Hst|done|done|]|].
  { intros w Hw'. exists (claimed w). split; [by apply HD1|done]. }
  { intros w Hw'. by apply Hin. }
  intros [] s2 (x & -> & Hx & Hbuf & Hsame). wp_norm.
  eapply wp_mono; [eapply (prefetch_map_spec ws b); [exact Hr1|exact Hx|done| |exact Hun| | |]|].
  - intros w Hw'. destruct (HD1 w Hw') as [? ?]. destruct (Hin w Hw') as (_ & _ & ? & _).
    by destruct (window_va _ _ _ _ _ _ Hw Hw') as (_ & _ & _ & ?).
  - by rewrite !lookup_insert_ne.
  - by rewrite !lookup_insert_ne.
  - apply buffered_mappable; [by eapply window_in_row|intros w Hw'; by apply Hin|done|by eapply window_length|done].
  - intros [] s3 (Hfill & Hmiss & Hst3 & Hout & _ & D' & [HD' HD'o] & Hr3). wp_norm. unfold jobs_of. rewrite length_fmap.
    split; [done|]. split; [done|]. split; [done|]. split; [done|]. split.
    + intros a Ha1 Ha2. rewrite Hout by done. by apply Hsame.
    + exists D'. split; [|done]. split; [done|]. intros z Hz. by rewrite HD'o, HD1o.
Qed.
End window_spec.

(** ** Instance *)

(** The page behind 4096 is in the slot 8192; there is one free frame. *)
Definition away_page : user_page := set_pt BASEP (set_swapped_out true (set_virtual_offset 8192 (set_va 8192 page0))).
Definition spare_frame : user_page := set_pt BASEP (set_in_dram true (set_virtual_offset 4096 page0)).
Definition window_pages : gmap ptr user_page := {[1%positive := away_page; 2%positive := spare_frame]}.
Definition window_listed : list (lid * ptr) := [(disk_active_list, 1%positive); (dram_free_list, 2%positive)].
Definition window_fifo : fifo_state := fifo_with window_pages window_listed.
Definition prefetch_machine : machine sim_kernel :=
  mk_machine (demo_store marked_mem [131072]) window_fifo {[8192 := 1%positive]} 3%positive
    (mk_sim_kernel [(4096, 16384)] {[4096]} (fun _ => 0) [])
    (mk_prefetch [] zero_stats true MAX_PREFETCH_DISTANCE PREFETCH_VALIDATION_THRESHOLD)
    (update demo_vars prefetch_buffer 1048576) (fun f => bool_decide (f = prefetch_buffer_allocated)).
Definition the_job : wjob :=
  mk_wjob 1 away_page (to_storage (mem_read (the_mem prefetch_machine) 65536 page_bytes)) 2 spare_frame.

Lemma window_rep : rep window_fifo window_pages (listed empty_lists window_listed).
Proof.
  apply fifo_with_rep; [|by vm_compute|apply (bool_decide_eq_true_1 (NoDup _)); by vm_compute|by repeat constructor].
  apply (bool_decide_eq_true_1 (map_Forall (fun _ d => free_links d) window_pages)). by vm_compute.
Qed.

(** A page is written to the slot, then the prefetch runs. *)
Lemma prefetch_brings_pages_witness :
  wp (extmem_disk_write server_turn 0 65536 8192 PAGE_SIZE;; core_try_prefetch (Pol := disklinux server_turn) server_turn 4096)
    (fun r s' => r = 1 /\ nth 4 (mem_read (the_mem s') 8192 page_bytes) Byte.x00 = Byte.x17) prefetch_machine.
Proof.
  rewrite wp_bind. eapply (wp_write 1 ∅).
  - apply demo_store_rep. lia.
  - lia.
  - split; [lia|done].
  - rewrite map_size_empty. unfold MAX_REMOTE_REGIONS. lia.
  - done.
  - right. apply demo_room.
  - intros x Hx _. eapply wp_mono.
    + eapply (prefetch_brings_pages 4096 [the_job] (set_store x prefetch_machine) window_pages (listed empty_lists window_listed)
        [1%positive] [] [] [] 0); [exact window_rep|by eexists|done|done|done|done| |exact Hx|lia].
      split.
      * split_and!; done.
      * intros w ->%list_elem_of_singleton. split; [by left|]. split; [done|]. split; [done|]. split; [done|]. apply lookup_insert_eq.
      * done.
      * split_and!; [done|done|by right].
    + intros r s' (-> & Hf & _). split; [done|]. specialize (Hf the_job ltac:(by left)). change (va (w_data the_job)) with 8192 in Hf.
      rewrite Hf. by vm_compute.
Defined.
