(* ===== verification/FaultSpec.v ===== *)
(** The fault of a page that has been evicted, in the RDMA build: from the
    signal handler to its end, with the LRU policy. *)

From S2P Require Import Prelude UserPage AddressTranslation Fifo RdmaAlloc RdmaSim StorageRdma StorageSpec.
From S2P Require Import Machine Policy PointerPrefetch PrefetchSpec Migrate DiskLinux Core Accounting PolicySpec SwapSpec LruSpec WindowSpec.

Local Open Scope Z_scope.

(** The descriptor of the page after its fault, and that of the frame it got,
    which stands for the page's slot from then on. *)
Definition faulted_in (f : ptr) (o : Z) (d : user_page) : user_page :=
  set_has_reserve true (set_reserve (Some f) (set_in_dram true (set_virtual_offset o d))).
Definition slot_of (p : ptr) (o : Z) (d : user_page) : user_page :=
  set_has_reserve true (set_reserve (Some p) (set_migrating false (set_swapped_out true (set_in_dram false (set_virtual_offset o d))))).

(** The fields of a descriptor that was read. *)
Lemma erase_fields pg d :
  erase pg = d -> in_dram pg = in_dram d /\ va pg = va d /\ virtual_offset pg = virtual_offset d /\ pt pg = pt d /\
    migrating pg = migrating d /\ swapped_out pg = swapped_out d.
Proof. by intros <-. Qed.

Section fault.
Context {K : Type} {HK : Kernel K} {HL : KernelLaws K}.
Variable usleep : M rdma_sys unit.
Implicit Types s : machine K.

(** The page [p], with the descriptor [dp], is in its slot; the frame [f],
    with the descriptor [df], is the next one to be handed out. *)
Record away s (p : ptr) (dp : user_page) (f : ptr) (df : user_page) : Prop := mk_away {
  aw_out : in_dram dp = false /\ pt dp = BASEP;
  aw_va : va dp <> 0 /\ va dp mod PAGE_SIZE = 0 /\ missing (m_kern s) (va dp);
  aw_slot : 0 <= virtual_offset dp /\ virtual_offset dp + PAGE_SIZE <= vars s disksize /\ vars s disksize < 2 ^ 64;
  aw_frame : in_dram df = true /\ 0 <= virtual_offset df /\ virtual_offset df + PAGE_SIZE <= vars s dramsize /\ vars s dramsize < 2 ^ 64;
  aw_buffer : flags s buffer_allocated = true /\ vars s buffer_space <> 0;
}.

(** What a step leaves alone. *)
Record beside s s' : Prop := mk_beside {
  bs_hash : m_hash s' = m_hash s;
  bs_pf : m_pf s' = m_pf s;
  bs_flags : flags s' = flags s;
  bs_store : forall k st, holds k s st -> holds k s' st;
}.

Lemma swapin_async_spec p f dp df l1 l2 rest il rl s D Q :
  rep (m_fifo s) (<[p := dp]> (<[f := df]> D)) Q -> p <> f -> is_Some (Q !! active_list) -> Q !! inactive_list = Some il ->
  Q !! disk_active_list = Some (l1 ++ p :: l2) -> Q !! disk_reserve_list = Some rl -> Q !! dram_free_list = Some (rest ++ [f]) ->
  away s p dp f df -> migrating dp = true ->
  wp (lrudisk_swapin_external_async usleep p)
     (fun _ s' => the_mem s' = mem_write (the_mem s) (va dp) (mem_read (the_mem s) (vars s buffer_space) page_bytes) /\
        (forall v, missing (m_kern s') v <-> missing (m_kern s) v /\ v <> va dp) /\ beside s s' /\
        rep (m_fifo s') (<[p := faulted_in f (virtual_offset df) dp]> (<[f := slot_of p (virtual_offset dp) df]> D))
          (<[inactive_list := p :: il]> (<[disk_reserve_list := f :: rl]> (<[disk_active_list := l1 ++ l2]> (<[dram_free_list := rest]> Q))))) s.
Proof.
  assert (HP : PAGE_SIZE = 4096) by done.
  intros Hr Hne Ha Hi Hda Hrl Hdf [(Hd & Hpt) (Hv0 & Hval & Hmiss) (Ho1 & Ho2 & Ho3) (Hfd & Hf1 & Hf2 & Hf3) (Hb & Hbuf)] Hm.
  unfold lrudisk_swapin_external_async. wp_norm.
  eapply wp_get_data; [exact Hr|apply lookup_insert_eq|]. intros pg (_ & _ & Eo & _)%erase_fields _. wp_norm.
  eapply wp_detach_data; [exact Hr|exact Hda|apply lookup_insert_eq|]. intros y1 Hr1. wp_norm.
  eapply wp_get_data; [exact Hr1|apply lookup_insert_eq|]. intros pg1 (Ed & _ & _ & _)%erase_fields _. rewrite Ed, Hd. unfold when. wp_norm.
  unfold core_migrate_up_async_start. wp_norm.
  eapply wp_get_data; [exact Hr1|apply lookup_insert_eq|]. intros pg2 (Ed2 & _ & Eo2 & Ept2 & _)%erase_fields _. wp_norm.
  apply wp_assert; [by rewrite Ed2, Hd|]. wp_norm. apply wp_ensure_buffer; [done|]. wp_norm. apply wp_pagesize_of; [congruence|]. wp_norm.
  rewrite Eo, Eo2. simpl vars. do 2 (apply wp_assert; [rewrite ?u64_small by (unfold in_u64; lia); lia|]; wp_norm).
  eapply wp_mono; [eapply fetch_spec; [exact Hr1| | |]|]; [by rewrite lookup_insert_ne..| | ].
  { rewrite lookup_insert_ne by done. exact Hdf. }
  intros q s2 (-> & y2 & -> & Hr2). unfold swapin_async_into, core_migrate_up_async_finish, get_flag. wp_norm.
  eapply wp_get_data; [exact Hr2|by rewrite lookup_insert_ne, lookup_insert_eq|]. intros fpg (Efd & _ & Efo & _)%erase_fields _. wp_norm.
  apply wp_assert; [congruence|]. wp_norm.
  eapply wp_get_data; [exact Hr2|apply lookup_insert_eq|]. intros pg3 (Ed3 & Ev3 & Eo3 & Ept3 & _)%erase_fields _. wp_norm.
  apply wp_assert; [by rewrite Ed3, Hd|]. wp_norm. apply wp_assert; [done|]. wp_norm. apply wp_pagesize_of; [congruence|]. wp_norm.
  rewrite Eo3, Efo, Ev3. simpl vars. do 4 (apply wp_assert; [rewrite ?u64_small by (unfold in_u64; lia); lia|]; wp_norm).
  apply wp_copy_in; [exact Hmiss|]. intros kk Hkk. wp_norm. apply wp_assert; [lia|]. unfold add_var, become_disk, keep_reserve. wp_norm.
  do 2 assign_first. do 5 assign_second. do 2 assign_first. assign_second.
  assert (Hdf1 : (<[disk_active_list := l1 ++ l2]> Q) !! dram_free_list = Some (rest ++ [f])) by by rewrite lookup_insert_ne.
  assert (Huf : unlisted (<[dram_free_list := rest]> (<[disk_active_list := l1 ++ l2]> Q)) f) by (by eapply unlisted_last).
  assert (Hup : unlisted (<[dram_free_list := rest]> (<[disk_active_list := l1 ++ l2]> Q)) p).
  { eapply unlisted_less; [exact Hdf1| |by eapply unlisted_once]. intros y Hy. apply elem_of_app. by left. }
  eapply (wp_enqueue_data disk_reserve_list rl); [eassumption|by rewrite !lookup_insert_ne|by rewrite lookup_insert_ne, lookup_insert_eq|done|].
  intros y3 Hy3. wp_norm. eapply (wp_enqueue_data inactive_list il); [eassumption|by rewrite !lookup_insert_ne|apply lookup_insert_eq| |].
  { by apply unlisted_other; [rewrite !lookup_insert_ne|..]. }
  intros y4 Hy4. split; [done|]. split; [exact Hkk|]. split; [|].
  { split; [done|done|done|]. intros k st Hst. exact (holds_set_mem k s st _ kk Hst). }
  rewrite (insert_insert_ne Q disk_active_list dram_free_list) by done. exact Hy4.
Qed.

(** ** The handler *)

Lemma wp_store_read_word a (Q : Z -> machine K -> Prop) s :
  Q (le_combine (mem_read (the_mem s) a 8)) s -> wp (store (read_word a)) Q s.
Proof.
  intros HQ. unfold store. apply (wp_zoom store_lens). unfold read_word. wp_norm. unfold rdma. apply (wp_zoom sys_lens).
  unfold proc_read. wp_norm. destruct s as [[sys ? ? ? ?] ? ? ? ? ? ? ?]. by destruct sys.
Qed.

(** A process that has no record of the address goes on to the storage. *)
Lemma no_record p dp (Q : Z -> machine K -> Prop) s D Q' :
  rep (m_fifo s) D Q' -> D !! p = Some dp -> vars s buffer_space <> 0 ->
  record_index (va dp) (prefetch_records (m_pf s)) = None -> Q (-1) s ->
  wp (handle_page_fault_with_prefetch usleep (Some p)) Q s.
Proof.
  intros Hr Hp Hb Hrec HQ. unfold handle_page_fault_with_prefetch, get_var, find_prefetch_record. wp_norm.
  destruct (prefetch_initialized (m_pf s)); simpl; [|done]. wp_norm. apply wp_assert; [lia|]. wp_norm.
  eapply wp_get_data; [exact Hr|exact Hp|]. intros pg (_ & Ev & _)%erase_fields _. wp_norm. rewrite Ev, Hrec. by wp_norm.
Qed.

(** The page ends in a null word: there is nothing to follow. *)
Lemma follow_nothing p d b (Q : unit -> machine K -> Prop) s D Q' :
  rep (m_fifo s) D Q' -> D !! p = Some d -> 0 <= va d -> va d + PAGE_SIZE <= 2 ^ 64 ->
  le_combine (mem_read (the_mem s) (va d + Z.of_nat last_word) 8) = 0 ->
  (forall x, Q tt (set_pf x s)) -> Q tt s -> wp (follow_pointer usleep p b) Q s.
Proof.
  intros Hr Hp Hv1 Hv2 Hw HQ HQ0. unfold follow_pointer. wp_norm.
  eapply wp_get_data; [exact Hr|exact Hp|]. intros pg (Ed & Ev & _)%erase_fields _. unfold when. destruct (in_dram pg) eqn:Hin; [|by wp_norm].
  unfold read_page_end_pointer. wp_norm. eapply wp_get_data; [exact Hr|exact Hp|]. intros pg1 (Ed1 & Ev1 & _)%erase_fields _.
  destruct (_ || _); [by wp_norm|]. wp_norm. apply wp_store_read_word. unfold upd_stats, upd_pf. wp_norm.
  assert (HP : PAGE_SIZE = 4096) by done. assert (HO : POINTER_OFFSET_FROM_END = 8) by done.
  replace (u64 (page_end_word (va pg1))) with (va d + Z.of_nat last_word).
  { rewrite Hw. simpl. wp_norm. apply HQ. }
  rewrite Ev1. unfold page_end_word. rewrite u64_small by (unfold in_u64; lia). unfold last_word. lia.
Qed.

(** What the handler finds: the page at [va dp] is in the hash, stored and
    claimed by nobody, with no record of a prefetch; the fault is not the
    third in a row; and the thread's transfer page ends in a null word. *)
Record faulting s (p : ptr) (dp : user_page) : Prop := mk_faulting {
  ft_hash : m_hash s !! va dp = Some p;
  ft_state : migrating dp = false /\ swapped_out dp = true;
  ft_range : 0 <= va dp /\ va dp + PAGE_SIZE <= 2 ^ 64;
  ft_record : record_index (va dp) (prefetch_records (m_pf s)) = None;
  ft_sequence : sequential (va dp) (vars s prev_fault_1) (vars s prev_fault_2) = false;
  ft_buffer : le_combine (mem_read (the_mem s) (vars s buffer_space + Z.of_nat last_word) 8) = 0;
}.

(** The word at the end of a page that was copied. *)
Lemma copied_word (m : mem) dst src :
  le_combine (mem_read (mem_write m dst (mem_read m src page_bytes)) (dst + Z.of_nat last_word) 8) =
  le_combine (mem_read m (src + Z.of_nat last_word) 8).
Proof.
  assert (Hlast : (last_word + 8 <= page_bytes)%nat) by (vm_compute; lia).
  rewrite <- (load_u64_mem _ dst page_bytes), <- (load_u64_mem m src page_bytes) by done.
  by rewrite mem_read_copy by apply length_mem_read.
Qed.

(** What the end of the handler does not touch. *)
Definition follows s2 s' : Prop := m_store s' = m_store s2 /\ m_kern s' = m_kern s2.

Lemma missing_fault_spec p f dp df l1 l2 rest il rl s D Q :
  rep (m_fifo s) (<[p := dp]> (<[f := df]> D)) Q -> p <> f -> is_Some (Q !! active_list) -> Q !! inactive_list = Some il ->
  Q !! disk_active_list = Some (l1 ++ p :: l2) -> Q !! disk_reserve_list = Some rl -> Q !! dram_free_list = Some (rest ++ [f]) ->
  away s p dp f df -> faulting s p dp ->
  wp (handle_missing_fault (Pol := disklinux usleep) usleep p)
     (fun _ s' => the_mem s' = mem_write (the_mem s) (va dp) (mem_read (the_mem s) (vars s buffer_space) page_bytes) /\
        ~ missing (m_kern s') (va dp) /\ (forall k st, holds k s st -> holds k s' st) /\
        rep (m_fifo s') (<[p := set_migrating false (set_swapped_out false (faulted_in f (virtual_offset df) (set_migrating true dp)))]>
            (<[f := slot_of p (virtual_offset dp) df]> D))
          (<[inactive_list := p :: il]> (<[disk_reserve_list := f :: rl]> (<[disk_active_list := l1 ++ l2]> (<[dram_free_list := rest]> Q))))) s.
Proof.
  intros Hr Hne Ha Hi Hda Hrl Hdf Haw [Hh [Hmig Hso] [Hv1 Hv2] Hrec Hseq Hw]. pose proof Haw as [_ (Hv0 & Hval & _) _ _ (Hb & Hbuf)].
  unfold handle_missing_fault, set_flag, get_var, set_var. wp_norm.
  eapply wp_get_data; [exact Hr|apply lookup_insert_eq|]. intros pg (_ & Ev & _ & Ept & Em & Es)%erase_fields _. wp_norm.
  rewrite Em, Es, Hmig, Hso, Ev. simpl negb. cbv iota. wp_norm. assign_first.
  match goal with |- context [sequential ?a ?b ?c] => replace (sequential a b c) with false by (symmetry; exact Hseq) end.
  apply wp_ensure_buffer; [exact Hb|]. wp_norm.
  eapply no_record; [eassumption|apply lookup_insert_eq|exact Hbuf|exact Hrec|]. change (-1 =? 0) with false. cbv iota. wp_norm.
  apply wp_pagesize_of; [rewrite Ept; apply Haw|]. wp_norm. cbn [page_swapin_external_async disklinux].
  eapply wp_mono; [eapply (swapin_async_spec p f (set_migrating true dp) df l1 l2); [eassumption|done|done|done|done|done|done| |done]|].
  { destruct Haw. by split. }
  intros [] s2 (Hm2 & Hk2 & [_ Hpf Hfl Hst] & Hr2). wp_norm.
  change (the_mem s2 = mem_write (the_mem s) (va dp) (mem_read (the_mem s) (vars s buffer_space) page_bytes)) in Hm2.
  eapply wp_get_data; [exact Hr2|apply lookup_insert_eq|]. intros pg2 (_ & Ev2 & _)%erase_fields _. wp_norm.
  change (va (faulted_in _ _ _)) with (va dp) in Ev2. rewrite Ev2. do 3 (apply wp_assert; [lia|]; wp_norm).
  unfold release_page. wp_norm. do 2 assign_first.
  assert (Hw' : le_combine (mem_read (the_mem s2) (va dp + Z.of_nat last_word) 8) = 0) by (rewrite Hm2, copied_word; exact Hw).
  assert (Hk' : ~ missing (m_kern s2) (va dp)) by (rewrite Hk2; tauto).
  assert (Hout : forall y, follows s2 y -> the_mem y = mem_write (the_mem s) (va dp) (mem_read (the_mem s) (vars s buffer_space) page_bytes) /\
    ~ missing (m_kern y) (va dp) /\ (forall k st, holds k s st -> holds k y st)).
  { intros y (Hy1 & Hy2). unfold the_mem, holds in *. rewrite Hy1, Hy2. split; [exact Hm2|]. split; [exact Hk'|]. exact Hst. }
  eapply follow_nothing; [eassumption|apply lookup_insert_eq|done|done|exact Hw'|intros z|]; unfold add_var, when; wp_norm;
    destruct (Hout _ ltac:(repeat split)) as (? & ? & ?); split_and!; eassumption.
Qed.

(** C6: A fault on an evicted page is served, but not with the page's bytes.
    Take any state in which the page is on [disk_active_list], claimed by
    nobody, and a frame is free, for a thread that has its transfer page, and
    whatever the storage holds for the page's slot; let the transfer page end
    in a null word and the fault not be the third in a row, so that no
    prefetch follows.  The signal handler returns: the page is mapped, its
    descriptor names the frame, is on [inactive_list] and is released, the
    frame's old descriptor keeps the slot as the page's reserve, and no slot
    changes.  But the bytes the program sees are those the transfer page held
    before: nothing reads the slot. *)
Theorem fault_maps_buffer p f dp df l1 l2 rest il rl code addr s D Q :
  rep (m_fifo s) D Q -> D !! p = Some dp -> D !! f = Some df -> is_Some (Q !! active_list) -> Q !! inactive_list = Some il ->
  Q !! disk_active_list = Some (l1 ++ p :: l2) -> Q !! disk_reserve_list = Some rl -> Q !! dram_free_list = Some (rest ++ [f]) ->
  away s p dp f df -> faulting s p dp -> page_align addr = va dp -> code <> SIGSEGV ->
  wp (uswap_sig_handler (Pol := disklinux usleep) usleep code addr)
     (fun _ s' => mem_read (the_mem s') (va dp) page_bytes = mem_read (the_mem s) (vars s buffer_space) page_bytes /\
        ~ missing (m_kern s') (va dp) /\ (forall k st, holds k s st -> holds k s' st) /\
        rep (m_fifo s') (<[p := set_migrating false (set_swapped_out false (faulted_in f (virtual_offset df) (set_migrating true dp)))]>
            (<[f := slot_of p (virtual_offset dp) df]> D))
          (<[inactive_list := p :: il]> (<[disk_reserve_list := f :: rl]> (<[disk_active_list := l1 ++ l2]> (<[dram_free_list := rest]> Q))))) s.
Proof.
  intros Hr Hp Hf Ha Hi Hda Hrl Hdf Haw Hft Hal Hc.
  assert (Hne : p <> f) by (intros ->; destruct Haw as [[Hd _] _ _ [Hd' _] _]; congruence).
  unfold uswap_sig_handler, set_flag, find_page. wp_norm. apply wp_assert; [by apply negb_true_iff, Z.eqb_neq|]. wp_norm.
  simpl m_hash. rewrite Hal, (ft_hash _ _ _ Hft). wp_norm.
  eapply wp_get_data; [exact Hr|exact Hp|]. intros pg (_ & _ & _ & _ & _ & Es)%erase_fields _. rewrite Es, (proj2 (ft_state _ _ _ Hft)).
  rewrite <- (insert_id _ _ _ Hf), <- (insert_id _ _ _ Hp) in Hr. rewrite insert_insert_ne in Hr by done.
  eapply wp_mono; [eapply missing_fault_spec; [| |exact Ha|exact Hi|exact Hda|exact Hrl|exact Hdf|destruct Haw; by split|destruct Hft; by split]|].
  - exact Hr.
  - done.
  - intros [] s2 (Hm & Hk & Hst & Hr2). wp_norm. split; [|by split_and!].
    change (the_mem (set_flags _ s2)) with (the_mem s2). rewrite Hm. apply mem_read_copy, length_mem_read.
Qed.
End fault.

(** ** Instance *)

(** The page at 8192 is in the slot 8192, one frame is free, and the byte 4 of
    the transfer page is 0x17. *)
Definition fault_machine : machine sim_kernel :=
  mk_machine (demo_store marked_mem [131072]) window_fifo {[8192 := 1%positive]} 3%positive
    (mk_sim_kernel [(4096, 16384)] {[4096]} (fun _ => 0) [])
    (mk_prefetch [] zero_stats true MAX_PREFETCH_DISTANCE PREFETCH_VALIDATION_THRESHOLD)
    demo_vars (fun f => bool_decide (f = buffer_allocated)).

Lemma fault_maps_buffer_witness :
  wp (uswap_sig_handler (Pol := disklinux (mret tt)) (mret tt) 0 8200)
    (fun _ s' => nth 4 (mem_read (the_mem s') 8192 page_bytes) Byte.x00 = Byte.x17) fault_machine.
Proof.
  eapply wp_mono.
  - eapply (fault_maps_buffer (mret tt) 1 2 away_page spare_frame [] [] [] [] [] 0 8200 fault_machine window_pages (listed empty_lists window_listed)).
    + exact window_rep.
    + done.
    + done.
    + by eexists.
    + done.
    + done.
    + done.
    + done.
    + split; [done|done|vm_compute; split_and!; congruence|vm_compute; split_and!; congruence|by split].
    + split; [done|done|vm_compute; split; congruence|done|done|by vm_compute].
    + done.
    + done.
  - intros [] s' (E & _). change (va away_page) with 8192 in E. rewrite E. by vm_compute.
Defined.
