(* ===== verification/PageRankSpec.v ===== *)
(** The PageRank policy keeps the contract of PolicyLaws.v, so the pager
    conserves frames and slots with it, its prefetch worker included; what
    its window keeps from reclaim, and what that costs. *)

From S2P Require Import Prelude UserPage AddressTranslation Fifo RdmaAlloc RdmaSim StorageRdma StorageSpec.
From S2P Require Import Machine Policy PointerPrefetch PrefetchSpec Migrate DiskLinux Core PageRank.
From S2P Require Import Accounting PolicySpec PolicyLaws CoreSpec SwapSpec LruSpec WindowSpec.

Local Open Scope Z_scope.

(** ** The accounts *)

Section accounts.
Context {K : Type} {HK : Kernel K}.
Variable usleep : M rdma_sys unit.
Hypothesis Husleep : keeps heapless usleep.
Implicit Types s : machine K.
Implicit Types L : gset place.
Implicit Types H : gmap ptr held.
Notation dry := (@dry K).

Lemma steady_shrink_window n r t : steady (PageRank.shrink_window_loop (K := K) n r t).
Proof.
  intros L H Hh. revert r. induction t as [|t IH]; intros r s Hs; simpl; [by acc_run|]. acc_run.
  destruct (_ && _); [|by acc_run]. acc_step. eapply wlp_dequeue_from; [done..|intros s1 Hs1; acc_run|].
  intros p o s1 Hn Hs1. acc_run. destruct (negb _); acc_step.
  - eapply (wlp_put_back eviction_list); [done|done|eassumption|]. intros s3 Hs3. by apply IH.
  - eapply (wlp_put_back inactive_list); [done|done|eassumption|]. intros s3 Hs3. by apply IH.
Qed.

Lemma steady_pr_shrink n : steady (PageRank.shrink_inactive_list (K := K) n).
Proof.
  intros L H Hh s Hs. unfold PageRank.shrink_inactive_list. acc_run. destruct (_ =? 0).
  - eapply wlp_steady; [apply steady_shrink_inactive|done|eassumption|]. intros r s1 Hs1. by acc_run.
  - eapply wlp_steady; [apply steady_shrink_window|done|eassumption|]. intros r s1 Hs1. by acc_run.
Qed.

Lemma steady_pr_reclaim np r n : steady (PageRank.reclaim_loop (K := K) np r n).
Proof.
  intros L H Hh. revert r. induction n as [|n IH]; intros r s Hs; simpl; [by acc_run|].
  destruct (r <? np); [|by acc_run]. acc_step.
  eapply wlp_steady; [apply steady_pr_shrink|done|eassumption|]. intros x s1 Hs1. by apply IH.
Qed.

Lemma steady_pr_direct : steady_direct (PageRank.direct_allocate_page_asynch (K := K)).
Proof.
  intros np p L H Hh s Hs. unfold PageRank.direct_allocate_page_asynch. acc_run. by apply steady_pr_reclaim.
Qed.

Lemma takes_pr_fetch : takes_frame (PageRank.fetch_free_asynch usleep).
Proof. apply takes_fetch_free, steady_pr_direct. Qed.

Lemma takes_pr_pagefault : takes_frame (PageRank.lrudisk_pagefault usleep).
Proof.
  intros L H s Hh Hs. unfold PageRank.lrudisk_pagefault. acc_step.
  eapply wlp_take_frame; [apply takes_pr_fetch|done|done|]. intros p o s1 Hn Hs1. acc_run. eauto.
Qed.

Lemma steady_pr_swapin_async p : steady (PageRank.lrudisk_swapin_external_async usleep p).
Proof.
  intros L H Hh s Hs. unfold PageRank.lrudisk_swapin_external_async. acc_run.
  eapply (wlp_detach disk_active_list); [done|eassumption|]. intros pg' s1 Hpg' Hn E Hs1. cbv beta.
  assert (pg' = pg) as -> by congruence. rewrite E in Hs1. pose proof still_async_start. acc_run.
  eapply wlp_take_frame; [apply takes_pr_fetch|by apply in_hand_hold|eassumption|]. intros d o2 s2 [Hne Hd]%fresh_hand Hs2.
  by eapply swapin_async_into_spec.
Qed.

Lemma steady_pr_remove p : steady (PageRank.lrudisk_remove_page (K := K) p).
Proof.
  intros L H Hh s Hs. unfold PageRank.lrudisk_remove_page. do 5 acc_step.
  destruct (bool_decide _); unfold busy_wait; [by acc_run|]. acc_run.
  eapply wlp_tryremove; [done|eassumption|eassumption|intros r Hr|].
  { acc_step. replace (negb (r =? 0)) with true by lia. exact I. }
  intros l s1 El _ Hn E Hs1. change (negb (0 =? 0)) with false. rewrite E in Hs1. acc_run.
  by eapply release_removed_spec.
Qed.

Lemma steady_pr_eviction : steady (PageRank.lrudisk_evictionworker_round usleep).
Proof.
  intros L H Hh s Hs. unfold PageRank.lrudisk_evictionworker_round. acc_step.
  eapply wlp_dequeue_from; [done..|intros s1 Hs1; by acc_run|]. intros v o1 s1 Hv Hs1. acc_run.
  eapply evict_victim_spec; [done|done|eassumption|]. intros s2 Hs2. by acc_run.
Qed.

(** ** A client process stays one *)

Lemma dry_pr_window n r t : keeps dry (PageRank.shrink_window_loop n r t).
Proof. revert r. induction t as [|t IH]; intros r; simpl; keeps_tac. Qed.
Hint Resolve dry_pr_window dry_shrink_inactive : keeps.
Lemma dry_pr_shrink n : keeps dry (PageRank.shrink_inactive_list n).
Proof. unfold PageRank.shrink_inactive_list. keeps_tac. Qed.
Hint Resolve dry_pr_shrink : keeps.
Lemma dry_pr_reclaim np r n : keeps dry (PageRank.reclaim_loop np r n).
Proof. revert r. induction n as [|n IH]; intros r; simpl; keeps_tac. Qed.
Hint Resolve dry_pr_reclaim : keeps.
Lemma dry_pr_direct n p : keeps dry (PageRank.direct_allocate_page_asynch n p).
Proof. unfold PageRank.direct_allocate_page_asynch. keeps_tac. Qed.
Lemma dry_pr_fetch : keeps dry (PageRank.fetch_free_asynch usleep).
Proof. apply dry_fetch_free; [done|apply dry_pr_direct]. Qed.
Hint Resolve dry_pr_fetch dry_swapin_async_into dry_release_removed dry_async_start : keeps.
Lemma dry_pr_pagefault : keeps dry (PageRank.lrudisk_pagefault usleep).
Proof. unfold PageRank.lrudisk_pagefault. keeps_tac. Qed.
Lemma dry_pr_swapin_async p : keeps dry (PageRank.lrudisk_swapin_external_async usleep p).
Proof. unfold PageRank.lrudisk_swapin_external_async. keeps_tac. Qed.
Lemma dry_pr_remove p : keeps dry (PageRank.lrudisk_remove_page p).
Proof. unfold PageRank.lrudisk_remove_page. keeps_tac. Qed.
Lemma dry_pr_ack_vma a l n : keeps dry (PageRank.lrudisk_ack_vma a l n).
Proof. unfold PageRank.lrudisk_ack_vma. keeps_tac. Qed.
Lemma dry_pr_eviction : keeps dry (PageRank.lrudisk_evictionworker_round usleep).
Proof.
  unfold PageRank.lrudisk_evictionworker_round. pose proof dry_evict_victim. keeps_tac.
Qed.

#[export] Instance pagerank_laws : PolicyLaws (PageRank.pagerank usleep).
Proof.
  split; simpl.
  - apply init_accounts.
  - apply takes_pr_pagefault.
  - intros *. apply wlp_track_page.
  - intros *. apply wlp_put_page_free.
  - intros *. apply wlp_detach_disk.
  - intros *. apply ack_swapin_spec.
  - apply steady_pr_swapin_async.
  - apply steady_pr_remove.
  - intros a l n f. unfold PageRank.lrudisk_ack_vma. keeps_tac.
  - apply dry_init.
  - apply dry_pr_pagefault.
  - apply dry_track.
  - apply dry_put_free.
  - intros p. apply dry_detach.
  - apply dry_ack.
  - apply dry_pr_swapin_async.
  - apply dry_pr_remove.
  - apply dry_pr_ack_vma.
Qed.
End accounts.

(** ** The pager with this policy *)

Section rounds.
Context {K : Type} {HK : Kernel K}.
Variable usleep : M rdma_sys unit.
Hypothesis Husleep : keeps heapless usleep.
Implicit Types s : machine K.
Notation dry := (@dry K).

Lemma steady_prefetch_block b h n : steady (PageRank.prefetch_block usleep b h n).
Proof.
  pose proof (steady_try_prefetch (Pol := PageRank.pagerank usleep) (PL := pagerank_laws usleep Husleep) usleep) as Hp.
  intros L H Hh. revert h. induction n as [|n IH]; intros h s Hs; simpl; destruct (_ <=? _); [by acc_run..| |by acc_run].
  do 3 acc_step. eapply wlp_steady; [apply Hp|done|eassumption|].
  intros r s1 Hs1. destruct (r =? 0); [by acc_run|by apply IH].
Qed.

Lemma dry_prefetch_block b h n : keeps dry (PageRank.prefetch_block usleep b h n).
Proof.
  pose proof (dry_try_prefetch (Pol := PageRank.pagerank usleep) (PL := pagerank_laws usleep Husleep) usleep Husleep).
  revert h. induction n as [|n IH]; intros h; simpl; keeps_tac.
Qed.

Lemma pagerank_rounds_ok : Forall (thread_ok (K := K)) (PageRank.pagerank_rounds usleep).
Proof.
  repeat constructor.
  - apply steady_kswapd_round, steady_pr_direct.
  - apply dry_kswapd_round, dry_pr_direct.
  - intros L H Hh. apply keeps_bind; [by apply steady_pr_eviction|]. intros ?. apply keeps_ret.
  - apply keeps_bind; [by apply dry_pr_eviction|]. intros ?. apply keeps_ret.
  - intros L H Hh s Hs. unfold PageRank.lrudisk_prefetchworker_round. acc_run.
    destruct (_ || _); [by acc_run|]. acc_run. destruct (_ =? _); acc_run; [done|]. by apply steady_prefetch_block.
  - pose proof dry_prefetch_block. unfold PageRank.lrudisk_prefetchworker_round. keeps_tac.
Qed.

(** C21: the PageRank policy conserves frames and slots too.  In a client
    process whose descriptors occupy the places [L], no two the same, the
    same holds after any sequence of faults, mappings, unmappings and rounds
    of kswapd, the eviction worker and the prefetch worker that returns;
    [H] may name descriptors outside the policy. *)
Theorem pagerank_conserves es s L H :
  in_hand H -> minv s L H -> dry s ->
  wlp (run_events (Pol := PageRank.pagerank usleep) usleep (PageRank.pagerank_rounds usleep) es)
    (fun _ s' => minv s' L H /\ dry s') s.
Proof.
  exact (run_events_spec (Pol := PageRank.pagerank usleep) (PL := pagerank_laws usleep Husleep) usleep Husleep
    (PageRank.pagerank_rounds usleep) pagerank_rounds_ok es s L H).
Qed.
End rounds.

(** Three pages on two frames; the area is large enough to be followed. *)
Definition graph_machine : machine sim_kernel :=
  mk_machine (m_store booted) (m_fifo booted) (m_hash booted) (m_next booted) (m_kern booted) (m_pf booted)
    (update (update (vars booted) main_vma_va 4096) main_vma_size (8 * 1024 * 1024 * 1024)) (flags booted).

Lemma pagerank_conserves_witness :
  exists s', run_events (Pol := PageRank.pagerank (mret tt)) (mret tt) (PageRank.pagerank_rounds (mret tt))
      (demo_events ++ [Round 2]) graph_machine = Done (tt, s') /\
    minv s' (all_places 8192 16384) ∅.
Proof.
  pose proof (pagerank_conserves (mret tt) (keeps_ret _ _) (demo_events ++ [Round 2]) graph_machine
    (all_places 8192 16384) ∅ in_hand_empty booted_minv ltac:(split; [by vm_compute|by vm_compute])) as H.
  assert (Hr : match run_events (Pol := PageRank.pagerank (mret tt)) (mret tt) (PageRank.pagerank_rounds (mret tt))
    (demo_events ++ [Round 2]) graph_machine with Done _ => True | Fault _ => False end) by (by vm_compute).
  unfold wlp in H. destruct (run_events _ _ _ graph_machine) as [[[] s']|]; [|done]. exists s'. split; [done|apply H].
Defined.

(** ** What the window keeps *)

Section window.
Context {K : Type} {HK : Kernel K}.
Variable usleep : M rdma_sys unit.
Implicit Types s : machine K.
Implicit Types D : gmap ptr user_page.
Notation lists_in := (lists_at (fun _ => True)).

(** The pages of [ids] outside the window of [safe]. *)
Definition outside (safe : Z) D (p : ptr) : bool :=
  match D !! p with Some d => negb (PageRank.in_window safe (va d)) | None => false end.

(** The first [m] of the pages [ps] that are outside of the window. *)
Definition first_outside (safe : Z) D (m : Z) (ps : list ptr) : list ptr :=
  take (Z.to_nat m) (List.filter (outside safe D) ps).

Lemma first_outside_cons safe D m p ps :
  0 < m -> first_outside safe D m (p :: ps) =
  if outside safe D p then p :: first_outside safe D (m - 1) ps else first_outside safe D m ps.
Proof.
  intros Hm. unfold first_outside. simpl. destruct (outside safe D p); [|done].
  by replace (Z.to_nat m) with (S (Z.to_nat (m - 1))) by lia.
Qed.

Lemma first_outside_none safe D m ps : m <= 0 -> first_outside safe D m ps = [].
Proof. intros Hm. unfold first_outside. by replace (Z.to_nat m) with 0%nat by lia. Qed.

Lemma first_outside_nil safe D m : first_outside safe D m [] = [].
Proof. unfold first_outside. simpl. by rewrite take_nil. Qed.

(** One look at the oldest inactive page [p]. *)
Lemma wp_look want ret n p q a e D Q0 (Q : Z -> machine K -> Prop) s :
  ret < want -> lists_in (m_fifo s) Q0 D (p :: q) a e ->
  (forall y i' e', (i', e') = (if outside (vars s safe_to_free) D p then (q, e ++ [p]) else (q ++ [p], e)) ->
     lists_in y Q0 D i' a e' ->
     wp (PageRank.shrink_window_loop want (if outside (vars s safe_to_free) D p then ret + 1 else ret) n) Q (set_fifo y s)) ->
  wp (PageRank.shrink_window_loop want ret (S n)) Q s.
Proof.
  intros Hret Hl HQ. pose proof Hl as (R & Hr & _ & Hi & _). simpl. wp_norm.
  eapply wp_entries; [exact Hr|exact Hi|]. rewrite length_reverse. destruct (Z.ltb_spec ret want); [|lia]. simpl. wp_norm.
  destruct (rep_member _ _ _ _ _ p Hr Hi) as [d Hd]; [apply elem_of_reverse; by left|].
  eapply wp_oldest; [exact Hl|by left|]. intros y1 Hy1. wp_norm. pose proof Hy1 as (R1 & Hr1 & _).
  eapply wp_get_data; [exact Hr1|exact Hd|]. intros pg E _. wp_norm. unfold get_var. wp_norm. simpl.
  unfold outside in HQ. rewrite Hd in HQ. replace (va pg) with (va d) by (by rewrite <- E).
  destruct (negb _); wp_norm.
  - eapply wp_youngest; [exact Hy1|by rewrite Hd; eauto|by right; right|]. intros y2 Hy2.
    by apply (HQ y2 q (e ++ [p])).
  - eapply wp_youngest; [exact Hy1|by rewrite Hd; eauto|by left|]. intros y2 Hy2.
    by apply (HQ y2 (q ++ [p]) e).
Qed.

(** The pages [u] that the scan has yet to look at are followed by those it
    has put back, all of the window. *)
Lemma shrink_window_spec want ret n u r a e D Q0 s :
  lists_in (m_fifo s) Q0 D (u ++ r) a e -> Forall (fun p => outside (vars s safe_to_free) D p = false) r ->
  wp (PageRank.shrink_window_loop want ret n)
     (fun k s' => exists y i' vs, s' = set_fifo y s /\ lists_in y Q0 D i' a (e ++ vs) /\ u ++ r ≡ₚ vs ++ i' /\
        k = ret + Z.of_nat (length vs) /\ vs = first_outside (vars s safe_to_free) D (want - ret) (take n u)) s.
Proof.
  revert ret u r e s. induction n as [|n IH]; intros ret u r e s Hl Hin.
  { simpl. wp_norm. exists (m_fifo s), (u ++ r), []. rewrite app_nil_r, first_outside_nil.
    split_and!; [by destruct s|done..|simpl; lia|done]. }
  destruct (Z.ltb_spec ret want) as [Hret|Hret].
  2: { simpl. pose proof Hl as (R & Hr & _ & Hi & _). wp_norm. eapply wp_entries; [exact Hr|exact Hi|].
    destruct (Z.ltb_spec ret want); [lia|]. simpl. wp_norm. exists (m_fifo s), (u ++ r), [].
    rewrite app_nil_r, first_outside_none by lia. split_and!; [by destruct s|done..|simpl; lia|done]. }
  destruct u as [|p u]; [destruct r as [|p r]|].
  - simpl. pose proof Hl as (R & Hr & _ & Hi & _). wp_norm. eapply wp_entries; [exact Hr|exact Hi|].
    simpl. rewrite andb_false_r. wp_norm. exists (m_fifo s), [], []. rewrite app_nil_r, first_outside_nil.
    split_and!; [by destruct s|done..|simpl; lia|done].
  - apply Forall_cons in Hin as [Hp Hin]. eapply wp_look; [done|exact Hl|]. rewrite Hp. intros y i' e' [= -> ->] Hy.
    eapply wp_mono; [apply (IH ret [] (r ++ [p]) e (set_fifo y s)); [exact Hy|apply Forall_app; split; [exact Hin|by constructor]]|].
    intros k s' (y' & i' & vs & -> & Hy' & Hp' & Hk & Hvs). exists y', i', vs. split; [by destruct s|]. split; [done|].
    rewrite <- Hp'. split; [|by rewrite take_nil in *]. simpl. by rewrite Permutation_cons_append.
  - eapply wp_look; [done|exact Hl|]. cbn [take]. rewrite first_outside_cons by lia.
    destruct (outside (vars s safe_to_free) D p) eqn:Hp; intros y i' e' [= -> ->] Hy.
    + eapply wp_mono; [by apply (IH (ret + 1) u r (e ++ [p]) (set_fifo y s))|].
      intros k s' (y' & i' & vs & -> & Hy' & Hp' & Hk & Hvs). exists y', i', (p :: vs). split; [by destruct s|].
      rewrite <- app_assoc in Hy'. split; [exact Hy'|]. split; [simpl; by rewrite Hp'|]. split; [simpl; lia|].
      rewrite Hvs. simpl. by replace (want - (ret + 1)) with (want - ret - 1) by lia.
    + eapply wp_mono; [apply (IH ret u (r ++ [p]) e (set_fifo y s))|].
      * simpl. by rewrite app_assoc.
      * apply Forall_app. split; [exact Hin|by constructor].
      * intros k s' (y' & i' & vs & -> & Hy' & Hp' & Hk & Hvs). exists y', i', vs. split; [by destruct s|]. split; [done|].
        split; [|done]. rewrite <- Hp'. simpl. rewrite app_assoc. by rewrite (Permutation_cons_append (u ++ r) p).
Qed.

(** How many victims a request for [n] wants of [i], and the looks it takes. *)
Definition wanted (n : Z) (i : list ptr) : Z :=
  let e := Z.of_nat (length i) in if (n =? 0) || (e <? n) then e else n.

Lemma pr_shrink_spec n i a e D Q0 s :
  vars s safe_to_free <> 0 -> lists_in (m_fifo s) Q0 D i a e ->
  wp (PageRank.shrink_inactive_list n)
     (fun k s' => exists i' vs, lists_in (m_fifo s') Q0 D i' a (e ++ vs) /\ i ≡ₚ vs ++ i' /\ k = Z.of_nat (length vs) /\
        vs = first_outside (vars s safe_to_free) D (wanted n i) (take (Z.to_nat (u64 (wanted n i * 100))) i) /\
        vars s' = vars s /\ flags s' shrinkage_running = false /\ m_kern s' = m_kern s) s.
Proof.
  intros Hsafe Hl. pose proof Hl as (R & Hr & _ & Hi & _). unfold PageRank.shrink_inactive_list, set_flag, get_var. wp_norm.
  eapply wp_entries; [exact Hr|exact Hi|]. rewrite length_reverse. wp_norm. simpl.
  destruct (Z.eqb_spec (vars s safe_to_free) 0); [done|]. fold (wanted n i).
  eapply wp_mono; [apply (shrink_window_spec _ _ _ i [] a e D Q0); [by rewrite app_nil_r|by constructor]|].
  intros k s' (y & i' & vs & -> & Hy & Hp & -> & Hvs). wp_norm. rewrite app_nil_r in Hp. rewrite Z.sub_0_r in Hvs.
  exists i', vs. simpl. split_and!; [exact Hy|done|lia|done|done|by rewrite update_eq|done].
Qed.

(** C22: the window is kept.  While [safe_to_free] names a page,
    [shrink_inactive_list] returns and puts on [eviction_list] the first
    pages of the inactive list, oldest first, that lie outside of the window
    around it, as many as it wants and at most 100 looks each; it does not
    consult the accessed bits; every page of the window stays inactive, the
    active list and the other lists are as they were. *)
Theorem window_is_kept n i a e D Q0 s :
  vars s safe_to_free <> 0 -> lists_in (m_fifo s) Q0 D i a e ->
  wp (PageRank.shrink_inactive_list n)
     (fun k s' => exists i' vs, lists_in (m_fifo s') Q0 D i' a (e ++ vs) /\ i ≡ₚ vs ++ i' /\ k = Z.of_nat (length vs) /\
        vs = first_outside (vars s safe_to_free) D (wanted n i) (take (Z.to_nat (u64 (wanted n i * 100))) i) /\
        (forall p d, p ∈ i -> D !! p = Some d -> PageRank.in_window (vars s safe_to_free) (va d) = true -> p ∈ i') /\
        m_kern s' = m_kern s) s.
Proof.
  intros Hsafe Hl. eapply wp_mono; [by eapply pr_shrink_spec|].
  intros k s' (i' & vs & Hl' & Hp & Hk & Hvs & _ & _ & Hkern). exists i', vs. split_and!; [done..| |done].
  intros p d Hin Hd Hw. rewrite Hp in Hin. apply elem_of_app in Hin as [Hin|Hin]; [exfalso|done].
  rewrite Hvs in Hin. apply elem_of_take in Hin as (j & Hj & _). apply list_elem_of_lookup_2, list_elem_of_In, filter_In in Hj as [_ Ho].
  unfold outside in Ho. rewrite Hd, Hw in Ho. done.
Qed.

(** *** What it costs *)

(** Every frame is taken, and every inactive page lies in the window. *)
Record starved Q0 D s : Prop := mk_starved {
  sv_safe : vars s safe_to_free <> 0;
  sv_free : Q0 !! dram_free_list = Some [];
  sv_shrinking : flags s shrinkage_running = false;
  sv_lists : exists i a, lists_in (m_fifo s) Q0 D i a [] /\ Forall (fun p => outside (vars s safe_to_free) D p = false) i /\
    vars s dramsize / (PAGE_SIZE * 2) < u64 (Z.of_nat (length a) + Z.of_nat (length i));
}.

Lemma first_outside_all safe D m ps :
  Forall (fun p => outside safe D p = false) ps -> first_outside safe D m ps = [].
Proof.
  intros Hps. unfold first_outside. induction Hps as [|p ps Hp _ IH]; simpl; [by rewrite take_nil|by rewrite Hp].
Qed.

Lemma starved_shrink n Q0 D s :
  starved Q0 D s -> wp (PageRank.shrink_inactive_list n) (fun k s' => k = 0 /\ starved Q0 D s') s.
Proof.
  intros [Hsafe Hfree Hsh (i & a & Hl & Hin & Hn)]. eapply wp_mono; [by eapply pr_shrink_spec|].
  intros k s' (i' & vs & Hl' & Hp & Hk & Hvs & Hv & Hsh' & _).
  rewrite first_outside_all in Hvs by by apply Forall_take. subst vs. simpl in Hp. split; [done|].
  split; rewrite ?Hv; [done..|]. exists i', a. split; [done|]. by rewrite <- Hp.
Qed.

Lemma starved_direct n p Q0 D s :
  starved Q0 D s -> wp (PageRank.direct_allocate_page_asynch n p) (fun k s' => k = 0 /\ starved Q0 D s') s.
Proof.
  intros Hs. pose proof Hs as [_ _ _ (i & a & (R & Hr & _ & Hi & _) & _ & _)].
  unfold PageRank.direct_allocate_page_asynch. wp_norm. eapply wp_entries; [exact Hr|exact Hi|].
  match goal with |- wp (PageRank.reclaim_loop _ _ ?m) _ _ => generalize m end. clear R Hr Hi. intros m.
  revert s Hs. induction m as [|m IH]; intros s Hs; simpl; [by wp_norm|]. destruct (0 <? n); [|by wp_norm].
  wp_norm. eapply wp_mono; [by apply starved_shrink|]. intros k s' [-> Hs']. by apply IH.
Qed.

(** A computation that goes wrong after [m] went well. *)
Lemma fault_bind {A B} (m : M (machine K) A) (f : A -> M (machine K) B) e s :
  wp m (fun a s' => f a s' = Fault e) s -> (m ≫= f) s = Fault e.
Proof. unfold wp, mbind, M_bind. by destruct (m s) as [[a s']|]. Qed.

Lemma fault_left {A B} (m : M (machine K) A) (f : A -> M (machine K) B) e s : m s = Fault e -> (m ≫= f) s = Fault e.
Proof. unfold mbind, M_bind. by intros ->. Qed.

Lemma wp_dequeue_none l Q0 D i a (Q : option ptr -> machine K -> Prop) s :
  lists_in (m_fifo s) Q0 D i a [] -> l = eviction_list \/ (l = dram_free_list /\ Q0 !! l = Some []) ->
  (forall y, lists_in y Q0 D i a [] -> Q None (set_fifo y s)) -> wp (dequeue l) Q s.
Proof.
  intros (R & Hr & _ & Hi & Ha & He & Ho) Hl HQ.
  assert (HR : R !! l = Some []) by (destruct Hl as [->|[-> Hl]]; [done|by rewrite Ho]).
  unfold dequeue, fifo. apply (wp_zoom fifo_lens). eapply wp_mono; [by eapply dequeue_spec|].
  intros o y (-> & Hy & _). apply HQ. exists R. simpl in Hy. by rewrite insert_id in Hy.
Qed.

Lemma starved_fetch n Q0 D s :
  starved Q0 D s -> fetch_loop usleep PageRank.direct_allocate_page_asynch n s = Fault AssertFail.
Proof.
  revert s. induction n as [|n IH]; intros s Hs; [done|]. simpl.
  destruct Hs as [Hsafe Hfree Hsh (i & a & Hl & Hin & Hn)].
  apply fault_bind. eapply wp_dequeue_none; [exact Hl|by right|]. intros y Hy. cbv beta iota.
  apply fault_bind. unfold get_flag. wp_norm. pose proof Hy as (R & Hr & _ & Hi & Ha & _).
  apply fault_bind. eapply wp_entries; [exact Hr|exact Ha|]. apply fault_bind. eapply wp_entries; [exact Hr|exact Hi|].
  apply fault_bind. unfold get_var. wp_norm. rewrite !length_reverse. simpl. rewrite Hsh.
  destruct (Z.ltb_spec (vars s dramsize / (PAGE_SIZE * 2)) (u64 (Z.of_nat (length a) + Z.of_nat (length i)))); [|lia].
  simpl. apply fault_bind. wp_norm. eapply wp_mono; [eapply (starved_direct _ _ Q0 D)|].
  { split; [done..|]. by exists i, a. }
  intros k s' [_ Hs']. wp_norm. pose proof Hs' as [Hsafe' Hfree' Hsh' (i' & a' & Hl' & Hin' & Hn')].
  apply fault_bind. eapply wp_dequeue_none; [exact Hl'|by left|]. intros y' Hy'. apply IH. split; [done..|].
  by exists i', a'.
Qed.

(** C31: the window can take all the memory.  When no frame is free, no page
    waits for eviction, every inactive page lies in the window around
    [safe_to_free] and more than half of the frames are in use, the next
    fault aborts the program: [fetch_free_asynch] ends in its assertion
    "Out of memory", although every one of these pages could go to the
    disk. *)
Theorem window_starves Q0 D s :
  starved Q0 D s -> PageRank.lrudisk_pagefault usleep s = Fault AssertFail.
Proof.
  intros Hs. pose proof Hs as [Hsafe Hfree Hsh (i & a & (R & Hr & _ & Hi & Ha & _) & _)].
  unfold PageRank.lrudisk_pagefault, PageRank.fetch_free_asynch, fetch_free. apply fault_left.
  apply fault_bind. eapply wp_above_high_water; [exact Hr|by eexists|by eexists|]. intros b. cbv beta.
  apply fault_bind. unfold signal_kswapd. destruct b; unfold when; wp_norm; by eapply starved_fetch.
Qed.
End window.

(** ** The prefetch worker's block *)

Section block.
Context {K : Type} {HK : Kernel K}.
Variable usleep : M rdma_sys unit.
Implicit Types s : machine K.

Lemma collect_length {Pol : Policy K} b n s : wlp (prefetch_collect b n) (fun js _ => (length js <= n)%nat) s.
Proof.
  revert b s. induction n as [|n IH]; intros b s; simpl; [by wlp_norm|]. wlp_norm. apply wlp_any. intros [p|] s1; [|wlp_norm; simpl; lia].
  wlp_norm. apply wlp_any. intros pg s2. wlp_norm. intros _.
  do 2 (match goal with |- wlp (if ?b then _ else _) _ _ => destruct b end; [wlp_norm; apply wlp_any; intros; wlp_norm; simpl; lia|]).
  wlp_norm. apply wlp_any. intros _ s3. wlp_norm. intros _. apply wlp_any. intros _ s4. wlp_norm. apply wlp_any. intros f s5. wlp_norm.
  eapply wlp_mono; [apply IH|]. intros js s6 Hjs. wlp_norm. simpl in *. lia.
Qed.

Lemma try_prefetch_count {Pol : Policy K} b s :
  wlp (core_try_prefetch usleep b) (fun r _ => 0 <= r <= CORE_PREFETCH_RATE) s.
Proof.
  unfold core_try_prefetch. wlp_norm. intros _. eapply wlp_mono; [apply collect_length|]. intros js s1 Hjs.
  wlp_norm. apply wlp_any. intros _ s2. wlp_norm. apply wlp_any. intros a s3. wlp_norm. apply wlp_any. intros _ s4. wlp_norm.
  apply wlp_any. intros _ s5. wlp_norm. unfold CORE_PREFETCH_RATE in *. lia.
Qed.

(** The inner loop as the C text has it, without a bound: [block_loop b n h s o]
    says that from [s], with [prefetch_head] at [h], the loop for the block at
    [b] comes to its end after [n] calls of [core_try_prefetch], with [o]. *)
Inductive block_loop (b : Z) : nat -> Z -> machine K -> outcome (unit * machine K) -> Prop :=
  | block_past h s : u64 (b + PageRank.PR_BLOCK_SIZE) < h -> block_loop b 0 h s (Done (tt, s))
  | block_assert h s :
      h <= u64 (b + PageRank.PR_BLOCK_SIZE) -> h mod PAGE_SIZE <> 0 -> block_loop b 0 h s (Fault AssertFail)
  | block_fault h s e :
      h <= u64 (b + PageRank.PR_BLOCK_SIZE) -> h mod PAGE_SIZE = 0 ->
      core_try_prefetch (Pol := PageRank.pagerank usleep) usleep h s = Fault e -> block_loop b 1 h s (Fault e)
  | block_none h s s' :
      h <= u64 (b + PageRank.PR_BLOCK_SIZE) -> h mod PAGE_SIZE = 0 ->
      core_try_prefetch (Pol := PageRank.pagerank usleep) usleep h s = Done (0, s') -> block_loop b 1 h s (Done (tt, s'))
  | block_more n h s r s' o :
      h <= u64 (b + PageRank.PR_BLOCK_SIZE) -> h mod PAGE_SIZE = 0 ->
      core_try_prefetch (Pol := PageRank.pagerank usleep) usleep h s = Done (r, s') -> r <> 0 ->
      block_loop b n (u64 (h + r * PAGE_SIZE)) s' o -> block_loop b (S n) h s o.

(** [k] rounds are enough from [h] on. *)
Lemma prefetch_block_loop k b h s :
  0 <= b -> b + PageRank.PR_BLOCK_SIZE + CORE_PREFETCH_RATE * PAGE_SIZE < 2 ^ 64 -> b <= h ->
  b + PageRank.PR_BLOCK_SIZE < h + Z.of_nat k * PAGE_SIZE ->
  exists n, (n <= k)%nat /\ block_loop b n h s (PageRank.prefetch_block usleep b h k s).
Proof.
  intros Hb0 Hb. assert (Hpr : 0 <= PageRank.PR_BLOCK_SIZE) by done.
  assert (Hps : 0 <= CORE_PREFETCH_RATE * PAGE_SIZE) by done. assert (Hu : u64 (b + PageRank.PR_BLOCK_SIZE) = b + PageRank.PR_BLOCK_SIZE).
  { apply u64_small. unfold in_u64. lia. }
  revert h s. induction k as [|k IH]; intros h s Hh Hk; simpl; rewrite Hu;
    (destruct (Z.leb_spec h (b + PageRank.PR_BLOCK_SIZE)) as [Hle|Hgt];
      [|exists 0%nat; split; [lia|]; apply block_past; by rewrite Hu]); [lia|].
  rewrite <- Hu in Hle. unfold mbind, M_bind, c_assert. destruct (Z.eqb_spec (h mod PAGE_SIZE) 0) as [Hal|Hal]; simpl;
    [|exists 0%nat; split; [lia|]; by apply block_assert].
  pose proof (try_prefetch_count (Pol := PageRank.pagerank usleep) h s) as Hr. unfold wlp in Hr.
  destruct (core_try_prefetch usleep h s) as [[r s']|e] eqn:Hc; [|exists 1%nat; split; [lia|]; by apply block_fault].
  cbv beta in Hr. destruct (Z.eqb_spec r 0) as [->|Hne]; [exists 1%nat; split; [lia|]; by apply block_none|].
  change PAGE_SIZE with 4096 in *. change CORE_PREFETCH_RATE with 32 in *.
  destruct (IH (u64 (h + r * 4096)) s') as (n & Hn & Hloop); [rewrite u64_small by (unfold in_u64; lia); lia..|].
  exists (S n). split; [lia|]. by eapply block_more.
Qed.

(** C32: the prefetch worker's inner loop ends.  When the block ends 128 KB
    before the top of the address space, the loop as the code has it, with no
    bound of the model's, comes to an end whatever the state and whatever the
    calls of [core_try_prefetch] do: past the end of the block, at a call that
    prefetches nothing, at the alignment check, or at a call that does not
    return; after at most [block_rounds] calls, one for each page of the block and one
    more; and its outcome is the one [prefetch_block] computes with that
    bound. *)
Theorem prefetch_block_ends b s :
  0 <= b -> b + PageRank.PR_BLOCK_SIZE + CORE_PREFETCH_RATE * PAGE_SIZE < 2 ^ 64 ->
  exists n, (n <= PageRank.block_rounds)%nat /\
    block_loop b n b s (PageRank.prefetch_block usleep b b PageRank.block_rounds s).
Proof.
  intros Hb0 Hb. apply prefetch_block_loop; [done|done|lia|].
  replace (Z.of_nat PageRank.block_rounds) with 8193 by by vm_compute. change PageRank.PR_BLOCK_SIZE with 33554432.
  change PAGE_SIZE with 4096. lia.
Qed.
End block.

(** ** Instances *)

(** Three inactive pages and two active ones; 12288 was swapped in last. *)
Definition window_machine : machine sim_kernel :=
  mk_machine (m_store lru_machine) lru_fifo ∅ 6%positive (m_kern lru_machine) (m_pf lru_machine)
    (update (update demo_vars safe_to_free 12288) dramsize 20480) (fun _ => false).

(** Of the three only the page at 12288 itself is outside of the window. *)
Lemma window_is_kept_witness :
  wp (PageRank.shrink_inactive_list 32)
    (fun k s' => k = 1 /\ exists D Q, rep (m_fifo s') D Q /\ Q !! eviction_list = Some [3%positive]) window_machine.
Proof.
  eapply wp_mono; [apply (window_is_kept 32 [1%positive; 2%positive; 3%positive] [4%positive; 5%positive] [] lru_pages empty_lists window_machine); [done|exact lru_lists]|].
  intros k s' (i' & vs & (Q & Hr & _ & _ & _ & He & _) & _ & -> & Hvs & _). vm_compute in Hvs. subst vs. split; [done|].
  eexists _, Q. split; [exact Hr|]. by rewrite He.
Defined.

(** After one more swap-in, of a page elsewhere in the window, none is. *)
Definition starved_machine : machine sim_kernel :=
  set_vars (update (vars window_machine) safe_to_free 32768) window_machine.

Lemma window_starves_witness : PageRank.lrudisk_pagefault (mret tt) starved_machine = Fault AssertFail.
Proof.
  apply (window_starves (mret tt) empty_lists lru_pages). split.
  - done.
  - by vm_compute.
  - done.
  - eexists _, _. split; [exact lru_lists|]. split; [|by vm_compute].
    repeat (constructor; [by vm_compute|]). constructor.
Defined.

(** A page follows the address, and nothing follows that page. *)
Lemma prefetch_block_ends_witness :
  exists n s', block_loop (mret tt) 4096 n 4096 prefetch_machine (Done (tt, s')).
Proof.
  destruct (prefetch_block_ends (mret tt) 4096 prefetch_machine ltac:(lia) ltac:(by vm_compute)) as (n & _ & H). exists n.
  assert (Hd : (match PageRank.prefetch_block (mret tt) 4096 4096 PageRank.block_rounds prefetch_machine with
    Done _ => true | Fault _ => false end) = true) by by vm_compute.
  destruct (PageRank.prefetch_block (mret tt) 4096 4096 PageRank.block_rounds prefetch_machine) as [[[] s']|]; [|done].
  by exists s'.
Defined.
