(* ===== verification/MapSpec.v ===== *)
(** [mmap] and [munmap]: the flags a mapping is made with, and the loop that
    takes the pages of a range out of the hash and gives them back. *)

From S2P Require Import Prelude UserPage AddressTranslation Fifo RdmaAlloc RdmaSim StorageRdma StorageSpec.
From S2P Require Import Machine Policy PointerPrefetch PrefetchSpec Migrate DiskLinux Core Accounting PolicySpec CoreSpec SwapSpec LruSpec WindowSpec FaultSpec.

Local Open Scope Z_scope.

(** ** The flags *)

Lemma has_flag_bit fl f k : f = 2 ^ k -> 0 <= k -> has_flag fl f = Z.testbit fl k.
Proof.
  intros -> Hk. unfold has_flag. destruct (Z.testbit fl k) eqn:E.
  - apply Z.eqb_eq, Z.bits_inj'. intros i Hi. rewrite Z.land_spec, Z.pow2_bits_eqb by done.
    destruct (Z.eqb_spec k i) as [<-|]; [by rewrite E|by rewrite andb_false_r].
  - apply Z.eqb_neq. intros H. apply (f_equal (fun z => Z.testbit z k)) in H.
    by rewrite Z.land_spec, Z.pow2_bits_true, E in H.
Qed.

Lemma add_flag_bit fl f k i : f = 2 ^ k -> 0 <= k -> Z.testbit (add_flag fl f) i = Z.testbit fl i || (k =? i).
Proof. intros -> Hk. unfold add_flag. by rewrite Z.lor_spec, Z.pow2_bits_eqb. Qed.

Lemma drop_flag_bit fl f k i : f = 2 ^ k -> 0 <= k -> Z.testbit (drop_flag fl f) i = Z.testbit fl i && negb (k =? i).
Proof. intros -> Hk. unfold drop_flag. by rewrite Z.ldiff_spec, Z.pow2_bits_eqb. Qed.

(** [fl] with the flag of bit [k] dropped when it is there has it dropped in
    any case. *)
Lemma drop_if_bit fl f k i :
  f = 2 ^ k -> 0 <= k ->
  Z.testbit (if has_flag fl f then drop_flag fl f else fl) i = Z.testbit fl i && negb (k =? i).
Proof.
  intros Hf Hk. rewrite (has_flag_bit _ _ k) by done. destruct (Z.testbit fl k) eqn:E; [by apply drop_flag_bit|].
  destruct (Z.eqb_spec k i) as [<-|]; [by rewrite E|by rewrite andb_true_r].
Qed.

(** The flags [extmem_mmap] maps with, bit by bit: the mapping is
    anonymous and unreserved; a shared one is made private; [MAP_POPULATE]
    and [MAP_HUGETLB] never reach the kernel, the first being the second
    result; and no other flag of the program changes. *)
Theorem mmap_flags_bits fl :
  (mmap_flags fl).2 = has_flag fl MAP_POPULATE /\
  forall i, Z.testbit (mmap_flags fl).1 i =
    if bool_decide (i = 5 \/ i = 14) then true
    else if bool_decide (i = 0 \/ i = 15 \/ i = 18) then false
    else if i =? 1 then has_flag fl MAP_PRIVATE || has_flag fl MAP_SHARED
    else Z.testbit fl i.
Proof.
  unfold mmap_flags. rewrite (has_flag_bit fl MAP_SHARED 0), (has_flag_bit fl MAP_PRIVATE 1) by done. simpl fst. simpl snd.
  set (fl1 := if Z.testbit fl 0 then add_flag (drop_flag fl MAP_SHARED) MAP_PRIVATE else fl).
  assert (H1 : forall i, Z.testbit fl1 i = if i =? 0 then false else if i =? 1 then Z.testbit fl 1 || Z.testbit fl 0 else Z.testbit fl i).
  { intros i. subst fl1. destruct (Z.testbit fl 0) eqn:E.
    - rewrite (add_flag_bit _ _ 1), (drop_flag_bit _ _ 0) by done. rewrite !(Z.eqb_sym _ i).
      destruct (Z.eqb_spec i 0) as [->|]; [by rewrite andb_false_r|]. rewrite andb_true_r.
      destruct (Z.eqb_spec i 1) as [->|]; [done|by rewrite orb_false_r].
    - destruct (Z.eqb_spec i 0) as [->|]; [done|]. destruct (Z.eqb_spec i 1) as [->|]; [by rewrite orb_false_r|done]. }
  set (fl2 := add_flag (add_flag fl1 MAP_NORESERVE) MAP_ANONYMOUS).
  assert (H2 : forall i, Z.testbit fl2 i = Z.testbit fl1 i || (14 =? i) || (5 =? i)).
  { intros i. subst fl2. by rewrite (add_flag_bit _ _ 5), (add_flag_bit _ _ 14) by done. }
  split; [rewrite !(has_flag_bit _ MAP_POPULATE 15), H2, H1 by done; simpl; by rewrite !orb_false_r|].
  intros i. rewrite (drop_if_bit _ _ 18), (drop_if_bit _ _ 15), H2, H1 by done. rewrite !(Z.eqb_sym _ i).
  repeat case_bool_decide; destruct (Z.eqb_spec i 0), (Z.eqb_spec i 1), (Z.eqb_spec i 5), (Z.eqb_spec i 14),
    (Z.eqb_spec i 15), (Z.eqb_spec i 18); subst; try lia; rewrite ?orb_false_r, ?orb_true_r, ?andb_true_r, ?andb_false_r; done.
Qed.

(** ** What a page has to be for [munmap], and what becomes of it *)

(** [x] is on the list [l]. *)
Definition on (Q : gmap lid (list ptr)) (l : lid) (x : ptr) : Prop := exists ids, Q !! l = Some ids /\ x ∈ ids.

Lemma on_without Q l l1 p l2 l' x :
  Q !! l = Some (l1 ++ p :: l2) -> x <> p -> on Q l' x -> on (<[l := l1 ++ l2]> Q) l' x.
Proof.
  intros Hl Hne (ids & Hq & Hx). destruct (decide (l' = l)) as [->|Hn]; [|exists ids; by rewrite lookup_insert_ne].
  exists (l1 ++ l2). rewrite lookup_insert_eq. split; [done|]. simplify_eq. set_solver.
Qed.

Lemma on_with Q l ids p l' x : Q !! l = Some ids -> on Q l' x -> on (<[l := p :: ids]> Q) l' x.
Proof.
  intros Hl (ids' & Hq & Hx). destruct (decide (l' = l)) as [->|Hn]; [|exists ids'; by rewrite lookup_insert_ne].
  exists (p :: ids). rewrite lookup_insert_eq. split; [done|]. simplify_eq. by right.
Qed.

Lemma on_new Q l ids p : on (<[l := p :: ids]> Q) l p.
Proof. exists (p :: ids). rewrite lookup_insert_eq. split; [done|]. by left. Qed.

Lemma on_split Q l p : on Q l p -> exists l1 l2, Q !! l = Some (l1 ++ p :: l2).
Proof. intros (ids & Hq & (l1 & l2 & ->)%list_elem_of_split). eauto. Qed.

Lemma on_same (x : fifo_state) D Q l l' p : rep x D Q -> on Q l p -> on Q l' p -> l = l'.
Proof. intros Hr (i1 & H1 & ?) (i2 & H2 & ?). by eapply rep_disjoint. Qed.

(** [r] holds the copy on the disk of the page whose data is [d]. *)
Definition reserved (d : user_page) (r : ptr) : Prop := in_dram d = true /\ has_reserve d = true /\ reserve d = Some r.

(** The page [p], with the data [d], can be taken from the policy: it is a base
    page, on a list, not as a reserve, and in memory or on the disk; its
    reserve, if it has one, knows it and is on its list. *)
Record unmappable (D : gmap ptr user_page) (Q : gmap lid (list ptr)) (p : ptr) (d : user_page) : Prop := mk_unmappable {
  um_data : D !! p = Some d;
  um_base : pt d = BASEP;
  um_listed : exists l, l <> disk_reserve_list /\ on Q l p;
  um_place : in_dram d = true \/ swapped_out d = true;
  um_reserve : in_dram d = true -> has_reserve d = true ->
    exists r dr, reserve d = Some r /\ D !! r = Some dr /\ reserve dr = Some p /\ on Q disk_reserve_list r;
}.

(** [x] is on [l], cleared for another use. *)
Definition cleared (D : gmap ptr user_page) (Q : gmap lid (list ptr)) (l : lid) (x : ptr) : Prop :=
  on Q l x /\ exists d, D !! x = Some d /\ present d = false /\ has_reserve d = false.

(** The page [p] that had the data [d] is given back: its frame or its slot is
    free, the descriptor has no address, and its copy's slot is free too. *)
Record given_back (D : gmap ptr user_page) (Q : gmap lid (list ptr)) (p : ptr) (d : user_page) : Prop := mk_given_back {
  gb_page : on Q (if in_dram d then dram_free_list else disk_free_list) p;
  gb_data : exists d', D !! p = Some d' /\ va d' = 0 /\ pt d' = pt d /\ present d' = false /\ has_reserve d' = false /\ migrating d' = false;
  gb_copy : forall r, reserved d r -> cleared D Q disk_free_list r;
}.

(** What giving [p] back leaves alone. *)
Record leaves (D : gmap ptr user_page) (Q : gmap lid (list ptr)) (p : ptr) (d : user_page) D' Q' : Prop := mk_leaves {
  lv_gone : given_back D' Q' p d;
  lv_on : forall l x, x <> p -> ~ reserved d x -> on Q l x -> on Q' l x;
  lv_data : forall x, x <> p -> ~ reserved d x -> D' !! x = D !! x;
  lv_free : is_Some (Q' !! dram_free_list) /\ is_Some (Q' !! disk_free_list);
}.

Section munmap.
Context {K : Type} {HK : Kernel K}.
Variable usleep : M rdma_sys unit.
Implicit Types s : machine K.
Notation munmap_loop := (munmap_loop (Pol := disklinux usleep)).
Notation extmem_munmap := (extmem_munmap (Pol := disklinux usleep)).

(** An assignment to the page. *)
Ltac assign_page := eapply wp_assign_data; [split; [by intros|by intros []]|eassumption|intros ? ?]; wp_norm.

Lemma wp_tryremove_data l l1 p l2 (Q : Z -> machine K -> Prop) s D Q' :
  rep (m_fifo s) D Q' -> Q' !! l = Some (l1 ++ p :: l2) ->
  (forall y, rep y D (<[l := l1 ++ l2]> Q') -> Q 0 (set_fifo y s)) -> wp (tryremove (Some l) p) Q s.
Proof.
  intros Hr Hl HQ. unfold tryremove. apply (wp_zoom fifo_lens). eapply wp_mono; [by eapply tryremove_spec|].
  intros r y [-> Hy]. by apply HQ.
Qed.

(** The page's data when it has left its list, and when it is given back. *)
Definition left_list (d : user_page) : user_page := set_va 0 (set_present false d).
Definition without_reserve (d : user_page) : user_page := set_reserve None (set_has_reserve false d).

(** *** The three ends of [lrudisk_remove_page] *)

Lemma release_slot p d fl s D Q :
  rep (m_fifo s) (<[p := d]> D) Q -> unlisted Q p -> in_dram d = false -> swapped_out d = true -> Q !! disk_free_list = Some fl ->
  wp (release_removed p) (fun _ s' => exists x, s' = set_fifo x s /\
        rep x (<[p := set_has_reserve false (set_reserve None (left_list d))]> D) (<[disk_free_list := p :: fl]> Q)) s.
Proof.
  intros Hr Hu Hd Hso Hfl. unfold release_removed. wp_norm. do 2 assign_page.
  eapply wp_get_data; [eassumption|apply lookup_insert_eq|]. intros pg Epg _. pose proof (erase_fields _ _ Epg) as (Ed & _ & _ & _ & _ & Es).
  wp_norm. rewrite Ed, Es. change (in_dram (set_va 0 (set_present false d))) with (in_dram d).
  change (swapped_out (set_va 0 (set_present false d))) with (swapped_out d). rewrite Hd, Hso. wp_norm. do 2 assign_page.
  eapply wp_enqueue_data; [eassumption|exact Hfl|apply lookup_insert_eq|exact Hu|]. intros y Hy. by exists y.
Qed.

Lemma release_frame p d fl s D Q :
  rep (m_fifo s) (<[p := d]> D) Q -> unlisted Q p -> in_dram d = true -> has_reserve d = false -> Q !! dram_free_list = Some fl ->
  wp (release_removed p) (fun _ s' => exists x, s' = set_fifo x s /\
        rep x (<[p := left_list d]> D) (<[dram_free_list := p :: fl]> Q)) s.
Proof.
  intros Hr Hu Hd Hh Hfl. unfold release_removed. wp_norm. do 2 assign_page.
  eapply wp_get_data; [eassumption|apply lookup_insert_eq|]. intros pg Epg _. pose proof (erase_fields _ _ Epg) as (Ed & _).
  pose proof (f_equal has_reserve Epg) as Eh. wp_norm. rewrite Ed. change (has_reserve pg = has_reserve d) in Eh. rewrite Eh.
  change (in_dram (set_va 0 (set_present false d))) with (in_dram d). rewrite Hd, Hh. wp_norm.
  eapply wp_enqueue_data; [eassumption|exact Hfl|apply lookup_insert_eq|exact Hu|]. intros y Hy. by exists y.
Qed.

Lemma release_both p d r dr r1 r2 f1 f2 s D Q :
  rep (m_fifo s) (<[p := d]> (<[r := dr]> D)) Q -> p <> r -> unlisted Q p -> in_dram d = true -> has_reserve d = true ->
  reserve d = Some r -> reserve dr = Some p -> Q !! disk_reserve_list = Some (r1 ++ r :: r2) ->
  Q !! disk_free_list = Some f1 -> Q !! dram_free_list = Some f2 ->
  wp (release_removed p) (fun _ s' => exists x, s' = set_fifo x s /\
        rep x (<[p := without_reserve (left_list d)]> (<[r := set_present false (without_reserve dr)]> D))
          (<[dram_free_list := p :: f2]> (<[disk_free_list := r :: f1]> (<[disk_reserve_list := r1 ++ r2]> Q)))) s.
Proof.
  intros Hr Hne Hu Hd Hh Hres Hback Hrl Hf1 Hf2. unfold release_removed. wp_norm. do 2 assign_first.
  eapply wp_get_data; [eassumption|apply lookup_insert_eq|]. intros pg Epg _. pose proof (erase_fields _ _ Epg) as (Ed & _).
  pose proof (f_equal has_reserve Epg) as Eh. pose proof (f_equal reserve Epg) as Er. wp_norm. rewrite Ed.
  change (has_reserve pg = has_reserve d) in Eh. change (reserve pg = reserve d) in Er. rewrite Eh, Er.
  change (in_dram (set_va 0 (set_present false d))) with (in_dram d). rewrite Hd, Hh, Hres. wp_norm.
  eapply wp_get_data; [eassumption|by rewrite lookup_insert_ne, lookup_insert_eq|]. intros rpg Erpg Hrpg. wp_norm.
  pose proof (f_equal reserve Erpg) as Err. change (reserve rpg = reserve dr) in Err.
  apply wp_assert; [apply bool_decide_eq_true; congruence|]. wp_norm.
  assert (Hil : in_list rpg = Some disk_reserve_list).
  { eapply rep_in_list; [eassumption|exact Hrpg|]. exists (r1 ++ r :: r2). split; [done|]. apply elem_of_app. right. by left. }
  apply wp_assert; [by apply bool_decide_eq_true|]. wp_norm. rewrite Hil.
  eapply wp_tryremove_data; [eassumption|exact Hrl|]. intros y1 Hy1. wp_norm. apply wp_busy_wait; [done|]. wp_norm.
  assert (Hr1 : unlisted (<[disk_reserve_list := r1 ++ r2]> Q) r) by (eapply unlisted_once; [exact Hr|exact Hrl]).
  assert (Hp1 : unlisted (<[disk_reserve_list := r1 ++ r2]> Q) p).
  { eapply unlisted_less; [exact Hrl| |exact Hu]. intros y Hy. rewrite elem_of_app, elem_of_cons. rewrite elem_of_app in Hy. tauto. }
  do 3 assign_second.
  eapply (wp_enqueue_data disk_free_list f1); [eassumption|by rewrite lookup_insert_ne|by rewrite lookup_insert_ne, lookup_insert_eq|exact Hr1|].
  intros y2 Hy2. wp_norm. do 2 assign_first.
  eapply (wp_enqueue_data dram_free_list f2); [eassumption|by rewrite !lookup_insert_ne|apply lookup_insert_eq| |].
  { apply unlisted_other; [by rewrite lookup_insert_ne|done|exact Hp1]. }
  intros y3 Hy3. by exists y3.
Qed.
(** *** A page is given back *)

Lemma remove_spec p d s D Q :
  rep (m_fifo s) D Q -> unmappable D Q p d -> is_Some (Q !! dram_free_list) -> is_Some (Q !! disk_free_list) ->
  wp (lrudisk_remove_page p) (fun _ s' => exists x D' Q', s' = set_fifo x s /\ rep x D' Q' /\ leaves D Q p d D' Q') s.
Proof.
  intros Hr0 [Hp Hpt (l & Hl & Hon) Hplace Hres] [f2 Hf2] [f1 Hf1]. destruct (on_split _ _ _ Hon) as (l1 & l2 & Hq).
  pose proof (unlisted_once _ _ _ _ _ _ _ Hr0 Hq) as Hu. set (Q1 := <[l := l1 ++ l2]> Q) in *.
  assert (Hkeep : forall l' x, x <> p -> on Q l' x -> on Q1 l' x) by (intros l' x Hx; by apply (on_without _ _ _ _ _ _ _ Hq)).
  assert (Hfree : forall l', is_Some (Q !! l') -> is_Some (Q1 !! l')).
  { intros l' Hl'. unfold Q1. destruct (decide (l' = l)) as [->|Hn]; [rewrite lookup_insert_eq; by eexists|by rewrite lookup_insert_ne]. }
  destruct (Hfree dram_free_list ltac:(by eexists)) as [g2 Hg2]. destruct (Hfree disk_free_list ltac:(by eexists)) as [g1 Hg1].
  unfold lrudisk_remove_page. wp_norm. pose proof Hr0 as Hr. rewrite <- (insert_id _ _ _ Hp) in Hr. assign_page. clear Hr.
  eapply wp_get_data; [eassumption|apply lookup_insert_eq|]. intros pg _ Hpg. wp_norm.
  assert (Hil : in_list pg = Some l) by (eapply rep_in_list; [eassumption|exact Hpg|exact Hon]). rewrite Hil.
  eapply wp_tryremove_data; [eassumption|exact Hq|]. intros y Hy. fold Q1 in Hy. wp_norm. apply wp_busy_wait; [done|]. wp_norm.
  destruct (in_dram d) eqn:Hd; [destruct (has_reserve d) eqn:Hh|].
  - destruct (Hres eq_refl eq_refl) as (r & dr & Er & Hdr & Hback & Honr).
    assert (Hne : p <> r) by (intros E; rewrite <- E in Honr; exact (Hl (on_same _ _ _ _ _ _ Hr0 Hon Honr))).
    destruct (on_split _ _ _ (Hkeep _ r ltac:(congruence) Honr)) as (r1 & r2 & Hrl).
    rewrite <- (insert_id D r dr Hdr) in Hy.
    eapply wp_mono; [eapply (release_both p (set_migrating true d) r dr); [exact Hy|exact Hne|exact Hu|done|done|done|done|exact Hrl|exact Hg1|exact Hg2]|].
    intros [] s2 (w & -> & Hw). wp_norm. assign_first. eexists _, _, _. split; [reflexivity|]. split; [eassumption|]. split.
    + split; [rewrite Hd; apply on_new| |].
      * eexists. split; [apply lookup_insert_eq|]. split_and!; done.
      * intros r' (_ & _ & Er'). assert (r' = r) as -> by congruence. split.
        -- apply on_with; [by rewrite !lookup_insert_ne|]. apply on_new.
        -- eexists. split; [by rewrite lookup_insert_ne, lookup_insert_eq|]. done.
    + intros l' z Hz Hzr Hzon. assert (z <> r) by (intros ->; by apply Hzr).
      apply on_with; [by rewrite !lookup_insert_ne|]. apply on_with; [by rewrite lookup_insert_ne|].
      eapply on_without; [exact Hrl|done|]. by apply Hkeep.
    + intros z Hz Hzr. assert (z <> r) by (intros ->; by apply Hzr). by rewrite !lookup_insert_ne.
    + split; [rewrite lookup_insert_eq; by eexists|]. rewrite lookup_insert_ne, lookup_insert_eq by done. by eexists.
  - eapply wp_mono; [eapply (release_frame p (set_migrating true d)); [exact Hy|exact Hu|done|done|exact Hg2]|].
    intros [] s2 (w & -> & Hw). wp_norm. assign_page. eexists _, _, _. split; [reflexivity|]. split; [eassumption|]. split.
    + split; [rewrite Hd; apply on_new| |].
      * eexists. split; [apply lookup_insert_eq|]. split_and!; done.
      * intros r' (_ & Eh & _). congruence.
    + intros l' z Hz _ Hzon. apply on_with; [done|]. by apply Hkeep.
    + intros z Hz _. by rewrite lookup_insert_ne.
    + split; [rewrite lookup_insert_eq; by eexists|]. rewrite lookup_insert_ne by done. by eexists.
  - destruct Hplace as [?|Hso]; [done|].
    eapply wp_mono; [eapply (release_slot p (set_migrating true d)); [exact Hy|exact Hu|done|done|exact Hg1]|].
    intros [] s2 (w & -> & Hw). wp_norm. assign_page. eexists _, _, _. split; [reflexivity|]. split; [eassumption|]. split.
    + split; [rewrite Hd; apply on_new| |].
      * eexists. split; [apply lookup_insert_eq|]. split_and!; done.
      * intros r' (Ed & _). congruence.
    + intros l' z Hz _ Hzon. apply on_with; [done|]. by apply Hkeep.
    + intros z Hz _. by rewrite lookup_insert_ne.
    + split; [|rewrite lookup_insert_eq; by eexists]. rewrite lookup_insert_ne by done. by eexists.
Qed.
(** Another page of the range is as it was. *)
Lemma leaves_unmappable x D Q p d D' Q' q dq :
  rep x D Q -> unmappable D Q p d -> leaves D Q p d D' Q' -> q <> p -> unmappable D Q q dq -> unmappable D' Q' q dq.
Proof.
  intros Hr Hup [_ Hlv Hld _] Hne Huq. destruct Huq as [Hq Hbase (l & Hl & Hon) Hplace Hres].
  assert (Hnr : forall z l', l' <> disk_reserve_list -> on Q l' z -> ~ reserved d z).
  { intros z l' Hl' Hz (Hd & Hh & Er). destruct (um_reserve _ _ _ _ Hup Hd Hh) as (r & dr & Er' & _ & _ & Honr).
    assert (r = z) as -> by congruence. apply Hl'. exact (on_same _ _ _ _ _ _ Hr Hz Honr). }
  split; [|done| |done|].
  - rewrite Hld; [done|done|by eapply Hnr].
  - exists l. split; [done|]. apply Hlv; [done|by eapply Hnr|done].
  - intros Hd Hh. destruct (Hres Hd Hh) as (r & dr & Er & Hdr & Hback & Honr). exists r, dr.
    assert (Hrp : r <> p).
    { intros ->. destruct (um_listed _ _ _ _ Hup) as (l' & Hl' & Hon'). apply Hl'. exact (on_same _ _ _ _ _ _ Hr Hon' Honr). }
    assert (Hrr : ~ reserved d r).
    { intros (Hd' & Hh' & Er'). destruct (um_reserve _ _ _ _ Hup Hd' Hh') as (r' & dr' & Er2 & Hdr' & Hback' & _). congruence. }
    split; [done|]. split; [by rewrite Hld|]. split; [done|]. by apply Hlv.
Qed.

Lemma unmappable_migrating D Q p d :
  unmappable D Q p d -> unmappable (<[p := set_migrating true d]> D) Q p (set_migrating true d).
Proof.
  intros [Hp Hb Hl Hpl Hres]. split; [apply lookup_insert_eq|done|done|done|]. intros Hd Hh.
  destruct (Hres Hd Hh) as (r & dr & Er & Hr & Hback & Hon). destruct (decide (r = p)) as [->|Hne].
  - exists p, (set_migrating true d). rewrite lookup_insert_eq. assert (dr = d) as -> by congruence. done.
  - exists r, dr. by rewrite lookup_insert_ne.
Qed.

(** What was free stays free. *)
Lemma leaves_free x D Q p d D' Q' l z :
  rep x D Q -> unmappable D Q p d -> leaves D Q p d D' Q' -> l <> disk_reserve_list -> z <> p -> on Q l z ->
  on Q' l z /\ D' !! z = D !! z.
Proof.
  intros Hr Hup [_ Hlv Hld _] Hl Hz Hon. assert (Hnr : ~ reserved d z).
  { intros (Hd & Hh & Er). destruct (um_reserve _ _ _ _ Hup Hd Hh) as (r & dr & Er' & _ & _ & Honr).
    assert (r = z) as -> by congruence. apply Hl. exact (on_same _ _ _ _ _ _ Hr Hon Honr). }
  split; [by apply Hlv|by apply Hld].
Qed.

(** *** The loop *)

(** [v] is one of the page addresses of [b, stop). *)
Definition in_range (b stop v : Z) : Prop := b <= v < stop /\ (v - b) mod PAGE_SIZE = 0.
#[local] Instance in_range_dec b stop v : Decision (in_range b stop v).
Proof. unfold in_range. apply _. Defined.

(** What stays in the hash when the pages of the range go. *)
Definition stays (b stop : Z) (x : Z * ptr) : Prop := ~ in_range b stop x.1.
#[local] Instance stays_dec b stop x : Decision (stays b stop x).
Proof. unfold stays. apply _. Defined.

Definition one_key (h : gmap Z ptr) : Prop := forall v w p, h !! v = Some p -> h !! w = Some p -> v = w.

Lemma in_range_next b stop v : v <> b -> in_range (b + PAGE_SIZE) stop v <-> in_range b stop v.
Proof.
  intros Hne. unfold in_range. change PAGE_SIZE with 4096. replace (v - (b + 4096)) with (v - b + -1 * 4096) by lia.
  rewrite Z.mod_add by done. split; [intuition lia|]. intros [Hr Hm]. split; [|done].
  split; [|lia]. apply Z.mod_divide in Hm as [k Hk]; lia.
Qed.

Lemma in_range_rest b stop v : in_range (b + PAGE_SIZE) stop v -> v <> b /\ in_range b stop v.
Proof.
  intros Hv. assert (v <> b) by (destruct Hv as [? _]; change PAGE_SIZE with 4096 in *; lia).
  split; [done|]. by apply in_range_next.
Qed.

(** Nobody migrates the pages of the range that are in the hash, they can be
    taken from the policy, and there are lists to put them on. *)
Record mapped (b stop : Z) (h : gmap Z ptr) (D : gmap ptr user_page) (Q : gmap lid (list ptr)) : Prop := mk_mapped {
  mp_pages : forall v p, in_range b stop v -> h !! v = Some p -> exists d, unmappable D Q p d /\ migrating d = false;
  mp_free : is_Some (Q !! dram_free_list) /\ is_Some (Q !! disk_free_list);
}.

(** The pages of the range were given back, and what was free still is. *)
Record unmapped (b stop : Z) (h : gmap Z ptr) (D : gmap ptr user_page) (Q : gmap lid (list ptr)) D' Q' : Prop := mk_unmapped {
  un_pages : forall v p d, in_range b stop v -> h !! v = Some p -> D !! p = Some d -> given_back D' Q' p d;
  un_free : forall l z, l = dram_free_list \/ l = disk_free_list -> on Q l z ->
    (forall v, in_range b stop v -> h !! v <> Some z) -> on Q' l z /\ D' !! z = D !! z;
}.

(** One page more. *)
Lemma leaves_migrating D Q p d D' Q' :
  leaves (<[p := set_migrating true d]> D) Q p (set_migrating true d) D' Q' -> leaves D Q p d D' Q'.
Proof.
  intros [[Hp Hd Hc] Hon Hld Hfree]. split; [by split|done| |done].
  intros x Hx Hr. rewrite Hld by done. by apply lookup_insert_ne.
Qed.

Section one_more.
Context (b stop : Z) (h : gmap Z ptr) (x : fifo_state) (D : gmap ptr user_page) (Q : gmap lid (list ptr)) (p : ptr) (d : user_page).
Context (D2 : gmap ptr user_page) (Q2 : gmap lid (list ptr)).
Hypotheses (Hinj : one_key h) (Hr : rep x D Q) (Hmp : mapped b stop h D Q).
Hypotheses (Hbr : in_range b stop b) (Hbp : h !! b = Some p) (Hup : unmappable D Q p d) (Hlv : leaves D Q p d D2 Q2).
Notation rest := (base.filter (fun y : Z * ptr => y.2 <> p) h).

Lemma rest_lookup v q : rest !! v = Some q <-> h !! v = Some q /\ q <> p.
Proof. apply map_lookup_filter_Some. Qed.

Lemma mapped_rest : mapped (b + PAGE_SIZE) stop rest D2 Q2.
Proof.
  destruct Hmp as [Hpages _]. split; [|apply Hlv]. intros v q [_ Hv]%in_range_rest [Hh Hne]%rest_lookup.
  destruct (Hpages v q Hv Hh) as (dq & Huq & Hm). exists dq. split; [|done]. exact (leaves_unmappable _ _ _ _ _ _ _ _ _ Hr Hup Hlv Hne Huq).
Qed.

Lemma hash_rest : base.filter (stays (b + PAGE_SIZE) stop) rest = base.filter (stays b stop) h.
Proof.
  rewrite map_filter_filter. apply map_filter_ext. intros v q Hv. unfold stays. simpl. destruct (decide (v = b)) as [->|Hne].
  - assert (q = p) as -> by congruence. split; [by intros [_ ?]|]. by intros [].
  - rewrite (in_range_next b stop v Hne). split; [by intros []|]. intros Hst. split; [done|]. intros ->. apply Hne. by eapply Hinj.
Qed.

Lemma unmapped_step D' Q' : unmapped (b + PAGE_SIZE) stop rest D2 Q2 D' Q' -> unmapped b stop h D Q D' Q'.
Proof.
  destruct Hmp as [Hpages _]. intros [Hun Hfree]. split.
  - intros v q dq Hv Hq Hdq. destruct (decide (v = b)) as [->|Hne].
    + assert (q = p) as -> by congruence. assert (dq = d) as -> by (rewrite (um_data _ _ _ _ Hup) in Hdq; congruence).
      destruct (lv_gone _ _ _ _ _ _ Hlv) as [Hon (d' & Hd' & Hc) Hcopy].
      assert (Hfl : (if in_dram d then dram_free_list else disk_free_list) = dram_free_list \/
        (if in_dram d then dram_free_list else disk_free_list) = disk_free_list) by (destruct (in_dram d); tauto).
      destruct (Hfree _ p Hfl Hon) as [Hon' Hd'']; [by intros w _ [_ ?]%rest_lookup|].
      split; [exact Hon'|exists d'; split; [congruence|exact Hc]|]. intros r Hres. destruct (Hcopy r Hres) as (Hor & dr & Hdr & Hcr).
      destruct (Hfree _ r ltac:(by right) Hor) as [Hor' Hdr'].
      * intros w [_ Hw]%in_range_rest [Hh _]%rest_lookup. destruct (Hpages w r Hw Hh) as (dq & Huq & _).
        destruct (um_listed _ _ _ _ Huq) as (l & Hl & Hol). destruct Hres as (Hd1 & Hh1 & Er).
        destruct (um_reserve _ _ _ _ Hup Hd1 Hh1) as (r' & _ & Er' & _ & _ & Honr). assert (r' = r) as -> by congruence.
        apply Hl. exact (on_same _ _ _ _ _ _ Hr Hol Honr).
      * split; [done|]. exists dr. by rewrite Hdr'.
    + assert (Hqp : q <> p) by (intros ->; apply Hne; by eapply Hinj). destruct (Hpages v q Hv Hq) as (dq' & Huq & _).
      destruct (um_listed _ _ _ _ Huq) as (l & Hl & Hol).
      apply (Hun v q); [by apply in_range_next|by apply rest_lookup|].
      by rewrite (proj2 (leaves_free _ _ _ _ _ _ _ _ _ Hr Hup Hlv Hl Hqp Hol)).
  - intros l z Hl Hol Hz. assert (Hzp : z <> p) by (intros ->; by apply (Hz b)).
    destruct (leaves_free _ _ _ _ _ _ _ l z Hr Hup Hlv ltac:(destruct Hl; by subst) Hzp Hol) as [Hol2 Hdz].
    rewrite <- Hdz. apply Hfree; [done|done|]. intros w [_ Hw]%in_range_rest [Hh _]%rest_lookup. by apply (Hz w).
Qed.
End one_more.

(** No page at the address. *)
Lemma mapped_skip b stop h D Q : mapped b stop h D Q -> mapped (b + PAGE_SIZE) stop h D Q.
Proof. intros [Hp Hf]. split; [|done]. intros v p [_ Hv]%in_range_rest. by apply Hp. Qed.

Lemma hash_skip b stop (h : gmap Z ptr) : h !! b = None -> base.filter (stays (b + PAGE_SIZE) stop) h = base.filter (stays b stop) h.
Proof.
  intros Hb. apply map_filter_ext. intros v q Hv. unfold stays. simpl. rewrite in_range_next; [done|]. intros ->. congruence.
Qed.

Lemma unmapped_skip b stop h D Q D' Q' :
  h !! b = None -> unmapped (b + PAGE_SIZE) stop h D Q D' Q' -> unmapped b stop h D Q D' Q'.
Proof.
  intros Hb [Hun Hfree]. split.
  - intros v p d Hv Hh. apply (Hun v p d); [|done]. apply in_range_next; [|done]. intros ->. congruence.
  - intros l z Hl Hon Hz. apply Hfree; [done|done|]. intros v [_ Hv]%in_range_rest. by apply Hz.
Qed.

(** The loop touches the descriptors, the hash and the counters only. *)
Definition same_kern s s' : Prop := m_kern s' = m_kern s /\ m_store s' = m_store s.

Lemma munmap_loop_spec b stop n s D Q :
  one_key (m_hash s) -> stop <= 2 ^ 64 - PAGE_SIZE -> 0 < b -> stop <= b + PAGE_SIZE * Z.of_nat n ->
  rep (m_fifo s) D Q -> mapped b stop (m_hash s) D Q ->
  wp (munmap_loop b stop n)
     (fun _ s' => m_hash s' = base.filter (stays b stop) (m_hash s) /\ same_kern s s' /\
        exists D' Q', rep (m_fifo s') D' Q' /\ unmapped b stop (m_hash s) D Q D' Q') s.
Proof.
  intros Hinj Hmax. revert b s D Q Hinj. induction n as [|n IH]; intros b s D Q Hinj Hb Hfuel Hr Hmp; simpl;
    (destruct (Z.ltb_spec b stop) as [Hlt|Hge];
      [|wp_norm; split; [symmetry; apply map_filter_id; intros v p _ [? _]; simpl in *; lia|]; split; [done|];
        exists D, Q; split; [done|]; split; [intros v p d [? _]; lia|done]]); [change PAGE_SIZE with 4096 in *; lia|].
  assert (HP : PAGE_SIZE = 4096) by done.
  assert (Hnext : u64 (b + PAGE_SIZE) = b + PAGE_SIZE) by (apply u64_small; unfold in_u64; lia).
  assert (Hbr : in_range b stop b) by (split; [lia|by rewrite Z.sub_diag]).
  unfold find_page. wp_norm. destruct (m_hash s !! b) as [p|] eqn:Hbp.
  - pose proof Hmp as [Hpages Hfree]. destruct (Hpages b p Hbr Hbp) as (d & Hup & Hm). pose proof (um_data _ _ _ _ Hup) as Hd. wp_norm.
    eapply wp_get_data; [exact Hr|exact Hd|]. intros pg (_ & _ & _ & _ & Em & _)%erase_fields _. wp_norm.
    apply wp_busy_wait; [congruence|]. wp_norm.
    pose proof Hr as Hr1. rewrite <- (insert_id _ _ _ Hd) in Hr1. assign_page. unfold remove_page. wp_norm.
    eapply wp_mono; [eapply (remove_spec p (set_migrating true d)); [eassumption|by apply unmappable_migrating|apply Hfree..]|].
    intros [] s2 (y & D2 & Q2 & -> & Hy & Hlv). wp_norm. destruct (lv_gone _ _ _ _ _ _ Hlv) as [_ (d' & Hd' & _ & Ept & _) _].
    eapply wp_get_data; [exact Hy|exact Hd'|]. intros pg2 (_ & _ & _ & Ept2 & _)%erase_fields _. wp_norm.
    apply wp_pagesize_of; [rewrite Ept2, Ept; apply (um_base _ _ _ _ Hup)|]. unfold add_var. wp_norm. rewrite Hnext.
    apply leaves_migrating in Hlv.
    eapply wp_mono; [apply (IH (b + PAGE_SIZE) _ D2 Q2); [|lia|lia|exact Hy|exact (mapped_rest _ _ _ _ _ _ _ _ _ _ Hr Hmp Hup Hlv)]|].
    + intros v w q [Hv _]%rest_lookup [Hw _]%rest_lookup. by eapply Hinj.
    + intros [] s3 (Hh & Hk & D' & Q' & Hr3 & Hun). split; [rewrite Hh; by eapply hash_rest|]. split; [exact Hk|].
      exists D', Q'. split; [done|]. by eapply unmapped_step.
  - change BASEPAGE_SIZE with PAGE_SIZE. rewrite Hnext.
    eapply wp_mono; [apply (IH (b + PAGE_SIZE) s D Q); [done|lia|lia|done|by apply mapped_skip]|].
    intros [] s3 (Hh & Hk & D' & Q' & Hr3 & Hun). split; [rewrite Hh; by apply hash_skip|]. split; [done|].
    exists D', Q'. split; [done|]. by apply unmapped_skip.
Qed.

(** C23: [extmem_munmap] ends, forgets the range and nothing else, and gives
    its pages back.  Let every page of the range that is in the hash be a base
    page that is on a list of the policy, in memory or on the disk, with its
    reserve in place if it has one (for a page on no list the code would spin
    for ever), and be migrated by nobody (the code would wait for whoever does);
    let no page be in the hash twice, the range not reach the last page of the
    address space, and [munmap] of the C library succeed.  Then the function
    returns 0; the hash is the old one without the addresses of the range; the
    descriptor of each of these pages has no address any more and is on the
    free list of its side, and so is the slot of its copy on the disk; and
    every other free descriptor stays free and as it was. *)
Theorem munmap_forgets addr length s D Q :
  wp (libc_munmap addr length) (fun ret _ => ret = 0) (m_kern s, the_mem s) ->
  rep (m_fifo s) D Q -> one_key (m_hash s) -> mapped addr (addr + length) (m_hash s) D Q ->
  0 < addr -> 0 <= length -> addr + length <= 2 ^ 64 - PAGE_SIZE ->
  wp (extmem_munmap addr length)
     (fun ret s' => ret = 0 /\ m_hash s' = base.filter (stays addr (addr + length)) (m_hash s) /\
        exists D' Q', rep (m_fifo s') D' Q' /\ unmapped addr (addr + length) (m_hash s) D Q D' Q') s.
Proof.
  intros Hlibc Hr Hinj Hmp Ha Hl Hmax. unfold extmem_munmap, set_flag. wp_norm.
  assert (Hstop : u64 (addr + length) = addr + length)
    by (apply u64_small; unfold in_u64; change PAGE_SIZE with 4096 in Hmax; lia).
  rewrite Hstop. eapply wp_mono; [apply (munmap_loop_spec addr (addr + length) (page_rounds length) _ D Q)|].
  - exact Hinj.
  - done.
  - done.
  - unfold page_rounds. change PAGE_SIZE with 4096. Z.to_euclidean_division_equations. lia.
  - exact Hr.
  - exact Hmp.
  - intros [] s1 (Hh & [Hk Hst] & D' & Q' & Hr1 & Hun). wp_norm. eapply wp_kern.
    + unfold the_mem. rewrite Hk, Hst. exact Hlibc.
    + intros ret [y m] ->. wp_norm. apply wp_assert; [done|]. wp_norm. split; [done|]. split; [exact Hh|]. by exists D', Q'.
Qed.
End munmap.

(** ** An instance *)

(** The three inactive pages and the two active ones of [LruSpec], mapped at
    their addresses, and a range that covers the first two. *)
Definition mapped_machine : machine sim_kernel :=
  set_hash {[4096 := 1%positive; 8192 := 2%positive; 12288 := 3%positive; 16384 := 4%positive; 20480 := 5%positive]} lru_machine.

(** A range with a page in memory, one in memory with a copy on the disk, and
    one on the disk; and a page behind the range. *)
Definition range_pages : gmap ptr user_page :=
  {[1%positive := lru_page 4096 0;
    2%positive := set_has_reserve true (set_reserve (Some 3%positive) (lru_page 8192 0));
    3%positive := set_has_reserve true (set_reserve (Some 2%positive) (set_pt BASEP page0));
    4%positive := set_in_dram false (set_swapped_out true (lru_page 12288 0));
    5%positive := lru_page 16384 0]}.
Definition range_listed : list (lid * ptr) :=
  [(inactive_list, 1%positive); (active_list, 2%positive); (disk_reserve_list, 3%positive);
   (disk_active_list, 4%positive); (inactive_list, 5%positive)].
Definition range_hash : gmap Z ptr := {[4096 := 1%positive; 8192 := 2%positive; 12288 := 4%positive; 16384 := 5%positive]}.
Definition range_machine : machine sim_kernel := set_hash range_hash (set_fifo (fifo_with range_pages range_listed) lru_machine).

Lemma range_rep : rep (fifo_with range_pages range_listed) range_pages (listed empty_lists range_listed).
Proof.
  apply fifo_with_rep; [|by vm_compute|apply (bool_decide_eq_true_1 (NoDup _)); by vm_compute|by repeat constructor].
  apply (bool_decide_eq_true_1 (map_Forall (fun _ d => free_links d) range_pages)). by vm_compute.
Qed.

Lemma range_mapped : mapped 4096 16384 range_hash range_pages (listed empty_lists range_listed).
Proof.
  split; [|split; by eexists]. intros v p [Hv _] Hp%elem_of_map_to_list.
  assert (E : map_to_list range_hash ≡ₚ [(4096, 1%positive); (8192, 2%positive); (12288, 4%positive); (16384, 5%positive)])
    by (apply (bool_decide_eq_true_1 _); by vm_compute).
  rewrite E, !elem_of_cons, elem_of_nil in Hp. destruct_or! Hp; simplify_eq; [| | |lia].
  - exists (lru_page 4096 0). split; [|done]. split; [done|done| |by left|done]. exists inactive_list. split; [done|]. eexists. split; [by vm_compute|set_solver].
  - eexists. split; [split; [by vm_compute|done| |by left|]|done].
    + exists active_list. split; [done|]. eexists. split; [by vm_compute|set_solver].
    + intros _ _. exists 3%positive. eexists. split; [done|]. split; [by vm_compute|]. split; [done|]. eexists. split; [by vm_compute|set_solver].
  - eexists. split; [split; [by vm_compute|done| |by right|done]|done].
    exists disk_active_list. split; [done|]. eexists. split; [by vm_compute|set_solver].
Qed.

Lemma munmap_forgets_witness :
  wp (extmem_munmap (Pol := disklinux (mret tt)) 4096 12288)
    (fun ret s' => ret = 0 /\ m_hash s' = {[16384 := 5%positive]} /\
       exists D Q, rep (m_fifo s') D Q /\ on Q dram_free_list 1 /\ on Q dram_free_list 2 /\ on Q disk_free_list 3 /\ on Q disk_free_list 4)
    range_machine.
Proof.
  eapply wp_mono.
  - apply (munmap_forgets (mret tt) 4096 12288 range_machine range_pages (listed empty_lists range_listed)).
    + done.
    + exact range_rep.
    + assert (Hk : map_Forall (fun v p => map_Forall (fun w q => q = p -> v = w) range_hash) range_hash)
        by (apply (bool_decide_eq_true_1 _); by vm_compute).
      intros v w p Hv Hw. by apply (Hk v p Hv w p Hw).
    + exact range_mapped.
    + lia.
    + lia.
    + by vm_compute.
  - intros ret s' (-> & Hh & D & Q & Hr & [Hun _]). split; [done|]. split; [rewrite Hh; by vm_compute|]. exists D, Q.
    split; [exact Hr|]. assert (Hin : forall v, 4096 <= v < 16384 -> v mod 4096 = 0 -> in_range 4096 (4096 + 12288) v).
    { intros v Hv Hm. split; [lia|]. change PAGE_SIZE with 4096. replace (v - 4096) with (v + -1 * 4096) by lia. by rewrite Z.mod_add. }
    destruct (Hun 4096 1%positive _ (Hin 4096 ltac:(lia) eq_refl) eq_refl eq_refl) as [H1 _ _].
    destruct (Hun 8192 2%positive _ (Hin 8192 ltac:(lia) eq_refl) eq_refl eq_refl) as [H2 _ H3].
    destruct (Hun 12288 4%positive _ (Hin 12288 ltac:(lia) eq_refl) eq_refl eq_refl) as [H4 _ _].
    split; [exact H1|]. split; [exact H2|]. split; [apply (H3 3%positive); done|exact H4].
Defined.
