(* ===== verification/ThreadsSpec.v ===== *)
(** What holds however the handlers, [mmap], [munmap] and the policy's threads
    interleave at the locks, and what does not. *)

From S2P Require Import Prelude UserPage AddressTranslation Fifo RdmaAlloc RdmaSim StorageRdma StorageSpec.
From S2P Require Import Machine Policy PointerPrefetch PrefetchSpec Migrate DiskLinux Core Threads.
From S2P Require Import Accounting PolicySpec PolicyLaws CoreSpec SwapSpec LruSpec MapSpec.
From stdpp Require Import relations.

Local Open Scope Z_scope.

(** ** Equal runs *)

Section equal_runs.
Context {S : Type}.
Implicit Types s : S.

Lemma run_bind_assoc {A B C} (m : M S A) (f : A -> M S B) (g : B -> M S C) s :
  ((m ≫= f) ≫= g) s = (m ≫= (fun a => f a ≫= g)) s.
Proof. unfold mbind, M_bind. by destruct (m s) as [[a s']|]. Qed.

Lemma run_ret_bind {A B} (a : A) (f : A -> M S B) s : (mret a ≫= f) s = f a s.
Proof. done. Qed.

Lemma run_bind_eq {A B} (m : M S A) (f g : A -> M S B) s :
  (forall a s', m s = Done (a, s') -> f a s' = g a s') -> (m ≫= f) s = (m ≫= g) s.
Proof. unfold mbind, M_bind. destruct (m s) as [[a s']|]; [|done]. intros H. by apply H. Qed.

Lemma run_bind_done {A B} (m : M S A) (f : A -> M S B) s a s1 : m s = Done (a, s1) -> (m ≫= f) s = f a s1.
Proof. unfold mbind, M_bind. by intros ->. Qed.

Lemma run_bind_inv {A B} (m : M S A) (f : A -> M S B) s r :
  (m ≫= f) s = Done r -> exists a s1, m s = Done (a, s1) /\ f a s1 = Done r.
Proof. unfold mbind, M_bind. destruct (m s) as [[a s1]|]; [|done]. intros H. eauto. Qed.
End equal_runs.

(** Go through two runs of the same operations in the same order. *)
Ltac same_step :=
  match goal with
  | |- ((_ ≫= _) ≫= _) _ = _ => rewrite run_bind_assoc
  | |- _ = ((_ ≫= _) ≫= _) _ => rewrite run_bind_assoc
  | |- (mret _ ≫= _) _ = _ => rewrite run_ret_bind
  | |- _ = (mret _ ≫= _) _ => rewrite run_ret_bind
  | |- (?m ≫= _) ?s = (?m ≫= _) ?s => apply run_bind_eq; intros ? ? ?
  | |- ((match ?x with _ => _ end) ≫= _) _ = _ => destruct x eqn:?
  | |- ?x = ?x => reflexivity
  end; cbv beta zeta.

(** The segment a thread is at. *)
Ltac open_segment :=
  cbn [Threads.segment];
  unfold at_populate, at_map_next; unfold at_dispatch, at_touch, at_claim, at_give_back, at_fill, at_await, at_inspect, at_fetch,
    at_served, at_release, at_follow, at_prefetch, at_prefetch_claim, at_prefetch_detach, at_prefetch_read, at_prefetch_map,
    at_prefetch_release, at_mmap, at_unmap_begin, at_unmap_next, at_unmap_wait, at_unmap_take, at_unmap_page;
  cbn [u_next u_stop u_addr u_length p_boundry p_left p_jobs m_next m_stop m_addr m_length].

(** Go through a run whose steps are known. *)
Ltac run_known :=
  repeat (rewrite ?run_bind_assoc, ?run_ret_bind; erewrite run_bind_done by eassumption; cbv beta iota zeta);
  rewrite ?run_ret_bind.

Section handlers.
Context {K : Type} {HK : Kernel K} {Pol : Policy K}.
Variable usleep : M rdma_sys unit.
Implicit Types s : machine K.

Lemma alone_step n t s : t <> Finished -> alone usleep (S n) t s = (segment usleep t ≫= alone usleep n) s.
Proof. by destruct t. Qed.

Lemma page_get_read p s pg s' : page_get p s = Done (pg, s') -> s' = s /\ pages (m_fifo s) !! p = Some pg.
Proof.
  unfold page_get, fifo, page_at, zoom, mbind, M_bind, get, gets, deref. simpl.
  destruct (pages (m_fifo s) !! p) as [d|]; simpl; [|done]. intros [= <- <-]. split; [by destruct s|done].
Qed.

Lemma page_get_run p s pg : pages (m_fifo s) !! p = Some pg -> page_get p s = Done (pg, s).
Proof.
  intros Hp. unfold page_get, fifo, page_at, zoom, mbind, M_bind, get, gets, deref. simpl. rewrite Hp. simpl. by destruct s.
Qed.

Notation last_mark := (set_flag internal_call false : M (machine K) unit).

Lemma handled_alone n s : (handled ≫= alone usleep n) s = last_mark s.
Proof. unfold handled. destruct n; by rewrite run_bind_assoc. Qed.

Lemma await_alone n p s :
  alone usleep (S n) (Await p) s = (pg ← page_get p; busy_wait (migrating pg);; last_mark) s.
Proof. rewrite alone_step by done. open_segment. repeat same_step. apply handled_alone. Qed.

(** A wait on a page that was just read. *)
Lemma await_read n x z p pg s0 s1 s2 u :
  page_get p s0 = Done (pg, s1) -> add_var x z s1 = Done (u, s2) ->
  alone usleep (S n) (Await p) s2 = (busy_wait (migrating pg);; last_mark) s2.
Proof.
  intros [-> Hp]%page_get_read E. rewrite await_alone. unfold add_var, modify in E. simplify_eq.
  unfold mbind at 1, M_bind at 1. by rewrite (page_get_run p _ pg).
Qed.

(** [handle_first_fault], and what the signal handler does after it. *)
Lemma first_alone n b s :
  alone usleep (4 + n) (Touch b) s = (handle_first_fault b;; last_mark) s.
Proof.
  change (4 + n)%nat with (S (S (S (S n)))). rewrite alone_step by done. unfold handle_first_fault. open_segment.
  repeat same_step; rewrite alone_step by done; open_segment; repeat same_step.
  - rewrite alone_step by done. open_segment. repeat same_step. by rewrite await_alone; repeat same_step.
  - rewrite alone_step by done. open_segment. unfold fill_page. repeat same_step. apply handled_alone.
Qed.

(** What [core_try_prefetch] does with the pages it has taken, and the end of
    the handler. *)
Definition prefetch_rest (jobs : list (ptr * ptr)) : M (machine K) unit :=
  ensure_prefetch_buffer;;
  buffer ← get_var prefetch_buffer;
  prefetch_read usleep buffer jobs;;
  prefetch_map buffer jobs;;
  set_flag internal_call false;; last_mark.

Lemma map_alone jobs buffer k s :
  (2 * length jobs + 2 <= k)%nat ->
  alone usleep k (PrefetchMap buffer jobs) s = (prefetch_map buffer jobs;; set_flag internal_call false;; last_mark) s.
Proof.
  revert buffer k s. induction jobs as [|[p f] jobs IH]; intros buffer k s Hk; (destruct k as [|k]; [lia|]); rewrite alone_step by done; open_segment.
  - repeat same_step. apply handled_alone.
  - simpl in Hk. destruct k as [|k]; [lia|]. cbn [prefetch_map]. repeat same_step. rewrite alone_step by done. open_segment.
    unfold release_page. repeat same_step. apply IH. lia.
Qed.

Lemma read_alone jobs k s :
  (2 * length jobs + 3 <= k)%nat -> alone usleep k (PrefetchRead jobs) s = prefetch_rest jobs s.
Proof.
  destruct k as [|k]; [lia|]. intros Hk. rewrite alone_step by done. unfold prefetch_rest. open_segment. repeat same_step.
  apply map_alone. lia.
Qed.

Lemma page_set_read p f pg s u s' :
  pages (m_fifo s) !! p = Some pg -> page_set p f s = Done (u, s') -> pages (m_fifo s') !! p = Some (f pg).
Proof.
  intros Hp. unfold page_set, fifo, upd_page, page_at, zoom, mbind, M_bind, get, gets, deref, modify. simpl. rewrite Hp. simpl.
  intros [= _ <-]. apply lookup_insert_eq.
Qed.

Lemma assert_read b s (u : unit) s' : c_assert b s = Done (u, s') -> b = true /\ s' = s.
Proof. destruct b; simpl; [by intros [= _ <-]|done]. Qed.

Lemma collect_alone n b jobs k s :
  (5 * n + 2 * length jobs + 5 <= k)%nat ->
  alone usleep k (Prefetch (mk_prefetching b n jobs)) s = (rest ← prefetch_collect b n; prefetch_rest (jobs ++ rest)) s.
Proof.
  revert b jobs k s. induction n as [|n IH]; intros b jobs k s Hk; (destruct k as [|k]; [lia|]); rewrite alone_step by done; open_segment.
  { simpl. rewrite !run_ret_bind, app_nil_r. apply read_alone. lia. }
  cbn [prefetch_collect]. cbv zeta. repeat same_step; [|rewrite app_nil_r; apply read_alone; lia].
  apply assert_read in H1 as [_ ->]. apply page_get_read in H0 as [-> Hp]. destruct k as [|k]; [lia|].
  rewrite alone_step by done. open_segment. rewrite run_bind_assoc, (run_bind_done _ _ _ _ _ (page_get_run _ _ _ Hp)), Z.eqb_refl.
  repeat same_step; [rewrite app_nil_r; apply read_alone; lia..|done|].
  pose proof (page_set_read _ _ _ _ _ _ Hp ltac:(eassumption)) as Hp'. destruct k as [|k]; [lia|].
  rewrite alone_step by done. open_segment. rewrite run_bind_assoc, (run_bind_done _ _ _ _ _ (page_get_run _ _ _ Hp')).
  change (va (set_migrating true a0)) with (va a0). repeat same_step. rewrite IH by (rewrite length_app; simpl; lia).
  apply run_bind_eq. intros rest s4 _. by rewrite <- app_assoc.
Qed.

Lemma missing_alone n p s :
  alone usleep (199 + n) (Inspect p) s = (handle_missing_fault usleep p;; last_mark) s.
Proof.
  change (199 + n)%nat with (S (S (S (S (S (194 + n)))))). rewrite alone_step by done. unfold handle_missing_fault. open_segment.
  repeat same_step.
  - etrans; [by eapply await_read|]. by rewrite Heqb.
  - etrans; [by eapply await_read|]. by rewrite Heqb.
  - rewrite alone_step by done. open_segment. repeat same_step; rewrite alone_step by done; open_segment; repeat same_step.
    + apply handled_alone.
    + rewrite alone_step by done. open_segment. unfold when, core_try_prefetch. repeat same_step.
      * rewrite (collect_alone _ _ [] (S (194 + n))) by (change (Z.to_nat CORE_PREFETCH_RATE) with 32%nat; simpl length; lia).
        unfold prefetch_rest. simpl app. repeat same_step.
      * apply handled_alone.
Qed.

(** A fault handler that no other thread comes between is the handler of
    Core.v: running the segments of one thread from the entry of the signal
    handler to its end has, from every state, the outcome of
    [uswap_sig_handler], whether that is a new state, a failed assertion or a
    wait that nothing ends. *)
Theorem handler_is_its_segments n code addr s :
  alone usleep (200 + n) (Dispatch code addr) s = uswap_sig_handler usleep code addr s.
Proof.
  change (200 + n)%nat with (S (199 + n)). rewrite alone_step by done. unfold uswap_sig_handler. open_segment.
  repeat same_step.
  - apply missing_alone.
  - unfold handle_wp_fault. repeat same_step. change (199 + n)%nat with (S (198 + n)). by rewrite await_alone; repeat same_step.
  - change (199 + n)%nat with (4 + (195 + n))%nat. apply first_alone.
Qed.

(** *** [mmap] *)

(** More segments do not matter to a thread that is finished. *)
Lemma alone_more n k t s r : alone usleep n t s = Done r -> alone usleep (n + k) t s = Done r.
Proof.
  revert t s. induction n as [|n IH]; intros t s; [intros Hrun; destruct t; try discriminate Hrun; by destruct k|].
  assert (Hd : t = Finished \/ t <> Finished) by (destruct t; first [by left | by right]). destruct Hd as [->|Hne]; [done|].
  change (S n + k)%nat with (S (n + k)). rewrite !alone_step by done.
  intros (t' & s1 & H1 & H2)%run_bind_inv. rewrite (run_bind_done _ _ _ _ _ H1). by apply IH.
Qed.

(** A first touch in the loop, and what follows it. *)
Lemma touch_alone m b k s s1 r :
  handle_first_fault b s = Done (tt, s1) -> alone usleep k (MapNext m) s1 = Done r ->
  (t ← at_touch b; alone usleep (3 + k) (Populate m t)) s = Done r.
Proof.
  intros Hf Hk. unfold handle_first_fault in Hf. unfold at_touch.
  do 3 (apply run_bind_inv in Hf as (? & ? & ? & Hf)). apply run_bind_inv in Hf as (o & s4 & Ho & Hf). run_known.
  change (3 + k)%nat with (S (S (S k))). rewrite alone_step by done. open_segment. run_known. destruct o as [q|].
  - do 2 (apply run_bind_inv in Hf as (? & ? & ? & Hf)). run_known. rewrite alone_step by done. open_segment. run_known.
    rewrite alone_step by done. open_segment. run_known. exact Hk.
  - apply run_bind_inv in Hf as (? & ? & ? & Hf). change (fill_page x3 b x6 = Done (tt, s1)) in Hf. run_known. rewrite alone_step by done. open_segment. run_known.
    rewrite <- (Nat.add_1_r k). by apply alone_more.
Qed.

Lemma populate_alone b stop p len n s s1 r :
  populate_loop b stop n s = Done (tt, s1) -> (map_end p len ≫= alone usleep 1) s1 = Done r ->
  exists k, alone usleep k (MapNext (mk_mapping b stop p len)) s = Done r.
Proof.
  revert b s. induction n as [|n IH]; intros b s; simpl; destruct (b <? stop) eqn:Hb; intros Hrun He; [done| | |];
    [injection Hrun as <-; exists 2%nat; rewrite alone_step by done; open_segment; by rewrite Hb| |
     injection Hrun as <-; exists 2%nat; rewrite alone_step by done; open_segment; by rewrite Hb].
  apply run_bind_inv in Hrun as ([] & s2 & Hf & Hrun). destruct (IH _ _ Hrun He) as [k Hk]. exists (S (3 + k)).
  rewrite alone_step by done. open_segment. rewrite Hb, run_bind_assoc. etrans; [|by eapply touch_alone].
  apply run_bind_eq. intros t s3 _. by rewrite run_ret_bind.
Qed.

(** [mmap] is its segments: when [extmem_mmap] returns, a thread that is left
    alone in it runs, in some number of segments, to the same state. *)
Theorem mmap_is_its_segments addr length prot fl fd offset r s s' :
  extmem_mmap addr length prot fl fd offset s = Done (r, s') ->
  exists n, alone usleep n (Mmap addr length prot fl fd offset) s = Done (tt, s').
Proof.
  intros Hrun. unfold extmem_mmap in Hrun. do 4 (apply run_bind_inv in Hrun as (? & ? & ? & Hrun)).
  assert (Hn : exists k, (segment usleep (Mmap addr length prot fl fd offset) ≫= alone usleep k) s = Done (tt, s'));
    [|destruct Hn as [k Hk]; exists (S k); by rewrite alone_step].
  open_segment. destruct (mmap_flags fl) as [fl' pop].
  apply run_bind_inv in Hrun as (p & s5 & Hp & Hrun). destruct p as [p|]; [|done].
  do 3 (apply run_bind_inv in Hrun as (? & ? & ? & Hrun)). apply run_bind_inv in Hrun as (u & s9 & Hpop & Hrun).
  do 3 (apply run_bind_inv in Hrun as (? & ? & ? & Hrun)). injection Hrun as <- ->.
  assert (He : (map_end p (PAGE_ROUND_UP length) ≫= alone usleep 1) s9 = Done (tt, s')) by (unfold map_end; run_known; done).
  destruct pop; simpl in Hpop.
  - unfold extmem_mmap_populate in Hpop. do 2 (apply run_bind_inv in Hpop as (? & ? & ? & Hpop)). destruct u.
    destruct (populate_alone _ _ _ _ _ _ _ _ Hpop He) as [k Hk]. exists k. run_known. exact Hk.
  - injection Hpop as _ <-. exists 1%nat. run_known. exact He.
Qed.

(** *** [munmap] *)

Lemma unmap_end b stop addr len j s :
  b <? stop = false ->
  alone usleep (S j) (UnmapNext (mk_unmapping b stop addr len)) s =
  (ret ← kern (libc_munmap addr len); c_assert (ret =? 0);; last_mark) s.
Proof.
  intros Hb. rewrite alone_step by done. open_segment. rewrite Hb. repeat same_step. by destruct j.
Qed.

Lemma unmap_alone b stop addr len n s s' :
  munmap_loop b stop n s = Done (tt, s') ->
  exists k, forall j, alone usleep (k + S j) (UnmapNext (mk_unmapping b stop addr len)) s =
    (ret ← kern (libc_munmap addr len); c_assert (ret =? 0);; last_mark) s'.
Proof.
  revert b s. induction n as [|n IH]; intros b s; simpl; destruct (b <? stop) eqn:Hb; intros Hrun; [done| | |];
    [injection Hrun as <-; exists 0%nat; intros j; by apply unmap_end| |injection Hrun as <-; exists 0%nat; intros j; by apply unmap_end].
  apply run_bind_inv in Hrun as (o & s1 & Ho & Hrun). destruct o as [p|].
  - apply run_bind_inv in Hrun as (pg & s2 & Hpg & Hrun). apply run_bind_inv in Hrun as (u1 & s3 & Hw & Hrun).
    destruct (migrating pg) eqn:Hm; [done|]. injection Hw as <- <-.
    do 3 (apply run_bind_inv in Hrun as (? & ? & ? & Hrun)).
    apply run_bind_inv in Hrun as (pg' & s6 & Hpg' & Hrun). apply run_bind_inv in Hrun as (sz & s7 & Hsz & Hrun).
    do 3 (apply run_bind_inv in Hrun as (? & ? & ? & Hrun)). apply IH in Hrun as [k Hk]. exists (2 + k)%nat. intros j.
    change (2 + k + S j)%nat with (S (S (k + S j))). rewrite alone_step by done.
    open_segment. rewrite Hb.
    repeat (rewrite ?run_bind_assoc, ?run_ret_bind; erewrite run_bind_done by eassumption; cbv beta iota; rewrite ?Hm).
    rewrite run_ret_bind. rewrite alone_step by done. open_segment.
    repeat (rewrite ?run_bind_assoc, ?run_ret_bind; erewrite run_bind_done by eassumption; cbv beta iota).
    rewrite run_ret_bind. apply Hk.
  - apply IH in Hrun as [k Hk]. exists (S k). intros j. change (S k + S j)%nat with (S (k + S j)). rewrite alone_step by done.
    open_segment. rewrite Hb.
    rewrite ?run_bind_assoc. erewrite run_bind_done by eassumption. cbv beta iota. rewrite ?run_ret_bind. apply Hk.
Qed.

(** [munmap] is its segments too: when [extmem_munmap] returns, a thread
    that is left alone from before it takes [allocator_lock] runs, in some
    number of segments, to the same state. *)
Theorem munmap_is_its_segments addr length r s s' :
  extmem_munmap addr length s = Done (r, s') -> exists n, alone usleep n (Munmap addr length) s = Done (tt, s').
Proof.
  intros Hrun. unfold extmem_munmap in Hrun. apply run_bind_inv in Hrun as (u & s1 & H1 & Hrun).
  apply run_bind_inv in Hrun as ([] & s2 & H2 & Hrun). apply (unmap_alone _ _ addr length) in H2 as [k Hk].
  exists (S (k + 1)). rewrite alone_step by done. open_segment. rewrite run_bind_assoc.
  rewrite (run_bind_done _ _ _ _ _ H1). rewrite run_ret_bind, Hk.
  apply run_bind_inv in Hrun as (ret & s3 & H3 & Hrun). rewrite (run_bind_done _ _ _ _ _ H3).
  apply run_bind_inv in Hrun as (u4 & s4 & H4 & Hrun). rewrite (run_bind_done _ _ _ _ _ H4).
  apply run_bind_inv in Hrun as ([] & s5 & H5 & Hrun). rewrite H5. by injection Hrun as _ <-.
Qed.
End handlers.

(** ** Frames and slots under interleavings *)

(** The descriptors a thread has in hand between segments, each with its side:
    a frame, or a page that was taken from its slot's list. *)
Definition job_hands (jobs : list (ptr * ptr)) : list (ptr * bool) := jobs ≫= fun j => [(j.1, false); (j.2, true)].

Fixpoint hand (t : thread) : list (ptr * bool) :=
  match t with
  | Populate _ t => hand t
  | Claim _ p | GiveBack p _ | Fill p _ => [(p, true)]
  | Prefetch w | PrefetchClaim w _ _ | PrefetchDetach w _ => job_hands (p_jobs w)
  | PrefetchRead jobs | PrefetchMap _ jobs | PrefetchRelease _ _ jobs => job_hands jobs
  | _ => []
  end.

(** [H] is [B] with the descriptors [h] in hand. *)
Fixpoint holding (h : list (ptr * bool)) (B H : gmap ptr held) : Prop :=
  match h with
  | [] => H = B
  | (p, sd) :: h => exists o H0, holding h B H0 /\ H0 !! p = None /\ H = <[p := hold (sd, o)]> H0
  end.

Lemma holding_app h1 h2 B H : holding (h1 ++ h2) B H <-> exists H0, holding h2 B H0 /\ holding h1 H0 H.
Proof.
  revert H. induction h1 as [|[p sd] h1 IH]; intros H; simpl; [naive_solver|].
  split; [intros (o & H0 & (H1 & Hh2 & Hh1)%IH & Hn & ->); eauto 10|].
  intros (H0 & Hh2 & o & H1 & Hh1 & Hn & ->). exists o, H1. split; [|done]. apply IH. eauto.
Qed.

Lemma holding_perm h h' B H : h ≡ₚ h' -> holding h B H -> holding h' B H.
Proof.
  intros Hp. revert H. induction Hp as [|[p sd] h h' _ IH|[p sd] [q se] h|h h' h'' _ IH1 _ IH2]; intros H; simpl; [done|naive_solver| |auto].
  intros (o & H0 & (o' & H1 & Hh & Hp & ->) & Hq & ->). apply lookup_insert_None in Hq as [Hq Hne].
  exists o', (<[q := hold (se, o)]> H1). split; [eauto|]. split; [by rewrite lookup_insert_ne|]. by rewrite insert_insert_ne.
Qed.

Lemma holding_in_hand h B H : in_hand B -> holding h B H -> in_hand H.
Proof.
  intros Hb. revert H. induction h as [|[p sd] h IH]; intros H; simpl; [by intros ->|].
  intros (o & H0 & Hh & _ & ->). by apply in_hand_hold, IH.
Qed.

(** As [acc_run], up to the next case distinction. *)
Ltac acc_until :=
  repeat match goal with
  | |- wlp (match _ with _ => _ end) _ _ => fail 1
  | |- _ => acc_step
  end.

Section conserved.
Context {K : Type} {HK : Kernel K} {Pol : Policy K} {PL : PolicyLaws Pol}.
Variable usleep : M rdma_sys unit.
Hypothesis Husleep : keeps heapless usleep.
Implicit Types s : machine K.
Implicit Types L : gset place.
Implicit Types H : gmap ptr held.
Notation dry := (@dry K).
Notation segment := (segment usleep).

Hint Resolve dry_release dry_follow dry_handle_fault dry_reads still_prefetch_read still_try_prefetch_buffer
  still_add_page still_remove_page still_find_page : keeps.

Lemma dry_segment t : keeps dry (segment t).
Proof.
  destruct t as [| | | | | | | | | | |[b [|n] js]| | | |buffer [|[p d] js]| | | |m t| | | | | |];
    [..|destruct t| | | | | |]; open_segment;
    unfold map_end, fill_page, adopt_page, handled, ensure_prefetch_buffer, map_private; keeps_tac.
Qed.

(** What a segment promises. *)
Definition segment_ok t : Prop := forall s L B H,
  in_hand B -> holding (hand t) B H -> minv s L H -> dry s ->
  wlp (segment t) (fun t' s' => exists H', holding (hand t') B H' /\ minv s' L H') s.

(** Segments that take nothing and put nothing down. *)
Lemma segment_steady t :
  (forall s L H, in_hand H -> minv s L H -> dry s ->
    wlp (segment t) (fun t' s' => hand t' = hand t /\ minv s' L H) s) -> segment_ok t.
Proof.
  intros Hm s L B H Hb Hh Hs Hy. eapply wlp_mono; [eapply Hm; [by eapply holding_in_hand|done|done]|].
  intros t' s' [Ht' Hs']. exists H. by rewrite Ht'.
Qed.

(** Segments of a thread with one frame in hand. *)
Lemma holding_one p B H : holding [(p, true)] B H -> exists o, B !! p = None /\ H = <[p := hold (true, o)]> B.
Proof. intros (o & H0 & -> & Hn & ->). eauto. Qed.

Lemma dispatch_ok code addr : segment_ok (Dispatch code addr).
Proof.
  apply segment_steady. intros s L H Hh Hs _. open_segment. acc_until.
  destruct a as [p|]; [|by acc_until]. acc_until. destruct (swapped_out pg); by acc_until.
Qed.

Lemma touch_ok b : segment_ok (Touch b).
Proof.
  intros s L B H Hb -> Hs _. open_segment. acc_until.
  eapply wlp_take_frame; [apply pagefault_frame|done|eassumption|]. intros p o s1 Hn Hs1. acc_until.
  exists (<[p := hold (true, o)]> B). split; [|done]. simpl. eauto 10.
Qed.

Lemma claim_ok b p : segment_ok (Claim b p).
Proof.
  apply segment_steady. intros s L H Hh Hs _. open_segment. acc_until.
  destruct a as [q|]; [by acc_until|]. unfold adopt_page. by acc_until.
Qed.

Lemma giveback_ok p q : segment_ok (GiveBack p q).
Proof.
  intros s L B H Hb (o & Hn & ->)%holding_one Hs _. open_segment.
  acc_step. eapply put_freepage_rule; [exact Hn|exact Hs|]. intros s1 Hs1. acc_until. by exists B.
Qed.

Lemma fill_ok p b : segment_ok (Fill p b).
Proof.
  intros s L B H Hb (o & Hn & ->)%holding_one Hs _. open_segment.
  unfold handled, fill_page. acc_until. eapply add_page_rule; [exact Hn|eassumption|]. intros s1 Hs1. acc_until. by exists B.
Qed.

Lemma inspect_ok p : segment_ok (Inspect p).
Proof.
  apply segment_steady. intros s L H Hh Hs _. open_segment. acc_until.
  destruct (migrating pg); [by acc_until|]. destruct (negb _); by acc_until.
Qed.

(** In a process without usable records the page comes from its slot. *)
Lemma fetch_ok p pg : segment_ok (Fetch p pg).
Proof.
  apply segment_steady. intros s L H Hh Hs Hy. open_segment. cbv zeta.
  do 5 (rewrite wlp_bind; eapply wlp_both; [apply keeps_quiet; intros ?; keeps_tac|keeps_tac|exact Hs|exact Hy|];
    clear s Hs Hy; intros ? s Hs Hy).
  rewrite wlp_bind. eapply wlp_mono; [by apply dry_fault|]. intros hit s1 [-> ->]. change (-1 =? 0) with false. cbv iota.
  acc_until. eapply wlp_steady; [apply swapin_steady|done|eassumption|]. intros [] s1 Hs1. by acc_until.
Qed.

Lemma follow_ok p b more : segment_ok (Follow p b more).
Proof.
  pose proof (still_follow (K := K) usleep) as Hf.
  apply segment_steady. intros s L H Hh Hs _. open_segment. unfold handled.
  rewrite wlp_bind. eapply wlp_quiet; [intros ?; apply Hf|exact Hs|]. intros _ s1 Hs1.
  acc_until. destruct more; by acc_until.
Qed.

(** *** The prefetch *)

Lemma prefetch_ok w : segment_ok (Prefetch w).
Proof.
  destruct w as [b [|n] js]; apply segment_steady; intros s L H Hh Hs _; open_segment; [by acc_until|].
  acc_until. destruct a as [p|]; by acc_until.
Qed.

Lemma prefetch_claim_ok w p v : segment_ok (PrefetchClaim w p v).
Proof.
  apply segment_steady. intros s L H Hh Hs _. open_segment. acc_until.
  destruct (migrating pg); [by acc_until|]. destruct (negb (swapped_out pg)); [by acc_until|].
  destruct (negb (va pg =? v)); by acc_until.
Qed.

(** A page and a frame are taken. *)
Lemma prefetch_detach_ok w p : segment_ok (PrefetchDetach w p).
Proof.
  intros s L B H Hb Hh Hs _. assert (HhH : in_hand H) by by eapply holding_in_hand. open_segment. acc_until.
  eapply detach_page_rule; [done|eassumption|]. intros o1 s1 Hn Hs1. acc_until.
  eapply wlp_take_frame; [apply pagefault_frame|by apply in_hand_hold|eassumption|]. intros d o s2 Hd Hs2. acc_until.
  eexists. split; [|exact Hs2]. cbn [hand p_jobs]. unfold job_hands. rewrite bind_app.
  apply (holding_perm ((d, true) :: (p, false) :: hand (PrefetchDetach w p))); [simpl; solve_Permutation|]. simpl. eauto 12.
Qed.

Lemma prefetch_read_ok js : segment_ok (PrefetchRead js).
Proof. apply segment_steady. intros s L H Hh Hs _. open_segment. by acc_until. Qed.

(** A page and its frame are put down. *)
Lemma prefetch_map_ok b js : segment_ok (PrefetchMap b js).
Proof.
  destruct js as [|[p d] js]; [apply segment_steady; intros s L H Hh Hs _; open_segment; unfold handled; by acc_until|].
  intros s L B H Hb (o1 & H0 & (o2 & H1 & Hh & Hd & ->) & Hp & ->) Hs _. apply lookup_insert_None in Hp as [Hp Hne]. open_segment. acc_until.
  pose proof (ack_rule p d o1 o2 (fun _ s => minv s L H1) _ L H1 Hp Hd (not_eq_sym Hne) ltac:(eassumption) (fun _ h => h)) as Hack.
  eapply wlp_mono; [exact Hack|]. clear Hack. intros [] s2 Hs2. rewrite wlp_bind. eapply wlp_mono; [exact Hs2|]. clear Hs2.
  intros [] s3 Hs3. acc_until. by exists H1.
Qed.

Lemma prefetch_release_ok p b js : segment_ok (PrefetchRelease p b js).
Proof. apply segment_steady. intros s L H Hh Hs _. open_segment. unfold release_page. by acc_until. Qed.

(** *** [mmap] *)

Lemma map_end_ok p n s L H (Q : thread -> machine K -> Prop) :
  minv s L H -> (forall s', minv s' L H -> Q Finished s') -> wlp (map_end p n) Q s.
Proof. intros Hs HQ. unfold map_end. acc_run. by apply HQ. Qed.

Lemma mmap_ok a n pr fl fd o : segment_ok (Mmap a n pr fl fd o).
Proof.
  apply segment_steady. intros s L H Hh Hs _. open_segment. acc_until. destruct (mmap_flags fl) as [fl' pop]. cbv zeta.
  acc_until. destruct a1 as [q|]; [|by acc_until]. acc_until. destruct pop; [by acc_until|]. by eapply map_end_ok.
Qed.

Lemma map_next_ok m : segment_ok (MapNext m).
Proof.
  intros s L B H Hb Hh Hs Hy. open_segment. destruct (_ <? _); [|eapply map_end_ok; [exact Hs|]; eauto].
  rewrite wlp_bind. eapply wlp_mono; [by apply (touch_ok (m_next m) s L B H)|]. intros t s' Ht. by acc_until.
Qed.

(** The first touches of the loop are those of the handler. *)
Lemma populate_ok m t : segment_ok (Populate m t).
Proof.
  intros s L B H Hb Hh Hs Hy. simpl in Hh. destruct t as [|b|b p|p q|p b|p| | | | | | | | | | | | | | | | | | | |]; cbn [Threads.segment at_populate];
    try (by acc_until).
  - rewrite wlp_bind. eapply wlp_mono; [by apply (claim_ok b p s L B H)|]. intros t s' Ht. by acc_until.
  - rewrite wlp_bind. eapply wlp_mono; [by apply (giveback_ok p q s L B H)|]. intros t s' Ht. by acc_until.
  - apply holding_one in Hh as (o & Hn & ->). unfold fill_page. acc_until. eapply add_page_rule; [exact Hn|eassumption|].
    intros s1 Hs1. acc_until. by exists B.
  - acc_until. eexists. by split.
Qed.

Lemma unmap_ok u p : segment_ok (UnmapPage u p).
Proof.
  apply segment_steady. intros s L H Hh Hs _. open_segment. acc_until.
  eapply wlp_steady; [apply remove_steady|done|eassumption|]. intros x s1 Hs1. by acc_until.
Qed.

Lemma next_ok u : segment_ok (UnmapNext u).
Proof.
  apply segment_steady. intros s L H Hh Hs _. open_segment. destruct (_ <? _); [|by acc_until]. acc_until.
  destruct a as [p|]; [|by acc_until]. acc_until. destruct (migrating pg); by acc_until.
Qed.

Lemma every_segment_ok t : segment_ok t.
Proof.
  destruct t; first [apply dispatch_ok | apply touch_ok | apply claim_ok | apply giveback_ok | apply fill_ok | apply inspect_ok
    | apply fetch_ok | apply follow_ok | apply prefetch_ok | apply prefetch_claim_ok | apply prefetch_detach_ok | apply prefetch_read_ok
    | apply prefetch_map_ok | apply prefetch_release_ok | apply mmap_ok | apply map_next_ok | apply populate_ok | apply unmap_ok | apply next_ok |
    apply segment_steady; intros s L H Hh Hs _; open_segment; unfold release_page, handled; by acc_until].
Qed.

(** *** Configurations *)

(** [H'] is [H] with what the threads have in hand: each descriptor in the
    hand of one thread. *)
Definition in_flight (ts : list thread) H H' : Prop := holding (ts ≫= hand) H H'.

Lemma in_flight_start H : in_flight [] H H.
Proof. done. Qed.

Lemma in_flight_in_hand ts H H' : in_hand H -> in_flight ts H H' -> in_hand H'.
Proof. apply holding_in_hand. Qed.

Lemma in_flight_perm ts ts' H H' : ts ≡ₚ ts' -> in_flight ts H H' -> in_flight ts' H H'.
Proof. intros Hp. apply holding_perm. by rewrite Hp. Qed.

Lemma in_flight_new t ts H H' : hand t = [] -> in_flight ts H H' -> in_flight (t :: ts) H H'.
Proof. unfold in_flight. intros Ht. by rewrite bind_cons, Ht. Qed.

Variable rounds : list (M (machine K) unit).
Hypothesis rounds_ok : Forall (thread_ok (K := K)) rounds.

Record balanced L H (c : config K) : Prop := mk_balanced {
  bl_places : exists H', in_flight (c_threads c).*2 H H' /\ minv (c_machine c) L H';
  bl_dry : dry (c_machine c);
}.

Lemma wlp_elim {A} (m : M (machine K) A) (Q : A -> machine K -> Prop) s a s' : wlp m Q s -> m s = Done (a, s') -> Q a s'.
Proof. unfold wlp. intros Hm E. by rewrite E in Hm. Qed.

Lemma middle_perm {A} (i : nat) (x y : A) (l : list A) :
  l !! i = Some x -> l ≡ₚ x :: take i l ++ drop (S i) l /\ <[i := y]> l ≡ₚ y :: take i l ++ drop (S i) l.
Proof.
  intros Hx. rewrite insert_take_drop by (by eapply lookup_lt_Some). rewrite <- !Permutation_middle.
  split; [|done]. rewrite <- (take_drop_middle l i x) at 1 by done. by rewrite <- Permutation_middle.
Qed.

Lemma as_thread_ok {A} l (m : M (machine K) A) L H s a l' s' (Q : A -> machine K -> Prop) :
  (forall s1, minv s1 L H -> dry s1 -> wlp m Q s1 /\ wlp m (fun _ => dry) s1) ->
  minv s L H -> dry s -> as_thread l m s = Done (a, l', s') -> Q a s' /\ dry s'.
Proof.
  intros Hm Hs Hy Hrun. unfold as_thread in Hrun. apply run_bind_inv in Hrun as ([] & s1 & H1 & Hrun).
  apply run_bind_inv in Hrun as (a1 & s2 & H2 & Hrun). injection Hrun as <- _ <-.
  assert (Hs1 : minv s1 L H).
  { refine (wlp_elim _ (fun _ s2 => minv s2 L H) _ _ _ _ H1).
    eapply wlp_quiet; [intros ?; unfold load_locals; keeps_tac|exact Hs|done]. }
  assert (Hkeep : keeps dry (load_locals l)) by (unfold load_locals; keeps_tac).
  pose proof (wlp_elim _ _ _ _ _ (Hkeep s Hy) H1) as Hy1. cbv beta in Hy1.
  destruct (Hm s1 Hs1 Hy1) as [HQ Hd]. split; [exact (wlp_elim _ _ _ _ _ HQ H2)|exact (wlp_elim _ _ _ _ _ Hd H2)].
Qed.

(** A thread goes on. *)
Lemma in_flight_moved (i : nat) t t' ts H H1 H2 :
  ts !! i = Some t -> (forall B, in_hand B -> holding (hand t) B H1 -> holding (hand t') B H2) ->
  in_hand H -> in_flight ts H H1 -> in_flight (<[i := t']> ts) H H2.
Proof.
  intros Ht Hm Hh Hf. destruct (middle_perm i t t' ts Ht) as [E1 E2]. apply (in_flight_perm _ _ _ _ E1) in Hf.
  apply (in_flight_perm _ _ _ _ (symmetry E2)). unfold in_flight in *. rewrite bind_cons in *.
  apply holding_app in Hf as (H0 & Hf & Ht0). apply holding_app. exists H0. split; [done|].
  apply Hm; [|done]. by eapply holding_in_hand.
Qed.

Lemma thread_at (ts : list (locals * thread)) i l t : ts !! i = Some (l, t) -> ts.*2 !! i = Some t.
Proof. intros E. by rewrite list_lookup_fmap, E. Qed.

(** What a segment does to what its thread and the others have in hand. *)
Lemma segment_moves t ts H H1 H0 s L l a l' s' :
  in_hand H -> holding (ts ≫= hand) H H0 -> holding (hand t) H0 H1 -> minv s L H1 -> dry s ->
  as_thread l (segment t) s = Done (a, l', s') -> (exists H2, in_flight (a :: ts) H H2 /\ minv s' L H2) /\ dry s'.
Proof.
  intros Hh Hts Ht Hs Hy Hrun.
  apply (as_thread_ok _ _ L H1 _ _ _ _ (fun t' s' => exists H', holding (hand t') H0 H' /\ minv s' L H')) in Hrun as [(H2 & Hh2 & Hs2) Hy'];
    [| |done|done].
  - split; [|done]. exists H2. split; [|done]. unfold in_flight. rewrite bind_cons. apply holding_app. eauto.
  - intros s1 Hs1 Hy1. split; [|by apply dry_segment]. apply (every_segment_ok t s1 L H0 H1); [by eapply holding_in_hand|done..].
Qed.

Lemma balanced_step L H c c' : in_hand H -> balanced L H c -> step usleep rounds c c' -> balanced L H c'.
Proof.
  intros Hh [(H1 & Hf & Hs) Hy] Hstep.
  destruct Hstep as [s ts ws i l t l' t' s' Ht Hlock Hrun|s ts ws i l code addr Ht|s ts ws i l a n pr fl fd o Ht|s ts ws i l addr len Ht|s ts ws|s ts ws i m l l' s' Hm Hl Hrun];
    simpl in *.
  - apply thread_at in Ht. destruct (middle_perm i t t' ts.*2 Ht) as [E1 E2].
    apply (in_flight_perm _ _ _ _ E1) in Hf. unfold in_flight in Hf. rewrite bind_cons in Hf. apply holding_app in Hf as (H0 & Hf & Ht0).
    destruct (segment_moves t _ H H1 H0 s L l t' l' s' Hh Hf Ht0 Hs Hy Hrun) as [(H2 & Hf2 & Hs2) Hy'].
    split; [|done]. exists H2. split; [|done]. simpl. rewrite list_fmap_insert. by apply (in_flight_perm _ _ _ _ (symmetry E2)).
  - split; [|done]. exists H1. split; [|done]. simpl. rewrite list_fmap_insert. apply thread_at in Ht. by eapply in_flight_moved.
  - split; [|done]. exists H1. split; [|done]. simpl. rewrite list_fmap_insert. apply thread_at in Ht. by eapply in_flight_moved.
  - split; [|done]. exists H1. split; [|done]. simpl. rewrite list_fmap_insert. apply thread_at in Ht. by eapply in_flight_moved.
  - split; [|done]. exists H1. split; [|done]. simpl. rewrite fmap_app.
    apply (in_flight_perm (Finished :: ts.*2)); [apply Permutation_cons_append|]. by apply in_flight_new.
  - destruct (Forall_lookup_1 _ _ _ _ rounds_ok Hm) as [Hst Hd].
    apply (as_thread_ok _ _ L H1 _ _ _ _ (fun _ s' => minv s' L H1)) in Hrun as [Hs' Hy'];
      [|intros s1 Hs1 Hy1; split; [by apply (Hst L H1 (in_flight_in_hand _ _ _ Hh Hf))|by apply Hd]|done|done].
    split; [|done]. by exists H1.
Qed.


(** *** Schedules *)

Lemma choose_step x c c' : choose usleep rounds x c = Some c' -> step usleep rounds c c'.
Proof.
  destruct c as [s ts ws]. destruct x as [|i|i code addr|i a n pr fl fd o|i addr len|i]; simpl.
  - intros [= <-]. apply step_start.
  - destruct (ts !! i) as [[l t]|] eqn:Ht; simpl; [|done].
    destruct (takes_allocator t && negb (bool_decide (allocator_free ts))) eqn:Hl; [done|].
    destruct (as_thread l (segment t) s) as [[[t' l'] s']|] eqn:Hrun; [|done]. intros [= <-]. apply (step_segment _ _ _ _ _ _ l t); [done| |done].
    intros Htake. rewrite Htake in Hl. simpl in Hl. apply negb_false_iff, bool_decide_eq_true in Hl. done.
  - destruct (ts !! i) as [[l []]|] eqn:Ht; intros [= <-]. by apply step_fault.
  - destruct (ts !! i) as [[l []]|] eqn:Ht; intros [= <-]. by apply step_map.
  - destruct (ts !! i) as [[l []]|] eqn:Ht; intros [= <-]. by apply step_unmap.
  - destruct (rounds !! i) as [m|] eqn:Hm; simpl; [|done]. destruct (ws !! i) as [l|] eqn:Hl; simpl; [|done].
    destruct (as_thread l m s) as [[[[] l'] s']|] eqn:Hrun; [|done]. intros [= <-]. by eapply step_round.
Qed.

Lemma schedule_steps xs c c' : run_schedule usleep rounds xs c = Some c' -> rtc (step usleep rounds) c c'.
Proof.
  revert c. induction xs as [|x xs IH]; intros c; simpl; [intros [= <-]; apply rtc_refl|].
  destruct (choose usleep rounds x c) as [c1|] eqn:E; simpl; [|done]. intros Hrun.
  eapply rtc_l; [by eapply choose_step|by apply IH].
Qed.
End conserved.

(** ** Instances *)

Section shown.
Notation rounds := (disklinux_rounds (K := sim_kernel) (mret tt)).
Notation run := (run_schedule (Pol := disklinux (mret tt)) (mret tt) rounds).
Notation steps := (rtc (step (Pol := disklinux (mret tt)) (mret tt) rounds)).
Notation worker := (lrudisk_evictionworker_round (K := sim_kernel) (mret tt)).

(** Two threads touch the same page for the first time, the second takes a
    frame before the first has hashed the page, and gives it back. *)
Definition two_touches : list choice :=
  [Start; Start; Fault_of 0 0 8192; Fault_of 1 0 8192; Run 0; Run 1; Run 0; Run 1; Run 0; Run 1; Policy_round 0].


(** A mapping of two pages with MAP_POPULATE, after start-up. *)
Definition started : machine sim_kernel := match set_flag is_init true booted with Done (_, s) => s | Fault _ => booted end.

Lemma mmap_is_its_segments_witness :
  exists n s', alone (Pol := disklinux (mret tt)) (mret tt) n (Mmap 0 8192 3 0x8022 (-1) 0) started = Done (tt, s').
Proof.
  assert (E : (match extmem_mmap (Pol := disklinux (mret tt)) 0 8192 3 0x8022 (-1) 0 started with Done _ => true | Fault _ => false end) = true)
    by by vm_compute.
  destruct (extmem_mmap (Pol := disklinux (mret tt)) 0 8192 3 0x8022 (-1) 0 started) as [[r s']|] eqn:Hrun; [|done].
  destruct (mmap_is_its_segments (Pol := disklinux (mret tt)) (mret tt) 0 8192 3 0x8022 (-1) 0 r started s' Hrun) as [n Hn].
  by exists n, s'.
Defined.

Lemma munmap_is_its_segments_witness :
  exists n s', alone (Pol := disklinux (mret tt)) (mret tt) n (Munmap 4096 8000) mapped_machine = Done (tt, s').
Proof.
  assert (E : (match extmem_munmap (Pol := disklinux (mret tt)) 4096 8000 mapped_machine with Done _ => true | Fault _ => false end) = true)
    by by vm_compute.
  destruct (extmem_munmap (Pol := disklinux (mret tt)) 4096 8000 mapped_machine) as [[r s']|] eqn:Hrun; [|done].
  destruct (munmap_is_its_segments (Pol := disklinux (mret tt)) (mret tt) 4096 8000 r mapped_machine s' Hrun) as [n Hn].
  by exists n, s'.
Defined.
End shown.
