(* ===== verification/RaceSpec.v ===== *)
(** A page that is evicted between its swap-in and its release: the eviction
    worker and a fault handler of [core.c] race for [swapped_out]. *)

From S2P Require Import Prelude UserPage AddressTranslation Fifo RdmaAlloc RdmaSim StorageRdma StorageSpec.
From S2P Require Import Machine Policy PointerPrefetch PrefetchSpec Migrate DiskLinux Core Threads.
From S2P Require Import Accounting PolicySpec PolicyLaws CoreSpec SwapSpec LruSpec MapSpec ThreadsSpec.
From stdpp Require Import relations.

Local Open Scope Z_scope.

(** ** The worker and a page that is not released *)

Section worker.
Context {K : Type} {HK : Kernel K}.
Variable usleep : M rdma_sys unit.
Implicit Types s : machine K.

(** The page the eviction worker takes next. *)
Definition next_victim s (p : ptr) : Prop := fl_last <$> lists (m_fifo s) !! eviction_list = Some (Some p).

#[export] Instance next_victim_dec s p : Decision (next_victim s p).
Proof. unfold next_victim. apply _. Defined.

(** [swapped_out] is set in the descriptor [p]. *)
Definition unreleased (p : ptr) (x : fifo_state) : Prop := exists pg, pages x !! p = Some pg /\ swapped_out pg = true.
Notation held p := (fun s : machine K => unreleased p (m_fifo s)).

Lemma unreleased_upd p q f :
  (forall pg, swapped_out (f pg) = swapped_out pg) -> keeps (unreleased p) (upd_page q f).
Proof.
  intros Hf x (pg & Hp & Hs). unfold upd_page, page_at. wlp_norm. intros qg Hq. wlp_norm. unfold unreleased. simpl.
  destruct (decide (p = q)) as [->|Hne]; [|rewrite lookup_insert_ne by done; eauto].
  rewrite lookup_insert_eq. exists (f qg). split; [done|]. rewrite Hf. congruence.
Qed.
Lemma unreleased_page_at p q : keeps (unreleased p) (page_at q).
Proof. unfold page_at. keeps_tac. Qed.
Lemma unreleased_list_at p l : keeps (unreleased p) (list_at l).
Proof. unfold list_at. keeps_tac. Qed.
Hint Resolve unreleased_page_at unreleased_list_at : keeps.
Lemma unreleased_upd_list p l f : keeps (unreleased p) (upd_list l f).
Proof. unfold upd_list. apply keeps_bind; [keeps_tac|]. intros ?. by apply keeps_modify. Qed.
Hint Resolve unreleased_upd_list : keeps.
Hint Extern 1 (keeps (unreleased _) (upd_page _ _)) => (apply unreleased_upd; by intros []) : keeps.

Lemma held_fifo p {A} (m : M fifo_state A) : keeps (unreleased p) m -> keeps (held p) (fifo m).
Proof. intros Hm. by apply (keeps_zoom (held p) fifo_lens (unreleased p)). Qed.
Lemma held_store p {A} (m : M storage_state A) : keeps (held p) (store m).
Proof. by apply keeps_zoom_frame. Qed.
Lemma held_kern p {A} (m : M (K * mem) A) : keeps (held p) (kern m).
Proof. by apply keeps_zoom_frame. Qed.
Hint Resolve held_store held_kern : keeps.
Hint Extern 1 (keeps (fun s => unreleased _ (m_fifo s)) (fifo _)) => (apply held_fifo; solve [keeps_tac]) : keeps.

Lemma held_page_get p q : keeps (held p) (page_get q).
Proof. unfold page_get. keeps_tac. Qed.
Lemma held_page_set p q f : (forall pg, swapped_out (f pg) = swapped_out pg) -> keeps (held p) (page_set q f).
Proof. intros Hf. unfold page_set. by apply held_fifo, unreleased_upd. Qed.
Lemma held_add_var p x z : keeps (held p) (add_var x z).
Proof. unfold add_var. by apply keeps_modify. Qed.
Lemma held_get p : keeps (held p) (get (S := machine K)).
Proof. apply keeps_get. Qed.
Lemma held_pagesize_of p pg : keeps (held p) (pagesize_of pg).
Proof. unfold pagesize_of. keeps_tac. Qed.
Hint Resolve held_page_get held_add_var held_get held_pagesize_of : keeps.
Hint Extern 1 (keeps (fun s => unreleased _ (m_fifo s)) (page_set _ _)) => (apply held_page_set; by intros []) : keeps.
Lemma held_begin p q : keeps (held p) (begin_eviction q).
Proof. unfold begin_eviction, extmem_wp_page, pt_get_bits. keeps_tac. Qed.
Lemma held_dequeue p l : keeps (held p) (dequeue l).
Proof. unfold dequeue. apply held_fifo. unfold dequeue_fifo, take_last. keeps_tac. Qed.
Lemma held_tryremove p l q : keeps (held p) (tryremove l q).
Proof. unfold tryremove. apply held_fifo. unfold page_list_tryremove_page, unlink_page. keeps_tac. Qed.
Hint Resolve held_dequeue held_tryremove : keeps.
Lemma held_reserve p q : keeps (held p) (take_reserve q).
Proof. unfold take_reserve, detach_from. keeps_tac. Qed.
Lemma held_disk_page p : keeps (held p) take_disk_page.
Proof. unfold take_disk_page. keeps_tac. Qed.
Hint Resolve held_begin held_reserve held_disk_page : keeps.

Lemma wlp_read_held p (Q : user_page -> machine K -> Prop) s :
  unreleased p (m_fifo s) -> (forall pg, swapped_out pg = true -> Q pg s) -> wlp (page_get p) Q s.
Proof.
  intros (pg & Hp & Hs) HQ. unfold page_get, fifo, page_at. rewrite wlp_zoom. wlp_norm. intros pg' Hp'. simpl in *.
  rewrite set_fifo_same. apply HQ. congruence.
Qed.

(** One operation that leaves [swapped_out] set. *)
Ltac walk :=
  match goal with H : unreleased ?p (m_fifo ?s) |- wlp _ _ ?s =>
    rewrite wlp_bind; apply (keeps_wlp (fun s => unreleased p (m_fifo s))); [solve [keeps_tac]|exact H|cbv beta; clear H; intros ? ? ?]
  end.

(** The migration to the disk checks [swapped_out] at its end. *)
Lemma migrate_unreleased p o b w (Q : unit -> machine K -> Prop) s : unreleased p (m_fifo s) -> wlp (lrudisk_migrate_down usleep p o b w) Q s.
Proof.
  intros Hs. unfold lrudisk_migrate_down, extmem_migrate_downdisk, extmem_wp_page, extmem_disk_write.
  do 18 walk. rewrite wlp_bind. eapply wlp_read_held; [eassumption|]. intros pg Hpg. rewrite wlp_bind, Hpg. by wlp_norm.
Qed.

Lemma evict_unreleased p (Q : unit -> machine K -> Prop) s : unreleased p (m_fifo s) -> wlp (evict_victim usleep p) Q s.
Proof.
  intros Hs. unfold evict_victim. do 2 walk. destruct (has_reserve _); do 3 walk; rewrite wlp_bind; by apply migrate_unreleased.
Qed.

(** A worker whose next victim is not released does not return. *)
Lemma worker_stops p s r : next_victim s p -> unreleased p (m_fifo s) -> lrudisk_evictionworker_round usleep s <> Done r.
Proof.
  intros Hv Hs Hr. assert (Hw : wlp (lrudisk_evictionworker_round usleep) (fun _ _ => False) s).
  { unfold lrudisk_evictionworker_round. rewrite wlp_bind.
    assert (Hq : wlp (dequeue eviction_list) (fun o s' => o = Some p /\ unreleased p (m_fifo s')) s).
    { apply wlp_and; [|by apply (held_dequeue p)]. unfold dequeue, fifo. rewrite wlp_zoom.
      unfold dequeue_fifo, list_at. wlp_norm. simpl. intros l Hl.
      unfold next_victim in Hv. rewrite Hl in Hv. simpl in Hv. injection Hv as Hv.
      rewrite Hv. wlp_norm. by apply wlp_any. }
    eapply wlp_mono; [exact Hq|]. intros o s1 [-> Hs1]. rewrite wlp_bind. by apply evict_unreleased. }
  unfold wlp in Hw. rewrite Hr in Hw. by destruct r.
Qed.
End worker.

(** ** The race *)

Section shown.
Notation rounds := (disklinux_rounds (K := sim_kernel) (mret tt)).
Notation run := (run_schedule (Pol := disklinux (mret tt)) (mret tt) rounds).
Notation steps := (rtc (step (Pol := disklinux (mret tt)) (mret tt) rounds)).
Notation worker := (lrudisk_evictionworker_round (K := sim_kernel) (mret tt)).

(** Three pages on two frames, and the first two again: the thread that
    swaps the first page in is stopped before it takes [handler_lock]. *)
Definition race : list choice :=
  let touch i addr := [Start; Fault_of i 0 addr; Run i; Run i; Run i; Run i] in
  let swap_in i addr := [Start; Fault_of i 0 addr; Run i; Run i; Run i] in
  touch 0%nat 8192 ++ touch 1%nat 12288 ++ touch 2%nat 16384 ++ swap_in 3%nat 8192 ++ swap_in 4%nat 12288.

(** The descriptor [p] is of the page at 8192, in memory, not released. *)
Definition arriving (s : machine sim_kernel) (p : ptr) : Prop :=
  (fun pg => (va pg, in_dram pg, swapped_out pg, migrating pg)) <$> pages (m_fifo s) !! p = Some (8192, true, true, true).
(** It is of the page at 8192, evicted. *)
Definition evicted (s : machine sim_kernel) (p : ptr) : Prop :=
  (fun pg => (va pg, in_dram pg, swapped_out pg, migrating pg)) <$> pages (m_fifo s) !! p = Some (8192, false, true, false).

#[export] Instance arriving_dec s p : Decision (arriving s p).
Proof. unfold arriving. apply _. Defined.
#[export] Instance evicted_dec s p : Decision (evicted s p).
Proof. unfold evicted. apply _. Defined.

Definition aborts {A} (r : outcome A) : bool := match r with Fault AssertFail => true | _ => false end.

(** What the schedule leads to, as one computation. *)
Definition races (c : config sim_kernel) : bool :=
  match (c_threads c).*2 !! 3%nat, c_workers c !! 1%nat with
  | Some (Release p b more), Some l =>
      bool_decide (b = 8192 /\ arriving (c_machine c) p /\ next_victim (c_machine c) p) &&
      aborts (as_thread l worker (c_machine c)) &&
      match run [Run 3] c with
      | Some c' =>
          match (c_threads c').*2 !! 3%nat with
          | Some (Follow q b' more') => bool_decide (q = p /\ b' = 8192 /\ more' = more /\ next_victim (c_machine c') p)
          | _ => false
          end &&
          match as_thread l worker (c_machine c') with Done (_, s') => bool_decide (evicted s' p) | Fault _ => false end
      | None => false
      end
  | _, _ => false
  end.

Lemma race_shown : match run race (quiescent rounds booted) with Some c => races c | None => false end = true.
Proof. vm_cast_no_check (eq_refl true). Qed.

(** C24: a page that is on its way in can be evicted before its handler is
    done with it.  Whatever the state, the kernel and the storage, a round of
    the eviction worker whose next victim is a page with [swapped_out] set
    does not return.  And from a client process on two frames there is a
    schedule of five faults that leads there: one thread, the fourth, has
    swapped in the page at 8192, which is in memory, and is about to take
    [handler_lock] to clear [swapped_out] and [migrating] in its descriptor
    [p]; [p] is the next victim, and the round stops at an assertion.  Had
    that thread gone on first by its one segment, which releases [p], [p]
    would still be the next victim, and the same round returns with the page
    evicted. *)
Theorem eviction_before_release_aborts :
  (forall (K : Type) (HK : Kernel K) usleep (s : machine K) p r,
     next_victim s p -> unreleased p (m_fifo s) -> lrudisk_evictionworker_round usleep s <> Done r) /\
  exists c p more l c' r s',
    steps (quiescent rounds booted) c /\ (c_threads c).*2 !! 3%nat = Some (Release p 8192 more) /\ c_workers c !! 1%nat = Some l /\
    arriving (c_machine c) p /\ next_victim (c_machine c) p /\ as_thread l worker (c_machine c) = Fault AssertFail /\
    run [Run 3] c = Some c' /\ (c_threads c').*2 !! 3%nat = Some (Follow p 8192 more) /\ next_victim (c_machine c') p /\
    as_thread l worker (c_machine c') = Done (r, s') /\ evicted s' p.
Proof.
  split; [intros; by eapply worker_stops|].
  pose proof race_shown as E. destruct (run race (quiescent rounds booted)) as [c|] eqn:Hrun; [|done].
  apply schedule_steps in Hrun. unfold races in E. destruct ((c_threads c).*2 !! 3%nat) as [t|] eqn:Ht; [|done].
  destruct t as [| | | | | | | | |p b more| | | | | | | | | | | | | | | |]; try done. destruct (c_workers c !! 1%nat) as [l|] eqn:Hl; [|done].
  apply andb_true_iff in E as [[(-> & Ha & Hv)%bool_decide_eq_true Hs]%andb_true_iff E].
  destruct (run [Run 3] c) as [c'|] eqn:Hnext; [|done]. apply andb_true_iff in E as [Ht' E].
  destruct ((c_threads c').*2 !! 3%nat) as [t'|] eqn:Et'; [|done].
  destruct t'; try done. apply bool_decide_eq_true in Ht' as (-> & -> & -> & Hv').
  destruct (as_thread l worker (c_machine c')) as [[r s']|] eqn:Hw; [|done]. apply bool_decide_eq_true in E.
  exists c, p, more, l, c', r, s'. split_and!; try done. by destruct (as_thread l worker (c_machine c)) as [|[]].
Qed.

Lemma eviction_before_release_aborts_witness :
  exists s p, arriving s p /\ forall r, worker s <> Done r.
Proof.
  destruct eviction_before_release_aborts as [H (c & p & more & l & c' & r & s' & _ & _ & _ & Ha & Hv & _)].
  exists (c_machine c), p. split; [exact Ha|]. intros r'. apply (H _ _ _ _ p); [exact Hv|].
  unfold arriving in Ha. apply fmap_Some in Ha as (pg & Hp & E). exists pg. split; [exact Hp|]. congruence.
Defined.
End shown.
