(* ===== verification/StartSpec.v ===== *)
(** The pager from the start of the process: [extmem_init] in a process next
    to a running server, and the whole life of a process that has called it. *)

From S2P Require Import Prelude UserPage AddressTranslation Fifo RdmaAlloc RdmaSim RdmaProtocol StorageRdma StorageSpec.
From S2P Require Import Machine Policy PointerPrefetch PrefetchSpec Migrate DiskLinux SwapFile Core Accounting PolicySpec PolicyLaws.
From S2P Require Import CoreSpec SwapSpec.

Local Open Scope Z_scope.

(** A run that returns with two facts. *)
Lemma wp_and_wlp {S A} (m : M S A) (Q1 Q2 : A -> S -> Prop) x :
  wp m Q1 x -> wlp m Q2 x -> wp m (fun a y => Q1 a y /\ Q2 a y) x.
Proof. unfold wp, wlp. destruct (m x) as [[]|]; [done|by intros []]. Qed.

(** The sizes the environment asks for. *)
Definition dram_of (env : environment) : Z := default DRAMSIZE_DEFAULT (env_dramsize env).
Definition disk_of (env : environment) : Z := default DISKSIZE_DEFAULT (env_disksize env).

(** The dummy page has the fields of slot 0 but stands for no place: it is
    held outside the policy for good. *)
Definition dummy_place : place := (false, -1).
Definition dummy_held : held := mk_held None (loc page0) dummy_place.

Lemma dummy_not_a_place dram disk : dummy_place ∉ all_places dram disk.
Proof.
  unfold all_places. rewrite not_elem_of_union, !elem_of_places.
  split; intros (j & Hj & [=]); unfold PAGE_SIZE, BASEPAGE_SIZE in *; lia.
Qed.

(** ** A running server gives the client no memory of its own *)

Lemma heapless_server_proc f : keeps heapless (upd_proc Server f).
Proof. by apply keeps_modify. Qed.
Hint Resolve heapless_server_proc heapless_segs : keeps.

Lemma heapless_server_shm f : keeps heapless (upd_shm Server f).
Proof. unfold upd_shm. keeps_tac. Qed.
Lemma heapless_server_the_shm : keeps heapless (the_shm Server).
Proof. unfold the_shm. keeps_tac. Qed.
Hint Resolve heapless_server_shm heapless_server_the_shm : keeps.
Lemma heapless_server_req i f : keeps heapless (upd_req Server i f).
Proof. unfold upd_req, the_req. keeps_tac. Qed.
Lemma heapless_server_connected : keeps heapless (connected Server).
Proof. unfold connected. keeps_tac. Qed.
Hint Resolve heapless_server_req heapless_server_connected : keeps.
Lemma heapless_server_allocate n b : keeps heapless (rdma_sim_allocate Server n b).
Proof. unfold rdma_sim_allocate, malloc. keeps_tac. Qed.
Hint Resolve heapless_server_allocate : keeps.
Lemma heapless_server_handle i : keeps heapless (rdma_server_handle_request Server i).
Proof. unfold rdma_server_handle_request, the_req, sim_read, sim_write, page_buffer_read, page_buffer_write. keeps_tac. Qed.
Hint Resolve heapless_server_handle : keeps.
Lemma heapless_drain n : keeps heapless (drain Server n).
Proof. induction n as [|n IH]; simpl; unfold process_one, the_req; keeps_tac. Qed.
Hint Resolve heapless_drain : keeps.
Lemma heapless_server_turn : keeps heapless server_turn.
Proof. unfold server_turn, server_round. keeps_tac. Qed.

(** ** No frame is lost in the life of a process *)

Section lifetime.
Context {K : Type} {HK : Kernel K} {Pol : Policy K} {PL : PolicyLaws Pol}.
Variable env : environment.
Variable usleep : M rdma_sys unit.
Variable spawn : M rdma_sys (option Z).
Variable alive : Z -> M rdma_sys bool.
Variable stop : Z -> M rdma_sys unit.
Hypothesis usleep_heapless : keeps heapless usleep.
Hypothesis spawn_heapless : keeps heapless spawn.
Hypothesis alive_heapless : forall p, keeps heapless (alive p).
Hypothesis stop_heapless : forall p, keeps heapless (stop p).
Implicit Types s : machine K.
Notation dry := (@dry K).

Hint Resolve usleep_heapless spawn_heapless alive_heapless stop_heapless : keeps.
Hint Resolve heapless_init heapless_submit heapless_wait heapless_upd_shm : keeps.
Hint Extern 1 (keeps heapless (upd_proc _ _)) => (apply heapless_upd_proc; by intros []) : keeps.

Lemma heapless_shm_remove id : keeps heapless (shm_remove id).
Proof. apply keeps_modify. intros x Hx. by case_bool_decide. Qed.
Hint Resolve heapless_shm_remove : keeps.
Lemma heapless_cleanup : keeps heapless (rdma_sim_cleanup Client false).
Proof. unfold rdma_sim_cleanup. keeps_tac. Qed.
Hint Resolve heapless_cleanup : keeps.
Hint Extern 1 (keeps dry_store (rdma _)) => (apply dry_rdma; solve [keeps_tac]) : keeps.
Hint Extern 1 (keeps dry_store (modify _)) => (apply dry_modify; by intros []) : keeps.

Lemma dry_start_wait pid n : keeps dry_store (start_wait usleep alive stop pid n).
Proof. induction n as [|n IH]; simpl; keeps_tac. Qed.
Lemma dry_init_retry id r n : keeps dry_store (init_retry usleep id r n).
Proof. revert r. induction n as [|n IH]; intros r; simpl; keeps_tac. all: apply IH. Qed.
Hint Resolve dry_start_wait dry_init_retry : keeps.
Lemma dry_storage_init : keeps dry_store (rdma_storage_init usleep spawn alive stop).
Proof. unfold rdma_storage_init, start_rdma_process. keeps_tac. Qed.

(** *** Before the policy starts *)

(** No descriptor yet, and no remote memory. *)
Definition boot s : Prop := m_fifo s = no_pages /\ dry s.

Lemma boot_store {A} (m : M storage_state A) : keeps dry_store m -> keeps boot (store m).
Proof. intros Hm. apply (keeps_zoom _ store_lens dry_store); [done|by intros s (? & ? & ?)|by intros s t (? & ? & ?) ?]. Qed.
Lemma boot_kern {A} (m : M (K * mem) A) : keeps boot (kern m).
Proof. by apply keeps_zoom_frame. Qed.
Lemma boot_modify f :
  (forall s, m_store (f s) = m_store s /\ m_pf (f s) = m_pf s /\ m_fifo (f s) = m_fifo s) -> keeps boot (modify f).
Proof.
  intros Hf. apply keeps_modify. intros s (E & Hs & Hu). destruct (Hf s) as (E1 & E2 & E3).
  split; [congruence|]. split; [by rewrite E1|]. unfold no_usable, pf_records. by rewrite E2.
Qed.
Hint Resolve boot_kern dry_storage_init : keeps.
Hint Extern 1 (keeps boot (store _)) => (apply boot_store; solve [keeps_tac]) : keeps.
Hint Extern 1 (keeps boot (modify _)) => (apply boot_modify; by intros []) : keeps.

Lemma boot_prefetch_init : keeps boot pointer_prefetch_init.
Proof.
  unfold pointer_prefetch_init, m_translator. apply keeps_bind; [keeps_tac|intros s0]. destruct (prefetch_initialized _); [keeps_tac|].
  apply keeps_bind; [apply boot_store, dry_translator|intros r]. destruct (negb _); [keeps_tac|].
  apply keeps_bind; [|keeps_tac]. apply keeps_modify. intros s (? & ? & _). split; [done|]. split; [done|]. by constructor.
Qed.

(** The sizes are set. *)
Definition sized s : Prop := vars s dramsize = dram_of env /\ vars s disksize = disk_of env.
Definition ready s : Prop := boot s /\ sized s.

Lemma ready_page_cache z : keeps ready (set_var page_cache z).
Proof. apply keeps_modify. by intros s (? & ?). Qed.
Lemma ready_store {A} (m : M storage_state A) : keeps dry_store m -> keeps ready (store m).
Proof. intros Hm. apply (keeps_zoom _ store_lens dry_store); [done|by intros s ((? & ? & ?) & ?)|by intros s t ((? & ? & ?) & ?) ?]. Qed.
Lemma ready_kern {A} (m : M (K * mem) A) : keeps ready (kern m).
Proof. by apply keeps_zoom_frame. Qed.
Lemma ready_policy s :
  in_u64 (dram_of env) -> in_u64 (disk_of env) -> ready s ->
  wlp paging_init (fun _ s' => (minv s' (all_places (dram_of env) (disk_of env)) ∅ /\ next_free s' /\ room s') /\ dry s') s.
Proof.
  intros Hr Hd [[E Hy] [E1 E2]]. apply wlp_and; [|by apply init_dry].
  rewrite <- E1, <- E2. apply init_law; [done|by rewrite E1|by rewrite E2].
Qed.

(** *** The dummy page *)

(** What the library looks like once [extmem_init] has returned. *)
Record started s : Prop := mk_started {
  sd_init : flags s is_init = true;
  sd_internal : flags s internal_call = false;
  sd_places : exists p, minv s ({[dummy_place]} ∪ all_places (dram_of env) (disk_of env)) {[p := dummy_held]};
}.

Lemma dummy_spec s :
  minv s (all_places (dram_of env) (disk_of env)) ∅ -> next_free s -> room s -> flags s is_init = true ->
  wlp (p ← calloc_page; add_page p;; set_flag internal_call false) (fun _ s' => started s') s.
Proof.
  intros (D & Q & Hr & Ha) Hf Hroom Hi. unfold calloc_page. wlp_norm. set (p := m_next s). unfold add_page. wlp_norm.
  assert (Hp : Fifo.pages (m_fifo s) !! p = None).
  { destruct (Fifo.pages (m_fifo s) !! p) eqn:E; [|done]. assert (p < m_next s)%positive by (apply Hf; eauto). unfold p in *. lia. }
  destruct (rep_calloc _ _ _ _ Hr Hp) as (Hr1 & HD & Hu); [by rewrite <- (rep_size _ _ _ Hr)|].
  apply wp_wlp. eapply wp_page_get; [apply lookup_insert_eq|]. wlp_norm. intros _. unfold set_flag. wlp_norm.
  split; [done|done|]. exists p, (<[p := page0]> D), Q. split; [done|].
  apply accounts_hold_new; [done..|apply dummy_not_a_place].
Qed.

Ltac keep_step I := rewrite ?wlp_bind; eapply (keeps_wlp I); [solve [keeps_tac] | eassumption | ].

Lemma start_spec s :
  boot s -> flags s is_init = false -> in_u64 (dram_of env) -> in_u64 (disk_of env) ->
  wlp (extmem_init usleep env spawn alive stop) (fun _ s' => started s' /\ dry s') s.
Proof.
  intros Hs Hi Hr Hd. unfold extmem_init, get_flag. wlp_norm. rewrite Hi. cbv zeta. clear Hi.
  pose proof boot_prefetch_init. pose proof ready_page_cache.
  assert (Hmap : forall n, keeps ready (map_private n)) by (intros; apply ready_kern).
  do 10 (keep_step boot; clear s Hs; intros ? s Hs).
  do 2 (rewrite wlp_bind; apply wlp_modify).
  match goal with |- wlp _ _ ?x => assert (Hx : ready x) by (split; [by destruct Hs as (? & ? & ?)|done]); revert Hx; generalize x end.
  clear s Hs. intros s Hs.
  keep_step ready. clear s Hs. intros [cache|] s Hs; [|by wlp_norm].
  keep_step ready. clear s Hs. intros _ s Hs.
  rewrite wlp_bind. eapply (keeps_wlp ready); [apply ready_store, dry_rdma; unfold proc_write; keeps_tac|exact Hs|].
  clear s Hs. intros _ s Hs.
  rewrite wlp_bind. eapply wlp_mono; [by apply ready_policy|]. clear s Hs. intros [] s ((Hm & Hf & Hroom) & Hy).
  rewrite wlp_bind. apply wlp_modify. apply wlp_and; [by apply dummy_spec|].
  eapply (keeps_wlp dry); [|by destruct Hy|done]. unfold calloc_page. keeps_tac.
Qed.

End lifetime.

(** ** The library starts *)

Section start.
Context {K : Type} {HK : Kernel K}.
Variable env : environment.
Variable spawn : M rdma_sys (option Z).
Variable alive : Z -> M rdma_sys bool.
Variable stop : Z -> M rdma_sys unit.
Implicit Types s : machine K.

(** The translator before [address_translator_init]. *)
Definition translator_off : address_translator_t := mk_translator [] 0 0 0 0 false.

(** Everything the program asks of the system succeeds. *)
Record good_environment : Prop := mk_good {
  ge_files : env_files env = true;
  ge_strdup : env_strdup env = true;
  ge_open : 0 <= env_open env (actual_swap_file_path (env_is_dir env) (swap_diskpath (env_swapdir env)));
  ge_uffd : env_uffd env = true;
  ge_outputs : env_outputs env = true;
  ge_dram : in_u64 (dram_of env);
  ge_disk : in_u64 (disk_of env);
}.

(** A process that has just been loaded, next to a server with no open
    session; [cm] is its memory. *)
Record loaded s (sm cm : mem) (sml cml : list Z) (clk : Z * Z) : Prop := mk_loaded {
  ld_store : m_store s =
    storage_fresh translator_off (RdmaSim.conn 0 ∅ (Some 0) 1 clk shm_up (server_up sm sml) (proc0 cm cml));
  ld_fifo : m_fifo s = no_pages;
  ld_hash : m_hash s = ∅;
  ld_prefetch : prefetch_initialized (m_pf s) = false;
  ld_init : flags s is_init = false;
}.

(** What [lrudisk_init] leaves alone. *)
Definition apart (st : storage_state) (h : gmap Z ptr) (f : flag -> bool) s : Prop :=
  m_store s = st /\ m_hash s = h /\ flags s = f.

Section apart.
Variables (st : storage_state) (h : gmap Z ptr) (f : flag -> bool).

Lemma apart_fifo {A} (m : M fifo_state A) : keeps (apart st h f) (fifo m).
Proof. by apply keeps_zoom_frame. Qed.
Lemma apart_calloc : keeps (apart st h f) calloc_page.
Proof. unfold calloc_page. apply keeps_bind; [apply keeps_gets|intros p]. apply keeps_bind; [by apply keeps_modify|keeps_tac]. Qed.
Hint Resolve apart_fifo apart_calloc : keeps.
Lemma apart_pages b l i n : keeps (apart st h f) (init_pages b l i n).
Proof. revert i. induction n as [|n IH]; intros i; simpl; unfold page_set, enqueue; keeps_tac. Qed.
Lemma apart_init : keeps (apart st h f) lrudisk_init.
Proof. pose proof apart_pages. unfold lrudisk_init, get_var. keeps_tac. Qed.
End apart.

Lemma wp_done {S A} (m : M S A) (Q : A -> S -> Prop) x a y : m x = Done (a, y) -> Q a y -> wp m Q x.
Proof. unfold wp. by intros ->. Qed.

(** The page cache can be mapped. *)
Definition maps_cache s (m : mem) : Prop :=
  exists a k,
    libc_mmap 0 (16 * PAGE_SIZE * MAX_USER_THREADS) (Z.lor PROT_READ PROT_WRITE)
      (Z.lor MAP_PRIVATE (Z.lor MAP_ANONYMOUS MAP_NORESERVE)) 0 (m_kern s, m) = Done (Some a, (k, m)).

Lemma prefetch_init_starts s (Q : Z -> machine K -> Prop) :
  prefetch_initialized (m_pf s) = false -> initialized (st_trans (m_store s)) = false ->
  Q 0 (set_pf (set_prefetch_initialized true (set_records [] (set_stats zero_stats (m_pf s))))
         (set_store (set_trans translator_up (m_store s)) s)) ->
  wp pointer_prefetch_init Q s.
Proof.
  intros Hpf Ht HQ. unfold pointer_prefetch_init. wp_norm. rewrite Hpf. wp_norm.
  unfold m_translator, store, translator. wp_norm. unfold address_translator_init. wp_norm. simpl view. rewrite Ht. wp_norm.
  simpl. unfold upd_pf. wp_norm. exact HQ.
Qed.
(** Every list of the policy has the length it starts with. *)
Definition first_lengths s : Prop :=
  forall l, l ∈ all_lists -> exists q, lists (m_fifo s) !! l = Some q /\
    numentries q = if decide (l = dram_free_list) then dram_of env / PAGE_SIZE
                   else if decide (l = disk_free_list) then disk_of env / PAGE_SIZE else 0.

(** From the policy's start on. *)
Lemma policy_and_dummy_start s :
  m_fifo s = no_pages -> m_hash s = ∅ -> dry s -> sized env s -> in_u64 (dram_of env) -> in_u64 (disk_of env) ->
  wp (lrudisk_init;; set_flag is_init true;; dummy_page ← calloc_page; add_page dummy_page;; set_flag internal_call false)
    (fun _ s' => started env s' /\ dry s' /\ m_store s' = m_store s /\ first_lengths s') s.
Proof.
  intros Hf Hh Hy [E1 E2] Hr Hd. rewrite wp_bind. rewrite <- E1 in Hr. rewrite <- E2 in Hd.
  eapply wp_mono; [apply wp_and_wlp; [apply wp_and_wlp; [exact (init_spec s Hf Hr Hd)|by apply (apart_init (m_store s) (m_hash s) (flags s))]|]|].
  { by apply dry_init. }
  intros [] s1 [[(Hm & Hl & Hn & Hroom) (Es & Eh & _)] Hy1].
  rewrite wp_bind. apply wp_modify.
  assert (Hst : wlp (dummy_page ← calloc_page; add_page dummy_page;; set_flag internal_call false)
    (fun _ s' => started env s') (set_flags (update (flags s1) is_init true) s1)).
  { apply dummy_spec; [|done|done|done]. by rewrite <- E1, <- E2. }
  set (s2 := set_flags _ s1) in *.
  eapply wp_mono with (Q := fun _ s' => (dry s' /\ m_store s' = m_store s /\ first_lengths s') /\ started env s').
  - apply wp_and_wlp; [|exact Hst]. unfold calloc_page. wp_norm. unfold add_page. wp_norm.
    eapply wp_page_get; [apply lookup_insert_eq|]. wp_norm. apply wp_assert; [simpl; by rewrite Eh, Hh|].
    unfold set_flag. wp_norm. split; [by destruct Hy1|]. split; [done|].
    intros l Hin. destruct (Hl l Hin) as (q & Hq & Hnq). exists q. split; [done|]. by rewrite Hnq, E1, E2.
  - by intros [] s' [(? & ? & ?) ?].
Qed.

Lemma starts_init s sm cm sml cml clk k :
  good_environment -> loaded s sm cm sml cml clk -> maps_cache s cm -> 0 <= k < 2 ^ 62 ->
  exists s', extmem_init (Pol := disklinux server_turn) server_turn env spawn alive stop s = Done (tt, s') /\
    started env s' /\ dry s' /\ storage_rep k (m_store s') ∅ /\ first_lengths s'.
Proof.
  intros [] [Hst Hf Hh Hpf Hi] (a & k' & Hmap) Hk.
  assert (Hw : wp (extmem_init (Pol := disklinux server_turn) server_turn env spawn alive stop)
    (fun _ s' => started env s' /\ dry s' /\ storage_rep k (m_store s') ∅ /\ first_lengths s') s).
  2: { apply wp_elim in Hw as ([] & s' & Hrun & H). eauto. }
  unfold extmem_init, get_flag. wp_norm. rewrite Hi.
  cbv zeta. rewrite ge_files0, ge_strdup0, (proj2 (Z.leb_le _ _) ge_open0), ge_uffd0, ge_outputs0.
  rewrite wp_bind. apply wp_modify. do 2 (rewrite wp_bind; apply wp_assert; [done|]).
  rewrite wp_bind. apply wp_modify. rewrite wp_bind; apply wp_assert; [done|].
  rewrite wp_bind. apply (wp_zoom store_lens). simpl view. rewrite Hst.
  wp_call rdma_init_spec as r st (-> & shm & -> & Hq). rewrite wp_bind; apply wp_assert; [done|].
  rewrite wp_bind. apply prefetch_init_starts; [exact Hpf|done|].
  do 2 (rewrite wp_bind; apply wp_assert; [done|]). do 2 (rewrite wp_bind; apply wp_modify).
  rewrite wp_bind. apply (wp_zoom kern_lens). eapply wp_done; [exact Hmap|]. cbv iota.
  generalize (replicate (Z.to_nat (PAGE_SIZE * 16 * MAX_USER_THREADS)) Byte.x00). intros zs.
  rewrite wp_bind. apply wp_modify. rewrite wp_bind. apply (wp_zoom store_lens), (wp_zoom sys_lens), wp_modify.
  match goal with |- wp _ _ ?x => set (s1 := x) end.
  assert (Es : m_store s1 = stored 0 ∅ (Some 0) 1 clk (-1) 0 0 shm (server_up sm sml)
    (set_p_mem (mem_write cm a zs) (bump (client_up cm cml))) translator_up empty_regions 0 (mk_counters 0 0 0 0 0 0)) by reflexivity.
  assert (Ef : m_fifo s1 = no_pages) by exact Hf. assert (Eh : m_hash s1 = ∅) by exact Hh.
  assert (Ey : dry s1) by (split; [unfold dry_store; by rewrite Es|by constructor]).
  assert (Ez : sized env s1) by (split; reflexivity). clearbody s1. change paging_init with (lrudisk_init (K := K)).
  eapply wp_mono; [by apply (policy_and_dummy_start s1)|].
  intros [] s2 (Hs2 & Hy2 & Est & Hl). split; [done|]. split; [done|]. split; [|done]. rewrite Est, Es.
  exact (storage_rep_set_mem k _ ∅ _ (fresh_storage_rep k clk shm sm sml cm cml translator_up Hq translator_up_storage Hk)).
Qed.

(** C2: The library starts.  In a process that has just been loaded next to a
    running server, when the program's files open, userfaultfd can be set up
    and the page cache can be mapped, [extmem_init] returns: it attaches to
    the server, completes the handshake, starts the translator and the
    prefetcher, and starts the policy.  Afterwards the library counts as
    initialised and calls are intercepted again, the storage holds no page
    and has identifiers for [k] operations, every frame of DRAMSIZE and every
    slot of DISKSIZE has one spare descriptor, the frames on
    [dram_free_list], the slots on [disk_free_list], and every other list of
    the policy is empty. *)
Theorem library_starts s sm cm sml cml clk k :
  good_environment -> loaded s sm cm sml cml clk -> maps_cache s cm -> 0 <= k < 2 ^ 62 ->
  exists s', extmem_init (Pol := disklinux server_turn) server_turn env spawn alive stop s = Done (tt, s') /\
    started env s' /\ dry s' /\ storage_rep k (m_store s') ∅ /\ first_lengths s'.
Proof. exact (starts_init s sm cm sml cml clk k). Qed.
End start.

(** ** Instances *)

(** Two frames and four slots; the swap file opens as descriptor 3. *)
Definition demo_environment : environment :=
  mk_environment true true None (fun _ => false) (fun _ => 3) true true (Some 8192) (Some 16384).

Definition loaded_machine : machine sim_kernel :=
  mk_machine
    (storage_fresh translator_off (RdmaSim.conn 0 ∅ (Some 0) 1 (0, 0) shm_up (server_up (fun _ => Byte.x00) [])
       (proc0 (fun _ => Byte.x00) [])))
    no_pages ∅ 1%positive (mk_sim_kernel [] ∅ (fun _ => 0) [196608; 262144])
    (mk_prefetch [] zero_stats false 0 0) (fun _ => 0) (fun _ => false).

Lemma loaded_machine_loaded : loaded loaded_machine (fun _ => Byte.x00) (fun _ => Byte.x00) [] [] (0, 0).
Proof. done. Qed.

Lemma demo_good : good_environment demo_environment.
Proof. by split. Qed.

Lemma library_starts_witness :
  exists s', extmem_init (Pol := disklinux server_turn) server_turn demo_environment (mret None) (fun _ => mret false) (fun _ => mret tt)
      loaded_machine = Done (tt, s') /\
    flags s' is_init = true /\ storage_rep 1000 (m_store s') ∅ /\
    exists q, lists (m_fifo s') !! dram_free_list = Some q /\ numentries q = 2.
Proof.
  destruct (library_starts demo_environment (mret None) (fun _ => mret false) (fun _ => mret tt) loaded_machine
    (fun _ => Byte.x00) (fun _ => Byte.x00) [] [] (0, 0) 1000 demo_good loaded_machine_loaded) as (s' & Hrun & [Hi _ _] & _ & Hst & Hl).
  - exists 196608, (mk_sim_kernel [] ∅ (fun _ => 0) [262144]). reflexivity.
  - lia.
  - destruct (Hl dram_free_list) as (q & Hq & Hn); [by apply (bool_decide_unpack (dram_free_list ∈ all_lists))|].
    exists s'. split; [done|]. split; [done|]. split; [done|]. exists q. split; [done|]. by rewrite Hn.
Defined.

