(* ===== verification/Uring.v ===== *)
(** The io_uring storage of [src/src/storage_iouring.c]: the two rings of a
    thread, the synchronous and the batched operations, against a ring whose
    requests complete at any time and in any order between their submission
    and the moment their completion is reaped. *)

From S2P Require Import Prelude Machine.

Local Open Scope Z_scope.

(** ** The library *)

(** The memory of the process and the bytes of every open file. *)
Definition io_world : Type := mem * (Z -> mem).

(** What [io_uring_prep_read] and [io_uring_prep_write] put in an entry. *)
Inductive io_op : Type :=
  | IoRead (fd : Z) (buffer : Z) (size : Z) (offset : Z)
  | IoWrite (fd : Z) (data : Z) (size : Z) (offset : Z).

#[export] Instance io_op_eq_dec : EqDecision io_op.
Proof. solve_decision. Defined.

(** The effect of an operation the kernel carries out in full. *)
Definition perform (op : io_op) (w : io_world) : io_world :=
  match op with
  | IoRead fd buffer size offset => (mem_write w.1 buffer (mem_read (w.2 fd) offset (Z.to_nat size)), w.2)
  | IoWrite fd data size offset =>
      (w.1, update (w.2) fd (mem_write (w.2 fd) offset (mem_read w.1 data (Z.to_nat size))))
  end.

(** The calls of liburing on a ring of type [R]; a submission entry is a
    pointer, [None] is NULL. *)
Class IoUring (R : Type) : Type := {
  io_uring_queue_init : Z -> bool -> M R Z;                   (* entries, IORING_SETUP_IOPOLL *)
  io_uring_get_sqe : M R (option Z);
  io_uring_prep : Z -> io_op -> M R unit;
  io_uring_sqe_set_data : Z -> Z -> M R unit;
  io_uring_submit : M (R * io_world) Z;
  io_uring_wait_cqe : M (R * io_world) Z;
  io_uring_cqe_seen : M R unit;
}.

Definition QD : Z := 128.

(** The thread-local variables, and the world. *)
Record io_state (R : Type) : Type := mk_io {
  io_ring : R;
  io_read_ring : R;
  uring_init : bool;
  uring_read_init : bool;
  io_data : io_world;
}.
Arguments mk_io {R}.
Arguments io_ring {R}.
Arguments io_read_ring {R}.
Arguments uring_init {R}.
Arguments uring_read_init {R}.
Arguments io_data {R}.

Section uring.
Context {R : Type} `{IoUring R}.

(** One of the two rings, alone and with the world. *)
Inductive which : Type := Ring | ReadRing.

Definition the_ring (k : which) (s : io_state R) : R := match k with Ring => io_ring s | ReadRing => io_read_ring s end.
Definition set_ring (k : which) (r : R) (s : io_state R) : io_state R :=
  match k with
  | Ring => mk_io r (io_read_ring s) (uring_init s) (uring_read_init s) (io_data s)
  | ReadRing => mk_io (io_ring s) r (uring_init s) (uring_read_init s) (io_data s)
  end.
Definition set_data (w : io_world) (s : io_state R) : io_state R :=
  mk_io (io_ring s) (io_read_ring s) (uring_init s) (uring_read_init s) w.
Definition set_uring_init (b : bool) (s : io_state R) : io_state R :=
  mk_io (io_ring s) (io_read_ring s) b (uring_read_init s) (io_data s).
Definition set_uring_read_init (b : bool) (s : io_state R) : io_state R :=
  mk_io (io_ring s) (io_read_ring s) (uring_init s) b (io_data s).

Definition on_ring (k : which) {A} (m : M R A) : M (io_state R) A := zoom (Lens (the_ring k) (set_ring k)) m.
Definition on_data (k : which) {A} (m : M (R * io_world) A) : M (io_state R) A :=
  zoom (Lens (fun s => (the_ring k s, io_data s)) (fun x s => set_data x.2 (set_ring k x.1 s))) m.

(** A negative result is an assertion. *)
Definition nonneg (m : M (io_state R) Z) : M (io_state R) unit :=
  ret ← m; c_assert (negb (ret <? 0)).

(** ** The functions of the file *)

Definition uswap_init_iouring : M (io_state R) unit :=
  nonneg (on_ring Ring (io_uring_queue_init QD false));;
  modify (set_uring_init true).

Definition thread_init_iouring : M (io_state R) unit :=
  nonneg (on_ring Ring (io_uring_queue_init QD false));;
  modify (set_uring_init true).

Definition thread_init_read_iouring : M (io_state R) unit :=
  nonneg (on_ring ReadRing (io_uring_queue_init QD true));;
  modify (set_uring_read_init true).

(** [if (uring_init == false) { thread_init_iouring(); uring_init = true; }]
    and the same for the read ring. *)
Definition ensure_ring (k : which) : M (io_state R) unit :=
  match k with
  | Ring =>
      i ← gets uring_init;
      when (negb i) (thread_init_iouring;; modify (set_uring_init true))
  | ReadRing =>
      i ← gets uring_read_init;
      when (negb i) (thread_init_read_iouring;; modify (set_uring_read_init true))
  end.

(** An entry; NULL is an assertion. *)
Definition get_sqe (k : which) : M (io_state R) Z :=
  sqe ← on_ring k io_uring_get_sqe;
  match sqe with None => fail AssertFail | Some sqe => mret sqe end.

Definition submit (k : which) : M (io_state R) unit := nonneg (on_data k io_uring_submit).

(** [io_uring_wait_cqe] and [io_uring_cqe_seen]; the result in the
    completion is not looked at. *)
Definition reap (k : which) : M (io_state R) unit :=
  nonneg (on_data k io_uring_wait_cqe);;
  on_ring k io_uring_cqe_seen.

Definition ioring_read_store (fd offset buffer size : Z) : M (io_state R) unit :=
  ensure_ring Ring;;
  sqe ← get_sqe Ring;
  on_ring Ring (io_uring_prep sqe (IoRead fd buffer size offset));;
  on_ring Ring (io_uring_sqe_set_data sqe buffer);;
  submit Ring;;
  reap Ring.

Definition ioring_write_store (fd offset data size : Z) : M (io_state R) unit :=
  ensure_ring Ring;;
  sqe ← get_sqe Ring;
  on_ring Ring (io_uring_prep sqe (IoWrite fd data size offset));;
  submit Ring;;
  reap Ring.

Definition ioring_start_read (fd offset buffer size : Z) : M (io_state R) unit :=
  ensure_ring ReadRing;;
  sqe ← get_sqe ReadRing;
  on_ring ReadRing (io_uring_prep sqe (IoRead fd buffer size offset));;
  on_ring ReadRing (io_uring_sqe_set_data sqe buffer);;
  submit ReadRing.

Definition ioring_prepare_read (fd offset buffer size : Z) : M (io_state R) unit :=
  ensure_ring ReadRing;;
  sqe ← get_sqe ReadRing;
  on_ring ReadRing (io_uring_prep sqe (IoRead fd buffer size offset)).

Definition ioring_submit_all_reads : M (io_state R) unit := submit ReadRing.

Definition ioring_finish_read (fd offset buffer size : Z) : M (io_state R) unit :=
  i ← gets uring_read_init;
  c_assert i;;
  reap ReadRing.

Definition ioring_prepare_write (fd offset data size : Z) : M (io_state R) unit :=
  ensure_ring Ring;;
  sqe ← get_sqe Ring;
  on_ring Ring (io_uring_prep sqe (IoWrite fd data size offset)).

Definition ioring_submit_all_writes : M (io_state R) unit := submit Ring.

Definition ioring_finish_write : M (io_state R) unit := reap Ring.
End uring.

(** ** What the library promises *)

(** The kernel carries out one more outstanding operation. *)
Inductive progress : list (io_op * bool) * io_world -> list (io_op * bool) * io_world -> Prop :=
  | progress_none x : progress x x
  | progress_step F1 op F2 w x :
      progress (F1 ++ (op, true) :: F2, perform op w) x -> progress (F1 ++ (op, false) :: F2, w) x.

(** [uring r P F]: the entries [P] are prepared and the operations [F] are
    submitted and not reaped, each carried out or not.  [taken]: besides, an
    entry was handed out; [reaped]: a completion is being looked at.
    Submitting gives the prepared entries to the kernel; between two calls
    any of the outstanding operations may be carried out, in any order; a
    wait returns the completion of one that was. *)
Class IoUringLaws (R : Type) `{IoUring R} : Type := {
  uring : R -> list io_op -> list (io_op * bool) -> Prop;
  taken : R -> Z -> list io_op -> list (io_op * bool) -> Prop;
  reaped : R -> list io_op -> list (io_op * bool) -> Prop;
  get_sqe_law r P F :
    uring r P F -> Z.of_nat (length P) < QD ->
    wp io_uring_get_sqe (fun o r' => exists sqe, o = Some sqe /\ taken r' sqe P F) r;
  prep_law r sqe P F op : taken r sqe P F -> wp (io_uring_prep sqe op) (fun _ r' => uring r' (P ++ [op]) F) r;
  set_data_law r sqe P F d : uring r P F -> wp (io_uring_sqe_set_data sqe d) (fun _ r' => uring r' P F) r;
  submit_law r P F w :
    uring r P F ->
    wp io_uring_submit (fun n x => n = Z.of_nat (length P) /\
      exists F', progress (F ++ map (fun op => (op, false)) P, w) (F', x.2) /\ uring x.1 [] F') (r, w);
  wait_law r P F w :
    uring r P F -> F <> [] ->
    wp io_uring_wait_cqe (fun n x => n = 0 /\
      exists F1 op F2, progress (F, w) (F1 ++ (op, true) :: F2, x.2) /\ reaped x.1 P (F1 ++ F2)) (r, w);
  seen_law r P F : reaped r P F -> wp io_uring_cqe_seen (fun _ r' => uring r' P F) r;
}.

Section laws.
Context {R : Type} {HU : IoUring R} {HL : IoUringLaws R}.
Implicit Types s : io_state R.

Definition is_init (k : which) s : bool := match k with Ring => uring_init s | ReadRing => uring_read_init s end.
Definition other (k : which) : which := match k with Ring => ReadRing | ReadRing => Ring end.

(** Ring [k] is set up with [P] prepared and [F] outstanding, the world is
    [w], and the other ring is as in [s0]. *)
Record ring_at (k : which) (s0 : io_state R) P F (w : io_world) s : Prop := mk_ring_at {
  ra_init : is_init k s = true;
  ra_uring : uring (the_ring k s) P F;
  ra_data : io_data s = w;
  ra_other : the_ring (other k) s = the_ring (other k) s0 /\ is_init (other k) s = is_init (other k) s0;
}.

(** Set up and idle, or not yet set up and the set-up succeeds. *)
Definition ready (k : which) s : Prop :=
  if is_init k s then uring (the_ring k s) [] []
  else forall poll, wp (io_uring_queue_init QD poll) (fun ret r => 0 <= ret /\ uring r [] []) (the_ring k s).

Lemma wp_on_ring k {A} (m : M R A) (P : A -> R -> Prop) (Q : A -> io_state R -> Prop) s :
  wp m P (the_ring k s) -> (forall a r, P a r -> Q a (set_ring k r s)) -> wp (on_ring k m) Q s.
Proof. intros Hm HQ. apply wp_zoom. eapply wp_mono; [exact Hm|]. intros a r. apply HQ. Qed.

Lemma wp_on_data k {A} (m : M (R * io_world) A) (P : A -> R * io_world -> Prop) (Q : A -> io_state R -> Prop) s :
  wp m P (the_ring k s, io_data s) -> (forall a x, P a x -> Q a (set_data x.2 (set_ring k x.1 s))) -> wp (on_data k m) Q s.
Proof. intros Hm HQ. apply wp_zoom. eapply wp_mono; [exact Hm|]. intros a x. apply HQ. Qed.

Lemma ring_at_self k P F s : is_init k s = true -> uring (the_ring k s) P F -> ring_at k s P F (io_data s) s.
Proof. done. Qed.

Lemma ready_other k s0 P F w s : ring_at k s0 P F w s -> ready (other k) s0 -> ready (other k) s.
Proof. intros [_ _ _ [Hr Hi]]. unfold ready. by rewrite Hr, Hi. Qed.

Lemma ready_again k s0 w s : ring_at k s0 [] [] w s -> ready k s.
Proof. intros [Hi Hr _ _]. unfold ready. by rewrite Hi. Qed.

Lemma ensure_spec k s : ready k s -> wp (ensure_ring k) (fun _ s' => ring_at k s [] [] (io_data s) s') s.
Proof.
  unfold ready, ensure_ring. intros Hr. destruct k; simpl in *; wp_norm.
  - destruct (uring_init s) eqn:Hi; simpl; wp_norm; [by apply ring_at_self|].
    unfold thread_init_iouring, nonneg. wp_norm. apply (wp_on_ring Ring _ _ _ _ (Hr false)). intros ret r [Hret Hu].
    wp_norm. apply wp_assert; [lia|]. by wp_norm.
  - destruct (uring_read_init s) eqn:Hi; simpl; wp_norm; [by apply ring_at_self|].
    unfold thread_init_read_iouring, nonneg. wp_norm. apply (wp_on_ring ReadRing _ _ _ _ (Hr true)). intros ret r [Hret Hu].
    wp_norm. apply wp_assert; [lia|]. by wp_norm.
Qed.

Lemma get_sqe_spec k s0 P F w (Q : Z -> io_state R -> Prop) s :
  ring_at k s0 P F w s -> Z.of_nat (length P) < QD ->
  (forall sqe r, taken r sqe P F -> Q sqe (set_ring k r s)) -> wp (get_sqe k) Q s.
Proof.
  intros [_ Hu _ _] HP HQ. unfold get_sqe. wp_norm. eapply wp_on_ring; [by apply get_sqe_law|].
  intros o r (sqe & -> & Ht). wp_norm. by apply HQ.
Qed.

Lemma set_ring_twice k r r' s : set_ring k r' (set_ring k r s) = set_ring k r' s.
Proof. by destruct k. Qed.
Lemma the_ring_set k r s : the_ring k (set_ring k r s) = r.
Proof. by destruct k. Qed.

Lemma ring_at_set k s0 P F P' F' w s r :
  ring_at k s0 P F w s -> uring r P' F' -> ring_at k s0 P' F' w (set_ring k r s).
Proof. intros [Hi Hu Hd [Ho Hoi]] Hr. destruct k; by split. Qed.

(** An entry prepared. *)
Lemma prepare_spec k s0 P F w op s :
  ring_at k s0 P F w s -> Z.of_nat (length P) < QD ->
  wp (sqe ← get_sqe k; on_ring k (io_uring_prep sqe op)) (fun _ s' => ring_at k s0 (P ++ [op]) F w s') s.
Proof.
  intros Hs HP. wp_norm. eapply get_sqe_spec; [exact Hs|done|]. intros sqe r Ht. eapply wp_on_ring.
  - rewrite the_ring_set. by apply prep_law.
  - intros [] r' Hu. rewrite set_ring_twice. by eapply ring_at_set.
Qed.

Lemma tag_spec k s0 P F w sqe d s :
  ring_at k s0 P F w s -> wp (on_ring k (io_uring_sqe_set_data sqe d)) (fun _ s' => ring_at k s0 P F w s') s.
Proof.
  intros Hs. eapply wp_on_ring; [apply set_data_law, Hs|]. intros [] r Hr. by eapply ring_at_set.
Qed.

Lemma submit_ring_spec k s0 P F w s :
  ring_at k s0 P F w s ->
  wp (submit k) (fun _ s' => exists F' w', progress (F ++ map (fun op => (op, false)) P, w) (F', w') /\ ring_at k s0 [] F' w' s') s.
Proof.
  intros [Hi Hu <- [Ho Hoi]]. unfold submit, nonneg. wp_norm. eapply wp_on_data; [by apply submit_law|].
  intros n [r w'] (-> & F' & Hp & Hr). wp_norm. apply wp_assert; [lia|]. exists F', w'. split; [done|]. destruct k; by split.
Qed.

Lemma reap_spec k s0 P F w s :
  ring_at k s0 P F w s -> F <> [] ->
  wp (reap k) (fun _ s' => exists F1 op F2 w', progress (F, w) (F1 ++ (op, true) :: F2, w') /\ ring_at k s0 P (F1 ++ F2) w' s') s.
Proof.
  intros [Hi Hu <- [Ho Hoi]] HF. unfold reap, nonneg. wp_norm. eapply wp_on_data; [by apply wait_law|].
  intros n [r w'] (-> & F1 & op & F2 & Hp & Hr). wp_norm. apply wp_assert; [done|]. simpl fst. simpl snd. wp_norm.
  eapply wp_on_ring; [destruct k; by apply seen_law|]. intros [] r' Hr'. exists F1, op, F2, w'. split; [done|].
  destruct k; by split.
Qed.

(** *** One operation *)

Lemma progress_one op b w F w' :
  progress ([(op, b)], w) (F, w') ->
  (F = [(op, b)] /\ w' = w) \/ (b = false /\ F = [(op, true)] /\ w' = perform op w).
Proof.
  intros Hp. remember ([(op, b)], w) as x eqn:Ex. remember (F, w') as y eqn:Ey. revert op b w Ex.
  induction Hp as [x|F1 op' F2 w0 x Hp IH]; intros op b w Ex; subst; [simplify_eq; by left|]. injection Ex as Ex <-.
  destruct F1 as [|? F1]; [|destruct F1; by simplify_eq]. simpl in Ex. injection Ex as -> <- ->. right.
  destruct (IH eq_refl op true (perform op w0) eq_refl) as [[-> ->]|[? _]]; done.
Qed.

(** [op] alone is outstanding: not carried out in [w], or carried out. *)
Definition flying (k : which) s0 (op : io_op) (w : io_world) s : Prop :=
  ring_at k s0 [] [(op, false)] w s \/ ring_at k s0 [] [(op, true)] (perform op w) s.

Lemma submit_one k s0 op w s : ring_at k s0 [op] [] w s -> wp (submit k) (fun _ s' => flying k s0 op w s') s.
Proof.
  intros Hs. eapply wp_mono; [by eapply submit_ring_spec|]. intros [] s1 (F & w1 & Hp & Hs1). simpl in Hp.
  destruct (progress_one _ _ _ _ _ Hp) as [[-> ->]|(_ & -> & ->)]; [by left|by right].
Qed.

Lemma reap_one k s0 op w s : flying k s0 op w s -> wp (reap k) (fun _ s' => ring_at k s0 [] [] (perform op w) s') s.
Proof.
  intros [Hs|Hs]; (eapply wp_mono; [by eapply reap_spec|]; intros [] s2 (F1 & op' & F2 & w2 & Hp2 & Hs2);
    destruct (progress_one _ _ _ _ _ Hp2) as [[E ->]|(? & E & ->)]; try done;
    (destruct F1 as [|? F1]; [|destruct F1; by simplify_eq/=]); by simplify_eq/=).
Qed.

Lemma write_store_spec fd offset data size s :
  ready Ring s ->
  wp (ioring_write_store fd offset data size)
    (fun _ s' => ring_at Ring s [] [] (perform (IoWrite fd data size offset) (io_data s)) s') s.
Proof.
  intros Hr. unfold ioring_write_store. rewrite wp_bind. eapply wp_mono; [by apply ensure_spec|]. intros [] s1 Hs1.
  pose proof (prepare_spec Ring s [] [] _ (IoWrite fd data size offset) s1 Hs1 ltac:(done)) as Hprep.
  rewrite wp_bind in Hprep |- *. eapply wp_mono; [exact Hprep|]. intros sqe s2 Hs2. simpl in Hs2. rewrite wp_bind.
  eapply wp_mono; [exact Hs2|]. intros [] s3 Hs3. wp_norm.
  eapply wp_mono; [by apply submit_one|]. intros [] s4 Hs4. by apply reap_one.
Qed.

Lemma read_store_spec fd offset buffer size s :
  ready Ring s ->
  wp (ioring_read_store fd offset buffer size)
    (fun _ s' => ring_at Ring s [] [] (perform (IoRead fd buffer size offset) (io_data s)) s') s.
Proof.
  intros Hr. unfold ioring_read_store. rewrite wp_bind. eapply wp_mono; [by apply ensure_spec|]. intros [] s1 Hs1.
  pose proof (prepare_spec Ring s [] [] _ (IoRead fd buffer size offset) s1 Hs1 ltac:(done)) as Hprep.
  rewrite wp_bind in Hprep |- *. eapply wp_mono; [exact Hprep|]. intros sqe s2 Hs2. simpl in Hs2. rewrite wp_bind.
  eapply wp_mono; [exact Hs2|]. intros [] s3 Hs3. rewrite wp_bind.
  eapply wp_mono; [by eapply tag_spec|]. intros [] s4 Hs4. wp_norm.
  eapply wp_mono; [by apply submit_one|]. intros [] s5 Hs5. by apply reap_one.
Qed.

Lemma start_read_spec fd offset buffer size s :
  ready ReadRing s ->
  wp (ioring_start_read fd offset buffer size)
    (fun _ s' => flying ReadRing s (IoRead fd buffer size offset) (io_data s) s') s.
Proof.
  intros Hr. unfold ioring_start_read. rewrite !wp_bind. eapply wp_mono; [by apply ensure_spec|]. intros [] s1 Hs1.
  pose proof (prepare_spec ReadRing s [] [] _ (IoRead fd buffer size offset) s1 Hs1 ltac:(done)) as Hprep.
  rewrite wp_bind in Hprep |- *. eapply wp_mono; [exact Hprep|]. intros sqe s2 Hs2. simpl in Hs2. rewrite wp_bind.
  eapply wp_mono; [exact Hs2|]. intros [] s3 Hs3. rewrite wp_bind.
  eapply wp_mono; [by eapply tag_spec|]. intros [] s4 Hs4. by apply submit_one.
Qed.

Lemma finish_read_spec fd offset buffer size s0 op w s :
  flying ReadRing s0 op w s ->
  wp (ioring_finish_read fd offset buffer size) (fun _ s' => ring_at ReadRing s0 [] [] (perform op w) s') s.
Proof.
  intros Hs. unfold ioring_finish_read. wp_norm. apply wp_assert; [by destruct Hs as [[]|[]]|]. by apply reap_one.
Qed.

Lemma async_read_spec fd offset buffer size s :
  ready ReadRing s ->
  wp (ioring_start_read fd offset buffer size;; ioring_finish_read fd offset buffer size)
    (fun _ s' => ring_at ReadRing s [] [] (perform (IoRead fd buffer size offset) (io_data s)) s') s.
Proof.
  intros Hr. rewrite wp_bind. eapply wp_mono; [by apply start_read_spec|]. intros [] s1 Hs1. by apply finish_read_spec.
Qed.

(** *** A batch of writes *)

(** One write of a batch: the bytes at [wj_data] go to [wj_offset]. *)
Record write_job : Type := mk_write_job { wj_fd : Z; wj_offset : Z; wj_data : Z; wj_size : Z }.

Definition job_op (j : write_job) : io_op := IoWrite (wj_fd j) (wj_data j) (wj_size j) (wj_offset j).

(** [j]'s place in the file holds the bytes of [m]. *)
Definition written (m : mem) (w : io_world) (j : write_job) : Prop :=
  mem_read (w.2 (wj_fd j)) (wj_offset j) (Z.to_nat (wj_size j)) = mem_read m (wj_data j) (Z.to_nat (wj_size j)).

Definition apart (i j : write_job) : Prop :=
  wj_fd i <> wj_fd j \/ wj_offset i + Z.of_nat (Z.to_nat (wj_size i)) <= wj_offset j \/
  wj_offset j + Z.of_nat (Z.to_nat (wj_size j)) <= wj_offset i.

(** The loops of [extmem_migrate_downdisk_vector] in the io_uring build. *)
Fixpoint prepare_writes (js : list write_job) : M (io_state R) unit :=
  match js with
  | [] => mret tt
  | j :: js => ioring_prepare_write (wj_fd j) (wj_offset j) (wj_data j) (wj_size j);; prepare_writes js
  end.

Fixpoint finish_writes (n : nat) : M (io_state R) unit :=
  match n with
  | O => mret tt
  | S n => ioring_finish_write;; finish_writes n
  end.

Definition write_batch (js : list write_job) : M (io_state R) unit :=
  prepare_writes js;; ioring_submit_all_writes;; finish_writes (length js).

(** Every job of [js] is on its way or written. *)
Record under_way (js : list write_job) (m : mem) (F : list (io_op * bool)) (w : io_world) : Prop := mk_under_way {
  uw_mem : w.1 = m;
  uw_jobs : forall op b, (op, b) ∈ F -> exists j, j ∈ js /\ op = job_op j;
  uw_done : forall j, j ∈ js -> (job_op j, false) ∈ F \/ written m w j;
}.

Lemma written_perform m w i j :
  w.1 = m -> i = j \/ apart i j -> i = j \/ written m w j -> written m (perform (job_op i) w) j.
Proof.
  intros <- Hij Hw. unfold written in *. simpl. destruct (decide (wj_fd j = wj_fd i)) as [E|Hne]; [|rewrite update_ne by done].
  - rewrite E, update_eq. destruct Hij as [->|[?|Ha]]; [|congruence|].
    + apply mem_read_stored, length_mem_read.
    + rewrite mem_read_write_disjoint by (rewrite length_mem_read; lia). rewrite <- E. destruct Hw as [->|Hw]; [|done].
      destruct (decide (Z.to_nat (wj_size j) = 0%nat)) as [->|?]; [done|lia].
  - destruct Hw as [->|Hw]; [done|]. destruct Hij as [->|_]; done.
Qed.

Lemma under_way_progress js m F w F' w' :
  (forall i j, i ∈ js -> j ∈ js -> i = j \/ apart i j) ->
  progress (F, w) (F', w') -> under_way js m F w -> under_way js m F' w' /\ length F' = length F.
Proof.
  intros Hap Hp. remember (F, w) as x eqn:Ex. remember (F', w') as y eqn:Ey. revert F w Ex.
  induction Hp as [x|F1 op F2 w0 x Hp IH]; intros F w Ex Huw; subst; [by simplify_eq|]. injection Ex as <- <-.
  destruct (IH eq_refl _ _ eq_refl) as [Huw' Hlen]; [|split; [done|]; rewrite Hlen, !length_app; done].
  destruct Huw as [Hm Hjobs Hdone]. destruct (Hjobs op false) as (i & Hi & ->); [set_solver|]. split.
  - done.
  - intros op b Hin. apply elem_of_app in Hin as [Hin|[[= -> ->]|Hin]%elem_of_cons];
      [apply (Hjobs op b); set_solver|by exists i|apply (Hjobs op b); set_solver].
  - intros j Hj. destruct (decide (job_op j = job_op i)) as [E|Hne].
    + right. assert (j = i) as -> by (destruct i, j; unfold job_op in E; simpl in E; congruence).
      apply written_perform; [done|by left|by left].
    + destruct (Hdone j Hj) as [Hin|Hw]; [left; set_solver|right].
      apply written_perform; [done|by apply Hap|by right].
Qed.

(** The writes [P] are prepared on the ring that was ready in [s0]; before the
    first one it may still have to be set up. *)
Definition collecting s0 (P : list io_op) s : Prop :=
  (P = [] /\ s = s0) \/ ring_at Ring s0 P [] (io_data s0) s.

Lemma prepare_write_spec s0 P fd offset data size s :
  ready Ring s0 -> collecting s0 P s -> Z.of_nat (length P) < QD ->
  wp (ioring_prepare_write fd offset data size) (fun _ s' => collecting s0 (P ++ [IoWrite fd data size offset]) s') s.
Proof.
  intros Hr Hc HP. unfold ioring_prepare_write. rewrite wp_bind.
  assert (Hens : wp (ensure_ring Ring) (fun _ s' => ring_at Ring s0 P [] (io_data s0) s') s).
  { destruct Hc as [[-> ->]|Hs]; [by apply ensure_spec|].
    unfold ensure_ring. wp_norm. rewrite (ra_init _ _ _ _ _ _ Hs : uring_init s = true). simpl. by wp_norm. }
  eapply wp_mono; [exact Hens|]. intros [] s1 Hs1.
  eapply wp_mono; [by apply (prepare_spec Ring s0 P [] _ _ s1 Hs1)|]. intros [] s2 Hs2. by right.
Qed.

Lemma prepare_writes_spec js P s0 s :
  ready Ring s0 -> collecting s0 P s -> Z.of_nat (length P + length js) <= QD ->
  wp (prepare_writes js) (fun _ s' => collecting s0 (P ++ map job_op js) s') s.
Proof.
  intros Hr. revert P s. induction js as [|j js IH]; intros P s Hc Hlen; simpl in *; [rewrite app_nil_r; by wp_norm|].
  rewrite wp_bind. eapply wp_mono; [apply prepare_write_spec; [done|exact Hc|lia]|]. intros [] s1 Hs1.
  eapply wp_mono; [apply IH; [exact Hs1|rewrite length_app; simpl; lia]|]. intros [] s2 Hs2. by rewrite <- app_assoc in Hs2.
Qed.

Lemma finish_writes_spec js m n F w s0 s :
  (forall i j, i ∈ js -> j ∈ js -> i = j \/ apart i j) -> ring_at Ring s0 [] F w s -> under_way js m F w -> length F = n ->
  wp (finish_writes n) (fun _ s' => exists w', ring_at Ring s0 [] [] w' s' /\ under_way js m [] w') s.
Proof.
  intros Hap. revert F w s. induction n as [|n IH]; intros F w s Hs Huw Hlen; simpl; wp_norm.
  - destruct F; [|done]. by exists w.
  - eapply wp_mono; [apply (reap_spec Ring s0 [] F w s Hs); by destruct F|]. intros [] s1 (F1 & op & F2 & w1 & Hp & Hs1).
    destruct (under_way_progress _ _ _ _ _ _ Hap Hp Huw) as [Huw1 Hlen1]. apply (IH _ _ _ Hs1).
    + destruct Huw1 as [Hm Hjobs Hdone]. split; [done|intros o b ?; apply (Hjobs o b); set_solver|].
      intros j Hj. destruct (Hdone j Hj) as [Hin|?]; [left; set_solver|by right].
    + rewrite length_app in *. simpl in Hlen1. lia.
Qed.

Lemma submit_and_finish js s0 s :
  (forall i j, i ∈ js -> j ∈ js -> i = j \/ apart i j) -> ring_at Ring s0 (map job_op js) [] (io_data s0) s ->
  wp (ioring_submit_all_writes;; finish_writes (length js))
    (fun _ s' => exists w, ring_at Ring s0 [] [] w s' /\ w.1 = (io_data s0).1 /\ forall j, j ∈ js -> written (io_data s0).1 w j) s.
Proof.
  intros Hap Hs. rewrite wp_bind. unfold ioring_submit_all_writes.
  eapply wp_mono; [by eapply submit_ring_spec|]. intros [] s2 (F & w & Hp & Hs2). simpl in Hp.
  destruct (under_way_progress js (io_data s0).1 _ _ _ _ Hap Hp) as [Huw HF].
  - split; [done| |].
    + intros op b (o & [= -> ->] & (j & -> & Hj)%list_elem_of_fmap)%list_elem_of_fmap. by exists j.
    + intros j Hj. left. apply list_elem_of_fmap. exists (job_op j). split; [done|]. apply list_elem_of_fmap. by exists j.
  - eapply wp_mono; [eapply finish_writes_spec; [exact Hap|exact Hs2|exact Huw|by rewrite HF, !length_map]|].
    intros [] s3 (w' & Hs3 & [Hm _ Hdone]). exists w'. split; [done|]. split; [done|].
    intros j Hj. by destruct (Hdone j Hj) as [Hin%elem_of_nil|].
Qed.

(** A batch of at most 128 writes, prepared, submitted at once and then
    reaped, leaves every page on the disk, whatever the order in which the
    kernel carries them out: when the last completion was reaped, the place
    of each write in its file holds the bytes its source had, the memory and
    the other ring are as before, and nothing is outstanding.  The places of
    different writes do not overlap. *)
Theorem batch_is_written js s :
  ready Ring s -> Z.of_nat (length js) <= QD -> js <> [] ->
  (forall i j, i ∈ js -> j ∈ js -> i = j \/ apart i j) ->
  wp (write_batch js) (fun _ s' => exists w, ring_at Ring s [] [] w s' /\ w.1 = (io_data s).1 /\
       forall j, j ∈ js -> written (io_data s).1 w j) s.
Proof.
  intros Hr Hlen Hne Hap. unfold write_batch. rewrite wp_bind.
  eapply wp_mono; [apply (prepare_writes_spec js [] s s); [done|by left|done]|]. intros [] s1 [[E _]|Hs1]; [by destruct js|].
  by apply submit_and_finish.
Qed.

(** What was written is read back: after [ioring_write_store], the
    synchronous [ioring_read_store] and the asynchronous [ioring_start_read]
    and [ioring_finish_read], the latter on the thread's other ring, put the
    bytes the source had into their buffers. *)
Theorem uring_write_read fd offset data buffer size s :
  ready Ring s -> ready ReadRing s ->
  let bytes := mem_read (io_data s).1 data (Z.to_nat size) in
  wp (ioring_write_store fd offset data size;; ioring_read_store fd offset buffer size)
    (fun _ s' => mem_read (io_data s').1 buffer (Z.to_nat size) = bytes) s /\
  wp (ioring_write_store fd offset data size;; ioring_start_read fd offset buffer size;;
      ioring_finish_read fd offset buffer size)
    (fun _ s' => mem_read (io_data s').1 buffer (Z.to_nat size) = bytes) s.
Proof.
  intros Hr Hrr bytes.
  assert (Hrw : forall k s0 s1, ring_at k s0 [] [] (perform (IoRead fd buffer size offset)
      (perform (IoWrite fd data size offset) (io_data s))) s1 ->
    mem_read (io_data s1).1 buffer (Z.to_nat size) = bytes).
  { intros k s0 s1 [_ _ -> _]. simpl. rewrite update_eq.
    rewrite !mem_read_stored by apply length_mem_read. done. }
  split; rewrite wp_bind; (eapply wp_mono; [by apply write_store_spec|]); intros [] s1 Hs1.
  - eapply wp_mono; [apply read_store_spec; by eapply ready_again|]. intros [] s2 Hs2.
    rewrite (ra_data _ _ _ _ _ _ Hs1) in Hs2. by eapply Hrw.
  - eapply wp_mono; [apply async_read_spec; by eapply (ready_other Ring)|]. intros [] s2 Hs2.
    rewrite (ra_data _ _ _ _ _ _ Hs1) in Hs2. by eapply Hrw.
Qed.
End laws.

(** ** A concrete ring *)

(** Whether the ring is set up, the prepared entries, and the outstanding
    operations with what was carried out.  It carries an operation out when
    its completion is waited for, the oldest first. *)
Record fifo_ring : Type := mk_fifo_ring {
  fr_up : bool;
  fr_prepared : list io_op;
  fr_flying : list (io_op * bool);
}.

#[export] Instance fifo_ring_ops : IoUring fifo_ring := {|
  io_uring_queue_init n poll := fun r => Done (0, mk_fifo_ring true [] []);
  io_uring_get_sqe := fun r => Done (if (length (fr_prepared r) <? Z.to_nat QD)%nat then Some 1 else None, r);
  io_uring_prep sqe op := fun r => Done (tt, mk_fifo_ring (fr_up r) (fr_prepared r ++ [op]) (fr_flying r));
  io_uring_sqe_set_data sqe d := fun r => Done (tt, r);
  io_uring_submit := fun x =>
    Done (Z.of_nat (length (fr_prepared x.1)),
          (mk_fifo_ring (fr_up x.1) [] (fr_flying x.1 ++ map (fun op => (op, false)) (fr_prepared x.1)), x.2));
  io_uring_wait_cqe := fun x =>
    match fr_flying x.1 with
    | [] => Fault Spinning
    | (op, b) :: F => Done (0, (mk_fifo_ring (fr_up x.1) (fr_prepared x.1) F, if b then x.2 else perform op x.2))
    end;
  io_uring_cqe_seen := fun r => Done (tt, r);
|}.

#[export] Instance fifo_ring_laws : IoUringLaws fifo_ring.
Proof.
  refine {| uring r P F := fr_prepared r = P /\ fr_flying r = F;
            taken r sqe P F := fr_prepared r = P /\ fr_flying r = F;
            reaped r P F := fr_prepared r = P /\ fr_flying r = F |}; unfold wp; simpl.
  - intros r P F [<- <-] HP. exists 1. split; [|done]. destruct (Nat.ltb_spec (length (fr_prepared r)) (Z.to_nat QD)); [done|lia].
  - by intros r sqe P F op [<- <-].
  - by intros r sqe P F d [<- <-].
  - intros r P F w [<- <-]. split; [done|]. eexists. split; [apply progress_none|done].
  - intros r P F w [<- <-] HF. destruct (fr_flying r) as [|[op b] F]; [done|]. split; [done|]. exists [], op, F.
    split; [|done]. destruct b; [apply progress_none|]. apply (progress_step []). apply progress_none.
  - by intros r P F [<- <-].
Defined.

Definition new_ring : fifo_ring := mk_fifo_ring false [] [].

(** A thread that used neither ring, with the memory [m] and one file. *)
Definition new_thread (m f : mem) : io_state fifo_ring := mk_io new_ring new_ring false false (m, fun _ => f).

Lemma new_thread_ready k m f : ready k (new_thread m f).
Proof. by destruct k; intros poll. Qed.

(** C33: Reads that nobody waits for.  [core_try_prefetch] prepares and
    submits its reads and never reaps their completions.  On the concrete
    ring, which keeps every promise above, the buffer of such a read is
    unchanged when [ioring_submit_all_reads] returns, the moment its bytes
    are mapped; and the next [ioring_finish_read] of the thread takes the
    completion of the abandoned read for its own: it returns while its
    buffer is unchanged and its read is still outstanding. *)
Theorem abandoned_read_is_taken_for_another fd o1 b1 o2 b2 n m f :
  b1 + Z.of_nat (Z.to_nat n) <= b2 \/ b2 + Z.of_nat (Z.to_nat n) <= b1 ->
  wp (ioring_prepare_read fd o1 b1 n;; ioring_submit_all_reads)
    (fun _ s => mem_read (io_data s).1 b1 (Z.to_nat n) = mem_read m b1 (Z.to_nat n)) (new_thread m f) /\
  wp (ioring_prepare_read fd o1 b1 n;; ioring_submit_all_reads;;
      ioring_start_read fd o2 b2 n;; ioring_finish_read fd o2 b2 n)
    (fun _ s => mem_read (io_data s).1 b2 (Z.to_nat n) = mem_read m b2 (Z.to_nat n) /\
       fr_flying (io_read_ring s) = [(IoRead fd b2 n o2, false)]) (new_thread m f).
Proof.
  intros Hap. split; [done|]. unfold wp. simpl. split; [|done].
  apply mem_read_write_disjoint. rewrite length_mem_read. lia.
Qed.

(** ** Witnesses *)

Definition ring_mem : mem := fun a => if a =? 4100 then Byte.x2a else if a =? 8196 then Byte.x17 else Byte.x00.
Definition no_file : mem := fun _ => Byte.x00.
Definition ring_jobs : list write_job := [mk_write_job 3 0 4096 16; mk_write_job 3 16 8192 16].

Lemma batch_is_written_witness :
  wp (write_batch ring_jobs) (fun _ s => exists w, io_data s = w /\
    nth 4 (mem_read (w.2 3) 0 16) Byte.x00 = Byte.x2a /\ nth 4 (mem_read (w.2 3) 16 16) Byte.x00 = Byte.x17)
    (new_thread ring_mem no_file).
Proof.
  eapply wp_mono.
  - apply (batch_is_written ring_jobs (new_thread ring_mem no_file)).
    + apply new_thread_ready.
    + by vm_compute.
    + done.
    + intros i j Hi Hj. unfold ring_jobs in Hi, Hj. rewrite !elem_of_cons, elem_of_nil in Hi, Hj.
      destruct_or! Hi; destruct_or! Hj; subst; (by left) || (right; right; vm_compute; intuition congruence).
  - intros [] s (w & [_ _ Hw _] & _ & Hj). exists w. split; [done|].
    pose proof (Hj (mk_write_job 3 0 4096 16) ltac:(by left)) as H1. pose proof (Hj (mk_write_job 3 16 8192 16) ltac:(by right; left)) as H2.
    change (mem_read (w.2 3) 0 16 = mem_read ring_mem 4096 16) in H1. change (mem_read (w.2 3) 16 16 = mem_read ring_mem 8192 16) in H2.
    rewrite H1, H2. by vm_compute.
Defined.

Lemma uring_write_read_witness :
  wp (ioring_write_store 3 512 4096 16;; ioring_start_read 3 512 65536 16;; ioring_finish_read 3 512 65536 16)
    (fun _ s => nth 4 (mem_read (io_data s).1 65536 16) Byte.x00 = Byte.x2a) (new_thread ring_mem no_file).
Proof.
  destruct (uring_write_read 3 512 4096 65536 16 (new_thread ring_mem no_file) (new_thread_ready _ _ _) (new_thread_ready _ _ _))
    as [_ H].
  eapply wp_mono; [exact H|]. intros [] s E. change (Z.to_nat 16) with 16%nat in E. rewrite E. by vm_compute.
Defined.

Lemma abandoned_read_is_taken_for_another_witness :
  wp (ioring_prepare_read 3 0 65536 16;; ioring_submit_all_reads;; ioring_start_read 3 4096 131072 16;;
      ioring_finish_read 3 4096 131072 16)
    (fun _ s => nth 4 (mem_read (io_data s).1 131072 16) Byte.x00 = Byte.x00) (new_thread no_file (fun _ => Byte.x2a)).
Proof.
  destruct (abandoned_read_is_taken_for_another 3 0 65536 4096 131072 16 no_file (fun _ => Byte.x2a) ltac:(left; by vm_compute))
    as [_ H].
  eapply wp_mono; [exact H|]. intros [] s [E _]. change (Z.to_nat 16) with 16%nat in E. rewrite E. by vm_compute.
Defined.
