(* ===== verification/UringCore.v ===== *)
(** The io_uring build of [core.c]: the migration of one page, with the rings
    of Uring.v in place of the storage manager, one page or a batch, and the
    sequential prefetch.  The two builds differ only in the calls that move
    the bytes. *)

From S2P Require Import Prelude UserPage AddressTranslation Fifo RdmaAlloc RdmaSim StorageRdma StorageSpec.
From S2P Require Import Machine Policy Migrate DiskLinux Core Accounting PolicySpec SwapSpec WindowSpec Uring.

Local Open Scope Z_scope.

(** ** A process of this build *)

(** The paging side, a thread's rings, and the bytes of the files. *)
Record uring_process (K R : Type) : Type := mk_up {
  up_machine : machine K;
  up_ring : R;
  up_read_ring : R;
  up_init : bool;
  up_read_init : bool;
  up_files : Z -> mem;
}.
Arguments mk_up {K R}.
Arguments up_machine {K R}.
Arguments up_ring {K R}.
Arguments up_read_ring {K R}.
Arguments up_init {K R}.
Arguments up_read_init {K R}.
Arguments up_files {K R}.

Section build.
Context {K : Type} {HK : Kernel K} {R : Type} {HU : IoUring R}.
Notation process := (uring_process K R).

Definition set_machine (x : machine K) (s : process) : process :=
  mk_up x (up_ring s) (up_read_ring s) (up_init s) (up_read_init s) (up_files s).

(** What the functions of [storage_iouring.c] work on: the rings, and the
    memory of the process with the files. *)
Definition io_of (s : process) : io_state R :=
  mk_io (up_ring s) (up_read_ring s) (up_init s) (up_read_init s) (the_mem (up_machine s), up_files s).
Definition set_io (x : io_state R) (s : process) : process :=
  mk_up (set_the_mem (io_data x).1 (up_machine s)) (io_ring x) (io_read_ring x) (uring_init x) (uring_read_init x) (io_data x).2.

Definition core {A} (m : M (machine K) A) : M process A := zoom (Lens up_machine set_machine) m.
Definition io {A} (m : M (io_state R) A) : M process A := zoom (Lens io_of set_io) m.

(** ** Moving a page *)

Definition core_migrate_up_async_start (page : ptr) : M process unit :=
  pg ← core (page_get page);
  c_assert (negb (in_dram pg));;
  core ensure_buffer;;
  pagesize ← core (pagesize_of pg);
  let disk_addr_offset := virtual_offset pg in
  s ← core get;
  c_assert (disk_addr_offset <? vars s disksize);;
  c_assert (u64 (disk_addr_offset + pagesize) <=? vars s disksize);;
  io (ioring_start_read (vars s diskfd) disk_addr_offset (vars s buffer_space) pagesize).

Definition core_migrate_up_async_finish (page : ptr) (dram_offset : Z) : M process unit :=
  pg ← core (page_get page);
  c_assert (negb (in_dram pg));;
  b ← core (get_flag buffer_allocated);
  c_assert b;;
  pagesize ← core (pagesize_of pg);
  let disk_addr_offset := virtual_offset pg in
  s ← core get;
  c_assert (disk_addr_offset <? vars s disksize);;
  c_assert (u64 (disk_addr_offset + pagesize) <=? vars s disksize);;
  c_assert (dram_offset <? vars s dramsize);;
  c_assert (u64 (dram_offset + pagesize) <=? vars s dramsize);;
  io (ioring_finish_read (vars s diskfd) disk_addr_offset (vars s buffer_space) pagesize);;
  core (copy_in (va pg) (vars s buffer_space) pagesize);;
  c_assert (va pg mod PAGE_SIZE =? 0);;
  core (add_var migrations_up 1);;
  core (page_set page (set_virtual_offset dram_offset));;
  core (page_set page (set_in_dram true));;
  core (add_var bytes_migrated pagesize).

Definition extmem_migrate_updisk (page : ptr) (dram_offset : Z) : M process unit :=
  pg ← core (page_get page);
  c_assert (negb (in_dram pg));;
  core ensure_buffer;;
  pagesize ← core (pagesize_of pg);
  let disk_addr_offset := virtual_offset pg in
  s ← core get;
  c_assert (disk_addr_offset <? vars s disksize);;
  c_assert (dram_offset <? vars s dramsize);;
  io (ioring_read_store (vars s diskfd) disk_addr_offset (vars s buffer_space) pagesize);;
  core (copy_in (va pg) (vars s buffer_space) pagesize);;
  c_assert (va pg mod PAGE_SIZE =? 0);;
  core (add_var migrations_up 1);;
  core (page_set page (set_virtual_offset dram_offset));;
  core (page_set page (set_in_dram true));;
  core (add_var bytes_migrated pagesize).

Definition extmem_migrate_downdisk (page : ptr) (disk_offset : Z) (need_wp writeback : bool) : M process unit :=
  core (page_set page (set_migrating true));;
  pg ← core (page_get page);
  c_assert (in_dram pg);;
  pagesize ← core (pagesize_of pg);
  let old_addr_offset := virtual_offset pg in
  s ← core get;
  c_assert (old_addr_offset <? vars s dramsize);;
  c_assert (u64 (old_addr_offset + pagesize) <=? vars s dramsize);;
  c_assert (disk_offset <? vars s disksize);;
  c_assert (u64 (disk_offset + pagesize) <=? vars s disksize);;
  when writeback (io (ioring_write_store (vars s diskfd) disk_offset (va pg) pagesize));;
  ok ← core (kern (madvise_dontneed (va pg) pagesize));
  c_assert ok;;
  core (add_var migrations_down 1);;
  core (page_set page (set_virtual_offset disk_offset));;
  core (page_set page (set_in_dram false));;
  core (add_var bytes_migrated pagesize);;
  pg ← core (page_get page);
  c_assert (negb (swapped_out pg));;
  core (page_set page (set_swapped_out true));;
  pg ← core (page_get page);
  c_assert (migrating pg).

(** The first loop: the pages to be written are prepared and counted. *)
Fixpoint vector_prepare (jobs : list job) (nr_submitted : nat) : M process nat :=
  match jobs with
  | [] => mret nr_submitted
  | j :: jobs =>
      pg ← core (page_get (j_page j));
      c_assert (in_dram pg);;
      if j_writeback j
      then
        dpg ← core (page_get (j_diskpage j));
        fd ← core (get_var diskfd);
        io (ioring_prepare_write fd (virtual_offset dpg) (va pg) PAGE_SIZE);;
        vector_prepare jobs (S nr_submitted)
      else vector_prepare jobs nr_submitted
  end.

Definition extmem_migrate_downdisk_vector (jobs : list job) : M process unit :=
  nr_submitted ← vector_prepare jobs 0;
  when (0 <? nr_submitted)%nat (io (ioring_submit_all_writes;; finish_writes nr_submitted));;
  core (vector_unmap jobs);;
  core (vector_mark jobs).

(** ** The sequential prefetch *)

Section prefetch.
Context {Pol : Policy K}.

(** The second loop: a read into the prefetch buffer for each page. *)
Fixpoint prefetch_prepare (buffer : Z) (jobs : list (ptr * ptr)) : M process unit :=
  match jobs with
  | [] => mret tt
  | (page, _) :: jobs =>
      pg ← core (page_get page);
      fd ← core (get_var diskfd);
      io (ioring_prepare_read fd (virtual_offset pg) buffer PAGE_SIZE);;
      prefetch_prepare (buffer + PAGE_SIZE) jobs
  end.

(** The reads are submitted and not waited for. *)
Definition core_try_prefetch (base_boundry : Z) : M process Z :=
  c_assert (negb (base_boundry =? 0));;
  jobs ← core (prefetch_collect base_boundry (Z.to_nat CORE_PREFETCH_RATE));
  core ensure_prefetch_buffer;;
  buffer ← core (get_var prefetch_buffer);
  prefetch_prepare buffer jobs;;
  when (0 <? length jobs)%nat (io ioring_submit_all_reads);;
  core (prefetch_map buffer jobs);;
  mret (Z.of_nat (length jobs)).
End prefetch.
End build.

(** ** A page survives *)

Section survives.
Context {K : Type} {HK : Kernel K} {HL : KernelLaws K} {R : Type} {HU : IoUring R} {HUL : IoUringLaws R}.
Notation process := (uring_process K R).
Implicit Types s : process.

(** The rule of each side, on a process that was taken apart. *)
Lemma wp_core {A} (m : M (machine K) A) (Q : A -> process -> Prop) k r rr i ri f :
  wp m (fun a x => Q a (mk_up x r rr i ri f)) k -> wp (core m) Q (mk_up k r rr i ri f).
Proof. intros Hm. apply (wp_zoom (Lens up_machine set_machine)). exact Hm. Qed.

Lemma wp_io {A} (m : M (io_state R) A) (P : A -> io_state R -> Prop) (Q : A -> process -> Prop) k r rr i ri f :
  wp m P (mk_io r rr i ri (the_mem k, f)) ->
  (forall a r' rr' i' ri' y f', P a (mk_io r' rr' i' ri' (y, f')) -> Q a (mk_up (set_the_mem y k) r' rr' i' ri' f')) ->
  wp (io m) Q (mk_up k r rr i ri f).
Proof.
  intros Hm HQ. apply (wp_zoom (Lens io_of set_io)). eapply wp_mono; [exact Hm|]. intros a [r' rr' i' ri' [y f']] Hx. by apply HQ.
Qed.

(** Both rings of the thread can be used. *)
Definition rings_ready s : Prop := ready Ring (io_of s) /\ ready ReadRing (io_of s).

(** The bytes of the page-sized slot at [o] in the swap file. *)
Definition slot_bytes s (o : Z) : list byte := mem_read (up_files s (vars (up_machine s) diskfd)) o page_bytes.

Lemma downdisk_spec p pg o s :
  evictable (up_machine s) p pg o -> rings_ready s ->
  wp (extmem_migrate_downdisk p o false true)
     (fun _ s' => slot_bytes s' o = mem_read (the_mem (up_machine s)) (va pg) page_bytes /\
        pages (m_fifo (up_machine s')) !! p = Some (evicted_page o pg) /\ missing (m_kern (up_machine s')) (va pg) /\
        flags (up_machine s') = flags (up_machine s) /\
        (forall x, x <> migrations_down -> x <> bytes_migrated -> vars (up_machine s') x = vars (up_machine s) x) /\ rings_ready s' /\
        (forall a, outside (va pg) PAGE_SIZE a -> the_mem (up_machine s') a = the_mem (up_machine s) a)) s.
Proof.
  destruct s as [k r rr i ri f]. unfold slot_bytes, rings_ready. simpl up_machine. simpl up_files.
  intros [Hp (Hd & Hso & Hpt) (Hf1 & Hf2 & Hf3) [Ho1 Ho2] (Hv1 & Hv2 & Hreg)] [Hr1 Hr2].
  assert (HP : PAGE_SIZE = 4096) by done.
  unfold extmem_migrate_downdisk. wp_norm. apply wp_core. eapply wp_page_assign; [exact Hp|]. wp_norm.
  apply wp_core. eapply wp_page_get; [apply lookup_insert_eq|]. wp_norm. apply wp_assert; [done|]. wp_norm.
  apply wp_core. apply wp_pagesize_of; [exact Hpt|]. wp_norm. apply wp_core. wp_norm. unfold in_disk in Ho1. simpl virtual_offset. simpl vars.
  do 4 (apply wp_assert; [rewrite ?u64_small by (unfold in_u64; lia); lia|]; wp_norm).
  unfold when. wp_norm. eapply wp_io; [apply write_store_spec; exact Hr1|]. intros [] r' rr' i' ri' y f' Hx. wp_norm.
  apply wp_core. eapply wp_kern; [apply madvise_law|]. intros ok [kk m] (Hok & Hrest & Hmiss & _ & _). simpl in Hok, Hrest, Hmiss.
  specialize (Hok Hreg). subst ok. specialize (Hmiss eq_refl Hreg). wp_norm. apply wp_assert; [done|]. wp_norm. unfold add_var.
  apply wp_core. wp_norm. apply wp_core. eapply wp_page_assign; [apply lookup_insert_eq|]. simpl pages. simpl lists. rewrite insert_insert_eq. wp_norm.
  apply wp_core. eapply wp_page_assign; [apply lookup_insert_eq|]. simpl pages. simpl lists. rewrite insert_insert_eq. wp_norm.
  apply wp_core. wp_norm. apply wp_core. eapply wp_page_get; [apply lookup_insert_eq|]. wp_norm. apply wp_assert; [simpl; by rewrite Hso|]. wp_norm.
  apply wp_core. eapply wp_page_assign; [apply lookup_insert_eq|]. simpl pages. simpl lists. rewrite insert_insert_eq. wp_norm.
  apply wp_core. eapply wp_page_get; [apply lookup_insert_eq|]. wp_norm. apply wp_assert; [done|].
  split; [|split; [apply lookup_insert_eq|]; split; [exact Hmiss|]; split; [done|]; split; [intros z Hz1 Hz2; simpl; by rewrite !update_ne|]; split].
  - pose proof (ra_data _ _ _ _ _ _ Hx) as E. injection E as _ E. change (mem_read (f' (vars k diskfd)) o page_bytes = mem_read (the_mem k) (va pg) page_bytes).
    rewrite E, update_eq. change page_bytes with (Z.to_nat PAGE_SIZE). apply mem_read_stored, length_mem_read.
  - split; [exact (ready_again _ _ _ _ Hx)|exact (ready_other _ _ _ _ _ _ Hx Hr2)].
  - pose proof (ra_data _ _ _ _ _ _ Hx) as E. injection E as E _. intros a Ha. change (m a = the_mem k a). rewrite Hrest by done.
    change (y a = the_mem k a). by rewrite E.
Qed.

(** What both swap-ins do once the transfer page at [b] is filled. *)
Definition filled (k : machine K) p pg o b (k' : machine K) : Prop :=
  the_mem k' = mem_write (the_mem k) (va pg) (mem_read (the_mem k) b page_bytes) /\
  pages (m_fifo k') !! p = Some (loaded_page o pg) /\ ~ missing (m_kern k') (va pg) /\ vars k' diskfd = vars k diskfd.

Lemma map_filled p pg o b k r rr i ri f (Q : unit -> process -> Prop) :
  pages (m_fifo k) !! p = Some pg -> missing (m_kern k) (va pg) -> va pg mod PAGE_SIZE = 0 ->
  (forall k', filled k p pg o b k' -> Q tt (mk_up k' r rr i ri f)) ->
  wp (core (copy_in (va pg) b PAGE_SIZE);; c_assert (va pg mod PAGE_SIZE =? 0);; core (add_var migrations_up 1);;
      core (page_set p (set_virtual_offset o));; core (page_set p (set_in_dram true));; core (add_var bytes_migrated PAGE_SIZE))
    Q (mk_up k r rr i ri f).
Proof.
  intros Hp Hmiss Hv HQ. wp_norm. apply wp_core. apply wp_copy_in; [exact Hmiss|]. intros kk Hkk. wp_norm. apply wp_assert; [lia|].
  wp_norm. unfold add_var. apply wp_core. wp_norm. apply wp_core. eapply wp_page_assign; [exact Hp|]. simpl pages. simpl lists. wp_norm.
  apply wp_core. eapply wp_page_assign; [apply lookup_insert_eq|]. simpl pages. simpl lists. rewrite insert_insert_eq. wp_norm.
  apply wp_core. wp_norm. apply HQ. split; [done|]. split; [apply lookup_insert_eq|]. split; [|done]. rewrite Hkk. tauto.
Qed.

(** The page at [va pg] holds what its slot held in [s]. *)
Definition swapped_in s p pg o s' : Prop :=
  mem_read (the_mem (up_machine s')) (va pg) page_bytes = slot_bytes s (virtual_offset pg) /\
  pages (m_fifo (up_machine s')) !! p = Some (loaded_page o pg) /\ ~ missing (m_kern (up_machine s')) (va pg) /\ rings_ready s' /\
  slot_bytes s' (virtual_offset pg) = slot_bytes s (virtual_offset pg) /\
  (forall a, outside (va pg) PAGE_SIZE a -> outside (vars (up_machine s) buffer_space) PAGE_SIZE a ->
     the_mem (up_machine s') a = the_mem (up_machine s) a).

(** The slot was read into the transfer page, and the page was mapped. *)
Lemma read_and_mapped which k1 s p pg o b k' r rr i ri f :
  rings_ready s -> b = vars (up_machine s) buffer_space -> vars k1 diskfd = vars (up_machine s) diskfd ->
  ring_at which (io_of s) [] []
    (perform (IoRead (vars (up_machine s) diskfd) b PAGE_SIZE (virtual_offset pg)) (io_data (io_of s))) (mk_io r rr i ri (the_mem k1, f)) ->
  filled k1 p pg o b k' -> swapped_in s p pg o (mk_up k' r rr i ri f).
Proof.
  intros [Hr1 Hr2] -> Hfd Hx (Hm & Hp & Hmiss & Hfd'). pose proof (ra_data _ _ _ _ _ _ Hx) as E. injection E as Ey Ef. simpl in Ey, Ef.
  change (Z.to_nat PAGE_SIZE) with page_bytes in Ey. unfold swapped_in, slot_bytes. simpl up_machine. simpl up_files.
  assert (Hb2 : mem_read (the_mem k1) (vars (up_machine s) buffer_space) page_bytes =
      mem_read (up_files s (vars (up_machine s) diskfd)) (virtual_offset pg) page_bytes).
  { rewrite Ey. apply mem_read_copy, length_mem_read. }
  split; [rewrite <- Hb2, Hm; apply mem_read_copy, length_mem_read|]. split; [done|]. split; [done|].
  split; [|split; [by rewrite Ef, Hfd', Hfd|]].
  - pose proof (ready_again _ _ _ _ Hx) as Ha. pose proof (ready_other _ _ _ _ _ _ Hx) as Ho. destruct which; split; (exact Ha) || by apply Ho.
  - intros a Ha1 Ha2. rewrite Hm, (mem_write_outside _ _ _ _ PAGE_SIZE) by (by rewrite ?length_mem_read).
    rewrite Ey. by rewrite (mem_write_outside _ _ _ _ PAGE_SIZE) by (by rewrite ?length_mem_read).
Qed.

(** The synchronous swap-in. *)
Lemma updisk_spec p pg o s :
  loadable (up_machine s) p pg o -> rings_ready s -> wp (extmem_migrate_updisk p o) (fun _ s' => swapped_in s p pg o s') s.
Proof.
  intros [Hp (Hd & Hpt) (Ho1 & Ho2 & Ho3) (Hf1 & Hf2 & Hf3) (Hv & Hmiss) (Hb & Hbuf)] Hr.
  assert (HP : PAGE_SIZE = 4096) by done. unfold extmem_migrate_updisk, get_flag. wp_norm.
  destruct s as [k r rr i ri f]. simpl up_machine in *.
  apply wp_core. eapply wp_page_get; [exact Hp|]. wp_norm. apply wp_assert; [by rewrite Hd|]. wp_norm.
  apply wp_core. apply wp_ensure_buffer; [done|]. wp_norm. apply wp_core. apply wp_pagesize_of; [done|]. wp_norm. apply wp_core. wp_norm.
  do 2 (apply wp_assert; [lia|]; wp_norm).
  eapply wp_io; [apply read_store_spec, Hr|]. intros [] r2 rr2 i2 ri2 y2 f2 Hx.
  apply map_filled; [done..|]. intros k' Hk'. eapply (read_and_mapped Ring (set_the_mem y2 k)); [exact Hr|done|done|exact Hx|exact Hk'].
Qed.

(** The asynchronous swap-in. *)
Lemma async_swapin_spec p pg o s :
  loadable (up_machine s) p pg o -> rings_ready s ->
  wp (core_migrate_up_async_start p;; core_migrate_up_async_finish p o) (fun _ s' => swapped_in s p pg o s') s.
Proof.
  intros [Hp (Hd & Hpt) (Ho1 & Ho2 & Ho3) (Hf1 & Hf2 & Hf3) (Hv & Hmiss) (Hb & Hbuf)] Hr.
  assert (HP : PAGE_SIZE = 4096) by done. unfold core_migrate_up_async_start, core_migrate_up_async_finish, get_flag. wp_norm.
  destruct s as [k r rr i ri f]. simpl up_machine in *.
  apply wp_core. eapply wp_page_get; [exact Hp|]. wp_norm. apply wp_assert; [by rewrite Hd|]. wp_norm.
  apply wp_core. apply wp_ensure_buffer; [done|]. wp_norm. apply wp_core. apply wp_pagesize_of; [done|]. wp_norm. apply wp_core. wp_norm.
  do 2 (apply wp_assert; [rewrite ?u64_small by (unfold in_u64; lia); lia|]; wp_norm).
  eapply wp_io; [apply start_read_spec, Hr|]. intros [] r' rr' i' ri' y f' Hfly. wp_norm.
  apply wp_core. eapply wp_page_get; [exact Hp|]. wp_norm. apply wp_assert; [by rewrite Hd|]. wp_norm.
  apply wp_core. wp_norm. apply wp_assert; [done|]. wp_norm. apply wp_core. apply wp_pagesize_of; [done|]. wp_norm. apply wp_core. wp_norm.
  do 4 (apply wp_assert; [rewrite ?u64_small by (unfold in_u64; simpl; lia); simpl; lia|]; wp_norm).
  eapply wp_io; [apply finish_read_spec; exact Hfly|]. intros [] r2 rr2 i2 ri2 y2 f2 Hx.
  apply map_filled; [done..|]. intros k' Hk'. eapply (read_and_mapped ReadRing (set_the_mem y2 (set_the_mem y k))); [exact Hr|done|done|exact Hx|exact Hk'].
Qed.

(** What a swap-in leaves of a page that was evicted to [o]. *)
Definition survived s p pg o roff s' : Prop :=
  let bytes := mem_read (the_mem (up_machine s)) (va pg) page_bytes in
  mem_read (the_mem (up_machine s')) (va pg) page_bytes = bytes /\ slot_bytes s' o = bytes /\
  pages (m_fifo (up_machine s')) !! p = Some (loaded_page roff (evicted_page o pg)) /\
  ~ missing (m_kern (up_machine s')) (va pg) /\ rings_ready s' /\
  (forall a, outside (va pg) PAGE_SIZE a -> outside (vars (up_machine s) buffer_space) PAGE_SIZE a ->
     the_mem (up_machine s') a = the_mem (up_machine s) a).

Lemma evict_then (m : M process unit) p pg o roff s :
  (forall s1, loadable (up_machine s1) p (evicted_page o pg) roff -> rings_ready s1 ->
     wp m (fun _ s' => swapped_in s1 p (evicted_page o pg) roff s') s1) ->
  evictable (up_machine s) p pg o -> rings_ready s ->
  flags (up_machine s) buffer_allocated = true -> vars (up_machine s) buffer_space <> 0 ->
  0 <= roff /\ roff + PAGE_SIZE <= vars (up_machine s) dramsize -> vars (up_machine s) disksize < 2 ^ 64 ->
  wp (extmem_migrate_downdisk p o false true;; m) (fun _ s' => survived s p pg o roff s') s.
Proof.
  intros Hin Hev Hr Hb Hbuf Hroff Hdisk. rewrite wp_bind.
  eapply wp_mono; [by apply downdisk_spec|]. intros [] s1 (Hs1 & Hp1 & Hm1 & Hf1 & Hv1 & Hr1 & Hrest1).
  destruct Hev as [_ (_ & _ & Hpt) (_ & _ & Hram) [[Ho0 _] Ho] (_ & Hva & _)].
  eapply wp_mono; [apply Hin; [|done]|].
  - split; [exact Hp1|by split| | |by split|].
    + rewrite Hv1 by done. change (virtual_offset (evicted_page o pg)) with o. split; [exact Ho0|]. by split.
    + rewrite Hv1 by done. destruct Hroff. split; [assumption|]. split; assumption.
    + rewrite Hf1, Hv1 by done. by split.
  - intros [] s2 (Hb2 & Hp2 & Hm2 & Hr2 & Hs2 & Hrest2). rewrite Hv1 in Hrest2 by done.
    change (virtual_offset (evicted_page o pg)) with o in *. change (va (evicted_page o pg)) with (va pg) in *.
    split; [by rewrite Hb2|]. split; [by rewrite Hs2|]. split_and!; [done..|]. intros a Ha1 Ha2. by rewrite Hrest2, Hrest1.
Qed.

(** C26: A page survives its eviction in the io_uring build, with nothing
    lost: [extmem_migrate_downdisk] writes its bytes to its slot of the swap
    file with the one ring of the thread, and both the synchronous
    [extmem_migrate_updisk] and the asynchronous pair
    [core_migrate_up_async_start] and [core_migrate_up_async_finish], on the
    other ring, read them back, whenever the kernel carries the requests out
    between their submission and their completion.  The page is mapped with
    exactly the bytes it had, its descriptor names the new frame, the slot
    keeps the copy, no other memory than the transfer page changed, and both
    rings are idle again. *)
Theorem uring_page_survives p pg o roff s :
  evictable (up_machine s) p pg o -> rings_ready s ->
  flags (up_machine s) buffer_allocated = true -> vars (up_machine s) buffer_space <> 0 ->
  0 <= roff /\ roff + PAGE_SIZE <= vars (up_machine s) dramsize -> vars (up_machine s) disksize < 2 ^ 64 ->
  wp (extmem_migrate_downdisk p o false true;; extmem_migrate_updisk p roff) (fun _ s' => survived s p pg o roff s') s /\
  wp (extmem_migrate_downdisk p o false true;; core_migrate_up_async_start p;; core_migrate_up_async_finish p roff)
     (fun _ s' => survived s p pg o roff s') s.
Proof.
  intros. split; apply evict_then; try done; intros s1 ? ?; [by apply updisk_spec|by apply async_swapin_spec].
Qed.
(** ** A batch of evictions *)

(** The address and the slot of a job. *)
Definition job_va (k : machine K) (j : job) : Z := va (default page0 (pages (m_fifo k) !! j_page j)).
Definition job_slot (k : machine K) (j : job) : Z := virtual_offset (default page0 (pages (m_fifo k) !! j_diskpage j)).

(** The write of a job, and those of a batch. *)
Definition write_of (k : machine K) (j : job) : write_job := mk_write_job (vars k diskfd) (job_slot k j) (job_va k j) PAGE_SIZE.
Definition writes (k : machine K) (jobs : list job) : list write_job := write_of k <$> List.filter j_writeback jobs.

(** A job of the batch: its page is in memory, claimed by the policy, under
    userfaultfd, and has a descriptor for its slot. *)
Record evicting (k : machine K) (j : job) : Prop := mk_evicting {
  eg_page : exists pg, pages (m_fifo k) !! j_page j = Some pg /\ in_dram pg = true /\ swapped_out pg = false /\ migrating pg = true;
  eg_slot : is_Some (pages (m_fifo k) !! j_diskpage j);
  eg_va : registered (m_kern k) (job_va k j);
}.

Lemma set_the_mem_id (k : machine K) : set_the_mem (the_mem k) k = k.
Proof. destruct k as [[sys ? ? ? ?] ? ? ? ? ? ? ?]. destruct sys as [? ? ? ? [] ?]. done. Qed.

Lemma collecting_data (s0 : io_state R) P (x : io_state R) : collecting s0 P x -> io_data x = io_data s0.
Proof. by intros [[_ ->]|[]]. Qed.

Lemma vector_prepare_spec jobs n P (s0 : io_state R) s :
  (forall j, j ∈ jobs -> evicting (up_machine s) j) -> ready Ring s0 -> collecting s0 P (io_of s) ->
  Z.of_nat (length P + length jobs) <= QD ->
  wp (vector_prepare jobs n) (fun n' s' => n' = (n + length (writes (up_machine s) jobs))%nat /\ up_machine s' = up_machine s /\
        collecting s0 (P ++ map job_op (writes (up_machine s) jobs)) (io_of s')) s.
Proof.
  revert n P s. induction jobs as [|j jobs IH]; intros n P [k r rr i ri f] Hj Hr Hc Hlen; simpl vector_prepare; simpl length in Hlen.
  { wp_norm. rewrite app_nil_r. split; [simpl; lia|done]. }
  destruct (Hj j ltac:(by left)) as [(pg & Hp & Hd & _) [dpg Hdp] _]. simpl up_machine in *. wp_norm.
  apply wp_core. eapply wp_page_get; [exact Hp|]. wp_norm. apply wp_assert; [done|].
  unfold writes. simpl List.filter. destruct (j_writeback j) eqn:Hw; [|apply IH; [set_solver|done|done|lia]].
  wp_norm. apply wp_core. eapply wp_page_get; [exact Hdp|]. wp_norm. unfold get_var. apply wp_core. wp_norm.
  eapply wp_io; [apply prepare_write_spec; [exact Hr|exact Hc|lia]|]. intros [] r' rr' i' ri' y f' Hc'.
  assert (Ey : y = the_mem k).
  { pose proof (collecting_data _ _ _ Hc) as E1. pose proof (collecting_data _ _ _ Hc') as E2. simpl in E1, E2. congruence. }
  subst y. rewrite set_the_mem_id.
  eapply wp_mono; [apply IH; [set_solver|exact Hr|exact Hc'|rewrite length_app; simpl; lia]|].
  intros n' s' (-> & Hk & Hs'). simpl up_machine in *. split; [exact (eq_sym (Nat.add_succ_r n _))|]. split; [done|].
  rewrite <- app_assoc in Hs'. simpl. unfold job_op at 1. simpl. unfold job_slot, job_va. by rewrite Hp, Hdp.
Qed.

Lemma vector_unmap_spec jobs (k : machine K) :
  (forall j, j ∈ jobs -> evicting k j) ->
  wp (vector_unmap jobs) (fun _ k' => m_fifo k' = m_fifo k /\ vars k' = vars k /\
        (forall j, j ∈ jobs -> missing (m_kern k') (job_va k j)) /\ (forall v, missing (m_kern k) v -> missing (m_kern k') v)) k.
Proof.
  revert k. induction jobs as [|j jobs IH]; intros k Hj; simpl; wp_norm; [by split_and!; [..|intros ? ?%elem_of_nil|]|].
  destruct (Hj j ltac:(by left)) as [(pg & Hp & _) _ Hreg]. eapply wp_page_get; [exact Hp|]. wp_norm.
  eapply wp_kern; [apply madvise_law|]. intros ok [kk m] (Hok & _ & Hmiss & Hother & Hreg'). simpl in Hok, Hmiss, Hother, Hreg'.
  assert (Ev : job_va k j = va pg) by (unfold job_va; by rewrite Hp). rewrite Ev in Hreg. specialize (Hok Hreg). subst ok.
  specialize (Hmiss eq_refl Hreg). wp_norm. apply wp_assert; [done|].
  eapply wp_mono; [apply IH|].
  - intros j' Hj'. destruct (Hj j' ltac:(by right)) as [H1 H2 H3]. split; [done|done|]. by apply Hreg'.
  - intros [] k' (Ef & Evs & Hm' & Hkeep). split; [done|]. split; [done|].
    assert (Hkeep' : forall v, missing (m_kern k) v -> missing (m_kern k') v).
    { intros v Hv. apply Hkeep. destruct (decide (v = va pg)) as [->|Hne]; [done|by apply Hother]. }
    split; [|done]. intros j' [->|Hj']%elem_of_cons; [rewrite Ev; by apply Hkeep|]. by apply Hm'.
Qed.

Lemma vector_mark_spec jobs (k : machine K) :
  NoDup (j_page <$> jobs) ->
  (forall j, j ∈ jobs -> exists pg, pages (m_fifo k) !! j_page j = Some pg /\ swapped_out pg = false /\ migrating pg = true) ->
  wp (vector_mark jobs) (fun _ k' => m_kern k' = m_kern k /\ vars k' = vars k /\
        (forall p, p ∉ j_page <$> jobs -> pages (m_fifo k') !! p = pages (m_fifo k) !! p) /\
        (forall j pg, j ∈ jobs -> pages (m_fifo k) !! j_page j = Some pg -> pages (m_fifo k') !! j_page j = Some (set_swapped_out true pg))) k.
Proof.
  revert k. induction jobs as [|j jobs IH]; intros k Hnd Hj; simpl; wp_norm; [by split_and!; [..|intros ? ? ?%elem_of_nil]|].
  destruct (Hj j ltac:(by left)) as (pg & Hp & Hs & Hm). eapply wp_page_get; [exact Hp|]. wp_norm. apply wp_assert; [by rewrite Hs|]. wp_norm.
  eapply wp_page_assign; [exact Hp|]. wp_norm. eapply wp_page_get; [apply lookup_insert_eq|]. wp_norm. apply wp_assert; [done|].
  simpl in Hnd. apply NoDup_cons in Hnd as [Hni Hnd]. eapply wp_mono; [apply IH; [done|]|].
  - intros j' Hj'. simpl. rewrite lookup_insert_ne by (intros E; apply Hni; rewrite E; by apply list_elem_of_fmap_2). apply Hj. by right.
  - intros [] k' (Hk & Hv & Hrest & Hmark). split; [done|]. split; [done|]. simpl in Hrest, Hmark. split.
    + intros p [Hpj Hpr]%not_elem_of_cons. rewrite Hrest by done. by apply lookup_insert_ne.
    + intros j' pg' [->|Hj']%elem_of_cons Hpg'; [rewrite Hrest by done; rewrite lookup_insert_eq; congruence|].
      apply Hmark; [done|]. by rewrite lookup_insert_ne by (intros E; apply Hni; rewrite E; by apply list_elem_of_fmap_2).
Qed.

Lemma vector_submit_spec js (s0 : io_state R) s :
  ready Ring s0 -> collecting s0 (map job_op js) (io_of s) -> (forall i j, i ∈ js -> j ∈ js -> i = j \/ apart i j) ->
  wp (when (0 <? length js)%nat (io (ioring_submit_all_writes;; finish_writes (length js))))
    (fun _ s' => up_machine s' = up_machine s /\ ready Ring (io_of s') /\
       forall j, j ∈ js -> written (the_mem (up_machine s)) (io_data (io_of s')) j) s.
Proof.
  destruct s as [k r rr i ri f]. simpl up_machine. intros Hr Hc Hap. unfold when.
  pose proof (collecting_data _ _ _ Hc) as Ed. simpl in Ed. destruct (Nat.ltb_spec 0 (length js)) as [Hn|Hn].
  2: { assert (js = []) as -> by (destruct js; [done|simpl in Hn; lia]). wp_norm. split; [done|].
       split; [|by intros ? ?%elem_of_nil]. destruct Hc as [[_ E]|Hc]; [by rewrite E|by eapply ready_again]. }
  destruct Hc as [[E _]|Hc]; [destruct js; [simpl in Hn; lia|done]|].
  eapply wp_io; [by eapply submit_and_finish|]. intros [] r' rr' i' ri' y f' (w & Hw & Hw1 & Hj).
  pose proof (ra_data _ _ _ _ _ _ Hw) as Ew. simpl in Ew. subst w. rewrite <- Ed in Hw1, Hj. simpl in Hw1, Hj. subst y.
  rewrite set_the_mem_id. split; [done|]. split; [by eapply ready_again|]. exact Hj.
Qed.

Lemma writes_apart (k : machine K) jobs :
  (forall i j, i ∈ jobs -> j ∈ jobs -> i = j \/ job_slot k i + PAGE_SIZE <= job_slot k j \/ job_slot k j + PAGE_SIZE <= job_slot k i) ->
  forall i j, i ∈ writes k jobs -> j ∈ writes k jobs -> i = j \/ apart i j.
Proof.
  intros Hap i j (ji & -> & Hi)%list_elem_of_fmap (jj & -> & Hj)%list_elem_of_fmap.
  apply list_elem_of_In, filter_In in Hi as [Hi _], Hj as [Hj _]. apply list_elem_of_In in Hi, Hj.
  destruct (Hap _ _ Hi Hj) as [->|Ha]; [by left|]. right. right. simpl. rewrite Z2Nat.id by done. tauto.
Qed.

(** C25: A batch of at most 128 evictions in the io_uring build,
    [extmem_migrate_downdisk_vector]: the writes are prepared, submitted at
    once and reaped, the pages are unmapped and marked.  Whatever the order in
    which the kernel carries the writes out, every page that asked for its
    write-back has its bytes in its slot of the swap file, every page is
    unmapped and every descriptor is marked, and nothing is outstanding.  The
    pages are different and their slots do not overlap. *)
Theorem vector_is_evicted jobs s :
  (forall j, j ∈ jobs -> evicting (up_machine s) j) -> NoDup (j_page <$> jobs) -> Z.of_nat (length jobs) <= QD -> ready Ring (io_of s) ->
  (forall i j, i ∈ jobs -> j ∈ jobs -> i = j \/ job_slot (up_machine s) i + PAGE_SIZE <= job_slot (up_machine s) j \/
     job_slot (up_machine s) j + PAGE_SIZE <= job_slot (up_machine s) i) ->
  wp (extmem_migrate_downdisk_vector jobs)
     (fun _ s' => ready Ring (io_of s') /\ forall j pg, j ∈ jobs -> pages (m_fifo (up_machine s)) !! j_page j = Some pg ->
        (j_writeback j = true -> slot_bytes s' (job_slot (up_machine s) j) = mem_read (the_mem (up_machine s)) (va pg) page_bytes) /\
        missing (m_kern (up_machine s')) (va pg) /\ pages (m_fifo (up_machine s')) !! j_page j = Some (set_swapped_out true pg)) s.
Proof.
  intros Hj Hnd Hlen Hr Hap. unfold extmem_migrate_downdisk_vector. rewrite wp_bind.
  eapply wp_mono; [apply (vector_prepare_spec jobs 0 [] (io_of s) s); [done|done|by left|done]|].
  intros n s1 (-> & Hk1 & Hc1). simpl in Hc1. rewrite wp_bind.
  eapply wp_mono; [apply (vector_submit_spec _ _ _ Hr Hc1); by apply writes_apart|].
  intros [] [k2 r rr i ri f] (Hk2 & Hr2 & Hw2). simpl up_machine in Hk2. rewrite Hk1 in Hk2, Hw2. subst k2. rewrite wp_bind.
  apply wp_core. eapply wp_mono; [by apply vector_unmap_spec|]. intros [] k3 (Hf3 & Hv3 & Hm3 & _).
  apply wp_core. eapply wp_mono; [apply vector_mark_spec; [done|]|].
  - intros j Hin. rewrite Hf3. destruct (Hj j Hin) as [(pg & ? & _ & ? & ?) _ _]. by exists pg.
  - intros [] k4 (Hk4 & Hv4 & _ & Hmark). split.
    { exact Hr2. }
    intros j pg Hin Hp. assert (Ev : job_va (up_machine s) j = va pg) by (unfold job_va; by rewrite Hp). split; [|split].
    + intros Hw. pose proof (Hw2 (write_of (up_machine s) j)) as H. unfold written in H. simpl in H.
      unfold slot_bytes. simpl up_machine. simpl up_files. rewrite Hv4, Hv3, <- Ev. apply H.
      apply list_elem_of_fmap. exists j. split; [done|]. apply list_elem_of_In, filter_In. split; [by apply list_elem_of_In|done].
    + simpl up_machine. rewrite Hk4, <- Ev. by apply Hm3.
    + apply Hmark; [done|]. by rewrite Hf3.
Qed.

End survives.

(** ** Instance *)

(** The process of SwapSpec.v with rings it did not use yet and an empty swap file. *)
Definition uring_machine : uring_process sim_kernel fifo_ring :=
  mk_up (swap_machine marked_mem {[4096]} (one_page resident_page)) new_ring new_ring false false (fun _ => no_file).

Lemma uring_page_survives_witness :
  wp (extmem_migrate_downdisk 1%positive 8192 false true;; core_migrate_up_async_start 1%positive;;
      core_migrate_up_async_finish 1%positive 4096)
    (fun _ s' => nth 4 (mem_read (the_mem (up_machine s')) 4096 page_bytes) Byte.x00 = Byte.x2a) uring_machine.
Proof.
  eapply wp_mono.
  - refine (proj2 (uring_page_survives 1%positive resident_page 8192 4096 uring_machine _ _ _ _ _ _)).
    + change (up_machine uring_machine) with (swap_machine marked_mem {[4096]} (one_page resident_page)).
      split; [done|done|vm_compute; split_and!; congruence|vm_compute; split_and!; congruence|split_and!; done].
    + split; intros poll; by split.
    + done.
    + done.
    + vm_compute. split; congruence.
    + done.
  - intros [] s' (E & _). change (va resident_page) with 4096 in E. rewrite E. by vm_compute.
Defined.

(** Two pages on their way to the slots 0 and 4096. *)
Definition leaving_page (v : Z) : user_page := set_migrating true (set_va v resident_page).
Definition leaving : fifo_state :=
  mk_fifo_state {[1%positive := leaving_page 4096; 2%positive := leaving_page 8192;
                  3%positive := page0; 4%positive := set_virtual_offset 4096 page0]} ∅.
Definition leaving_jobs : list job := [mk_job 1%positive 3%positive true; mk_job 2%positive 4%positive true].
Definition leaving_machine : uring_process sim_kernel fifo_ring :=
  mk_up (swap_machine marked_mem {[4096; 8192]} leaving) new_ring new_ring false false (fun _ => no_file).

Lemma vector_is_evicted_witness :
  wp (extmem_migrate_downdisk_vector leaving_jobs)
    (fun _ s' => nth 4 (slot_bytes s' 0) Byte.x00 = Byte.x2a /\ missing (m_kern (up_machine s')) 8192) leaving_machine.
Proof.
  eapply wp_mono.
  - apply (vector_is_evicted leaving_jobs leaving_machine).
    + intros j Hj. unfold leaving_jobs in Hj. rewrite !elem_of_cons, elem_of_nil in Hj. destruct_or! Hj; subst; (split; [by eexists|by eexists|done]).
    + apply (bool_decide_unpack _). by vm_compute.
    + by vm_compute.
    + intros poll. by split.
    + intros i j Hi Hj. unfold leaving_jobs in Hi, Hj. rewrite !elem_of_cons, elem_of_nil in Hi, Hj.
      destruct_or! Hi; destruct_or! Hj; subst; (by left) || (right; vm_compute; intuition congruence).
  - intros [] s' (_ & H). destruct (H (mk_job 1%positive 3%positive true) (leaving_page 4096) ltac:(by left) eq_refl) as (E & _).
    destruct (H (mk_job 2%positive 4%positive true) (leaving_page 8192) ltac:(by right; left) eq_refl) as (_ & Hm & _).
    split; [|exact Hm]. specialize (E eq_refl). change (job_slot (up_machine leaving_machine) (mk_job 1%positive 3%positive true)) with 0 in E.
    rewrite E. by vm_compute.
Defined.

(** What that does to a page: the byte 4 of its slot is 0x2a and that of the
    prefetch buffer is 0x17, and on the concrete ring the sequential prefetch
    maps the latter; the read is still outstanding when it returns. *)
Definition prefetching_machine : uring_process sim_kernel fifo_ring :=
  mk_up (set_the_mem (fun a => if a =? 1048580 then Byte.x17 else Byte.x00) prefetch_machine) new_ring new_ring false false
    (fun _ a => if a =? 8196 then Byte.x2a else Byte.x00).

Example prefetch_maps_stale_bytes :
  wp (core_try_prefetch (Pol := disklinux (mret tt)) 4096)
    (fun r s' => r = 1 /\ nth 4 (slot_bytes s' 8192) Byte.x00 = Byte.x2a /\
       nth 4 (mem_read (the_mem (up_machine s')) 8192 page_bytes) Byte.x00 = Byte.x17 /\
       bool_decide (8192 ∈ sk_mapped (m_kern (up_machine s'))) = true /\
       fr_flying (up_read_ring s') = [(IoRead 0 1048576 PAGE_SIZE 8192, false)]) prefetching_machine.
Proof. by vm_compute. Qed.
